(** * Client-side behaviours of the ADCD Test & Tag site (main.js)

    The repository ships three copies of [main.js]: [src/js/main.js] and the
    two further copies [src/unnamed/part_000] and [src/unnamed/part_001].
    They share [on], [injectPartial], [initFooterYear] and the boot sequence,
    and differ in [initHeaderBehaviors], [markActiveNav] (absent from
    [src/js/main.js]), [initRevealOnScroll] and [initFloatingLabels] (only in
    [src/js/main.js]).

    The browser is modelled by an explicit [world]: the document tree, the
    subtrees that scripts have detached from it, the expando properties of
    [window], the registered event listeners, the IntersectionObservers, the
    queue of animation-frame callbacks and the console.  Everything the
    scripts only read (scroll position, viewport, location, clock, network,
    HTML parser) is an [env]. *)

From stdpp Require Import base tactics option strings list gmap pretty.
From Stdlib Require Import Ascii String ZArith QArith_base Lia.

Close Scope Q_scope.
Local Open Scope nat_scope.
Local Open Scope string_scope.
Local Open Scope list_scope.

(** ** JavaScript strings *)

Module Js.

(** [s.split(sep)] for a one-character separator: never empty. *)
Fixpoint split (sep : ascii) (s : string) : list string :=
  match s with
  | EmptyString => [EmptyString]
  | String c s' =>
      if Ascii.eqb c sep then EmptyString :: split sep s'
      else match split sep s' with
           | [] => [String c EmptyString]
           | x :: xs => String c x :: xs
           end
  end.

(** [arr.pop()] on a fresh array: its last element, [undefined] when empty. *)
Definition pop (l : list string) : option string := last l.

(** [arr[0]]. *)
Definition first (l : list string) : option string := head l.

(** [x || d] where [x] is a string or [undefined]/[null]: the empty string
    is falsy. *)
Definition or_else (x : option string) (d : string) : string :=
  match x with
  | Some s => if String.eqb s "" then d else s
  | None => d
  end.

(** [String(b)] for a boolean. *)
Definition String_of_bool (b : bool) : string := if b then "true" else "false".

(** Values a property of [window] can hold, as far as truthiness goes. *)
Inductive value :=
| Undefined
| Bool (b : bool)
| Num (z : Z)
| Str (s : string)
| Obj (ref : nat).

Definition truthy (v : value) : bool :=
  match v with
  | Undefined => false
  | Bool b => b
  | Num z => negb (Z.eqb z 0)
  | Str s => negb (String.eqb s "")
  | Obj _ => true
  end.

(** The numbers the scripts compute with: NaN, an infinity, or a double
    whose value is the integer [z] (the zeros are not told apart: both
    print as [0]). *)
Inductive number :=
| NaN
| Infinity (negative : bool)
| Int (z : Z).

(** White space as [parseInt] skips it (StrWhiteSpaceChar), the string
    being the UTF-8 text of the JavaScript string: TAB, LF, VT, FF, CR,
    SP; U+00A0; U+1680, U+2000 to U+200A, U+2028, U+2029, U+202F, U+205F,
    U+3000 and U+FEFF. *)
Definition is_space (c : ascii) : bool :=
  let n := Ascii.nat_of_ascii c in
  Nat.eqb n 32 || (Nat.leb 9 n && Nat.leb n 13).

Definition is_space2 (c1 c2 : ascii) : bool :=
  Nat.eqb (Ascii.nat_of_ascii c1) 194 && Nat.eqb (Ascii.nat_of_ascii c2) 160.

Definition is_space3 (c1 c2 c3 : ascii) : bool :=
  let n1 := Ascii.nat_of_ascii c1 in
  let n2 := Ascii.nat_of_ascii c2 in
  let n3 := Ascii.nat_of_ascii c3 in
  (Nat.eqb n1 225 && Nat.eqb n2 154 && Nat.eqb n3 128)
  || (Nat.eqb n1 226 && Nat.eqb n2 128
      && ((Nat.leb 128 n3 && Nat.leb n3 138) || Nat.eqb n3 168 || Nat.eqb n3 169
          || Nat.eqb n3 175))
  || (Nat.eqb n1 226 && Nat.eqb n2 129 && Nat.eqb n3 159)
  || (Nat.eqb n1 227 && Nat.eqb n2 128 && Nat.eqb n3 128)
  || (Nat.eqb n1 239 && Nat.eqb n2 187 && Nat.eqb n3 191).

Fixpoint skip_space (s : string) : string :=
  match s with
  | String c1 s1 =>
      if is_space c1 then skip_space s1
      else
        match s1 with
        | String c2 s2 =>
            if is_space2 c1 c2 then skip_space s2
            else
              match s2 with
              | String c3 s3 => if is_space3 c1 c2 c3 then skip_space s3 else s
              | EmptyString => s
              end
        | EmptyString => s
        end
  | EmptyString => s
  end.

Definition digit (c : ascii) : option Z :=
  let n := Ascii.nat_of_ascii c in
  if Nat.leb 48 n && Nat.leb n 57 then Some (Z.of_nat (n - 48)) else None.

(** The integer written by the longest run of decimal digits at the
    start of [s]; [None] without a digit. *)
Fixpoint digits (acc : option Z) (s : string) : option Z :=
  match s with
  | String c s' =>
      match digit c with
      | Some d => digits (Some (10 * default 0%Z acc + d)%Z) s'
      | None => acc
      end
  | EmptyString => acc
  end.

(** The double nearest to the integer [z >= 0], ties to the even
    significand: an integer again, or nothing beyond the largest double. *)
Definition round_double (z : Z) : option Z :=
  if (z <? 2 ^ 53)%Z then Some z
  else
    let e := (Z.log2 z - 52)%Z in
    let q := (z / 2 ^ e)%Z in
    let r := (z mod 2 ^ e)%Z in
    let half := (2 ^ (e - 1))%Z in
    let q' := if (half <? r)%Z || ((r =? half)%Z && Z.odd q) then (q + 1)%Z else q in
    let v := (q' * 2 ^ e)%Z in
    if (v <? 2 ^ 1024)%Z then Some v else None.

Definition to_number (negative : bool) (z : Z) : number :=
  match round_double z with
  | Some v => Int (if negative then - v else v)%Z
  | None => Infinity negative
  end.

(** [parseInt(s, 10)]: leading white space, an optional sign, then the
    longest run of decimal digits, read exactly and rounded to a double;
    NaN without a digit.  (Beyond 20 significant digits the standard lets
    an implementation read zeros for the further digits; the engines of
    the browsers read them all, as here.) *)
Definition parseInt10 (s : string) : number :=
  match skip_space s with
  | String "-" s' => from_option (to_number true) NaN (digits None s')
  | String "+" s' => from_option (to_number false) NaN (digits None s')
  | s' => from_option (to_number false) NaN (digits None s')
  end.

(** The digits [String(x)] prints: the integer with the fewest
    significant digits that the double [v] is the nearest double of, the
    nearest to [v] among those (the even one of two): [lo] and [hi] are twice the ends of the interval of the reals
    that round to [v], which belong to it when [closed]; [j] trailing
    zeros are tried first (as many as [v] has digits), then fewer. *)
Fixpoint shortest_from (j : nat) (v lo hi : Z) (closed : bool) : Z :=
  let p := (2 * 10 ^ Z.of_nat j)%Z in
  let m_lo := if closed then ((lo + p - 1) / p)%Z else (lo / p + 1)%Z in
  let m_hi := if closed then (hi / p)%Z else ((hi + p - 1) / p - 1)%Z in
  if (m_lo <=? m_hi)%Z then
    let m0 := (2 * v / p)%Z in
    let a := Z.max m_lo (Z.min m_hi m0) in
    let b := Z.max m_lo (Z.min m_hi (m0 + 1)) in
    let da := Z.abs (a * p - 2 * v) in
    let db := Z.abs (b * p - 2 * v) in
    let m := if (da <? db)%Z then a
             else if (db <? da)%Z then b
             else if Z.even a then a else b in
    (m * 10 ^ Z.of_nat j)%Z
  else
    match j with
    | O => v
    | S j' => shortest_from j' v lo hi closed
    end.

Definition shortest (v : Z) : Z :=
  if (v <? 2 ^ 53)%Z then v
  else
    let e := (Z.log2 v - 52)%Z in
    let q := (v / 2 ^ e)%Z in
    let below := if (q =? 2 ^ 52)%Z then (2 ^ (e - 1))%Z else (2 ^ e)%Z in
    shortest_from (String.length (pretty v)) v (2 * v - below)%Z (2 * v + 2 ^ e)%Z (Z.even q).

(** The digits of [m] without its trailing zeros. *)
Fixpoint strip_zeros (fuel : nat) (m : Z) : Z :=
  match fuel with
  | O => m
  | S fuel' => if (m mod 10 =? 0)%Z && negb (m =? 0)%Z then strip_zeros fuel' (m / 10)%Z else m
  end.

(** [String(x)] for a double [x >= 0] with an integer value: its decimal
    digits below 10^21, the exponent notation from there on. *)
Definition nat_to_string (v : Z) : string :=
  let c := shortest v in
  if (c <? 10 ^ 21)%Z then pretty c
  else
    let n := String.length (pretty c) in
    match pretty (strip_zeros n c) with
    | String d EmptyString => String d ("e+" ++ pretty (n - 1))
    | String d rest => String d ("." ++ rest ++ "e+" ++ pretty (n - 1))
    | EmptyString => ""
    end.

(** [String(n)], as in a template literal. *)
Definition number_to_string (n : number) : string :=
  match n with
  | NaN => "NaN"
  | Infinity negative => if negative then "-Infinity" else "Infinity"
  | Int z => if (z <? 0)%Z then "-" ++ nat_to_string (- z) else nat_to_string z
  end.

(** [`${n}ms`] for the number [n]. *)
Definition ms (n : number) : string := number_to_string n ++ "ms".

(** [x > y] on finite numbers. *)
Definition gt (x y : Q) : bool := negb (Qle_bool x y).

End Js.

(** ** The document tree *)

(** An element: identity, tag name, attributes other than [class] and
    [style], the class list (an ordered set of tokens), the inline style
    declarations and, for form controls, the current [value]. *)
Record edata := mk_edata {
  e_id : nat;
  e_tag : string;
  e_attrs : gmap string string;
  e_classes : list string;
  e_style : gmap string string;
  e_value : string
}.

#[local] Unset Elimination Schemes.
Inductive node :=
| Elem (d : edata) (kids : list node)
| Text (s : string).
#[local] Set Elimination Schemes.

(** [arr.forEach((x, index) => ...)] threading a state. *)
Fixpoint foldi {A St} (f : St -> A -> nat -> St) (i : nat) (l : list A) (s : St) : St :=
  match l with
  | [] => s
  | x :: l' => foldi f (S i) l' (f s x i)
  end.

(** The first [Some] of [f] along a list. *)
Fixpoint first_some {A B} (f : A -> option B) (l : list A) : option B :=
  match l with
  | [] => None
  | x :: l' => match f x with Some y => Some y | None => first_some f l' end
  end.

(** Ids of the elements of a tree, in document order. *)
Fixpoint ids (n : node) : list nat :=
  match n with
  | Elem d ks => e_id d :: flat_map ids ks
  | Text _ => []
  end.

(** The first node, in document order, whose id is [e]. *)
Fixpoint find_node (e : nat) (n : node) : option node :=
  match n with
  | Elem d ks => if decide (e_id d = e) then Some n else first_some (find_node e) ks
  | Text _ => None
  end.

(** The chain of ancestors of [e] inside [n], nearest first. *)
Fixpoint ancestors_in (e : nat) (n : node) : option (list nat) :=
  match n with
  | Elem d ks =>
      if decide (e_id d = e) then Some []
      else (fun anc => anc ++ [e_id d]) <$> first_some (ancestors_in e) ks
  | Text _ => None
  end.

(** Apply [f] to every element of a tree. *)
Fixpoint map_elems (f : edata -> edata) (n : node) : node :=
  match n with
  | Elem d ks => Elem (f d) (map (map_elems f) ks)
  | Text s => Text s
  end.

(** [f] at the element [e] only. *)
Definition at_elem (e : nat) (f : edata -> edata) (d : edata) : edata :=
  if decide (e_id d = e) then f d else d.

(** Give the element [e] the children [new]. *)
Fixpoint set_kids (e : nat) (new : list node) (n : node) : node :=
  match n with
  | Elem d ks => if decide (e_id d = e) then Elem d new else Elem d (map (set_kids e new) ks)
  | Text s => Text s
  end.

(** Replace, in the child lists below [n], the child [e] by [new]. *)
Fixpoint replace_child (e : nat) (new : list node) (n : node) : node :=
  match n with
  | Elem d ks =>
      Elem d (flat_map (fun k =>
                match k with
                | Elem dk _ => if decide (e_id dk = e) then new else [replace_child e new k]
                | Text _ => [k]
                end) ks)
  | Text s => Text s
  end.

(** [node.textContent]: the text of the descendants, concatenated. *)
Fixpoint text_of (n : node) : string :=
  match n with
  | Elem _ ks => String.concat "" (map text_of ks)
  | Text s => s
  end.

(** Renumber the elements of freshly parsed markup from [next] on. *)
Fixpoint relabel (next : nat) (n : node) : node * nat :=
  match n with
  | Elem d ks =>
      let d' := mk_edata next (e_tag d) (e_attrs d) (e_classes d) (e_style d) (e_value d) in
      let r := fold_left (fun acc k => let r := relabel (snd acc) k in (fst acc ++ [fst r], snd r))
                         ks ([], S next) in
      (Elem d' (fst r), snd r)
  | Text s => (Text s, next)
  end.

Definition relabel_all (next : nat) (ns : list node) : list node * nat :=
  fold_left (fun acc k => let r := relabel (snd acc) k in (fst acc ++ [fst r], snd r))
            ns ([], next).

(** ** Selectors

    The scripts only use the selectors below: a tag, a class or an attribute
    presence test, two of them joined by the descendant combinator
    ("footer .js-year") or by a comma ("input, textarea").  Selectors are
    taken in parsed form. *)

Inductive simple :=
| Tag (t : string)
| Class (c : string)
| Attr (a : string).

Inductive selector :=
| Simple (s : simple)
| Descendant (a s : simple)
| Either (s1 s2 : simple).

(** A selector argument as a script passes it, a string: text that is a
    selector (taken in parsed form), or text that is none. *)
Inductive selector_text :=
| Selects (sel : selector)
| NoSelector (text : string).

Definition has_class_data (c : string) (d : edata) : bool :=
  existsb (String.eqb c) (e_classes d).

Definition matches_simple (s : simple) (d : edata) : bool :=
  match s with
  | Tag t => String.eqb (e_tag d) t
  | Class c => has_class_data c d
  | Attr a => bool_decide (is_Some (e_attrs d !! a))
  end.

Definition matches (sel : selector) (anc : list edata) (d : edata) : bool :=
  match sel with
  | Simple s => matches_simple s d
  | Descendant a s => matches_simple s d && existsb (matches_simple a) anc
  | Either s1 s2 => matches_simple s1 d || matches_simple s2 d
  end.

(** The elements of [n] matching [sel], in document order; [anc] are the
    elements above [n], nearest first. *)
Fixpoint select (sel : selector) (anc : list edata) (n : node) : list nat :=
  match n with
  | Elem d ks =>
      (if matches sel anc d then [e_id d] else []) ++ flat_map (select sel (d :: anc)) ks
  | Text _ => []
  end.

(** The first node with id [e], with the elements above it. *)
Fixpoint find_ctx (e : nat) (anc : list edata) (n : node) : option (list edata * node) :=
  match n with
  | Elem d ks =>
      if decide (e_id d = e) then Some (anc, n) else first_some (find_ctx e (d :: anc)) ks
  | Text _ => None
  end.

(** ** Event listeners, observers and the world *)

Inductive target :=
| Window
| Document
| Element (e : nat).

#[global] Instance target_eq_dec : EqDecision target.
Proof. solve_decision. Defined.

(** The function objects that the functions of the scripts register as
    event listeners, with the variables they close over.  The listeners
    for [DOMContentLoaded] that the last lines of each script register
    while the document is loading ([boot], and [initRevealOnScroll] in
    part_001) are not among them: their run at DOM ready is [boot] (and
    [Part001.script]) itself, and no event of that type is dispatched
    here. *)
Inductive closure :=
| OnScroll (header : option nat)               (* src/js/main.js:46 *)
| MenuClick1 (mobileBtn mobileMenu : nat)      (* src/js/main.js:59 *)
| FloatToggle (input label : nat)              (* src/js/main.js:109 *)
| UpdateCondensedState (header : option nat)   (* part_000:46, part_001:46 *)
| MenuClick (mobileBtn mobileMenu : nat)       (* part_000:61, part_001:61 *)
| LinkClick (mobileBtn mobileMenu : nat)       (* part_000:67, part_001:67 *)
| ResizeClose (mobileBtn mobileMenu : nat)     (* part_000:72, part_001:72 *)
| Cleanup (el : nat).                          (* part_001:151, part_001:178 *)

(** The flattened [options] argument of add/removeEventListener. *)
Record options := mk_options {
  capture : bool;
  once : bool;
  passive : bool
}.

Definition flatten (opts : option options) : options :=
  default (mk_options false false false) opts.

Record listener := mk_listener {
  l_target : target;
  l_type : string;
  l_fn : nat;
  l_code : closure;
  l_capture : bool;
  l_once : bool;
  l_passive : bool
}.

(** Callbacks passed to [requestAnimationFrame] (part_001 only). *)
Inductive frame_cb :=
| RevealBatch (toReveal : list nat)                 (* part_001:147 *)
| RevealInView (elements : list nat) (observer : nat). (* part_001:171 *)

Record world := mk_world {
  doc : node;                       (* document.documentElement *)
  detached : list node;             (* subtrees removed from the document *)
  win : gmap string Js.value;       (* properties scripts set on window *)
  listeners : list listener;        (* in registration order *)
  observers : gmap nat (list nat);  (* IntersectionObserver -> its targets *)
  frames : list frame_cb;           (* pending animation-frame callbacks *)
  console : list string;            (* console.error lines *)
  next_ref : nat                    (* next unused object identity *)
}.

(** What the scripts read from the browser at a given moment. *)
Record env := mk_env {
  scrollY : Q;                      (* window.scrollY, in CSS pixels *)
  innerWidth : Z;
  pathname : string;                (* window.location.pathname *)
  reduced_motion : bool;            (* matchMedia("(prefers-reduced-motion: reduce)").matches *)
  full_year : Z;                    (* new Date().getFullYear() *)
  parseHTML : string -> list node;  (* the fragment parser behind outerHTML *)
  near_viewport : nat -> bool       (* rect.top < vh * 0.92 && rect.bottom > 0 *)
}.

Definition with_dom (d : node) (dt : list node) (w : world) : world :=
  mk_world d dt (win w) (listeners w) (observers w) (frames w) (console w) (next_ref w).
Definition with_win (g : gmap string Js.value) (w : world) : world :=
  mk_world (doc w) (detached w) g (listeners w) (observers w) (frames w) (console w) (next_ref w).
Definition with_listeners (ls : list listener) (w : world) : world :=
  mk_world (doc w) (detached w) (win w) ls (observers w) (frames w) (console w) (next_ref w).
Definition with_observers (os : gmap nat (list nat)) (w : world) : world :=
  mk_world (doc w) (detached w) (win w) (listeners w) os (frames w) (console w) (next_ref w).
Definition with_frames (fs : list frame_cb) (w : world) : world :=
  mk_world (doc w) (detached w) (win w) (listeners w) (observers w) fs (console w) (next_ref w).
Definition with_console (c : list string) (w : world) : world :=
  mk_world (doc w) (detached w) (win w) (listeners w) (observers w) (frames w) c (next_ref w).
Definition with_next_ref (n : nat) (w : world) : world :=
  mk_world (doc w) (detached w) (win w) (listeners w) (observers w) (frames w) (console w) n.

(** A new object identity. *)
Definition fresh (w : world) : nat * world := (next_ref w, with_next_ref (S (next_ref w)) w).

(** A JavaScript call either returns or throws; the world it leaves behind
    is kept in both cases. *)
Inductive completion :=
| Return (w : world)
| Throws (err : string) (w : world).

(** ** The DOM interface the scripts use *)

Module Dom.

Definition trees (w : world) : list node := doc w :: detached w.

Definition find_elem (e : nat) (w : world) : option node :=
  first_some (find_node e) (trees w).

Definition data (e : nat) (w : world) : option edata :=
  match find_elem e w with
  | Some (Elem d _) => Some d
  | _ => None
  end.

(** The elements above [e], nearest first; [Some []] for a root. *)
Definition ancestors (e : nat) (w : world) : option (list nat) :=
  first_some (ancestors_in e) (trees w).

Definition update (e : nat) (f : edata -> edata) (w : world) : world :=
  with_dom (map_elems (at_elem e f) (doc w))
           (map (map_elems (at_elem e f)) (detached w)) w.

Definition set_attrs (a : gmap string string) (d : edata) : edata :=
  mk_edata (e_id d) (e_tag d) a (e_classes d) (e_style d) (e_value d).
Definition set_classes (c : list string) (d : edata) : edata :=
  mk_edata (e_id d) (e_tag d) (e_attrs d) c (e_style d) (e_value d).
Definition set_style (s : gmap string string) (d : edata) : edata :=
  mk_edata (e_id d) (e_tag d) (e_attrs d) (e_classes d) s (e_value d).

(** [document.querySelectorAll(sel)], [document.querySelector(sel)]. *)
Definition querySelectorAll (sel : selector) (w : world) : list nat :=
  select sel [] (doc w).

Definition querySelector (sel : selector) (w : world) : option nat :=
  head (querySelectorAll sel w).

(** [el.querySelectorAll(sel)], [el.querySelector(sel)]: descendants only. *)
Definition elem_querySelectorAll (e : nat) (sel : selector) (w : world) : list nat :=
  match first_some (find_ctx e []) (trees w) with
  | Some (anc, Elem d ks) => flat_map (select sel (d :: anc)) ks
  | _ => []
  end.

Definition elem_querySelector (e : nat) (sel : selector) (w : world) : option nat :=
  head (elem_querySelectorAll e sel w).

(** [document.body]: the first body (or frameset) child of the root. *)
Definition body (w : world) : option nat :=
  match doc w with
  | Elem _ ks =>
      first_some (fun k =>
        match k with
        | Elem d _ =>
            if String.eqb (e_tag d) "body" || String.eqb (e_tag d) "frameset"
            then Some (e_id d) else None
        | Text _ => None
        end) ks
  | Text _ => None
  end.

(** [el.getAttribute(name)]; [None] is [null]. *)
Definition getAttribute (e : nat) (name : string) (w : world) : option string :=
  match data e w with
  | Some d => e_attrs d !! name
  | None => None
  end.

Definition setAttribute (e : nat) (name v : string) (w : world) : world :=
  update e (fun d => set_attrs (<[name := v]> (e_attrs d)) d) w.

(** [el.classList]: an ordered set of tokens. *)
Definition add_token (cs : list string) (c : string) : list string :=
  if existsb (String.eqb c) cs then cs else cs ++ [c].

Definition remove_token (cs : list string) (c : string) : list string :=
  List.filter (fun x => negb (String.eqb c x)) cs.

Definition classList_add (e : nat) (tokens : list string) (w : world) : world :=
  update e (fun d => set_classes (fold_left add_token tokens (e_classes d)) d) w.

Definition classList_remove (e : nat) (tokens : list string) (w : world) : world :=
  update e (fun d => set_classes (fold_left remove_token tokens (e_classes d)) d) w.

(** [el.classList.toggle(token, force)]. *)
Definition classList_toggle (e : nat) (token : string) (force : bool) (w : world) : world :=
  if force then classList_add e [token] w else classList_remove e [token] w.

Definition has_class (e : nat) (c : string) (w : world) : bool :=
  match data e w with
  | Some d => has_class_data c d
  | None => false
  end.

(** [el.style.prop = v] and [el.style.setProperty(prop, v)] for a value
    the property accepts; the empty string removes the declaration. *)
Definition style_set (e : nat) (prop v : string) (w : world) : world :=
  update e (fun d => set_style (if String.eqb v "" then delete prop (e_style d)
                                else <[prop := v]> (e_style d)) d) w.

Definition style_get (e : nat) (prop : string) (w : world) : option string :=
  match data e w with
  | Some d => e_style d !! prop
  | None => None
  end.

(** [input.value]. *)
Definition value (e : nat) (w : world) : string :=
  match data e w with
  | Some d => e_value d
  | None => ""
  end.

(** [el.textContent]. *)
Definition textContent (e : nat) (w : world) : option string :=
  text_of <$> find_elem e w.

(** The children [el.textContent = s] gives an element: one text node,
    none when [s] is empty. *)
Definition text_nodes (s : string) : list node :=
  if String.eqb s "" then [] else [Text s].

(** [el.textContent = s]: the children of [el] are detached and replaced
    by the text. *)
Definition set_textContent (e : nat) (s : string) (w : world) : world :=
  match find_elem e w with
  | Some (Elem _ old) =>
      with_dom (set_kids e (text_nodes s) (doc w))
               (map (set_kids e (text_nodes s)) (detached w) ++ old) w
  | _ => w
  end.

(** The replacement done by [el.outerHTML = html] on an element with a
    parent element: the parsed fragment takes the element's place among
    its siblings and the element is detached. *)
Definition replace_with (ev : env) (e : nat) (html : string) (w : world) : world :=
  let frag := relabel_all (next_ref w) (parseHTML ev html) in
  with_next_ref (snd frag)
    (with_dom (replace_child e (fst frag) (doc w))
              (map (replace_child e (fst frag)) (detached w)
                 ++ option_list (find_elem e w)) w).

(** [el.outerHTML = html].  Without a parent nothing happens; when the
    parent is the document (the element is the root) the setter throws;
    otherwise the element is replaced. *)
Definition set_outerHTML (ev : env) (e : nat) (html : string) (w : world) : completion :=
  match ancestors e w with
  | None => Return w
  | Some [] =>
      match ancestors_in e (doc w) with
      | Some [] => Throws "NoModificationAllowedError" w
      | _ => Return w
      end
  | Some (_ :: _) => Return (replace_with ev e html w)
  end.

(** [console.error(msg, err)]. *)
Definition console_error (msg err : string) (w : world) : world :=
  with_console (console w ++ [(msg ++ " " ++ err)%string]) w.

(** *** Event listeners *)

Definition same_listener (t : target) (ty : string) (fn : nat) (cap : bool)
    (l : listener) : bool :=
  bool_decide (l_target l = t) && String.eqb (l_type l) ty
  && Nat.eqb (l_fn l) fn && Bool.eqb (l_capture l) cap.

Fixpoint remove_first (p : listener -> bool) (ls : list listener) : list listener :=
  match ls with
  | [] => []
  | l :: ls' => if p l then ls' else l :: remove_first p ls'
  end.

(** [target.removeEventListener(type, handler, opts)]: the listener with
    the same type, callback and capture flag goes. *)
Definition removeEventListener (t : target) (ty : string) (fn : nat)
    (opts : option options) (w : world) : world :=
  with_listeners
    (remove_first (same_listener t ty fn (capture (flatten opts))) (listeners w)) w.

(** [target.addEventListener(type, handler, opts)]: appended unless a
    listener with the same type, callback and capture flag is there. *)
Definition addEventListener (t : target) (ty : string) (h : nat * closure)
    (opts : option options) (w : world) : world :=
  let o := flatten opts in
  if existsb (same_listener t ty (fst h) (capture o)) (listeners w) then w
  else with_listeners
         (listeners w ++ [mk_listener t ty (fst h) (snd h) (capture o) (once o) (passive o)]) w.

Definition listeners_of (t : target) (w : world) : list listener :=
  List.filter (fun l => bool_decide (l_target l = t)) (listeners w).

(** *** IntersectionObserver and requestAnimationFrame *)

(** [new IntersectionObserver(callback, options)]. *)
Definition new_observer (w : world) : nat * world :=
  let r := fresh w in
  (fst r, with_observers (<[fst r := []]> (observers (snd r))) (snd r)).

Definition observed (o : nat) (w : world) : list nat :=
  default [] (observers w !! o).

Definition observe (o e : nat) (w : world) : world :=
  if existsb (Nat.eqb e) (observed o w) then w
  else with_observers (<[o := observed o w ++ [e]]> (observers w)) w.

Definition unobserve (o e : nat) (w : world) : world :=
  match observers w !! o with
  | Some ts => with_observers (<[o := List.filter (fun x => negb (Nat.eqb e x)) ts]> (observers w)) w
  | None => w
  end.

Definition requestAnimationFrame (cb : frame_cb) (w : world) : world :=
  with_frames (frames w ++ [cb]) w.

End Dom.

(** *** Event dispatch

    [run] gives the body of a function object.  Listeners fire along the
    path from the window down to the target (capture), at the target, and
    back up (bubble); a listener registered with [once] is removed just
    before it runs, and a listener removed meanwhile is skipped. *)

Section Dispatch.

Variable run : nat -> closure -> env -> world -> world.

Definition invoke (ev : env) (l : listener) (w : world) : world :=
  let same := Dom.same_listener (l_target l) (l_type l) (l_fn l) (l_capture l) in
  if existsb same (listeners w)
  then run (l_fn l) (l_code l) ev
         (if l_once l then with_listeners (Dom.remove_first same (listeners w)) w else w)
  else w.

Definition fire (ev : env) (ty : string) (cap : bool) (t : target) (w : world) : world :=
  fold_left (fun w l => invoke ev l w)
    (List.filter (fun l => bool_decide (l_target l = t) && String.eqb (l_type l) ty
                           && Bool.eqb (l_capture l) cap) (listeners w)) w.

(** The targets above [t], nearest first. *)
Definition event_path (t : target) (w : world) : list target :=
  match t with
  | Window => []
  | Document => [Window]
  | Element e =>
      match ancestors_in e (doc w) with
      | Some anc => map Element anc ++ [Document; Window]
      | None => map Element (default [] (Dom.ancestors e w))
      end
  end.

Definition dispatch (ev : env) (ty : string) (bubbles : bool) (t : target)
    (w : world) : world :=
  let path := event_path t w in
  let w1 := fold_left (fun w a => fire ev ty true a w) (rev path) w in
  let w2 := fire ev ty false t (fire ev ty true t w1) in
  if bubbles then fold_left (fun w a => fire ev ty false a w) path w2 else w2.

End Dispatch.

(** ** Promises and the network *)

Inductive settled (A : Type) :=
| Fulfilled (a : A)
| Rejected (err : string).
Arguments Fulfilled {A} a.
Arguments Rejected {A} err.

(** A [Response]: [ok], [status], and what [res.text()] settles to. *)
Record response := mk_response {
  r_ok : bool;
  r_status : nat;
  r_text : settled string
}.

(** What the promise returned by [fetch(url)] settles to. *)
Inductive fetched :=
| NetworkError (err : string)
| Responded (res : response).

Definition fetch_result (f : fetched) : settled response :=
  match f with
  | NetworkError err => Rejected err
  | Responded res => Fulfilled res
  end.

(** [p.then(f)] and [p.catch(f)] on a settled promise; a reaction runs on
    the world of its time and may itself reject (throw). *)
Definition then_ {A B} (p : settled A * world) (f : A -> world -> settled B * world)
    : settled B * world :=
  match fst p with
  | Fulfilled a => f a (snd p)
  | Rejected err => (Rejected err, snd p)
  end.

Definition catch_ {A} (p : settled A * world) (f : string -> world -> settled A * world)
    : settled A * world :=
  match fst p with
  | Fulfilled a => p
  | Rejected err => f err (snd p)
  end.

(** A promise as the caller sees it: already resolved, or waiting for the
    fetch and then settling as [k] says on the world of that moment. *)
Inductive promise (A : Type) :=
| Resolved (a : A)
| Pending (k : env -> fetched -> world -> settled A * world).
Arguments Resolved {A} a.
Arguments Pending {A} k.

(** A callback argument: [None] when it is not a function. *)
Definition callback := option (env -> world -> completion).

(** Work left behind by a synchronous run: a microtask, or a reaction
    waiting for a fetch. *)
Inductive job :=
| Microtask (run : env -> world -> world)
| AwaitFetch (run : env -> fetched -> world -> world).

(** [p.then((x) => f x)] where [f] never throws and its result is dropped. *)
Definition then_do {A} (p : promise A) (f : A -> env -> world -> world) : job :=
  match p with
  | Resolved a => Microtask (f a)
  | Pending k =>
      AwaitFetch (fun ev fo w =>
        let r := k ev fo w in
        match fst r with
        | Fulfilled a => f a ev (snd r)
        | Rejected _ => snd r
        end)
  end.

Definition run_job (j : job) (ev : env) (fo : fetched) (w : world) : world :=
  match j with
  | Microtask run => run ev w
  | AwaitFetch run => run ev fo w
  end.

(** ** Code shared by the three copies *)

Module Shared.

(** [on(target, type, handler, opts)], lines 8-11 of every copy. *)
Definition on (t : target) (ty : string) (handler : nat * closure)
    (opts : option options) (w : world) : world :=
  Dom.addEventListener t ty handler opts
    (Dom.removeEventListener t ty (fst handler) opts w).

(** The chain [fetch(url).then(...).then(...).catch(...)] of lines 21-35,
    run when the fetch settles as [fo], on the world [w'] of that moment. *)
Definition injectPartial_chain (outlet : nat) (url : string) (after : callback)
    (ev : env) (fo : fetched) (w' : world) : settled bool * world :=
  catch_
    (then_
       (then_ (fetch_result fo, w')
          (fun res w =>
             if negb (r_ok res)
             then (Rejected ("HTTP " ++ pretty (r_status res) ++ " for " ++ url)%string, w)
             else (r_text res, w)))
       (fun html w =>
          match Dom.set_outerHTML ev outlet html w with
          | Throws err w1 => (Rejected err, w1)
          | Return w1 =>
              match after with
              | Some f =>
                  match f ev w1 with
                  | Return w2 => (Fulfilled true, w2)
                  | Throws err w2 => (Rejected err, w2)
                  end
              | None => (Fulfilled true, w1)
              end
          end))
    (fun err w =>
       (Fulfilled false,
        Dom.console_error ("Failed to inject " ++ url ++ ":")%string err w)).

(** [injectPartial(outletSel, url, after)], lines 17-36 of every copy,
    for an [outletSel] that is a selector ([src/js/main.js] passes
    [{ cache: "no-cache" }] to [fetch], which only concerns the network). *)
Definition injectPartial (outletSel : selector) (url : string) (after : callback)
    (w : world) : promise bool :=
  match Dom.querySelector outletSel w with
  | None => Resolved false
  | Some outlet => Pending (injectPartial_chain outlet url after)
  end.

(** The call [injectPartial(outletSel, url, after)] for any string
    [outletSel]: on text that is no selector [document.querySelector]
    (line 18) throws a [SyntaxError], and the call throws with it before
    any promise exists; otherwise the call returns the promise above. *)
Definition injectPartial_call (outletSel : selector_text) (url : string) (after : callback)
    (w : world) : string + promise bool :=
  match outletSel with
  | NoSelector text => inl ("SyntaxError: '" ++ text ++ "' is not a valid selector")%string
  | Selects sel => inr (injectPartial sel url after w)
  end.

(** [initFooterYear()]. *)
Definition initFooterYear (ev : env) (w : world) : world :=
  fold_left (fun w span => Dom.set_textContent span (pretty (full_year ev)) w)
    (Dom.querySelectorAll (Simple (Class "js-year")) w) w.

(** [bootInlineFooterIfPresent()]. *)
Definition bootInlineFooterIfPresent (ev : env) (w : world) : world :=
  match Dom.querySelector (Descendant (Tag "footer") (Class "js-year")) w with
  | Some _ => initFooterYear ev w
  | None => w
  end.

(** The two chains of [injectHeaderAndFooter()], parameterised by the
    header callbacks, which differ between the copies. *)
Definition injectHeaderAndFooter (headerAfter : env -> world -> world)
    (bootInlineHeaderIfPresent : env -> world -> world) (w : world) : job * job :=
  (then_do
     (injectPartial (Simple (Attr "data-header-include")) "partials/header.html"
        (Some (fun ev w => Return (headerAfter ev w))) w)
     (fun injected ev w => if negb injected then bootInlineHeaderIfPresent ev w else w),
   then_do
     (injectPartial (Simple (Attr "data-footer")) "partials/footer.html"
        (Some (fun ev w => Return (initFooterYear ev w))) w)
     (fun injected ev w => if negb injected then bootInlineFooterIfPresent ev w else w)).

(** Completion of the two chains left behind by [boot()].  A chain whose
    placeholder was missing is a microtask and runs first, the header one
    before the footer one; two chains that wait for the network finish in
    the order the responses arrive ([header_first]). *)
Definition header_goes_first (h f : job) (header_first : bool) : bool :=
  match h, f with
  | Microtask _, _ => true
  | AwaitFetch _, Microtask _ => false
  | AwaitFetch _, AwaitFetch _ => header_first
  end.

Definition settle (jobs : job * job) (header_first : bool)
    (ev_h : env) (fo_h : fetched) (ev_f : env) (fo_f : fetched) (w : world) : world :=
  if header_goes_first (fst jobs) (snd jobs) header_first
  then run_job (snd jobs) ev_f fo_f (run_job (fst jobs) ev_h fo_h w)
  else run_job (fst jobs) ev_h fo_h (run_job (snd jobs) ev_f fo_f w).

End Shared.

(** An entry handed to an IntersectionObserver callback. *)
Record entry := mk_entry {
  target_of : nat;
  isIntersecting : bool
}.

(** ** src/js/main.js *)

Module MainJs.

Import Shared.

(** [onScroll], lines 46-53. *)
Definition onScroll (header : option nat) (ev : env) (w : world) : world :=
  match header with
  | None => w
  | Some h =>
      if Js.gt (scrollY ev) (6 # 1)%Q
      then Dom.classList_add h ["shadow-elev1"; "backdrop-blur"; "bg-bg/70"] w
      else Dom.classList_remove h ["shadow-elev1"; "backdrop-blur"; "bg-bg/70"] w
  end.

(** The click listener of the mobile button, lines 59-65. *)
Definition menuClick (mobileBtn mobileMenu : nat) (w : world) : world :=
  let open := bool_decide (Dom.getAttribute mobileMenu "data-open" w = Some "true") in
  let w := Dom.setAttribute mobileMenu "data-open" (Js.String_of_bool (negb open)) w in
  let w := Dom.classList_toggle mobileMenu "pointer-events-none" open w in
  let w := Dom.classList_toggle mobileMenu "opacity-0" open w in
  Dom.setAttribute mobileBtn "aria-expanded" (Js.String_of_bool (negb open)) w.

(** [initHeaderBehaviors()], lines 40-67. *)
Definition initHeaderBehaviors (ev : env) (w : world) : world :=
  let header := Dom.querySelector (Simple (Attr "data-header")) w in
  let mobileBtn := Dom.querySelector (Simple (Attr "data-mobile-btn")) w in
  let mobileMenu := Dom.querySelector (Simple (Attr "data-mobile-menu")) w in
  let '(f, w) := fresh w in
  let w := on Window "scroll" (f, OnScroll header) None w in
  let w := onScroll header ev w in
  match mobileBtn, mobileMenu with
  | Some b, Some m =>
      let '(g, w) := fresh w in
      on (Element b) "click" (g, MenuClick1 b m) None w
  | _, _ => w
  end.

(** The IntersectionObserver callback, lines 76-83. *)
Definition observerCallback (observer : nat) (entries : list entry) (w : world) : world :=
  fold_left (fun w e =>
               if isIntersecting e
               then Dom.unobserve observer (target_of e)
                      (Dom.classList_add (target_of e) ["opacity-100"; "translate-y-0"] w)
               else w)
            entries w.

(** [initRevealOnScroll()], lines 71-99. *)
Definition initRevealOnScroll (w : world) : world :=
  if Js.truthy (default Js.Undefined (win w !! "__revealObserver")) then w
  else
    let '(observer, w) := Dom.new_observer w in
    let w :=
      fold_left (fun w el =>
                   Dom.observe observer el
                     (Dom.classList_add el
                        ["opacity-0"; "translate-y-3"; "transition"; "duration-300"] w))
                (Dom.querySelectorAll (Simple (Attr "data-reveal")) w) w in
    with_win (<["__revealObserver" := Js.Obj observer]> (win w)) w.

(** [toggle], lines 109-125. *)
Definition floatToggle (input label : nat) (w : world) : world :=
  if negb (String.eqb (Dom.value input w) "")
  then Dom.classList_add label ["-translate-y-3"; "text-text-muted"; "text-xs"; "opacity-90"] w
  else Dom.classList_remove label ["-translate-y-3"; "text-text-muted"; "text-xs"; "opacity-90"] w.

(** [initFloatingLabels()], lines 103-131. *)
Definition initFloatingLabels (w : world) : world :=
  fold_left (fun w wrap =>
               match Dom.elem_querySelector wrap (Either (Tag "input") (Tag "textarea")) w,
                     Dom.elem_querySelector wrap (Simple (Tag "label")) w with
               | Some input, Some label =>
                   let '(t, w) := fresh w in
                   let w := on (Element input) "input" (t, FloatToggle input label) None w in
                   let w := on (Element input) "blur" (t, FloatToggle input label) None w in
                   floatToggle input label w
               | _, _ => w
               end)
            (Dom.querySelectorAll (Simple (Attr "data-float")) w) w.

(** [bootInlineHeaderIfPresent()], lines 143-148. *)
Definition bootInlineHeaderIfPresent (ev : env) (w : world) : world :=
  match Dom.querySelector (Simple (Attr "data-header")) w with
  | Some _ => initHeaderBehaviors ev w
  | None => w
  end.

(** [boot()], lines 173-177: the synchronous part and the two chains it
    leaves pending. *)
Definition boot (w : world) : world * (job * job) :=
  let jobs := injectHeaderAndFooter initHeaderBehaviors bootInlineHeaderIfPresent w in
  (initFloatingLabels (initRevealOnScroll w), jobs).

(** The boot sequence run to the end. *)
Definition boot_complete (header_first : bool) (ev_h : env) (fo_h : fetched)
    (ev_f : env) (fo_f : fetched) (w : world) : world :=
  let r := boot w in
  settle (snd r) header_first ev_h fo_h ev_f fo_f (fst r).

(** What a function object of this copy does when called. *)
Definition run (fn : nat) (c : closure) (ev : env) (w : world) : world :=
  match c with
  | OnScroll header => onScroll header ev w
  | MenuClick1 b m => menuClick b m w
  | FloatToggle input label => floatToggle input label w
  | _ => w
  end.

Definition click (ev : env) (e : nat) (w : world) : world :=
  dispatch run ev "click" true (Element e) w.

End MainJs.

(** ** src/unnamed/part_000 *)

Module Part000.

Import Shared.

(** [updateCondensedState], lines 46-49. *)
Definition updateCondensedState (header : option nat) (ev : env) (w : world) : world :=
  match header with
  | None => w
  | Some h => Dom.classList_toggle h "is-condensed" (Js.gt (scrollY ev) (8 # 1)%Q) w
  end.

(** [setMenuState], lines 55-59.  Without a [document.body] the last
    statement throws and the listener ends there. *)
Definition setMenuState (mobileBtn mobileMenu : nat) (open : bool) (w : world) : world :=
  let w := Dom.setAttribute mobileMenu "data-open" (Js.String_of_bool open) w in
  let w := Dom.setAttribute mobileBtn "aria-expanded" (Js.String_of_bool open) w in
  match Dom.body w with
  | Some b => Dom.classList_toggle b "nav-open" open w
  | None => w
  end.

(** The click listener of the mobile button, lines 61-64. *)
Definition menuClick (mobileBtn mobileMenu : nat) (w : world) : world :=
  let open := bool_decide (Dom.getAttribute mobileMenu "data-open" w = Some "true") in
  setMenuState mobileBtn mobileMenu (negb open) w.

(** The click listener of a link of the menu, lines 67-69. *)
Definition linkClick (mobileBtn mobileMenu : nat) (w : world) : world :=
  setMenuState mobileBtn mobileMenu false w.

(** The resize listener, lines 72-76. *)
Definition resizeClose (mobileBtn mobileMenu : nat) (ev : env) (w : world) : world :=
  if (768 <=? innerWidth ev)%Z then setMenuState mobileBtn mobileMenu false w else w.

(** [initHeaderBehaviors()], lines 40-78. *)
Definition initHeaderBehaviors (ev : env) (w : world) : world :=
  let header := Dom.querySelector (Simple (Attr "data-header")) w in
  let mobileBtn := Dom.querySelector (Simple (Attr "data-mobile-btn")) w in
  let mobileMenu := Dom.querySelector (Simple (Attr "data-mobile-menu")) w in
  let '(f, w) := fresh w in
  let w := on Window "scroll" (f, UpdateCondensedState header)
              (Some (mk_options false false true)) w in
  let w := updateCondensedState header ev w in
  match mobileBtn, mobileMenu with
  | Some b, Some m =>
      let '(g, w) := fresh w in
      let w := on (Element b) "click" (g, MenuClick b m) None w in
      let w :=
        fold_left (fun w link =>
                     let '(k, w) := fresh w in
                     on (Element link) "click" (k, LinkClick b m) None w)
                  (Dom.elem_querySelectorAll m (Simple (Tag "a")) w) w in
      let '(r, w) := fresh w in
      on Window "resize" (r, ResizeClose b m) None w
  | _, _ => w
  end.

(** The last path segment of the location, [index.html] when empty
    (line 84). *)
Definition current_page (ev : env) : string :=
  Js.or_else (Js.pop (Js.split "/" (pathname ev))) "index.html".

(** The href of a link up to its first [?] (lines 88-89). *)
Definition normalized_href (link : nat) (w : world) : string :=
  let href := Js.or_else (Dom.getAttribute link "href" w) "" in
  default "" (Js.first (Js.split "?" href)).

(** [markActiveNav()], lines 80-97. *)
Definition markActiveNav (ev : env) (w : world) : world :=
  match Dom.querySelector (Simple (Attr "data-header")) w with
  | None => w
  | Some header =>
      let current := current_page ev in
      fold_left (fun w link =>
                   let normalized := normalized_href link w in
                   let isHome :=
                     String.eqb normalized "index.html"
                     && (String.eqb current "" || String.eqb current "index.html") in
                   if String.eqb normalized current || isHome
                   then Dom.classList_add link ["is-active"] w
                   else Dom.classList_remove link ["is-active"] w)
                (Dom.elem_querySelectorAll header (Simple (Class "nav-link")) w) w
  end.

(** The IntersectionObserver callback, lines 117-124. *)
Definition observerCallback (observer : nat) (entries : list entry) (w : world) : world :=
  fold_left (fun w e =>
               if isIntersecting e
               then Dom.unobserve observer (target_of e)
                      (Dom.classList_add (target_of e) ["is-visible"] w)
               else w)
            entries w.

(** The delay of lines 129-130 and 124-126: the attribute when it is a
    non-empty string, else the capped stagger. *)
Definition reveal_delay (el index : nat) (w : world) : Js.number :=
  match Dom.getAttribute el "data-reveal-delay" w with
  | Some a => if String.eqb a "" then Js.Int (Z.min (Z.of_nat index * 70) 280)
              else Js.parseInt10 a
  | None => Js.Int (Z.min (Z.of_nat index * 70) 280)
  end.

(** [initRevealOnScroll()], lines 101-136.  [NaNms] and [Infinityms] are
    no times: the assignment to [transitionDelay] is then dropped and the
    style is left alone. *)
Definition initRevealOnScroll (ev : env) (w : world) : world :=
  if Js.truthy (default Js.Undefined (win w !! "__revealObserver")) then w
  else
    let prefersReducedMotion := reduced_motion ev in
    let elements := Dom.querySelectorAll (Simple (Attr "data-reveal")) w in
    match elements with
    | [] => w
    | _ :: _ =>
        if prefersReducedMotion
        then fold_left (fun w el => Dom.classList_add el ["is-visible"] w) elements w
        else
          let '(observer, w) := Dom.new_observer w in
          let w :=
            foldi (fun w el index =>
                     let w := match reveal_delay el index w with
                              | Js.Int z =>
                                  Dom.style_set el "transition-delay" (Js.ms (Js.Int z)) w
                              | Js.NaN | Js.Infinity _ => w
                              end in
                     Dom.observe observer el w)
                  0 elements w in
          with_win (<["__revealObserver" := Js.Obj observer]> (win w)) w
    end.

(** [bootInlineHeaderIfPresent()], lines 148-154. *)
Definition bootInlineHeaderIfPresent (ev : env) (w : world) : world :=
  match Dom.querySelector (Simple (Attr "data-header")) w with
  | Some _ => markActiveNav ev (initHeaderBehaviors ev w)
  | None => w
  end.

(** The callback given to the header injection, lines 165-168. *)
Definition headerAfter (ev : env) (w : world) : world :=
  markActiveNav ev (initHeaderBehaviors ev w).

(** [boot()], lines 180-183. *)
Definition boot (ev : env) (w : world) : world * (job * job) :=
  let jobs := injectHeaderAndFooter headerAfter bootInlineHeaderIfPresent w in
  (initRevealOnScroll ev w, jobs).

Definition boot_complete (header_first : bool) (ev : env) (ev_h : env) (fo_h : fetched)
    (ev_f : env) (fo_f : fetched) (w : world) : world :=
  let r := boot ev w in
  settle (snd r) header_first ev_h fo_h ev_f fo_f (fst r).

(** What a function object of this copy does when called. *)
Definition run (fn : nat) (c : closure) (ev : env) (w : world) : world :=
  match c with
  | UpdateCondensedState header => updateCondensedState header ev w
  | MenuClick b m => menuClick b m w
  | LinkClick b m => linkClick b m w
  | ResizeClose b m => resizeClose b m ev w
  | _ => w
  end.

Definition click (ev : env) (e : nat) (w : world) : world :=
  dispatch run ev "click" true (Element e) w.

End Part000.

(** ** src/unnamed/part_001

    Lines 1-97 and 196-248 are those of part_000 (lines 1-97, 138-190);
    [initRevealOnScroll] is rewritten and is also started by the script
    itself (lines 188-193). *)

Module Part001.

Import Shared.

Definition initHeaderBehaviors := Part000.initHeaderBehaviors.
Definition markActiveNav := Part000.markActiveNav.
Definition bootInlineHeaderIfPresent := Part000.bootInlineHeaderIfPresent.
Definition headerAfter := Part000.headerAfter.

(** [groups], lines 114-119: a [Map] keeps its keys in insertion order. *)
Fixpoint group_push (g : string) (el : nat) (groups : list (string * list nat))
    : list (string * list nat) :=
  match groups with
  | [] => [(g, [el])]
  | (k, els) :: rest =>
      if String.eqb k g then (k, els ++ [el]) :: rest
      else (k, els) :: group_push g el rest
  end.

Definition reveal_groups (elements : list nat) (w : world) : list (string * list nat) :=
  fold_left (fun groups el =>
               group_push (Js.or_else (Dom.getAttribute el "data-reveal-group" w) "__default__")
                          el groups)
            elements [].

(** [cleanup], lines 151-154 and 178: [fn] is the function itself. *)
Definition cleanup (fn el : nat) (w : world) : world :=
  let w := Dom.style_set el "will-change" "" w in
  Dom.removeEventListener (Element el) "transitionend" fn None w.

(** The body of the loop of lines 148-156. *)
Definition revealOne (w : world) (el : nat) : world :=
  let w := Dom.classList_add el ["is-visible"] w in
  let '(c, w) := fresh w in
  Dom.addEventListener (Element el) "transitionend" (c, Cleanup el)
    (Some (mk_options false true false)) w.

(** The animation-frame callback of lines 147-157. *)
Definition revealBatch (toReveal : list nat) (w : world) : world :=
  fold_left revealOne toReveal w.

(** The loop of lines 136-144: the targets collected in [toReveal] and
    the world. *)
Definition collect (observer : nat) (entries : list entry) (acc : list nat * world)
    : list nat * world :=
  fold_left (fun (acc : list nat * world) e =>
               if isIntersecting e
               then
                 let el := target_of e in
                 let w := Dom.style_set el "will-change" "opacity, transform" (snd acc) in
                 (fst acc ++ [el], Dom.unobserve observer el w)
               else acc)
            entries acc.

(** The IntersectionObserver callback, lines 133-159. *)
Definition observerCallback (observer : nat) (entries : list entry) (w : world) : world :=
  let r := collect observer entries ([], w) in
  match fst r with
  | [] => snd r
  | _ :: _ => Dom.requestAnimationFrame (RevealBatch (fst r)) (snd r)
  end.

(** The animation-frame callback of lines 171-183. *)
Definition revealInView (elements : list nat) (observer : nat) (ev : env) (w : world) : world :=
  fold_left (fun w el =>
               if near_viewport ev el
               then
                 let w := Dom.style_set el "will-change" "opacity, transform" w in
                 let w := Dom.classList_add el ["is-visible"] w in
                 let '(c, w) := fresh w in
                 let w := Dom.addEventListener (Element el) "transitionend" (c, Cleanup el)
                            (Some (mk_options false true false)) w in
                 Dom.unobserve observer el w
               else w)
            elements w.

(** [initRevealOnScroll()], lines 101-186. *)
Definition initRevealOnScroll (ev : env) (w : world) : world :=
  if Js.truthy (default Js.Undefined (win w !! "__revealObserver")) then w
  else
    let elements := Dom.querySelectorAll (Simple (Attr "data-reveal")) w in
    match elements with
    | [] => w
    | _ :: _ =>
        if reduced_motion ev
        then fold_left (fun w el => Dom.classList_add el ["is-visible"] w) elements w
        else
          let groups := reveal_groups elements w in
          let w :=
            fold_left (fun w (g : string * list nat) =>
                         foldi (fun w el index =>
                                  Dom.style_set el "--reveal-delay"
                                    (Js.ms (Part000.reveal_delay el index w)) w)
                               0 (snd g) w)
                      groups w in
          let '(observer, w) := Dom.new_observer w in
          let w := fold_left (fun w el => Dom.observe observer el w) elements w in
          let w := Dom.requestAnimationFrame (RevealInView elements observer) w in
          with_win (<["__revealObserver" := Js.Obj observer]> (win w)) w
    end.

(** One animation frame: the callbacks requested so far run in order;
    those they request wait for the next frame. *)
Definition frame_callback (ev : env) (cb : frame_cb) (w : world) : world :=
  match cb with
  | RevealBatch toReveal => revealBatch toReveal w
  | RevealInView elements observer => revealInView elements observer ev w
  end.

Definition run_frame (ev : env) (w : world) : world :=
  fold_left (fun w cb => frame_callback ev cb w) (frames w) (with_frames [] w).

(** [boot()], lines 238-241. *)
Definition boot (ev : env) (w : world) : world * (job * job) :=
  let jobs := injectHeaderAndFooter headerAfter bootInlineHeaderIfPresent w in
  (initRevealOnScroll ev w, jobs).

(** The script: lines 188-193 start [initRevealOnScroll], lines 243-248
    start [boot], both at once or both on DOMContentLoaded, in this order. *)
Definition script (ev : env) (w : world) : world * (job * job) :=
  boot ev (initRevealOnScroll ev w).

Definition boot_complete (header_first : bool) (ev : env) (ev_h : env) (fo_h : fetched)
    (ev_f : env) (fo_f : fetched) (w : world) : world :=
  let r := script ev w in
  settle (snd r) header_first ev_h fo_h ev_f fo_f (fst r).

(** What a function object of this copy does when called. *)
Definition run (fn : nat) (c : closure) (ev : env) (w : world) : world :=
  match c with
  | Cleanup el => cleanup fn el w
  | _ => Part000.run fn c ev w
  end.

Definition click (ev : env) (e : nat) (w : world) : world :=
  dispatch run ev "click" true (Element e) w.

End Part001.

(** ** How a fetch can fail *)

(** The fetch itself fails, the response is not ok, or its body cannot be
    read. *)
Definition fetch_fails (fo : fetched) : Prop :=
  match fo with
  | NetworkError _ => True
  | Responded res => r_ok res = false \/ exists err, r_text res = Rejected err
  end.

(** The world a call leaves behind. *)
Definition world_of (c : completion) : world :=
  match c with
  | Return w => w
  | Throws _ w => w
  end.

(** ** Sample pages *)

Module Sample.

Definition el (id : nat) (tag : string) (attrs : list (string * string))
    (classes : list string) (kids : list node) : node :=
  Elem (mk_edata id tag (list_to_map attrs) classes empty "") kids.

(** A page with an inline header, a revealed block and a footer
    placeholder. *)
Definition page : node :=
  el 0 "html" [] [] [
    el 1 "body" [] [] [
      el 2 "header" [("data-header", "")] [] [
        el 3 "a" [("href", "index.html")] ["nav-link"] [Text "Home"];
        el 4 "a" [("href", "about.html?from=nav")] ["nav-link"; "is-active"] [Text "About"];
        el 5 "button" [("data-mobile-btn", "")] [] [];
        el 6 "nav" [("data-mobile-menu", "")] [] [el 7 "a" [("href", "contact.html")] [] []]];
      el 8 "section" [("data-reveal", "")] [] [Text "Welcome"];
      el 9 "footer" [("data-footer", "")] []
         [Text "(c) "; el 10 "span" [] ["js-year"] [Text "2019"]]]].

(** The same header with the mobile button written as a link inside the
    mobile menu. *)
Definition page_button_in_menu : node :=
  el 0 "html" [] [] [
    el 1 "body" [] [] [
      el 2 "header" [("data-header", "")] [] [
        el 6 "nav" [("data-mobile-menu", "")] [] [
          el 5 "a" [("data-mobile-btn", ""); ("href", "#")] [] [Text "Menu"];
          el 7 "a" [("href", "contact.html")] [] []]]]].

(** A page just parsed: nothing registered, nothing set on [window]. *)
Definition fresh_page (d : node) (next : nat) : world :=
  mk_world d [] empty [] empty [] [] next.

Definition footer_markup : list node :=
  [el 0 "footer" [] [] [Text "(c) "; el 0 "span" [] ["js-year"] []]].

Definition browser (path : string) (reduced : bool) : env :=
  mk_env (0 # 1)%Q 1280 path reduced 2026 (fun _ => footer_markup) (fun _ => true).

Definition ok_response (body : string) : fetched :=
  Responded (mk_response true 200 (Fulfilled body)).



(** The sample page at DOM ready, at the site root. *)
Definition start : world := fresh_page page 100.
Definition start_button_in_menu : world := fresh_page page_button_in_menu 100.
Definition home : env := browser "/" false.

(** An [after] callback that leaves a mark on the root element and then
    throws. *)
Definition throwing_after : callback :=
  Some (fun _ w => Throws "after failed" (Dom.setAttribute 0 "data-after" "ran" w)).

End Sample.

(** ** Well-formed worlds *)

(** What identifies a registration: target, type, callback and capture. *)
Definition listener_key (l : listener) : target * string * nat * bool :=
  (l_target l, l_type l, l_fn l, l_capture l).

(** The browser never holds two registrations with the same key. *)
Definition listeners_ok (w : world) : Prop :=
  NoDup (map listener_key (listeners w)).

(** ** The reveal mechanism as a transition system *)

(** What the browser does to the reveal mechanism after initialisation:
    it delivers entries to the observer callback, or runs an animation
    frame. *)
Inductive reveal_event :=
| Deliver (observer : nat) (entries : list entry)
| Frame (ev : env).

Definition main_reveal_step (w : world) (x : reveal_event) : world :=
  match x with
  | Deliver o es => MainJs.observerCallback o es w
  | Frame _ => w
  end.

Definition part000_reveal_step (w : world) (x : reveal_event) : world :=
  match x with
  | Deliver o es => Part000.observerCallback o es w
  | Frame _ => w
  end.

Definition part001_reveal_step (w : world) (x : reveal_event) : world :=
  match x with
  | Deliver o es => Part001.observerCallback o es w
  | Frame ev => Part001.run_frame ev w
  end.

(** The browser only reports targets the observer is observing. *)
Definition legal_delivery (o : nat) (es : list entry) (w : world) : Prop :=
  forall x, In x es -> In (target_of x) (Dom.observed o w).

(** [w'] has every element of [w], each with at least the classes it had. *)
Definition grows (w w' : world) : Prop :=
  forall e d, Dom.data e w = Some d ->
    exists d', Dom.data e w' = Some d'
               /\ forall c, has_class_data c d = true -> has_class_data c d' = true.

(** No observer of [w'] observes a target it did not observe in [w]. *)
Definition shrinks (w w' : world) : Prop :=
  forall o x, In x (Dom.observed o w') -> In x (Dom.observed o w).

(** The element is shown, in the classes of each copy. *)
Definition main_visible (e : nat) (w : world) : bool :=
  Dom.has_class e "opacity-100" w && Dom.has_class e "translate-y-0" w.

Definition is_visible (e : nat) (w : world) : bool :=
  Dom.has_class e "is-visible" w.

(** [window.__revealObserver] is set to a truthy value. *)
Definition reveal_initialised (w : world) : bool :=
  Js.truthy (default Js.Undefined (win w !! "__revealObserver")).

(** ** The three copies side by side *)

Inductive copy :=
| MainCopy       (* src/js/main.js *)
| Part000Copy    (* src/unnamed/part_000 *)
| Part001Copy.   (* src/unnamed/part_001 *)

Definition initRevealOnScroll_of (c : copy) (ev : env) (w : world) : world :=
  match c with
  | MainCopy => MainJs.initRevealOnScroll w
  | Part000Copy => Part000.initRevealOnScroll ev w
  | Part001Copy => Part001.initRevealOnScroll ev w
  end.

Definition reveal_step_of (c : copy) (w : world) (x : reveal_event) : world :=
  match c with
  | MainCopy => main_reveal_step w x
  | Part000Copy => part000_reveal_step w x
  | Part001Copy => part001_reveal_step w x
  end.

Definition visible_of (c : copy) (e : nat) (w : world) : bool :=
  match c with
  | MainCopy => main_visible e w
  | Part000Copy | Part001Copy => is_visible e w
  end.


(** part_000 and part_001 show everything at once, without an observer,
    when the user prefers reduced motion. *)
Definition animates (c : copy) (ev : env) : bool :=
  match c with
  | MainCopy => true
  | Part000Copy | Part001Copy => negb (reduced_motion ev)
  end.

(** The world of part_001 after the delays of lines 122-129 are written. *)
Definition part001_delays (els : list nat) (w : world) : world :=
  fold_left (fun w (g : string * list nat) =>
               foldi (fun w el index =>
                        Dom.style_set el "--reveal-delay"
                          (Js.ms (Part000.reveal_delay el index w)) w)
                     0 (snd g) w)
            (Part001.reveal_groups els w) w.

(** An event of a trace concerns the observer [o]. *)
Definition delivers_to (o : nat) (x : reveal_event) : Prop :=
  match x with
  | Deliver o' _ => o' = o
  | Frame _ => True
  end.

(** The invariant of the reveal mechanism for the observer [o] and the
    pending frame callbacks [fs]: a shown element is not observed, the
    elements of a pending batch are not observed, and a pending in-view
    pass works on [o]. *)
Definition reveal_inv_on (c : copy) (o : nat) (fs : list frame_cb) (w : world) : Prop :=
  (forall e, visible_of c e w = true -> ~ In e (Dom.observed o w))
  /\ (forall l e, In (RevealBatch l) fs -> In e l -> ~ In e (Dom.observed o w))
  /\ (forall els o', In (RevealInView els o') fs -> o' = o).

Definition reveal_inv (c : copy) (o : nat) (w : world) : Prop :=
  reveal_inv_on c o (frames w) w.

(** ** The boot sequence of each copy, run to the end *)

Definition boot_complete_of (c : copy) (header_first : bool) (ev ev_h : env)
    (fo_h : fetched) (ev_f : env) (fo_f : fetched) (w : world) : world :=
  match c with
  | MainCopy => MainJs.boot_complete header_first ev_h fo_h ev_f fo_f w
  | Part000Copy => Part000.boot_complete header_first ev ev_h fo_h ev_f fo_f w
  | Part001Copy => Part001.boot_complete header_first ev ev_h fo_h ev_f fo_f w
  end.

(** ** The mobile menu of each copy *)

Definition initHeaderBehaviors_of (c : copy) (ev : env) (w : world) : world :=
  match c with
  | MainCopy => MainJs.initHeaderBehaviors ev w
  | Part000Copy => Part000.initHeaderBehaviors ev w
  | Part001Copy => Part001.initHeaderBehaviors ev w
  end.

(** A click on the element [e]. *)
Definition click_of (c : copy) (ev : env) (e : nat) (w : world) : world :=
  match c with
  | MainCopy => MainJs.click ev e w
  | Part000Copy => Part000.click ev e w
  | Part001Copy => Part001.click ev e w
  end.

(** The click listener of the mobile button. *)
Definition menuClick_of (c : copy) (btn menu : nat) (w : world) : world :=
  match c with
  | MainCopy => MainJs.menuClick btn menu w
  | Part000Copy | Part001Copy => Part000.menuClick btn menu w
  end.

Definition menuClick_code (c : copy) (btn menu : nat) : closure :=
  match c with
  | MainCopy => MenuClick1 btn menu
  | Part000Copy | Part001Copy => MenuClick btn menu
  end.

(** The links of the menu that get a closing click listener (part_000 and
    part_001 only). *)
Definition menu_links (c : copy) (menu : nat) (w : world) : list nat :=
  match c with
  | MainCopy => []
  | Part000Copy | Part001Copy => Dom.elem_querySelectorAll menu (Simple (Tag "a")) w
  end.

(** The menu counts as open when [data-open] is the string [true]. *)
Definition menu_open (menu : nat) (w : world) : bool :=
  bool_decide (Dom.getAttribute menu "data-open" w = Some "true").

(** The click listeners, in registration order. *)
Definition clicks_of (w : world) : list listener :=
  List.filter (fun l => String.eqb (l_type l) "click") (listeners w).

(** A closing listener of one of the [links]. *)
Definition link_listener (btn menu : nat) (links : list nat) (l : listener) : Prop :=
  exists link, In link links /\ l_target l = Element link
               /\ l_code l = LinkClick btn menu /\ l_capture l = false
               /\ l_once l = false.

(** The button and the menu agree. *)
Definition in_sync (btn menu : nat) (w : world) : Prop :=
  Dom.getAttribute btn "aria-expanded" w = Dom.getAttribute menu "data-open" w.

(** The menu is wired: the click listeners are the toggle on the button
    followed by closing listeners on the links; the button and the menu
    exist and the button sits below [anc]. *)
Definition menu_ready (c : copy) (btn menu : nat) (links anc : list nat) (w : world) : Prop :=
  (exists g rest,
     clicks_of w
     = mk_listener (Element btn) "click" g (menuClick_code c btn menu) false false false
         :: rest
     /\ Forall (link_listener btn menu links) rest
     /\ (c = MainCopy -> rest = []))
  /\ ancestors_in btn (doc w) = Some anc
  /\ is_Some (Dom.data btn w) /\ is_Some (Dom.data menu w).

(** The same update [f] at every element of [els]. *)
Definition at_elems (els : list nat) (f : edata -> edata) (d : edata) : edata :=
  if existsb (Nat.eqb (e_id d)) els then f d else d.

(** Updates of attributes and classes leave the listeners, the shape of
    the tree and the existence of elements alone. *)
Definition same_frame (w w' : world) : Prop :=
  listeners w' = listeners w
  /\ (forall e, ancestors_in e (doc w') = ancestors_in e (doc w))
  /\ (forall e, is_Some (Dom.data e w) -> is_Some (Dom.data e w')).

(** The tree keeps its shape and its elements. *)
Definition same_tree (w w' : world) : Prop :=
  (forall e, ancestors_in e (doc w') = ancestors_in e (doc w))
  /\ (forall e, is_Some (Dom.data e w) -> is_Some (Dom.data e w'))
  /\ (forall e t, Dom.elem_querySelectorAll e (Simple (Tag t)) w'
                  = Dom.elem_querySelectorAll e (Simple (Tag t)) w).

(** What a click listener of a wired world runs. *)
Definition click_code_ok (c : copy) (btn menu : nat) (l : listener) : Prop :=
  (l_code l = menuClick_code c btn menu \/ (c <> MainCopy /\ l_code l = LinkClick btn menu))
  /\ l_once l = false.

Definition run_of (c : copy) : nat -> closure -> env -> world -> world :=
  match c with
  | MainCopy => MainJs.run
  | Part000Copy => Part000.run
  | Part001Copy => Part001.run
  end.

(** A sequence of clicks, each on some element. *)
Definition clicks (c : copy) (evs : list (env * nat)) (w : world) : world :=
  fold_left (fun w x => click_of c (fst x) (snd x) w) evs w.

(** Wired, and in sync when [s] holds. *)
Definition wired (s : bool) (c : copy) (btn menu : nat) (links anc : list nat)
    (w : world) : Prop :=
  menu_ready c btn menu links anc w /\ (s = true -> in_sync btn menu w).

(** ** The header chain of the boot sequence *)

Definition headerAfter_of (c : copy) : env -> world -> world :=
  match c with
  | MainCopy => MainJs.initHeaderBehaviors
  | Part000Copy => Part000.headerAfter
  | Part001Copy => Part001.headerAfter
  end.

Definition bootInlineHeaderIfPresent_of (c : copy) : env -> world -> world :=
  match c with
  | MainCopy => MainJs.bootInlineHeaderIfPresent
  | Part000Copy => Part000.bootInlineHeaderIfPresent
  | Part001Copy => Part001.bootInlineHeaderIfPresent
  end.

(** The first chain started by [injectHeaderAndFooter()] on the world
    [w0]: header injection, or the inline fallback. *)
Definition header_chain (c : copy) (w0 : world) : job :=
  fst (Shared.injectHeaderAndFooter (headerAfter_of c) (bootInlineHeaderIfPresent_of c) w0).


(** The test of lines 90-91. *)
Definition is_current (cur : string) (link : nat) (w : world) : bool :=
  String.eqb (Part000.normalized_href link w) cur
  || (String.eqb (Part000.normalized_href link w) "index.html"
      && (String.eqb cur "" || String.eqb cur "index.html")).

(** The loop of lines 87-96. *)
Definition mark_links (cur : string) (links : list nat) (w : world) : world :=
  fold_left (fun w link =>
               if is_current cur link w
               then Dom.classList_add link ["is-active"] w
               else Dom.classList_remove link ["is-active"] w)
            links w.

(** What marking a link leaves alone. *)
Definition mark_frame (w w' : world) : Prop :=
  Dom.querySelector (Simple (Attr "data-header")) w'
  = Dom.querySelector (Simple (Attr "data-header")) w
  /\ (forall e, Dom.elem_querySelectorAll e (Simple (Class "nav-link")) w'
                = Dom.elem_querySelectorAll e (Simple (Class "nav-link")) w)
  /\ (forall e n, Dom.getAttribute e n w' = Dom.getAttribute e n w)
  /\ (forall e, is_Some (Dom.data e w) -> is_Some (Dom.data e w')).

(** ** Elements as subtrees *)

(** The element subtrees of a tree, in document order. *)
Fixpoint nodes (n : node) : list node :=
  match n with
  | Elem d ks => n :: flat_map nodes ks
  | Text _ => []
  end.

(** The id at the root of a subtree. *)
Definition nid (n : node) : nat :=
  match n with
  | Elem d _ => e_id d
  | Text _ => 0
  end.

Definition all_nodes (w : world) : list node := flat_map nodes (Dom.trees w).
Definition all_ids (w : world) : list nat := flat_map ids (Dom.trees w).

(** Every element, attached or not, has its own identity. *)
Definition unique_ids (w : world) : Prop := NoDup (all_ids w).

(** The subtrees after [set_kids], together with the detached children,
    are the updated subtrees of before. *)
Definition moves_kids (e : nat) (new : list node) (t : node) : Prop :=
  forall d old,
    NoDup (ids t) -> find_node e t = Some (Elem d old) ->
    Permutation (nodes (set_kids e new t) ++ flat_map nodes old)
                (map (set_kids e new) (nodes t)).

(** ** Further definitions *)

(** ** Events the browser sends to the window *)

(** A scroll or a resize of the window: the event is dispatched at
    [window] and does not bubble. *)
Definition scroll_of (c : copy) (ev : env) (w : world) : world :=
  dispatch (run_of c) ev "scroll" false Window w.

Definition scrolls (c : copy) (evs : list env) (w : world) : world :=
  fold_left (fun w ev => scroll_of c ev w) evs w.

Definition resize_of (c : copy) (ev : env) (w : world) : world :=
  dispatch (run_of c) ev "resize" false Window w.

(** The listeners of one event type, in registration order. *)
Definition typed (ty : string) (w : world) : list listener :=
  List.filter (fun l => String.eqb (l_type l) ty) (listeners w).

(** ** The structure of the document *)

(** An element without what scripts and users write on it: identity and
    tag remain. *)
Definition bare (d : edata) : edata :=
  mk_edata (e_id d) (e_tag d) empty [] empty "".

(** The skeleton of a tree: elements, tags, nesting and text. *)
Definition shape (n : node) : node := map_elems bare n.

(** Two worlds with the same trees up to attributes, classes, styles and
    values. *)
Definition same_shape (w w' : world) : Prop :=
  map shape (Dom.trees w') = map shape (Dom.trees w).

(** ** The closed menu (part_000, part_001) *)

(** Both attributes say [false] and the body, if there is one, has no
    [nav-open]. *)
Definition menu_closed (btn menu : nat) (w : world) : Prop :=
  Dom.getAttribute menu "data-open" w = Some "false"
  /\ Dom.getAttribute btn "aria-expanded" w = Some "false"
  /\ forall b, Dom.body w = Some b -> Dom.has_class b "nav-open" w = false.

(** ** The groups of the reveal (part_001) *)

(** The group an element belongs to (part_001, line 116). *)
Definition reveal_group (el : nat) (w : world) : string :=
  Js.or_else (Dom.getAttribute el "data-reveal-group" w) "__default__".

(** What [groups] must be once the elements [done] have been pushed:
    distinct keys, each with the elements of its group in order, and a key
    for every element. *)
Definition groups_of (w : world) (done : list nat) (gs : list (string * list nat)) : Prop :=
  NoDup (map fst gs)
  /\ (forall k gels, In (k, gels) gs ->
        gels <> [] /\ gels = List.filter (fun el => String.eqb (reveal_group el w) k) done)
  /\ (forall el, In el done -> In (reveal_group el w) (map fst gs)).

(** ** The footer chain of the boot sequence *)

(** The second chain started by [injectHeaderAndFooter()] on the world
    [w0]: footer injection, or the inline fallback. *)
Definition footer_chain (c : copy) (w0 : world) : job :=
  snd (Shared.injectHeaderAndFooter (headerAfter_of c) (bootInlineHeaderIfPresent_of c) w0).

(** The loop of lines 122-129 of part_001 for a step [F]: the groups in
    order, each counted from zero. *)
Definition staggered (F : world -> nat -> nat -> world) (gs : list (string * list nat))
    (w : world) : world :=
  fold_left (fun w (g : string * list nat) => foldi F 0 (snd g) w) gs w.

(** The body of the loop of lines 172-182 of part_001. *)
Definition inViewOne (observer : nat) (ev : env) (w : world) (el : nat) : world :=
  if near_viewport ev el
  then
    let w := Dom.style_set el "will-change" "opacity, transform" w in
    let w := Dom.classList_add el ["is-visible"] w in
    let '(c, w) := fresh w in
    let w := Dom.addEventListener (Element el) "transitionend" (c, Cleanup el)
               (Some (mk_options false true false)) w in
    Dom.unobserve observer el w
  else w.

(** ** Floating labels *)

(** The classes of a floated label, [src/js/main.js], lines 111-114. *)
Definition float_classes : list string :=
  ["-translate-y-3"; "text-text-muted"; "text-xs"; "opacity-90"].

(** The input and the label [initFloatingLabels] finds in [wrap] (lines
    104-106), when both are there. *)
Definition float_pair (wrap : nat) (w : world) : option (nat * nat) :=
  match Dom.elem_querySelector wrap (Either (Tag "input") (Tag "textarea")) w,
        Dom.elem_querySelector wrap (Simple (Tag "label")) w with
  | Some input, Some label => Some (input, label)
  | _, _ => None
  end.

(** The body of the loop of [initFloatingLabels], lines 104-129. *)
Definition floatWrap (w : world) (wrap : nat) : world :=
  match Dom.elem_querySelector wrap (Either (Tag "input") (Tag "textarea")) w,
        Dom.elem_querySelector wrap (Simple (Tag "label")) w with
  | Some input, Some label =>
      let '(t, w) := fresh w in
      let w := Shared.on (Element input) "input" (t, FloatToggle input label) None w in
      let w := Shared.on (Element input) "blur" (t, FloatToggle input label) None w in
      MainJs.floatToggle input label w
  | _, _ => w
  end.

(** [w'] has the inputs, the labels and the field values of [w]. *)
Definition same_fields (w w' : world) : Prop :=
  (forall x, float_pair x w' = float_pair x w)
  /\ (forall x, Dom.value x w' = Dom.value x w)
  /\ (forall x, is_Some (Dom.data x w) -> is_Some (Dom.data x w')).

(** A listener that [initFloatingLabels] registers on the page [w]:
    the toggle of a [data-float] wrapper, on its input. *)
Definition float_listener (w : world) (l : listener) : Prop :=
  l_once l = false /\ l_capture l = false
  /\ exists wrap input label,
       In wrap (Dom.querySelectorAll (Simple (Attr "data-float")) w)
       /\ float_pair wrap w = Some (input, label)
       /\ l_target l = Element input
       /\ l_code l = FloatToggle input label.

(** What an [input] or [blur] event leaves as it was in [w1]: the
    listeners (those of [w0]), the label, the values of the fields. *)
Definition float_kept (w0 w1 : world) (label : nat) (wj : world) : Prop :=
  listeners wj = listeners w0 /\ is_Some (Dom.data label wj)
  /\ forall x, Dom.value x wj = Dom.value x w1.

(** The label is floated exactly when the input has a value in [w1]. *)
Definition float_shown (w1 : world) (input label : nat) (cls : string) (wj : world) : Prop :=
  Dom.has_class label cls wj = negb (String.eqb (Dom.value input w1) "").

(** A form with two fields, the first one filled in. *)
Definition form_page : node :=
  Sample.el 0 "html" [] [] [
    Sample.el 1 "body" [] [] [
      Sample.el 2 "div" [("data-float", "")] [] [
        Elem (mk_edata 3 "input" empty [] empty "Ada") [];
        Sample.el 4 "label" [] [] [Text "Name"]];
      Sample.el 5 "div" [("data-float", "")] [] [
        Sample.el 6 "textarea" [] [] [];
        Sample.el 7 "label" [] ["text-xs"] [Text "Message"]]]].

Definition form_start : world := Sample.fresh_page form_page 100.

(** ** The listeners of the reveal transitions *)

(** A listener as lines 151-155 and 178-179 of part_001 register it: the
    [cleanup] of its own target, with [{ once: true }]. *)
Definition cleanup_listener (l : listener) : Prop :=
  l_once l = true /\ l_capture l = false
  /\ exists el, l_target l = Element el /\ l_code l = Cleanup el.

(** The [transitionend] listeners are such listeners, one per element at
    most. *)
Definition cleanups_ok (w : world) : Prop :=
  Forall cleanup_listener (typed "transitionend" w)
  /\ NoDup (map l_target (typed "transitionend" w)).

(** The element waits for the end of its transition. *)
Definition awaits_transition (el : nat) (w : world) : Prop :=
  exists l, In l (typed "transitionend" w) /\ l_target l = Element el.

(** The sample browser scrolled down by [y] pixels, in a window [width]
    pixels wide. *)
Definition scrolled (y : Q) (width : Z) : env :=
  mk_env y width "/" false 2026 (fun _ => Sample.footer_markup) (fun _ => true).

(** ** Pages with delays of their own *)

(** U+00A0, the no-break space, in UTF-8. *)
Definition nbsp : string := String "194" (String "160" "").

(** A page whose revealed blocks ask for delays; three of them form a
    group. *)
Definition page_delays : node :=
  Sample.el 0 "html" [] [] [
    Sample.el 1 "body" [] [] [
      Sample.el 2 "section" [("data-reveal", ""); ("data-reveal-delay", "150")] [] [];
      Sample.el 3 "section"
        [("data-reveal", ""); ("data-reveal-group", "cards");
         ("data-reveal-delay", "9007199254740993")] [] [];
      Sample.el 4 "section"
        [("data-reveal", ""); ("data-reveal-group", "cards");
         ("data-reveal-delay", (nbsp ++ "25")%string)] [] [];
      Sample.el 5 "section"
        [("data-reveal", ""); ("data-reveal-group", "cards");
         ("data-reveal-delay", "soon")] [] [];
      Sample.el 6 "section"
        [("data-reveal", ""); ("data-reveal-delay", "1000000000000000000000")] [] [];
      Sample.el 7 "section" [("data-reveal", ""); ("data-reveal-delay", "")] [] [];
      Sample.el 8 "section" [("data-reveal", "")] [] []]].

Definition start_delays : world := Sample.fresh_page page_delays 100.

(** ** What a script leaves of the page *)

(** The elements of a tree, in document order. *)
Fixpoint elems (n : node) : list edata :=
  match n with
  | Elem d ks => d :: flat_map elems ks
  | Text _ => []
  end.

(** The elements of the document and of the detached subtrees. *)
Definition all_elems (w : world) : list edata := flat_map elems (Dom.trees w).

(** [d'] is the element [d] up to its classes and styles: the same
    identity, tag, attributes and value. *)
Definition same_element (d d' : edata) : Prop :=
  e_id d' = e_id d /\ e_tag d' = e_tag d /\ e_attrs d' = e_attrs d
  /\ e_value d' = e_value d.

(** From [w] to [w'] only classes, styles and children were written:
    every element of [w'] is an element of [w] up to classes and styles,
    or was made since (its identity was unused in [w]); and the console
    has only gained lines. *)
Definition presentation_only (w w' : world) : Prop :=
  next_ref w <= next_ref w'
  /\ (forall d', In d' (all_elems w') ->
        next_ref w <= e_id d' \/ exists d, In d (all_elems w) /\ same_element d d')
  /\ exists lines, console w' = console w ++ lines.

(** ** Further sample pages *)

(** A footer partial that brings a block to reveal. *)
Definition reveal_footer : env :=
  mk_env (0 # 1)%Q 1280 "/" false 2026
    (fun _ => [Sample.el 0 "footer" [] []
                 [Sample.el 0 "section" [("data-reveal", "")] [] [Text "Contact"]]])
    (fun _ => true).

(** The mobile button with an icon inside it. *)
Definition page_icon_in_button : node :=
  Sample.el 0 "html" [] [] [
    Sample.el 1 "body" [] [] [
      Sample.el 2 "header" [("data-header", "")] [] [
        Sample.el 5 "button" [("data-mobile-btn", "")] []
          [Sample.el 11 "span" [] ["icon"] [Text "Menu"]];
        Sample.el 6 "nav" [("data-mobile-menu", "")] []
          [Sample.el 7 "a" [("href", "contact.html")] [] []]]]].

Definition start_icon_in_button : world := Sample.fresh_page page_icon_in_button 100.

(** The mobile button inside the mobile menu, with a link inside the
    button. *)
Definition page_link_in_button : node :=
  Sample.el 0 "html" [] [] [
    Sample.el 1 "body" [] [] [
      Sample.el 2 "header" [("data-header", "")] [] [
        Sample.el 6 "nav" [("data-mobile-menu", "")] [] [
          Sample.el 5 "button" [("data-mobile-btn", "")] []
            [Sample.el 7 "a" [("href", "#")] [] [Text "Menu"]]]]]].

Definition start_link_in_button : world := Sample.fresh_page page_link_in_button 100.

(** * Properties *)

(** ** Trees *)

(** Induction over trees, with the children covered by [Forall]. *)
Lemma node_ind (P : node -> Prop) :
  (forall d ks, Forall P ks -> P (Elem d ks)) ->
  (forall s, P (Text s)) ->
  forall n, P n.
Proof.
  intros HE HT. fix IH 1. intros [d ks|s]; [|apply HT].
  apply HE. induction ks as [|k ks IHks]; constructor; [apply IH|apply IHks].
Qed.

(** ** Lists *)

Lemma first_some_ext {A B} (f g : A -> option B) (l : list A) :
  Forall (fun x => f x = g x) l -> first_some f l = first_some g l.
Proof.
  induction 1 as [|x l Hx _ IH]; simpl; [reflexivity|].
  rewrite Hx, IH. reflexivity.
Qed.

Lemma first_some_map {A B C} (f : B -> option C) (g : A -> B) (l : list A) :
  first_some f (map g l) = first_some (fun x => f (g x)) l.
Proof.
  induction l as [|x l IH]; simpl; [reflexivity|]. rewrite IH. reflexivity.
Qed.

Lemma first_some_fmap {A B C} (f : A -> option B) (h : B -> C) (l : list A) :
  first_some (fun x => h <$> f x) l = h <$> first_some f l.
Proof.
  induction l as [|x l IH]; simpl; [reflexivity|].
  destruct (f x); simpl; [reflexivity|apply IH].
Qed.

Lemma first_some_app {A B} (f : A -> option B) (l1 l2 : list A) :
  first_some f (l1 ++ l2)
  = match first_some f l1 with Some y => Some y | None => first_some f l2 end.
Proof.
  induction l1 as [|x l1 IH]; simpl; [reflexivity|].
  destruct (f x); [reflexivity|apply IH].
Qed.

Lemma first_some_In {A B} (f : A -> option B) (l : list A) (y : B) :
  first_some f l = Some y -> exists x, In x l /\ f x = Some y.
Proof.
  induction l as [|x l IH]; simpl; [discriminate|].
  destruct (f x) eqn:E.
  - intros [= <-]. exists x. auto.
  - intros H. destruct (IH H) as (x' & Hin & Hx'). exists x'. auto.
Qed.

Lemma first_some_None {A B} (f : A -> option B) (l : list A) :
  first_some f l = None <-> Forall (fun x => f x = None) l.
Proof.
  induction l as [|x l IH]; simpl.
  - split; [constructor|reflexivity].
  - destruct (f x) eqn:E.
    + split; [discriminate|]. intros H. inversion H; congruence.
    + rewrite IH. split; [intros H; constructor; assumption|intros H; inversion H; assumption].
Qed.

Lemma fold_left_preserves {A X} (proj : world -> X) (f : world -> A -> world)
    (l : list A) (w : world) :
  (forall w a, proj (f w a) = proj w) -> proj (fold_left f l w) = proj w.
Proof.
  intros H. revert w. induction l as [|a l IH]; intros w; simpl; [reflexivity|].
  rewrite IH. apply H.
Qed.

Lemma foldi_preserves {A X} (proj : world -> X) (f : world -> A -> nat -> world)
    (l : list A) (i : nat) (w : world) :
  (forall w a i, proj (f w a i) = proj w) -> proj (foldi f i l w) = proj w.
Proof.
  intros H. revert i w. induction l as [|a l IH]; intros i w; simpl; [reflexivity|].
  rewrite IH. apply H.
Qed.

Lemma fold_left_invariant {A} (P : world -> Prop) (f : world -> A -> world)
    (l : list A) (w : world) :
  (forall w a, P w -> P (f w a)) -> P w -> P (fold_left f l w).
Proof.
  intros H. revert w. induction l as [|a l IH]; intros w Hw; simpl; [assumption|].
  apply IH, H, Hw.
Qed.

(** ** Updates that keep the identity of the elements *)

Section MapElems.

Variable f : edata -> edata.
Hypothesis f_id : forall d, e_id (f d) = e_id d.

Lemma ids_map_elems (n : node) : ids (map_elems f n) = ids n.
Proof.
  induction n as [d ks IH|s] using node_ind; simpl; [|reflexivity].
  rewrite f_id. f_equal.
  induction IH as [|k ks Hk _ IHks]; simpl; [reflexivity|].
  rewrite Hk, IHks. reflexivity.
Qed.

Lemma find_node_map_elems (e : nat) (n : node) :
  find_node e (map_elems f n) = map_elems f <$> find_node e n.
Proof.
  induction n as [d ks IH|s] using node_ind; simpl; [|reflexivity].
  rewrite f_id. destruct (decide (e_id d = e)); [reflexivity|].
  rewrite first_some_map.
  rewrite (first_some_ext _ (fun k => map_elems f <$> find_node e k)) by exact IH.
  apply first_some_fmap.
Qed.

Lemma ancestors_in_map_elems (e : nat) (n : node) :
  ancestors_in e (map_elems f n) = ancestors_in e n.
Proof.
  induction n as [d ks IH|s] using node_ind; simpl; [|reflexivity].
  rewrite f_id. destruct (decide (e_id d = e)); [reflexivity|].
  rewrite first_some_map.
  rewrite (first_some_ext _ (ancestors_in e)) by exact IH.
  reflexivity.
Qed.

Lemma find_ctx_map_elems (e : nat) (n : node) (anc : list edata) :
  find_ctx e (map f anc) (map_elems f n)
  = (fun r => (map f (fst r), map_elems f (snd r))) <$> find_ctx e anc n.
Proof.
  revert anc. induction n as [d ks IH|s] using node_ind; intros anc; simpl; [|reflexivity].
  rewrite f_id. destruct (decide (e_id d = e)); [reflexivity|].
  rewrite first_some_map.
  rewrite (first_some_ext _
    (fun k => (fun r => (map f (fst r), map_elems f (snd r))) <$> find_ctx e (d :: anc) k)).
  - apply first_some_fmap.
  - eapply Forall_impl; [exact IH|]. intros k Hk. apply (Hk (d :: anc)).
Qed.

Lemma select_map_elems (sel : selector) (n : node) (anc : list edata) :
  (forall anc d, matches sel (map f anc) (f d) = matches sel anc d) ->
  select sel (map f anc) (map_elems f n) = select sel anc n.
Proof.
  intros Hm. revert anc.
  induction n as [d ks IH|s] using node_ind; intros anc; simpl; [|reflexivity].
  rewrite Hm, f_id. f_equal.
  induction IH as [|k ks Hk _ IHks]; simpl; [reflexivity|].
  rewrite IHks. f_equal. apply (Hk (d :: anc)).
Qed.

End MapElems.

Lemma at_elem_id (e : nat) (f : edata -> edata) :
  (forall d, e_id (f d) = e_id d) -> forall d, e_id (at_elem e f d) = e_id d.
Proof. intros Hf d. unfold at_elem. destruct (decide (e_id d = e)); auto. Qed.

Lemma first_some_trees_fmap (f : edata -> edata) (e : nat) (ts : list node) :
  (forall d, e_id (f d) = e_id d) ->
  first_some (find_node e) (map (map_elems f) ts)
  = map_elems f <$> first_some (find_node e) ts.
Proof.
  intros Hf. rewrite first_some_map.
  rewrite (first_some_ext _ (fun k => map_elems f <$> find_node e k)).
  - apply first_some_fmap.
  - apply Forall_forall. intros k _. apply find_node_map_elems, Hf.
Qed.

(** Reading an element after an update of (possibly) another one. *)
Lemma data_update (e e' : nat) (f : edata -> edata) (w : world) :
  (forall d, e_id (f d) = e_id d) ->
  Dom.data e (Dom.update e' f w) = at_elem e' f <$> Dom.data e w.
Proof.
  intros Hf. unfold Dom.data, Dom.find_elem, Dom.update, Dom.trees. simpl doc. simpl detached.
  change (map_elems (at_elem e' f) (doc w) :: map (map_elems (at_elem e' f)) (detached w))
    with (map (map_elems (at_elem e' f)) (doc w :: detached w)).
  rewrite first_some_trees_fmap by (apply at_elem_id, Hf).
  destruct (first_some (find_node e) (doc w :: detached w)) as [[d ks|s]|]; reflexivity.
Qed.

Lemma find_node_id (e : nat) (n r : node) :
  find_node e n = Some r -> exists d ks, r = Elem d ks /\ e_id d = e.
Proof.
  revert r. induction n as [d ks IH|s] using node_ind; intros r; simpl; [|discriminate].
  destruct (decide (e_id d = e)).
  - intros [= <-]. eauto.
  - intros H. apply first_some_In in H as (k & Hin & Hk).
    rewrite Forall_forall in IH. eapply IH; [|exact Hk].
    apply list_elem_of_In, Hin.
Qed.

Lemma data_id (e : nat) (w : world) (d : edata) :
  Dom.data e w = Some d -> e_id d = e.
Proof.
  unfold Dom.data, Dom.find_elem. intros H.
  destruct (first_some (find_node e) (Dom.trees w)) as [[d' ks|s]|] eqn:E; try discriminate.
  injection H as <-. apply first_some_In in E as (t & _ & Ht).
  apply find_node_id in Ht as (d2 & ks2 & [= -> ->] & Hid). exact Hid.
Qed.

Lemma data_update_same (e : nat) (f : edata -> edata) (w : world) (d : edata) :
  (forall d, e_id (f d) = e_id d) ->
  Dom.data e w = Some d -> Dom.data e (Dom.update e f w) = Some (f d).
Proof.
  intros Hf H. rewrite data_update, H by exact Hf. simpl.
  unfold at_elem. rewrite (data_id _ _ _ H).
  destruct (decide (e = e)); congruence.
Qed.

Lemma data_update_other (e e' : nat) (f : edata -> edata) (w : world) :
  (forall d, e_id (f d) = e_id d) ->
  e <> e' -> Dom.data e (Dom.update e' f w) = Dom.data e w.
Proof.
  intros Hf Hne. rewrite data_update by exact Hf.
  destruct (Dom.data e w) as [d|] eqn:H; [|reflexivity]. simpl.
  unfold at_elem. rewrite (data_id _ _ _ H).
  destruct (decide (e = e')); congruence.
Qed.

Lemma data_update_is_Some (e e' : nat) (f : edata -> edata) (w : world) :
  (forall d, e_id (f d) = e_id d) ->
  is_Some (Dom.data e w) -> is_Some (Dom.data e (Dom.update e' f w)).
Proof.
  intros Hf [d H]. rewrite data_update, H by exact Hf. simpl. eauto.
Qed.

(** ** Attributes *)

Lemma getAttribute_setAttribute (e : nat) (name v : string) (w : world) :
  is_Some (Dom.data e w) ->
  Dom.getAttribute e name (Dom.setAttribute e name v w) = Some v.
Proof.
  intros [d H]. unfold Dom.getAttribute, Dom.setAttribute.
  erewrite data_update_same; [|reflexivity|exact H]. simpl. apply lookup_insert_eq.
Qed.

Lemma getAttribute_setAttribute_ne (e e' : nat) (name name' v : string) (w : world) :
  e <> e' \/ name <> name' ->
  Dom.getAttribute e name (Dom.setAttribute e' name' v w) = Dom.getAttribute e name w.
Proof.
  intros Hne. unfold Dom.getAttribute, Dom.setAttribute.
  rewrite data_update by reflexivity.
  destruct (Dom.data e w) as [d|] eqn:H; [|reflexivity]. simpl.
  unfold at_elem. destruct (decide (e_id d = e')) as [Heq|]; [|reflexivity].
  simpl. apply lookup_insert_ne. intros ->.
  destruct Hne as [Hne|Hne]; [|congruence].
  apply Hne. rewrite <- Heq. symmetry. eapply data_id, H.
Qed.

Lemma getAttribute_update_classes (e e' : nat) (name : string) (g : edata -> list string)
    (w : world) :
  Dom.getAttribute e name (Dom.update e' (fun d => Dom.set_classes (g d) d) w)
  = Dom.getAttribute e name w.
Proof.
  unfold Dom.getAttribute. rewrite data_update by reflexivity.
  destruct (Dom.data e w) as [d|]; [|reflexivity]. simpl.
  unfold at_elem. destruct (decide (e_id d = e')); reflexivity.
Qed.

Lemma getAttribute_classList_toggle (e e' : nat) (name c : string) (b : bool) (w : world) :
  Dom.getAttribute e name (Dom.classList_toggle e' c b w) = Dom.getAttribute e name w.
Proof.
  unfold Dom.classList_toggle, Dom.classList_add, Dom.classList_remove.
  destruct b; apply getAttribute_update_classes.
Qed.

(** ** Class lists *)

Lemma existsb_add_token (c t : string) (cs : list string) :
  existsb (String.eqb c) (Dom.add_token cs t) = existsb (String.eqb c) cs || String.eqb c t.
Proof.
  unfold Dom.add_token. destruct (existsb (String.eqb t) cs) eqn:E.
  - destruct (String.eqb_spec c t) as [->|]; [rewrite E|]; rewrite ?orb_false_r; reflexivity.
  - rewrite existsb_app. simpl. rewrite orb_false_r. reflexivity.
Qed.

Lemma existsb_add_tokens (c : string) (ts cs : list string) :
  existsb (String.eqb c) (fold_left Dom.add_token ts cs)
  = existsb (String.eqb c) cs || existsb (String.eqb c) ts.
Proof.
  revert cs. induction ts as [|t ts IH]; intros cs; simpl.
  - rewrite orb_false_r. reflexivity.
  - rewrite IH, existsb_add_token, orb_assoc. reflexivity.
Qed.

Lemma existsb_remove_token (c t : string) (cs : list string) :
  existsb (String.eqb c) (Dom.remove_token cs t)
  = existsb (String.eqb c) cs && negb (String.eqb c t).
Proof.
  unfold Dom.remove_token. induction cs as [|x cs IH]; simpl; [reflexivity|].
  destruct (String.eqb_spec t x) as [->|Hne]; simpl.
  - rewrite IH. destruct (String.eqb_spec c x); simpl; [rewrite andb_false_r|]; reflexivity.
  - rewrite IH. destruct (String.eqb_spec c x) as [->|]; simpl; [|reflexivity].
    destruct (String.eqb_spec x t); [congruence|reflexivity].
Qed.

Lemma existsb_remove_tokens (c : string) (ts cs : list string) :
  existsb (String.eqb c) (fold_left Dom.remove_token ts cs)
  = existsb (String.eqb c) cs && negb (existsb (String.eqb c) ts).
Proof.
  revert cs. induction ts as [|t ts IH]; intros cs; simpl.
  - rewrite andb_true_r. reflexivity.
  - rewrite IH, existsb_remove_token, negb_orb, andb_assoc. reflexivity.
Qed.

Lemma has_class_update (e e' : nat) (c : string) (f : edata -> edata) (w : world) :
  (forall d, e_id (f d) = e_id d) ->
  Dom.has_class e c (Dom.update e' f w)
  = match Dom.data e w with
    | Some d => has_class_data c (if decide (e = e') then f d else d)
    | None => false
    end.
Proof.
  intros Hf. unfold Dom.has_class. rewrite data_update by exact Hf.
  destruct (Dom.data e w) as [d|] eqn:H; [|reflexivity]. simpl.
  unfold at_elem. rewrite (data_id _ _ _ H). destruct (decide (e = e')); reflexivity.
Qed.

Lemma has_class_add (e e' : nat) (c : string) (ts : list string) (w : world) :
  Dom.has_class e c (Dom.classList_add e' ts w)
  = Dom.has_class e c w
    || (bool_decide (e = e') && bool_decide (is_Some (Dom.data e w))
        && existsb (String.eqb c) ts).
Proof.
  unfold Dom.classList_add. rewrite has_class_update by reflexivity.
  unfold Dom.has_class. destruct (Dom.data e w) as [d|].
  - rewrite (bool_decide_eq_true_2 (is_Some (Some d))) by eauto.
    destruct (decide (e = e')) as [->|Hne].
    + rewrite bool_decide_eq_true_2 by reflexivity.
      unfold has_class_data. simpl. apply existsb_add_tokens.
    + rewrite bool_decide_eq_false_2 by exact Hne. simpl. rewrite orb_false_r. reflexivity.
  - rewrite andb_false_r. reflexivity.
Qed.

Lemma has_class_remove (e e' : nat) (c : string) (ts : list string) (w : world) :
  Dom.has_class e c (Dom.classList_remove e' ts w)
  = Dom.has_class e c w && negb (bool_decide (e = e') && existsb (String.eqb c) ts).
Proof.
  unfold Dom.classList_remove. rewrite has_class_update by reflexivity.
  unfold Dom.has_class. destruct (Dom.data e w) as [d|]; [|reflexivity].
  destruct (decide (e = e')) as [->|Hne].
  - rewrite bool_decide_eq_true_2 by reflexivity.
    unfold has_class_data. simpl. apply existsb_remove_tokens.
  - rewrite bool_decide_eq_false_2 by exact Hne. simpl. rewrite andb_true_r. reflexivity.
Qed.

Lemma has_class_style_set (e e' : nat) (c p v : string) (w : world) :
  Dom.has_class e c (Dom.style_set e' p v w) = Dom.has_class e c w.
Proof.
  unfold Dom.style_set. rewrite has_class_update by reflexivity.
  unfold Dom.has_class. destruct (Dom.data e w) as [d|]; [|reflexivity].
  destruct (decide (e = e')); reflexivity.
Qed.

Lemma has_class_setAttribute (e e' : nat) (c n v : string) (w : world) :
  Dom.has_class e c (Dom.setAttribute e' n v w) = Dom.has_class e c w.
Proof.
  unfold Dom.setAttribute. rewrite has_class_update by reflexivity.
  unfold Dom.has_class. destruct (Dom.data e w) as [d|]; [|reflexivity].
  destruct (decide (e = e')); reflexivity.
Qed.

(** ** Listener registration *)

Lemma same_listener_key (t : target) (ty : string) (fn : nat) (cap : bool) (l : listener) :
  Dom.same_listener t ty fn cap l = true <-> listener_key l = (t, ty, fn, cap).
Proof.
  unfold Dom.same_listener, listener_key.
  rewrite !andb_true_iff, bool_decide_eq_true, String.eqb_eq, Nat.eqb_eq, Bool.eqb_true_iff.
  split; [intros [[[-> ->] ->] ->]; reflexivity|intros [= -> -> -> ->]; auto].
Qed.

Lemma existsb_remove_first (p : listener -> bool) (ls : list listener) :
  existsb p ls = false -> Dom.remove_first p ls = ls.
Proof.
  induction ls as [|l ls IH]; simpl; [reflexivity|].
  destruct (p l); simpl; [discriminate|]. intros H. rewrite IH by exact H. reflexivity.
Qed.

Lemma remove_first_clears (t : target) (ty : string) (fn : nat) (cap : bool)
    (ls : list listener) :
  NoDup (map listener_key ls) ->
  existsb (Dom.same_listener t ty fn cap) (Dom.remove_first (Dom.same_listener t ty fn cap) ls)
  = false.
Proof.
  induction ls as [|l ls IH]; simpl; [reflexivity|].
  intros Hnd. apply NoDup_cons in Hnd as [Hnotin Hnd].
  destruct (Dom.same_listener t ty fn cap l) eqn:E.
  - apply same_listener_key in E.
    apply not_true_is_false. intros Hex. apply existsb_exists in Hex as (l' & Hin & Hl').
    apply same_listener_key in Hl'. apply Hnotin. rewrite E, <- Hl'.
    apply list_elem_of_In, in_map, Hin.
  - simpl. rewrite E. apply IH, Hnd.
Qed.

Lemma remove_first_snoc (p : listener -> bool) (ls : list listener) (x : listener) :
  existsb p ls = false -> p x = true -> Dom.remove_first p (ls ++ [x]) = ls.
Proof.
  induction ls as [|l ls IH]; simpl; intros Hex Hx.
  - rewrite Hx. reflexivity.
  - destruct (p l); [discriminate|]. rewrite IH by assumption. reflexivity.
Qed.

Lemma remove_first_incl (p : listener -> bool) (ls : list listener) (l : listener) :
  In l (Dom.remove_first p ls) -> In l ls.
Proof.
  induction ls as [|x ls IH]; simpl; [tauto|].
  destruct (p x); simpl; tauto.
Qed.

Lemma filter_none {A} (p : A -> bool) (l : list A) :
  existsb p l = false -> List.filter p l = [].
Proof.
  induction l as [|x l IH]; simpl; [reflexivity|].
  destruct (p x); simpl; [discriminate|exact IH].
Qed.

(** What [on] leaves registered: the previous listeners without the one
    for this key, then the new one. *)
Lemma on_listeners (t : target) (ty : string) (h : nat * closure) (opts : option options)
    (w : world) :
  listeners_ok w ->
  Shared.on t ty h opts w
  = with_listeners
      (Dom.remove_first (Dom.same_listener t ty (fst h) (capture (flatten opts))) (listeners w)
         ++ [mk_listener t ty (fst h) (snd h) (capture (flatten opts)) (once (flatten opts))
               (passive (flatten opts))]) w.
Proof.
  intros Hok. unfold Shared.on, Dom.addEventListener, Dom.removeEventListener. simpl.
  rewrite remove_first_clears by exact Hok. reflexivity.
Qed.

(** C10 (amended). [on(target, type, handler, opts)] called twice in
    succession leaves the listeners exactly as one call does, and the
    handler is then registered once for that type and capture flag. *)
Theorem on_idempotent (t : target) (ty : string) (h : nat * closure)
    (opts : option options) (w : world) :
  listeners_ok w ->
  Shared.on t ty h opts (Shared.on t ty h opts w) = Shared.on t ty h opts w
  /\ List.length (List.filter (Dom.same_listener t ty (fst h) (capture (flatten opts)))
               (listeners (Shared.on t ty h opts w))) = 1.
Proof.
  intros Hok. rewrite (on_listeners t ty h opts w Hok).
  set (p := Dom.same_listener t ty (fst h) (capture (flatten opts))).
  set (new := mk_listener t ty (fst h) (snd h) (capture (flatten opts))
                (once (flatten opts)) (passive (flatten opts))).
  assert (Hclear : existsb p (Dom.remove_first p (listeners w)) = false)
    by (apply remove_first_clears, Hok).
  assert (Hnew : p new = true) by (apply same_listener_key; reflexivity).
  split.
  - unfold Shared.on, Dom.addEventListener, Dom.removeEventListener. simpl.
    fold p. rewrite (remove_first_snoc p _ new Hclear Hnew), Hclear. reflexivity.
  - simpl. rewrite List.filter_app, (filter_none p _ Hclear). simpl. rewrite Hnew. reflexivity.
Qed.

(** ** Growth of the document and shrinking of the observed sets *)

Lemma grows_refl (w : world) : grows w w.
Proof. intros e d H. eauto. Qed.

Lemma grows_trans (w1 w2 w3 : world) : grows w1 w2 -> grows w2 w3 -> grows w1 w3.
Proof.
  intros H12 H23 e d H. destruct (H12 e d H) as (d2 & H2 & Hc2).
  destruct (H23 e d2 H2) as (d3 & H3 & Hc3). eauto.
Qed.

Lemma grows_same_dom (w w' : world) :
  doc w' = doc w -> detached w' = detached w -> grows w w'.
Proof.
  intros Hd Hdt e d H. exists d. split; [|auto].
  unfold Dom.data, Dom.find_elem, Dom.trees in *. rewrite Hd, Hdt. exact H.
Qed.

Lemma grows_update (e : nat) (f : edata -> edata) (w : world) :
  (forall d, e_id (f d) = e_id d) ->
  (forall d c, has_class_data c d = true -> has_class_data c (f d) = true) ->
  grows w (Dom.update e f w).
Proof.
  intros Hid Hc x d H. rewrite data_update, H by exact Hid. simpl.
  eexists; split; [reflexivity|]. intros c Hcd. unfold at_elem.
  destruct (decide (e_id d = e)); auto.
Qed.

Lemma grows_classList_add (e : nat) (ts : list string) (w : world) :
  grows w (Dom.classList_add e ts w).
Proof.
  apply grows_update; [reflexivity|]. intros d c H.
  unfold has_class_data in *. simpl. rewrite existsb_add_tokens, H. reflexivity.
Qed.

Lemma grows_style_set (e : nat) (p v : string) (w : world) :
  grows w (Dom.style_set e p v w).
Proof. apply grows_update; [reflexivity|]. intros d c H. exact H. Qed.

Lemma grows_has_class (w w' : world) (e : nat) (c : string) :
  grows w w' -> Dom.has_class e c w = true -> Dom.has_class e c w' = true.
Proof.
  intros Hg. unfold Dom.has_class. destruct (Dom.data e w) as [d|] eqn:H; [|discriminate].
  destruct (Hg e d H) as (d' & -> & Hc). apply Hc.
Qed.

Lemma grows_is_Some (w w' : world) (e : nat) :
  grows w w' -> is_Some (Dom.data e w) -> is_Some (Dom.data e w').
Proof. intros Hg [d H]. destruct (Hg e d H) as (d' & -> & _). eauto. Qed.

Lemma grows_fold_left {A} (f : world -> A -> world) (l : list A) (w : world) :
  (forall w a, grows w (f w a)) -> grows w (fold_left f l w).
Proof.
  intros H. revert w. induction l as [|a l IH]; intros w; simpl; [apply grows_refl|].
  eapply grows_trans; [apply H|apply IH].
Qed.

Lemma shrinks_refl (w : world) : shrinks w w.
Proof. intros o x H. exact H. Qed.

Lemma shrinks_trans (w1 w2 w3 : world) : shrinks w1 w2 -> shrinks w2 w3 -> shrinks w1 w3.
Proof. intros H12 H23 o x H. apply H12, H23, H. Qed.

Lemma shrinks_same_observers (w w' : world) : observers w' = observers w -> shrinks w w'.
Proof. intros H o x. unfold Dom.observed. rewrite H. auto. Qed.

Lemma observed_unobserve (o o' e : nat) (w : world) :
  Dom.observed o' (Dom.unobserve o e w)
  = if decide (o' = o) then List.filter (fun x => negb (Nat.eqb e x)) (Dom.observed o w)
    else Dom.observed o' w.
Proof.
  unfold Dom.unobserve, Dom.observed.
  destruct (observers w !! o) as [ts|] eqn:E; simpl.
  - destruct (decide (o' = o)) as [->|Hne].
    + rewrite lookup_insert_eq. reflexivity.
    + rewrite lookup_insert_ne by congruence. reflexivity.
  - destruct (decide (o' = o)) as [->|Hne]; [rewrite E|]; reflexivity.
Qed.

Lemma shrinks_unobserve (o e : nat) (w : world) : shrinks w (Dom.unobserve o e w).
Proof.
  intros o' x. rewrite observed_unobserve. destruct (decide (o' = o)) as [->|]; [|auto].
  intros H. apply List.filter_In in H. tauto.
Qed.

Lemma not_observed_unobserve (o e : nat) (w : world) :
  ~ In e (Dom.observed o (Dom.unobserve o e w)).
Proof.
  rewrite observed_unobserve. destruct (decide (o = o)); [|congruence].
  intros H. apply List.filter_In in H as [_ H]. rewrite Nat.eqb_refl in H. discriminate.
Qed.

Lemma shrinks_fold_left {A} (f : world -> A -> world) (l : list A) (w : world) :
  (forall w a, shrinks w (f w a)) -> shrinks w (fold_left f l w).
Proof.
  intros H. revert w. induction l as [|a l IH]; intros w; simpl; [apply shrinks_refl|].
  eapply shrinks_trans; [apply H|apply IH].
Qed.

Lemma observed_observe (o e : nat) (w : world) : In e (Dom.observed o (Dom.observe o e w)).
Proof.
  unfold Dom.observe. destruct (existsb (Nat.eqb e) (Dom.observed o w)) eqn:E.
  - apply existsb_exists in E as (x & Hin & Hx). apply Nat.eqb_eq in Hx. subst. exact Hin.
  - unfold Dom.observed at 1. simpl. rewrite lookup_insert_eq. simpl.
    apply in_or_app. right. left. reflexivity.
Qed.

Lemma observed_observe_mono (o o' e x : nat) (w : world) :
  In x (Dom.observed o' w) -> In x (Dom.observed o' (Dom.observe o e w)).
Proof.
  unfold Dom.observe. destruct (existsb (Nat.eqb e) (Dom.observed o w)); [auto|].
  intros H. unfold Dom.observed at 1. simpl.
  destruct (decide (o' = o)) as [->|Hne].
  - rewrite lookup_insert_eq. simpl. apply in_or_app. left. exact H.
  - rewrite lookup_insert_ne by congruence. exact H.
Qed.

(** ** Queries return elements of the document *)

Lemma first_some_is_Some {A B} (f : A -> option B) (l : list A) (x : A) :
  In x l -> is_Some (f x) -> is_Some (first_some f l).
Proof.
  induction l as [|y l IH]; simpl; [tauto|].
  intros [->|Hin] Hx.
  - destruct Hx as [b ->]. eauto.
  - destruct (f y); [eauto|]. apply IH; assumption.
Qed.

Lemma select_ids (sel : selector) (anc : list edata) (n : node) (e : nat) :
  In e (select sel anc n) -> In e (ids n).
Proof.
  revert anc. induction n as [d ks IH|s] using node_ind; intros anc; simpl; [|tauto].
  intros H. apply in_app_or in H as [H|H].
  - left. destruct (matches sel anc d); simpl in H; tauto.
  - right. apply in_flat_map in H as (k & Hk & He). apply in_flat_map.
    exists k. split; [exact Hk|]. rewrite Forall_forall in IH.
    eapply IH; [apply list_elem_of_In, Hk|exact He].
Qed.

Lemma ids_find_node (e : nat) (n : node) :
  In e (ids n) -> is_Some (find_node e n).
Proof.
  induction n as [d ks IH|s] using node_ind; simpl; [|tauto].
  destruct (decide (e_id d = e)); [eauto|].
  intros [H|H]; [congruence|].
  apply in_flat_map in H as (k & Hk & He).
  apply (first_some_is_Some _ _ k Hk). rewrite Forall_forall in IH.
  apply IH; [apply list_elem_of_In, Hk|exact He].
Qed.

Lemma ids_data (e : nat) (w : world) : In e (ids (doc w)) -> is_Some (Dom.data e w).
Proof.
  intros H. apply ids_find_node in H as [r Hr].
  unfold Dom.data, Dom.find_elem, Dom.trees. simpl. rewrite Hr.
  apply find_node_id in Hr as (d & ks & -> & _). eauto.
Qed.

Lemma querySelectorAll_data (sel : selector) (w : world) (e : nat) :
  In e (Dom.querySelectorAll sel w) -> is_Some (Dom.data e w).
Proof. intros H. eapply ids_data, select_ids, H. Qed.

Lemma querySelector_data (sel : selector) (w : world) (e : nat) :
  Dom.querySelector sel w = Some e -> is_Some (Dom.data e w).
Proof.
  unfold Dom.querySelector. intros H. apply (querySelectorAll_data sel).
  destruct (Dom.querySelectorAll sel w); [discriminate|]. injection H as ->. left. reflexivity.
Qed.

(** ** Observing and growing along the loops of initRevealOnScroll *)

Lemma observed_fold_left (o : nat) (g : world -> nat -> world) (els : list nat)
    (w : world) (el : nat) :
  (forall w a, In a (Dom.observed o (g w a))) ->
  (forall w a x, In x (Dom.observed o w) -> In x (Dom.observed o (g w a))) ->
  In el els -> In el (Dom.observed o (fold_left g els w)).
Proof.
  intros Hnew Hmono. revert w. induction els as [|a els IH]; intros w; simpl; [tauto|].
  intros [->|Hin]; [|apply IH, Hin].
  apply (fold_left_invariant (fun w => In el (Dom.observed o w))); [|apply Hnew].
  intros w' a' H. apply Hmono, H.
Qed.

Lemma foldi_invariant {A} (P : world -> Prop) (f : world -> A -> nat -> world)
    (l : list A) (i : nat) (w : world) :
  (forall w a i, P w -> P (f w a i)) -> P w -> P (foldi f i l w).
Proof.
  intros H. revert i w. induction l as [|a l IH]; intros i w Hw; simpl; [assumption|].
  apply IH, H, Hw.
Qed.

Lemma observed_foldi (o : nat) (g : world -> nat -> nat -> world) (els : list nat)
    (i : nat) (w : world) (el : nat) :
  (forall w a i, In a (Dom.observed o (g w a i))) ->
  (forall w a i x, In x (Dom.observed o w) -> In x (Dom.observed o (g w a i))) ->
  In el els -> In el (Dom.observed o (foldi g i els w)).
Proof.
  intros Hnew Hmono. revert i w. induction els as [|a els IH]; intros i w; simpl; [tauto|].
  intros [->|Hin]; [|apply IH, Hin].
  apply (foldi_invariant (fun w => In el (Dom.observed o w))); [|apply Hnew].
  intros w' a' i' H. apply Hmono, H.
Qed.

Lemma grows_foldi {A} (f : world -> A -> nat -> world) (l : list A) (i : nat) (w : world) :
  (forall w a i, grows w (f w a i)) -> grows w (foldi f i l w).
Proof.
  intros H. revert i w. induction l as [|a l IH]; intros i w; simpl; [apply grows_refl|].
  eapply grows_trans; [apply H|apply IH].
Qed.

Lemma grows_observe (o e : nat) (w : world) : grows w (Dom.observe o e w).
Proof.
  apply grows_same_dom; unfold Dom.observe; destruct (existsb _ _); reflexivity.
Qed.

Lemma grows_unobserve (o e : nat) (w : world) : grows w (Dom.unobserve o e w).
Proof.
  apply grows_same_dom; unfold Dom.unobserve; destruct (observers w !! o); reflexivity.
Qed.

Lemma grows_addEventListener (t : target) (ty : string) (h : nat * closure)
    (opts : option options) (w : world) :
  grows w (Dom.addEventListener t ty h opts w).
Proof.
  apply grows_same_dom; unfold Dom.addEventListener; destruct (existsb _ _); reflexivity.
Qed.

Lemma observed_update (o e : nat) (f : edata -> edata) (w : world) :
  Dom.observed o (Dom.update e f w) = Dom.observed o w.
Proof. reflexivity. Qed.

Lemma win_observe (o e : nat) (w : world) : win (Dom.observe o e w) = win w.
Proof. unfold Dom.observe. destruct (existsb _ _); reflexivity. Qed.

Lemma win_unobserve (o e : nat) (w : world) : win (Dom.unobserve o e w) = win w.
Proof. unfold Dom.unobserve. destruct (observers w !! o); reflexivity. Qed.

Lemma win_addEventListener (t : target) (ty : string) (h : nat * closure)
    (opts : option options) (w : world) :
  win (Dom.addEventListener t ty h opts w) = win w.
Proof. unfold Dom.addEventListener. destruct (existsb _ _); reflexivity. Qed.

(** ** The observer callbacks *)

Lemma main_callback_grows (o : nat) (es : list entry) (w : world) :
  grows w (MainJs.observerCallback o es w).
Proof.
  apply grows_fold_left. intros w' x. destruct (isIntersecting x); [|apply grows_refl].
  eapply grows_trans; [apply grows_classList_add|apply grows_unobserve].
Qed.

Lemma part000_callback_grows (o : nat) (es : list entry) (w : world) :
  grows w (Part000.observerCallback o es w).
Proof.
  apply grows_fold_left. intros w' x. destruct (isIntersecting x); [|apply grows_refl].
  eapply grows_trans; [apply grows_classList_add|apply grows_unobserve].
Qed.




Lemma part001_collect_grows (o : nat) (es : list entry) (acc : list nat * world) :
  grows (snd acc) (snd (Part001.collect o es acc)).
Proof.
  unfold Part001.collect. revert acc.
  induction es as [|x es IH]; intros acc; simpl; [apply grows_refl|].
  eapply grows_trans; [|apply IH].
  destruct (isIntersecting x); simpl; [|apply grows_refl].
  eapply grows_trans; [apply grows_style_set|apply grows_unobserve].
Qed.

Lemma part001_collect_shrinks (o : nat) (es : list entry) (acc : list nat * world) :
  shrinks (snd acc) (snd (Part001.collect o es acc)).
Proof.
  unfold Part001.collect. revert acc.
  induction es as [|x es IH]; intros acc; simpl; [apply shrinks_refl|].
  eapply shrinks_trans; [|apply IH].
  destruct (isIntersecting x); simpl; [|apply shrinks_refl].
  eapply shrinks_trans; [|apply shrinks_unobserve]. apply shrinks_same_observers. reflexivity.
Qed.

Lemma part001_collect_frames (o : nat) (es : list entry) (acc : list nat * world) :
  frames (snd (Part001.collect o es acc)) = frames (snd acc).
Proof.
  unfold Part001.collect. revert acc.
  induction es as [|x es IH]; intros acc; simpl; [reflexivity|].
  rewrite IH. destruct (isIntersecting x); simpl; [|reflexivity].
  unfold Dom.unobserve. destruct (observers _ !! o); reflexivity.
Qed.



Lemma part001_collect_unobserved (o : nat) (es : list entry) (acc : list nat * world)
    (x : entry) :
  In x es -> isIntersecting x = true ->
  ~ In (target_of x) (Dom.observed o (snd (Part001.collect o es acc))).
Proof.
  revert acc. induction es as [|y es IH]; intros acc; simpl; [tauto|].
  intros [->|Hin] Hx.
  - unfold Part001.collect. simpl. rewrite Hx. intros H.
    apply (part001_collect_shrinks o es) in H. simpl in H.
    revert H. apply not_observed_unobserve.
  - apply (IH _ Hin Hx).
Qed.

Lemma part001_callback_grows (o : nat) (es : list entry) (w : world) :
  grows w (Part001.observerCallback o es w).
Proof.
  unfold Part001.observerCallback.
  pose proof (part001_collect_grows o es ([], w)) as H. simpl in H.
  destruct (fst (Part001.collect o es ([], w))); [exact H|].
  eapply grows_trans; [exact H|]. apply grows_same_dom; reflexivity.
Qed.

Lemma grows_fresh (w : world) : grows w (snd (fresh w)).
Proof. apply grows_same_dom; reflexivity. Qed.

Lemma revealOne_grows (w : world) (el : nat) : grows w (Part001.revealOne w el).
Proof.
  unfold Part001.revealOne.
  eapply grows_trans; [apply (grows_classList_add el ["is-visible"])|].
  eapply grows_trans; [apply grows_fresh|].
  apply (grows_addEventListener _ _ (_, _)).
Qed.


Lemma revealBatch_grows (l : list nat) (w : world) : grows w (Part001.revealBatch l w).
Proof. apply grows_fold_left. intros w' el. apply revealOne_grows. Qed.

Lemma revealInView_grows (l : list nat) (o : nat) (ev : env) (w : world) :
  grows w (Part001.revealInView l o ev w).
Proof.
  apply grows_fold_left. intros w' el. destruct (near_viewport ev el); [|apply grows_refl].
  eapply grows_trans; [apply (grows_style_set el "will-change" "opacity, transform")|].
  eapply grows_trans; [apply (grows_classList_add el ["is-visible"])|].
  eapply grows_trans; [apply grows_fresh|].
  eapply grows_trans; [|apply grows_unobserve].
  apply (grows_addEventListener _ _ (_, _)).
Qed.

Lemma frame_callback_grows (ev : env) (cb : frame_cb) (w : world) :
  grows w (Part001.frame_callback ev cb w).
Proof. destruct cb; [apply revealBatch_grows|apply revealInView_grows]. Qed.

Lemma run_frame_grows (ev : env) (w : world) : grows w (Part001.run_frame ev w).
Proof.
  unfold Part001.run_frame.
  eapply grows_trans; [|apply grows_fold_left; intros; apply frame_callback_grows].
  apply grows_same_dom; reflexivity.
Qed.




(** ** initRevealOnScroll *)

Lemma main_init_eq (w : world) :
  reveal_initialised w = false ->
  MainJs.initRevealOnScroll w
  = let o := next_ref w in
    let w1 := with_observers (<[o := []]> (observers w)) (with_next_ref (S o) w) in
    let wf := fold_left (fun w el =>
                Dom.observe o el
                  (Dom.classList_add el
                     ["opacity-0"; "translate-y-3"; "transition"; "duration-300"] w))
                (Dom.querySelectorAll (Simple (Attr "data-reveal")) w) w1 in
    with_win (<["__revealObserver" := Js.Obj o]> (win wf)) wf.
Proof.
  intros H. unfold MainJs.initRevealOnScroll. unfold reveal_initialised in H.
  rewrite H. reflexivity.
Qed.

Lemma part000_init_eq (ev : env) (w : world) :
  reveal_initialised w = false ->
  Part000.initRevealOnScroll ev w
  = match Dom.querySelectorAll (Simple (Attr "data-reveal")) w with
    | [] => w
    | _ :: _ =>
        if reduced_motion ev
        then fold_left (fun w el => Dom.classList_add el ["is-visible"] w)
               (Dom.querySelectorAll (Simple (Attr "data-reveal")) w) w
        else
          let o := next_ref w in
          let w1 := with_observers (<[o := []]> (observers w)) (with_next_ref (S o) w) in
          let wf := foldi (fun w el index =>
                      Dom.observe o el
                        match Part000.reveal_delay el index w with
                        | Js.Int z =>
                            Dom.style_set el "transition-delay" (Js.ms (Js.Int z)) w
                        | Js.NaN | Js.Infinity _ => w
                        end)
                      0 (Dom.querySelectorAll (Simple (Attr "data-reveal")) w) w1 in
          with_win (<["__revealObserver" := Js.Obj o]> (win wf)) wf
    end.
Proof.
  intros H. unfold Part000.initRevealOnScroll. unfold reveal_initialised in H.
  rewrite H. reflexivity.
Qed.

Lemma part001_init_eq (ev : env) (w : world) :
  reveal_initialised w = false ->
  Part001.initRevealOnScroll ev w
  = match Dom.querySelectorAll (Simple (Attr "data-reveal")) w with
    | [] => w
    | _ :: _ =>
        let els := Dom.querySelectorAll (Simple (Attr "data-reveal")) w in
        if reduced_motion ev
        then fold_left (fun w el => Dom.classList_add el ["is-visible"] w) els w
        else
          let wd := part001_delays els w in
          let o := next_ref wd in
          let w1 := with_observers (<[o := []]> (observers wd)) (with_next_ref (S o) wd) in
          let wf := fold_left (fun w el => Dom.observe o el w) els w1 in
          let wr := Dom.requestAnimationFrame (RevealInView els o) wf in
          with_win (<["__revealObserver" := Js.Obj o]> (win wr)) wr
    end.
Proof.
  intros H. unfold Part001.initRevealOnScroll. unfold reveal_initialised in H.
  rewrite H. reflexivity.
Qed.

Lemma part001_delays_grows (els : list nat) (w : world) : grows w (part001_delays els w).
Proof.
  unfold part001_delays. apply grows_fold_left. intros w' g.
  apply grows_foldi. intros w'' el i. apply grows_style_set.
Qed.

Lemma add_visible_grows (els : list nat) (w : world) :
  grows w (fold_left (fun w el => Dom.classList_add el ["is-visible"] w) els w).
Proof. apply grows_fold_left. intros. apply grows_classList_add. Qed.


Lemma grows_dom_r (w w1 w2 : world) :
  doc w2 = doc w1 -> detached w2 = detached w1 -> grows w w1 -> grows w w2.
Proof. intros Hd Hdt H. eapply grows_trans; [exact H|apply grows_same_dom; assumption]. Qed.

Lemma grows_dom_l (w w1 w2 : world) :
  doc w1 = doc w -> detached w1 = detached w -> grows w1 w2 -> grows w w2.
Proof. intros Hd Hdt H. eapply grows_trans; [apply grows_same_dom; eassumption|exact H]. Qed.

Lemma init_grows (c : copy) (ev : env) (w : world) :
  grows w (initRevealOnScroll_of c ev w).
Proof.
  destruct (reveal_initialised w) eqn:Hi.
  { unfold reveal_initialised in Hi.
    destruct c; simpl;
      unfold MainJs.initRevealOnScroll, Part000.initRevealOnScroll,
        Part001.initRevealOnScroll; rewrite Hi; apply grows_refl. }
  destruct c; simpl.
  - rewrite (main_init_eq w Hi). cbv zeta.
    eapply grows_dom_r; [reflexivity|reflexivity|].
    eapply grows_dom_l; [| |apply grows_fold_left]; [reflexivity|reflexivity|].
    intros w' el.
    eapply grows_trans; [apply grows_classList_add|apply grows_observe].
  - rewrite (part000_init_eq ev w Hi).
    destruct (Dom.querySelectorAll _ w) as [|e0 els]; [apply grows_refl|].
    destruct (reduced_motion ev); [apply add_visible_grows|]. cbv zeta.
    eapply grows_dom_r; [reflexivity|reflexivity|].
    eapply grows_dom_l; [| |apply grows_foldi]; [reflexivity|reflexivity|].
    intros w' el i.
    eapply grows_trans; [|apply grows_observe].
    destruct (Part000.reveal_delay el i w'); [apply grows_refl|apply grows_refl|apply grows_style_set].
  - rewrite (part001_init_eq ev w Hi).
    destruct (Dom.querySelectorAll _ w) as [|e0 els]; [apply grows_refl|].
    destruct (reduced_motion ev); [apply add_visible_grows|]. cbv zeta.
    eapply grows_trans; [apply (part001_delays_grows (e0 :: els))|].
    eapply grows_dom_r; [reflexivity|reflexivity|].
    eapply grows_dom_r; [reflexivity|reflexivity|].
    eapply grows_dom_l; [| |apply grows_fold_left]; [reflexivity|reflexivity|].
    intros w' el. apply grows_observe.
Qed.

Lemma init_records (c : copy) (ev : env) (w : world) (el : nat) :
  reveal_initialised w = false ->
  In el (Dom.querySelectorAll (Simple (Attr "data-reveal")) w) ->
  animates c ev = true ->
  exists o, win (initRevealOnScroll_of c ev w) !! "__revealObserver" = Some (Js.Obj o)
            /\ In el (Dom.observed o (initRevealOnScroll_of c ev w)).
Proof.
  intros Hi Hel Ha. destruct c; simpl in *.
  - rewrite (main_init_eq w Hi). cbv zeta. eexists. split; [apply lookup_insert_eq|].
    apply (observed_fold_left (next_ref w)); [| |exact Hel].
    + intros w' a. apply observed_observe.
    + intros w' a x H. apply observed_observe_mono. exact H.
  - rewrite (part000_init_eq ev w Hi).
    destruct (Dom.querySelectorAll _ w) as [|e0 els] eqn:E; [destruct Hel|].
    apply negb_true_iff in Ha. rewrite Ha. cbv zeta.
    eexists. split; [apply lookup_insert_eq|].
    apply (observed_foldi (next_ref w)); [| |exact Hel].
    + intros w' a i. apply observed_observe.
    + intros w' a i x H. apply observed_observe_mono.
      destruct (Part000.reveal_delay a i w'); exact H.
  - rewrite (part001_init_eq ev w Hi).
    destruct (Dom.querySelectorAll _ w) as [|e0 els] eqn:E; [destruct Hel|].
    apply negb_true_iff in Ha. rewrite Ha. cbv zeta.
    eexists. split; [apply lookup_insert_eq|].
    apply (observed_fold_left (next_ref (part001_delays (e0 :: els) w))); [| |exact Hel].
    + intros w' a. apply observed_observe.
    + intros w' a x H. apply observed_observe_mono. exact H.
Qed.




(** ** The invariant of the reveal mechanism *)

Lemma has_class_same_dom (e : nat) (c : string) (w w' : world) :
  doc w' = doc w -> detached w' = detached w -> Dom.has_class e c w' = Dom.has_class e c w.
Proof.
  intros Hd Hdt. unfold Dom.has_class, Dom.data, Dom.find_elem, Dom.trees.
  rewrite Hd, Hdt. reflexivity.
Qed.

Lemma visible_same_dom (c : copy) (e : nat) (w w' : world) :
  doc w' = doc w -> detached w' = detached w -> visible_of c e w' = visible_of c e w.
Proof.
  intros Hd Hdt. destruct c; simpl; unfold main_visible, is_visible;
    rewrite !(has_class_same_dom _ _ w w') by assumption; reflexivity.
Qed.

Lemma visible_add_other (c : copy) (e t : nat) (ts : list string) (w : world) :
  e <> t -> visible_of c e (Dom.classList_add t ts w) = visible_of c e w.
Proof.
  intros Hne. destruct c; simpl; unfold main_visible, is_visible;
    rewrite !has_class_add, !bool_decide_eq_false_2 by exact Hne;
    simpl; rewrite ?orb_false_r; reflexivity.
Qed.

Lemma visible_style_set (c : copy) (e t : nat) (p v : string) (w : world) :
  visible_of c e (Dom.style_set t p v w) = visible_of c e w.
Proof.
  destruct c; simpl; unfold main_visible, is_visible; rewrite !has_class_style_set;
    reflexivity.
Qed.

Lemma visible_unobserve (c : copy) (e o t : nat) (w : world) :
  visible_of c e (Dom.unobserve o t w) = visible_of c e w.
Proof.
  apply visible_same_dom; unfold Dom.unobserve; destruct (observers w !! o); reflexivity.
Qed.

(** A step that shows [t] and stops observing it. *)
Lemma inv_show_unobserve (c : copy) (o t : nat) (fs : list frame_cb) (w w1 : world) :
  reveal_inv_on c o fs w ->
  (forall e, e <> t -> visible_of c e w1 = visible_of c e w) ->
  observers w1 = observers w ->
  reveal_inv_on c o fs (Dom.unobserve o t w1).
Proof.
  intros (H1 & H2 & H3) Hvis Hobs.
  assert (Hsh : shrinks w (Dom.unobserve o t w1)).
  { eapply shrinks_trans; [apply shrinks_same_observers, Hobs|apply shrinks_unobserve]. }
  split; [|split].
  - intros e He Hin. destruct (decide (e = t)) as [->|Hne].
    + revert Hin. apply not_observed_unobserve.
    + rewrite visible_unobserve, Hvis in He by exact Hne.
      apply (H1 e He), Hsh, Hin.
  - intros l e Hl He Hin. apply (H2 l e Hl He), Hsh, Hin.
  - exact H3.
Qed.

(** A step that shows [t], which is not observed. *)
Lemma inv_show_unobserved (c : copy) (o t : nat) (fs : list frame_cb) (w w1 : world) :
  reveal_inv_on c o fs w ->
  ~ In t (Dom.observed o w) ->
  (forall e, e <> t -> visible_of c e w1 = visible_of c e w) ->
  observers w1 = observers w ->
  reveal_inv_on c o fs w1.
Proof.
  intros (H1 & H2 & H3) Ht Hvis Hobs.
  assert (Hsh : shrinks w w1) by (apply shrinks_same_observers, Hobs).
  split; [|split].
  - intros e He Hin. apply Hsh in Hin. destruct (decide (e = t)) as [->|Hne]; [tauto|].
    rewrite Hvis in He by exact Hne. apply (H1 e He), Hin.
  - intros l e Hl He Hin. apply (H2 l e Hl He), Hsh, Hin.
  - exact H3.
Qed.

Lemma inv_fewer_frames (c : copy) (o : nat) (fs fs' : list frame_cb) (w : world) :
  (forall cb, In cb fs' -> In cb fs) -> reveal_inv_on c o fs w -> reveal_inv_on c o fs' w.
Proof.
  intros Hsub (H1 & H2 & H3). split; [exact H1|split].
  - intros l e Hl. apply H2, Hsub, Hl.
  - intros els o' Hl. eapply H3, Hsub, Hl.
Qed.

Lemma main_callback_inv (o : nat) (es : list entry) (fs : list frame_cb) (w : world) :
  reveal_inv_on MainCopy o fs w -> reveal_inv_on MainCopy o fs (MainJs.observerCallback o es w).
Proof.
  unfold MainJs.observerCallback. revert w.
  induction es as [|x es IH]; intros w Hinv; simpl; [exact Hinv|].
  apply IH. destruct (isIntersecting x); [|exact Hinv].
  apply (inv_show_unobserve MainCopy o (target_of x) fs w); [exact Hinv| |reflexivity].
  intros e Hne. apply visible_add_other, Hne.
Qed.

Lemma part000_callback_inv (o : nat) (es : list entry) (fs : list frame_cb) (w : world) :
  reveal_inv_on Part000Copy o fs w ->
  reveal_inv_on Part000Copy o fs (Part000.observerCallback o es w).
Proof.
  unfold Part000.observerCallback. revert w.
  induction es as [|x es IH]; intros w Hinv; simpl; [exact Hinv|].
  apply IH. destruct (isIntersecting x); [|exact Hinv].
  apply (inv_show_unobserve Part000Copy o (target_of x) fs w); [exact Hinv| |reflexivity].
  intros e Hne. apply visible_add_other, Hne.
Qed.

Lemma main_callback_shrinks (o : nat) (es : list entry) (w : world) :
  shrinks w (MainJs.observerCallback o es w).
Proof.
  apply shrinks_fold_left. intros w' x. destruct (isIntersecting x); [|apply shrinks_refl].
  eapply shrinks_trans; [|apply shrinks_unobserve]. apply shrinks_same_observers. reflexivity.
Qed.

Lemma part000_callback_shrinks (o : nat) (es : list entry) (w : world) :
  shrinks w (Part000.observerCallback o es w).
Proof.
  apply shrinks_fold_left. intros w' x. destruct (isIntersecting x); [|apply shrinks_refl].
  eapply shrinks_trans; [|apply shrinks_unobserve]. apply shrinks_same_observers. reflexivity.
Qed.

Lemma main_callback_frames (o : nat) (es : list entry) (w : world) :
  frames (MainJs.observerCallback o es w) = frames w.
Proof.
  apply fold_left_preserves. intros w' x. destruct (isIntersecting x); [|reflexivity].
  unfold Dom.unobserve. destruct (observers _ !! o); reflexivity.
Qed.

Lemma part000_callback_frames (o : nat) (es : list entry) (w : world) :
  frames (Part000.observerCallback o es w) = frames w.
Proof.
  apply fold_left_preserves. intros w' x. destruct (isIntersecting x); [|reflexivity].
  unfold Dom.unobserve. destruct (observers _ !! o); reflexivity.
Qed.

Lemma part001_collect_inv (o : nat) (es : list entry) (fs : list frame_cb)
    (acc : list nat * world) :
  reveal_inv_on Part001Copy o fs (snd acc) ->
  (forall t, In t (fst acc) -> ~ In t (Dom.observed o (snd acc))) ->
  reveal_inv_on Part001Copy o fs (snd (Part001.collect o es acc))
  /\ (forall t, In t (fst (Part001.collect o es acc)) ->
        ~ In t (Dom.observed o (snd (Part001.collect o es acc)))).
Proof.
  unfold Part001.collect. revert acc.
  induction es as [|x es IH]; intros acc Hinv Hacc; simpl; [auto|].
  apply IH; destruct (isIntersecting x); try assumption; simpl.
  - apply (inv_show_unobserve Part001Copy o (target_of x) fs (snd acc));
      [exact Hinv| |reflexivity].
    intros e _. apply visible_style_set.
  - intros t Ht Hin. apply in_app_or in Ht as [Ht|[<-|[]]].
    + apply (Hacc t Ht). apply shrinks_unobserve in Hin. exact Hin.
    + revert Hin. apply not_observed_unobserve.
Qed.

Lemma part001_callback_inv (o : nat) (es : list entry) (w : world) :
  reveal_inv Part001Copy o w -> reveal_inv Part001Copy o (Part001.observerCallback o es w).
Proof.
  intros Hinv. unfold Part001.observerCallback.
  destruct (part001_collect_inv o es (frames w) ([], w) Hinv) as [Hr Ht];
    [intros t []|].
  pose proof (part001_collect_frames o es ([], w)) as Hf. simpl in Hf.
  destruct (fst (Part001.collect o es ([], w))) as [|t0 l] eqn:E.
  - unfold reveal_inv. rewrite Hf. exact Hr.
  - unfold reveal_inv, Dom.requestAnimationFrame. simpl frames. rewrite Hf.
    destruct Hr as (H1 & H2 & H3). split; [|split].
    + intros e He. apply H1. exact He.
    + intros l' e Hl He. apply in_app_or in Hl as [Hl|[[= <-]|[]]].
      * apply (H2 l' e Hl He).
      * apply Ht, He.
    + intros els o' Hl. apply in_app_or in Hl as [Hl|[Hl|[]]]; [|discriminate].
      apply (H3 els o' Hl).
Qed.

Lemma part001_callback_shrinks (o : nat) (es : list entry) (w : world) :
  shrinks w (Part001.observerCallback o es w).
Proof.
  unfold Part001.observerCallback.
  pose proof (part001_collect_shrinks o es ([], w)) as H. simpl in H.
  destruct (fst (Part001.collect o es ([], w))); [exact H|].
  eapply shrinks_trans; [exact H|]. apply shrinks_same_observers. reflexivity.
Qed.

Lemma observers_addEventListener (t : target) (ty : string) (h : nat * closure)
    (opts : option options) (w : world) :
  observers (Dom.addEventListener t ty h opts w) = observers w.
Proof. unfold Dom.addEventListener. destruct (existsb _ _); reflexivity. Qed.

Lemma frames_addEventListener (t : target) (ty : string) (h : nat * closure)
    (opts : option options) (w : world) :
  frames (Dom.addEventListener t ty h opts w) = frames w.
Proof. unfold Dom.addEventListener. destruct (existsb _ _); reflexivity. Qed.

Lemma doc_addEventListener (t : target) (ty : string) (h : nat * closure)
    (opts : option options) (w : world) :
  doc (Dom.addEventListener t ty h opts w) = doc w.
Proof. unfold Dom.addEventListener. destruct (existsb _ _); reflexivity. Qed.

Lemma detached_addEventListener (t : target) (ty : string) (h : nat * closure)
    (opts : option options) (w : world) :
  detached (Dom.addEventListener t ty h opts w) = detached w.
Proof. unfold Dom.addEventListener. destruct (existsb _ _); reflexivity. Qed.

Lemma revealOne_observers (w : world) (el : nat) :
  observers (Part001.revealOne w el) = observers w.
Proof.
  unfold Part001.revealOne, fresh. cbv beta iota zeta.
  rewrite (observers_addEventListener _ _ (_, _)). reflexivity.
Qed.

Lemma revealOne_frames (w : world) (el : nat) :
  frames (Part001.revealOne w el) = frames w.
Proof.
  unfold Part001.revealOne, fresh. cbv beta iota zeta.
  rewrite (frames_addEventListener _ _ (_, _)). reflexivity.
Qed.

Lemma revealOne_visible_other (w : world) (el e : nat) :
  e <> el -> is_visible e (Part001.revealOne w el) = is_visible e w.
Proof.
  intros Hne. unfold Part001.revealOne, is_visible, fresh. cbv beta iota zeta.
  rewrite (has_class_same_dom e "is-visible" (Dom.classList_add el ["is-visible"] w)).
  - apply (visible_add_other Part001Copy), Hne.
  - rewrite (doc_addEventListener _ _ (_, _)). reflexivity.
  - rewrite (detached_addEventListener _ _ (_, _)). reflexivity.
Qed.

Lemma revealBatch_inv (o : nat) (l : list nat) (fs : list frame_cb) (w : world) :
  reveal_inv_on Part001Copy o fs w ->
  (forall e, In e l -> ~ In e (Dom.observed o w)) ->
  reveal_inv_on Part001Copy o fs (Part001.revealBatch l w).
Proof.
  unfold Part001.revealBatch. revert w.
  induction l as [|a l IH]; intros w Hinv Hl; simpl; [exact Hinv|].
  apply IH.
  - apply (inv_show_unobserved Part001Copy o a fs w); [exact Hinv| | |].
    + apply Hl. left. reflexivity.
    + intros e Hne. apply revealOne_visible_other, Hne.
    + apply revealOne_observers.
  - intros e He. unfold Dom.observed. rewrite revealOne_observers.
    apply Hl. right. exact He.
Qed.

Lemma revealBatch_shrinks (l : list nat) (w : world) : shrinks w (Part001.revealBatch l w).
Proof.
  apply shrinks_fold_left. intros w' el. apply shrinks_same_observers, revealOne_observers.
Qed.

Lemma revealBatch_frames (l : list nat) (w : world) :
  frames (Part001.revealBatch l w) = frames w.
Proof. apply fold_left_preserves. intros w' el. apply revealOne_frames. Qed.

(** The body of the loop of lines 172-182, for an element in view. *)
Lemma revealInView_inv (o : nat) (els : list nat) (ev : env) (fs : list frame_cb)
    (w : world) :
  reveal_inv_on Part001Copy o fs w ->
  reveal_inv_on Part001Copy o fs (Part001.revealInView els o ev w).
Proof.
  unfold Part001.revealInView. revert w.
  induction els as [|a els IH]; intros w Hinv; simpl; [exact Hinv|].
  apply IH. destruct (near_viewport ev a); [|exact Hinv].
  apply (inv_show_unobserve Part001Copy o a fs w); [exact Hinv| |].
  - intros e Hne. unfold visible_of, is_visible, fresh. cbv beta iota zeta.
    rewrite (has_class_same_dom e "is-visible"
               (Dom.classList_add a ["is-visible"]
                  (Dom.style_set a "will-change" "opacity, transform" w))).
    + rewrite has_class_add, bool_decide_eq_false_2 by exact Hne. simpl.
      rewrite orb_false_r. apply has_class_style_set.
    + rewrite (doc_addEventListener _ _ (_, _)). reflexivity.
    + rewrite (detached_addEventListener _ _ (_, _)). reflexivity.
  - unfold fresh. cbv beta iota zeta.
    rewrite (observers_addEventListener _ _ (_, _)). reflexivity.
Qed.

Lemma revealInView_shrinks (o : nat) (els : list nat) (ev : env) (w : world) :
  shrinks w (Part001.revealInView els o ev w).
Proof.
  apply shrinks_fold_left. intros w' el. destruct (near_viewport ev el); [|apply shrinks_refl].
  unfold fresh. cbv beta iota zeta.
  eapply shrinks_trans; [|apply shrinks_unobserve].
  apply shrinks_same_observers.
  rewrite (observers_addEventListener _ _ (_, _)). reflexivity.
Qed.

Lemma revealInView_frames (o : nat) (els : list nat) (ev : env) (w : world) :
  frames (Part001.revealInView els o ev w) = frames w.
Proof.
  apply fold_left_preserves. intros w' el. destruct (near_viewport ev el); [|reflexivity].
  unfold fresh. cbv beta iota zeta.
  unfold Dom.unobserve. destruct (observers _ !! o); simpl;
    rewrite (frames_addEventListener _ _ (_, _)); reflexivity.
Qed.

Lemma frame_callbacks_inv (o : nat) (ev : env) (fs : list frame_cb) (w : world) :
  reveal_inv_on Part001Copy o fs w ->
  reveal_inv_on Part001Copy o [] (fold_left (fun w cb => Part001.frame_callback ev cb w) fs w).
Proof.
  revert w. induction fs as [|cb fs IH]; intros w Hinv; simpl; [exact Hinv|].
  apply IH. apply (inv_fewer_frames _ _ (cb :: fs)); [intros x Hx; right; exact Hx|].
  destruct cb as [l|els o']; simpl.
  - apply revealBatch_inv; [exact Hinv|].
    intros e He. destruct Hinv as (_ & H2 & _). apply (H2 l e); [left; reflexivity|exact He].
  - assert (o' = o) as ->.
    { destruct Hinv as (_ & _ & H3). apply (H3 els o'). left. reflexivity. }
    apply revealInView_inv, Hinv.
Qed.

Lemma frame_callbacks_frames (ev : env) (fs : list frame_cb) (w : world) :
  frames (fold_left (fun w cb => Part001.frame_callback ev cb w) fs w) = frames w.
Proof.
  apply fold_left_preserves. intros w' [l|els o]; simpl;
    [apply revealBatch_frames|apply revealInView_frames].
Qed.

Lemma run_frame_inv (o : nat) (ev : env) (w : world) :
  reveal_inv Part001Copy o w -> reveal_inv Part001Copy o (Part001.run_frame ev w).
Proof.
  intros Hinv. unfold reveal_inv, Part001.run_frame. rewrite frame_callbacks_frames.
  simpl frames. apply frame_callbacks_inv.
  destruct Hinv as (H1 & H2 & H3). split; [|split]; [exact H1|exact H2|exact H3].
Qed.

Lemma run_frame_shrinks (ev : env) (w : world) : shrinks w (Part001.run_frame ev w).
Proof.
  unfold Part001.run_frame.
  eapply shrinks_trans; [apply (shrinks_same_observers w (with_frames [] w)); reflexivity|].
  apply shrinks_fold_left. intros w' [l|els o]; simpl;
    [apply revealBatch_shrinks|apply revealInView_shrinks].
Qed.

Lemma reveal_step_inv (c : copy) (o : nat) (w : world) (x : reveal_event) :
  reveal_inv c o w -> delivers_to o x ->
  reveal_inv c o (reveal_step_of c w x)
  /\ grows w (reveal_step_of c w x) /\ shrinks w (reveal_step_of c w x).
Proof.
  intros Hinv Hx.
  destruct c, x as [o' es|ev];
    cbn [reveal_step_of main_reveal_step part000_reveal_step part001_reveal_step
         delivers_to] in *; subst.
  - split; [|split].
    + unfold reveal_inv. rewrite main_callback_frames. apply main_callback_inv, Hinv.
    + apply main_callback_grows.
    + apply main_callback_shrinks.
  - split; [exact Hinv|split; [apply grows_refl|apply shrinks_refl]].
  - split; [|split].
    + unfold reveal_inv. rewrite part000_callback_frames. apply part000_callback_inv, Hinv.
    + apply part000_callback_grows.
    + apply part000_callback_shrinks.
  - split; [exact Hinv|split; [apply grows_refl|apply shrinks_refl]].
  - split; [|split].
    + apply part001_callback_inv, Hinv.
    + apply part001_callback_grows.
    + apply part001_callback_shrinks.
  - split; [|split].
    + apply run_frame_inv, Hinv.
    + apply run_frame_grows.
    + apply run_frame_shrinks.
Qed.

(** ** The invariant holds when initRevealOnScroll returns *)

Lemma visible_fold_left {A} (c : copy) (e : nat) (g : world -> A -> world) (l : list A)
    (w : world) :
  (forall w a, visible_of c e (g w a) = visible_of c e w) ->
  visible_of c e (fold_left g l w) = visible_of c e w.
Proof.
  intros H. apply (fold_left_invariant (fun w' => visible_of c e w' = visible_of c e w));
    [|reflexivity].
  intros w' a Hw'. rewrite H. exact Hw'.
Qed.

Lemma visible_foldi {A} (c : copy) (e : nat) (g : world -> A -> nat -> world) (l : list A)
    (i : nat) (w : world) :
  (forall w a i, visible_of c e (g w a i) = visible_of c e w) ->
  visible_of c e (foldi g i l w) = visible_of c e w.
Proof.
  intros H. apply (foldi_invariant (fun w' => visible_of c e w' = visible_of c e w));
    [|reflexivity].
  intros w' a j Hw'. rewrite H. exact Hw'.
Qed.

Lemma frames_fold_left {A} (g : world -> A -> world) (l : list A) (w : world) :
  (forall w a, frames (g w a) = frames w) -> frames (fold_left g l w) = frames w.
Proof.
  intros H. apply (fold_left_invariant (fun w' => frames w' = frames w)); [|reflexivity].
  intros w' a Hw'. rewrite H. exact Hw'.
Qed.

Lemma frames_foldi {A} (g : world -> A -> nat -> world) (l : list A) (i : nat) (w : world) :
  (forall w a i, frames (g w a i) = frames w) -> frames (foldi g i l w) = frames w.
Proof.
  intros H. apply (foldi_invariant (fun w' => frames w' = frames w)); [|reflexivity].
  intros w' a j Hw'. rewrite H. exact Hw'.
Qed.

Lemma frames_observe (o e : nat) (w : world) : frames (Dom.observe o e w) = frames w.
Proof. unfold Dom.observe. destruct (existsb _ _); reflexivity. Qed.

Lemma visible_observe (c : copy) (e o t : nat) (w : world) :
  visible_of c e (Dom.observe o t w) = visible_of c e w.
Proof.
  apply visible_same_dom; unfold Dom.observe; destruct (existsb _ _); reflexivity.
Qed.

(** Adding classes other than the visible ones shows nothing. *)
Lemma visible_add_hidden (c : copy) (e t : nat) (ts : list string) (w : world) :
  existsb (String.eqb "opacity-100") ts = false ->
  existsb (String.eqb "translate-y-0") ts = false ->
  existsb (String.eqb "is-visible") ts = false ->
  visible_of c e (Dom.classList_add t ts w) = visible_of c e w.
Proof.
  intros H1 H2 H3. destruct c; simpl; unfold main_visible, is_visible;
    rewrite !has_class_add, ?H1, ?H2, ?H3, ?andb_false_r, ?orb_false_r; reflexivity.
Qed.

Lemma observed_observe_inv (o o' e x : nat) (w : world) :
  In x (Dom.observed o' (Dom.observe o e w)) -> x = e \/ In x (Dom.observed o' w).
Proof.
  unfold Dom.observe. destruct (existsb (Nat.eqb e) (Dom.observed o w)); [auto|].
  unfold Dom.observed at 1. simpl.
  destruct (decide (o' = o)) as [->|Hne].
  - rewrite lookup_insert_eq. simpl. intros H.
    apply in_app_or in H as [H|[H|[]]]; [right; exact H|left; symmetry; exact H].
  - rewrite lookup_insert_ne by congruence. auto.
Qed.

Lemma observed_fold_left_inv (o : nat) (g : world -> nat -> world) (els : list nat)
    (w : world) (x : nat) :
  (forall w a x, In x (Dom.observed o (g w a)) -> x = a \/ In x (Dom.observed o w)) ->
  In x (Dom.observed o (fold_left g els w)) -> In x els \/ In x (Dom.observed o w).
Proof.
  intros H. revert w. induction els as [|a els IH]; intros w; simpl; [auto|].
  intros Hx. destruct (IH _ Hx) as [Hin|Hin]; [auto|].
  destruct (H _ _ _ Hin) as [->|Hw]; auto.
Qed.

Lemma observed_foldi_inv (o : nat) (g : world -> nat -> nat -> world) (els : list nat)
    (i : nat) (w : world) (x : nat) :
  (forall w a i x, In x (Dom.observed o (g w a i)) -> x = a \/ In x (Dom.observed o w)) ->
  In x (Dom.observed o (foldi g i els w)) -> In x els \/ In x (Dom.observed o w).
Proof.
  intros H. revert i w. induction els as [|a els IH]; intros i w; simpl; [auto|].
  intros Hx. destruct (IH _ _ Hx) as [Hin|Hin]; [auto|].
  destruct (H _ _ _ _ Hin) as [->|Hw]; auto.
Qed.

Lemma visible_part001_delays (c : copy) (e : nat) (els : list nat) (w : world) :
  visible_of c e (part001_delays els w) = visible_of c e w.
Proof.
  unfold part001_delays. apply visible_fold_left. intros w' g.
  apply visible_foldi. intros w'' el i. apply visible_style_set.
Qed.

Lemma frames_part001_delays (els : list nat) (w : world) :
  frames (part001_delays els w) = frames w.
Proof.
  unfold part001_delays. apply frames_fold_left. intros w' g.
  apply frames_foldi. intros w'' el i. reflexivity.
Qed.

Lemma visible_with_win (c : copy) (e : nat) (g : gmap string Js.value) (w : world) :
  visible_of c e (with_win g w) = visible_of c e w.
Proof. apply visible_same_dom; reflexivity. Qed.

Lemma visible_with_observers (c : copy) (e : nat) (os : gmap nat (list nat)) (w : world) :
  visible_of c e (with_observers os w) = visible_of c e w.
Proof. apply visible_same_dom; reflexivity. Qed.

Lemma visible_with_next_ref (c : copy) (e n : nat) (w : world) :
  visible_of c e (with_next_ref n w) = visible_of c e w.
Proof. apply visible_same_dom; reflexivity. Qed.

Lemma visible_requestAnimationFrame (c : copy) (e : nat) (cb : frame_cb) (w : world) :
  visible_of c e (Dom.requestAnimationFrame cb w) = visible_of c e w.
Proof. apply visible_same_dom; reflexivity. Qed.

(** What is left to check once the loops of [initRevealOnScroll] are
    summarised: nothing was shown, only the elements of the query are
    observed, and the only pending frame is the in-view pass on [o]. *)
Lemma inv_of_fresh_observer (c : copy) (o : nat) (els : list nat) (w wf : world) :
  (forall e, In e els -> visible_of c e w = false) ->
  (forall e, visible_of c e wf = visible_of c e w) ->
  (forall x, In x (Dom.observed o wf) -> In x els) ->
  (forall cb, In cb (frames wf) -> exists l, cb = RevealInView l o) ->
  reveal_inv c o wf.
Proof.
  intros Hhid Hvis Hobs Hfr. split; [|split].
  - intros e He Hin. rewrite Hvis, (Hhid e (Hobs e Hin)) in He. discriminate.
  - intros l e Hl. destruct (Hfr _ Hl) as (l' & Heq). discriminate.
  - intros l o' Hl. destruct (Hfr _ Hl) as (l' & Heq). congruence.
Qed.

(** The first run of [initRevealOnScroll] on a page none of whose
    [data-reveal] elements is shown yet, with no animation frame pending,
    establishes the invariant for the observer it records. *)
Lemma init_establishes_inv (c : copy) (ev : env) (w : world) (o : nat) :
  reveal_initialised w = false ->
  frames w = [] ->
  (forall e, In e (Dom.querySelectorAll (Simple (Attr "data-reveal")) w) ->
             visible_of c e w = false) ->
  win (initRevealOnScroll_of c ev w) !! "__revealObserver" = Some (Js.Obj o) ->
  reveal_inv c o (initRevealOnScroll_of c ev w).
Proof.
  intros Hi Hfr Hhid.
  assert (Hno : win w !! "__revealObserver" <> Some (Js.Obj o)).
  { intros E. unfold reveal_initialised in Hi. rewrite E in Hi. discriminate. }
  destruct c; cbn [initRevealOnScroll_of].
  - rewrite (main_init_eq w Hi). cbv zeta. cbn [win with_win]. rewrite lookup_insert_eq.
    intros [= <-].
    apply (inv_of_fresh_observer MainCopy _
             (Dom.querySelectorAll (Simple (Attr "data-reveal")) w) w); [exact Hhid| | |].
    + intros e. rewrite visible_with_win, visible_fold_left.
      * rewrite visible_with_observers. apply visible_with_next_ref.
      * intros w' a. rewrite visible_observe. apply visible_add_hidden; reflexivity.
    + intros x Hx.
      apply (observed_fold_left_inv (next_ref w)) in Hx as [Hx|Hx]; [exact Hx| |].
      * unfold Dom.observed in Hx. simpl in Hx. rewrite lookup_insert_eq in Hx. destruct Hx.
      * intros w' a y Hy. apply observed_observe_inv in Hy. exact Hy.
    + intros cb Hcb. exfalso.
      revert Hcb. cbn [frames with_win Dom.requestAnimationFrame with_frames]. rewrite frames_fold_left.
      * cbn [frames with_observers with_next_ref]. rewrite Hfr. intros [].
      * intros w' a. rewrite frames_observe. reflexivity.
  - rewrite (part000_init_eq ev w Hi).
    destruct (Dom.querySelectorAll _ w) as [|e0 els] eqn:E; [intros H; contradiction|].
    destruct (reduced_motion ev).
    { intros H. exfalso. apply Hno. rewrite <- H. symmetry. f_equal.
      apply (fold_left_invariant (fun w' => win w' = win w)); [|reflexivity].
      intros w' a Hw'. exact Hw'. }
    cbv zeta. cbn [win with_win]. rewrite lookup_insert_eq. intros [= <-].
    apply (inv_of_fresh_observer Part000Copy _ (e0 :: els) w); [exact Hhid| | |].
    + intros e. rewrite visible_with_win, visible_foldi.
      * rewrite visible_with_observers. apply visible_with_next_ref.
      * intros w' a i. rewrite visible_observe.
        destruct (Part000.reveal_delay a i w'); [reflexivity|reflexivity|apply visible_style_set].
    + intros x Hx.
      apply (observed_foldi_inv (next_ref w)) in Hx as [Hx|Hx]; [exact Hx| |].
      * unfold Dom.observed in Hx. simpl in Hx. rewrite lookup_insert_eq in Hx. destruct Hx.
      * intros w' a i y Hy. apply observed_observe_inv in Hy.
        destruct (Part000.reveal_delay a i w'); exact Hy.
    + intros cb Hcb. exfalso. revert Hcb. cbn [frames with_win Dom.requestAnimationFrame with_frames]. rewrite frames_foldi.
      * cbn [frames with_observers with_next_ref]. rewrite Hfr. intros [].
      * intros w' a i. rewrite frames_observe.
        destruct (Part000.reveal_delay a i w'); reflexivity.
  - rewrite (part001_init_eq ev w Hi).
    destruct (Dom.querySelectorAll _ w) as [|e0 els] eqn:E; [intros H; contradiction|].
    destruct (reduced_motion ev).
    { intros H. exfalso. apply Hno. rewrite <- H. symmetry. f_equal. cbv zeta.
      apply (fold_left_invariant (fun w' => win w' = win w)); [|reflexivity].
      intros w' a Hw'. exact Hw'. }
    cbv zeta. cbn [win with_win]. rewrite lookup_insert_eq. intros [= <-].
    apply (inv_of_fresh_observer Part001Copy _ (e0 :: els) w); [exact Hhid| | |].
    + intros e. rewrite visible_with_win, visible_requestAnimationFrame, visible_fold_left.
      * rewrite visible_with_observers, visible_with_next_ref.
        apply visible_part001_delays.
      * intros w' a. apply visible_observe.
    + intros x Hx.
      apply (observed_fold_left_inv (next_ref (part001_delays (e0 :: els) w)))
        in Hx as [Hx|Hx]; [exact Hx| |].
      * unfold Dom.observed in Hx. simpl in Hx. rewrite lookup_insert_eq in Hx. destruct Hx.
      * intros w' a y Hy. apply observed_observe_inv in Hy. exact Hy.
    + intros cb Hcb. revert Hcb. cbn [frames with_win Dom.requestAnimationFrame with_frames]. rewrite frames_fold_left.
      * cbn [frames with_observers with_next_ref]. rewrite frames_part001_delays, Hfr. simpl.
        intros [<-|[]]. eexists. reflexivity.
      * intros w' a. apply frames_observe.
Qed.

Lemma reveal_run_inv (c : copy) (o : nat) (trace : list reveal_event) (w : world) :
  reveal_inv c o w ->
  Forall (delivers_to o) trace ->
  let w' := fold_left (reveal_step_of c) trace w in
  reveal_inv c o w' /\ grows w w' /\ shrinks w w'.
Proof.
  intros Hinv Htrace. revert w Hinv.
  induction Htrace as [|x trace Hx _ IH]; intros w Hinv; simpl.
  - split; [exact Hinv|split; [apply grows_refl|apply shrinks_refl]].
  - destruct (reveal_step_inv c o w x Hinv Hx) as (Hinv1 & Hg1 & Hs1).
    destruct (IH _ Hinv1) as (Hinv2 & Hg2 & Hs2).
    split; [exact Hinv2|split].
    + eapply grows_trans; eassumption.
    + eapply shrinks_trans; eassumption.
Qed.

(** C5. The first run of [initRevealOnScroll], on a page whose
    [data-reveal] elements are not shown yet, establishes the invariant of
    the reveal mechanism for the observer it records; and along every run
    of the mechanism from a state with the invariant (deliveries to the
    observer callback and animation frames) the invariant is kept, no class
    of any element is ever removed, and no observer ever gets a target
    back.  So an element that is shown is not observed any more: it stays
    revealed and is never reported again. *)
Theorem revealed_stays_revealed (c : copy) (o : nat) :
  (forall ev w,
     reveal_initialised w = false ->
     frames w = [] ->
     (forall e, In e (Dom.querySelectorAll (Simple (Attr "data-reveal")) w) ->
                visible_of c e w = false) ->
     win (initRevealOnScroll_of c ev w) !! "__revealObserver" = Some (Js.Obj o) ->
     reveal_inv c o (initRevealOnScroll_of c ev w))
  /\ (forall trace w,
        reveal_inv c o w ->
        Forall (delivers_to o) trace ->
        let w' := fold_left (reveal_step_of c) trace w in
        reveal_inv c o w' /\ grows w w' /\ shrinks w w').
Proof.
  split.
  - intros ev w. apply init_establishes_inv.
  - intros trace w. apply reveal_run_inv.
Qed.

(** ** Running initRevealOnScroll again *)

Lemma map_elems_ext (f g : edata -> edata) (n : node) :
  (forall d, f d = g d) -> map_elems f n = map_elems g n.
Proof.
  intros H. induction n as [d ks IH|s] using node_ind; simpl; [|reflexivity].
  rewrite H. f_equal. induction IH as [|k ks Hk _ IHks]; simpl; [reflexivity|].
  rewrite Hk, IHks. reflexivity.
Qed.

Lemma map_elems_compose (f g : edata -> edata) (n : node) :
  map_elems f (map_elems g n) = map_elems (fun d => f (g d)) n.
Proof.
  induction n as [d ks IH|s] using node_ind; simpl; [|reflexivity].
  f_equal. rewrite map_map. induction IH as [|k ks Hk _ IHks]; simpl; [reflexivity|].
  rewrite Hk, IHks. reflexivity.
Qed.

Lemma update_all (f : edata -> edata) (els : list nat) (w : world) :
  (forall d, e_id (f d) = e_id d) -> (forall d, f (f d) = f d) ->
  fold_left (fun w el => Dom.update el f w) els w
  = with_dom (map_elems (at_elems els f) (doc w))
             (map (map_elems (at_elems els f)) (detached w)) w.
Proof.
  intros Hid Hidem. revert w. induction els as [|a els IH]; intros w; simpl.
  - destruct w. unfold with_dom. simpl. f_equal.
    + clear. induction doc0 as [d ks IH|s] using node_ind; simpl; [|reflexivity].
      f_equal. induction IH as [|k ks Hk _ IHks]; simpl; [reflexivity|].
      rewrite <- Hk, <- IHks. reflexivity.
    + clear. induction detached0 as [|t ts IHts]; simpl; [reflexivity|].
      rewrite <- IHts. f_equal.
      induction t as [d ks IH|s] using node_ind; simpl; [|reflexivity].
      f_equal. induction IH as [|k ks Hk _ IHks]; simpl; [reflexivity|].
      rewrite <- Hk, <- IHks. reflexivity.
  - rewrite IH. unfold Dom.update, with_dom. simpl. f_equal.
    + rewrite map_elems_compose. apply map_elems_ext. intros d.
      unfold at_elems, at_elem. simpl.
      destruct (decide (e_id d = a)) as [->|Hne].
      * rewrite Hid, Nat.eqb_refl. simpl.
        destruct (existsb _ els); [apply Hidem|reflexivity].
      * destruct (Nat.eqb_spec (e_id d) a); [congruence|]. reflexivity.
    + rewrite map_map. apply map_ext. intros t.
      rewrite map_elems_compose. apply map_elems_ext. intros d.
      unfold at_elems, at_elem. simpl.
      destruct (decide (e_id d = a)) as [->|Hne].
      * rewrite Hid, Nat.eqb_refl. simpl.
        destruct (existsb _ els); [apply Hidem|reflexivity].
      * destruct (Nat.eqb_spec (e_id d) a); [congruence|]. reflexivity.
Qed.

Lemma at_elems_idem (f : edata -> edata) (els : list nat) (d : edata) :
  (forall d, e_id (f d) = e_id d) -> (forall d, f (f d) = f d) ->
  at_elems els f (at_elems els f d) = at_elems els f d.
Proof.
  intros Hid Hidem. unfold at_elems.
  destruct (existsb (Nat.eqb (e_id d)) els) eqn:E.
  - rewrite Hid, E. apply Hidem.
  - rewrite E. reflexivity.
Qed.

Lemma add_token_idem (cs : list string) (c : string) :
  Dom.add_token (Dom.add_token cs c) c = Dom.add_token cs c.
Proof.
  unfold Dom.add_token at 1. rewrite existsb_add_token, String.eqb_refl, orb_true_r.
  reflexivity.
Qed.

Lemma select_attr_at_elems (a : string) (els : list nat) (g : edata -> list string)
    (n : node) :
  select (Simple (Attr a)) [] (map_elems (at_elems els (fun d => Dom.set_classes (g d) d)) n)
  = select (Simple (Attr a)) [] n.
Proof.
  assert (Hid : forall d, e_id (at_elems els (fun d => Dom.set_classes (g d) d) d) = e_id d).
  { intros d. unfold at_elems. destruct (existsb _ els); reflexivity. }
  apply (select_map_elems _ Hid (Simple (Attr a)) n []).
  intros anc d. unfold at_elems. simpl. destruct (existsb _ els); reflexivity.
Qed.

(** Showing everything twice is showing everything once. *)
Lemma add_visible_twice (w : world) :
  let els := Dom.querySelectorAll (Simple (Attr "data-reveal")) w in
  let w1 := fold_left (fun w el => Dom.classList_add el ["is-visible"] w) els w in
  Dom.querySelectorAll (Simple (Attr "data-reveal")) w1 = els
  /\ fold_left (fun w el => Dom.classList_add el ["is-visible"] w) els w1 = w1.
Proof.
  intros els w1.
  set (f := fun d : edata => Dom.set_classes (fold_left Dom.add_token ["is-visible"] (e_classes d)) d).
  assert (Hid : forall d, e_id (f d) = e_id d) by reflexivity.
  assert (Hidem : forall d, f (f d) = f d).
  { intros d. unfold f, Dom.set_classes. simpl. rewrite add_token_idem. reflexivity. }
  assert (Hw1 : w1 = with_dom (map_elems (at_elems els f) (doc w))
                       (map (map_elems (at_elems els f)) (detached w)) w).
  { apply (update_all f els w Hid Hidem). }
  split.
  - rewrite Hw1. unfold Dom.querySelectorAll. simpl doc.
    apply (select_attr_at_elems "data-reveal" els
             (fun d => fold_left Dom.add_token ["is-visible"] (e_classes d))).
  - change (fold_left (fun w el => Dom.update el f w) els w1 = w1).
    rewrite (update_all f els w1 Hid Hidem). rewrite Hw1 at 3.
    rewrite Hw1. unfold with_dom. simpl. f_equal.
    + rewrite map_elems_compose. apply map_elems_ext. intros d.
      apply at_elems_idem; assumption.
    + rewrite map_map. apply map_ext. intros t.
      rewrite map_elems_compose. apply map_elems_ext. intros d.
      apply at_elems_idem; assumption.
Qed.

Lemma recorded_initialised (w : world) (o : nat) :
  win w !! "__revealObserver" = Some (Js.Obj o) -> reveal_initialised w = true.
Proof. intros H. unfold reveal_initialised. rewrite H. reflexivity. Qed.

Lemma init_initialised (c : copy) (ev : env) (w : world) :
  reveal_initialised w = true -> initRevealOnScroll_of c ev w = w.
Proof.
  unfold reveal_initialised. intros H.
  destruct c; simpl;
    unfold MainJs.initRevealOnScroll, Part000.initRevealOnScroll, Part001.initRevealOnScroll;
    rewrite H; reflexivity.
Qed.

Lemma init_twice (c : copy) (ev : env) (w : world) :
  initRevealOnScroll_of c ev (initRevealOnScroll_of c ev w) = initRevealOnScroll_of c ev w.
Proof.
  destruct (reveal_initialised w) eqn:Hi.
  { rewrite (init_initialised c ev w Hi). apply init_initialised, Hi. }
  destruct c.
  - apply init_initialised. simpl. rewrite (main_init_eq w Hi). cbv zeta.
    eapply recorded_initialised. apply lookup_insert_eq.
  - destruct (Dom.querySelectorAll (Simple (Attr "data-reveal")) w) as [|e0 els] eqn:E.
    { simpl. rewrite !(part000_init_eq ev w Hi), E. rewrite (part000_init_eq ev w Hi), E.
      reflexivity. }
    destruct (reduced_motion ev) eqn:Hr.
    + simpl. rewrite (part000_init_eq ev w Hi), E, Hr.
      destruct (add_visible_twice w) as [Hq Hf]. rewrite E in Hq, Hf. cbv zeta in Hq, Hf.
      rewrite part000_init_eq.
      * rewrite Hq, Hr. exact Hf.
      * unfold reveal_initialised.
        rewrite (fold_left_preserves win) by reflexivity. exact Hi.
    + apply init_initialised.
      destruct (init_records Part000Copy ev w e0 Hi) as (o & Hwin & _).
      * rewrite E. left. reflexivity.
      * simpl. rewrite Hr. reflexivity.
      * eapply recorded_initialised, Hwin.
  - destruct (Dom.querySelectorAll (Simple (Attr "data-reveal")) w) as [|e0 els] eqn:E.
    { simpl. rewrite !(part001_init_eq ev w Hi), E. rewrite (part001_init_eq ev w Hi), E.
      reflexivity. }
    destruct (reduced_motion ev) eqn:Hr.
    + simpl. rewrite (part001_init_eq ev w Hi), E, Hr. cbv zeta.
      destruct (add_visible_twice w) as [Hq Hf]. rewrite E in Hq, Hf. cbv zeta in Hq, Hf.
      rewrite part001_init_eq.
      * rewrite Hq, Hr. exact Hf.
      * unfold reveal_initialised.
        rewrite (fold_left_preserves win) by reflexivity. exact Hi.
    + apply init_initialised.
      destruct (init_records Part001Copy ev w e0 Hi) as (o & Hwin & _).
      * rewrite E. left. reflexivity.
      * simpl. rewrite Hr. reflexivity.
      * eapply recorded_initialised, Hwin.
Qed.

(** C9. Once [window.__revealObserver] holds the observer, a call of
    [initRevealOnScroll] changes nothing at all; and in every case calling
    it twice leaves the same world as calling it once. *)
Theorem initRevealOnScroll_idempotent (c : copy) (ev : env) (w : world) :
  (forall o ev', win w !! "__revealObserver" = Some (Js.Obj o) ->
                 initRevealOnScroll_of c ev' w = w)
  /\ (forall ev', reveal_initialised (initRevealOnScroll_of c ev w) = true ->
                  initRevealOnScroll_of c ev' (initRevealOnScroll_of c ev w)
                  = initRevealOnScroll_of c ev w)
  /\ initRevealOnScroll_of c ev (initRevealOnScroll_of c ev w) = initRevealOnScroll_of c ev w.
Proof.
  split; [|split].
  - intros o ev' H. apply init_initialised. eapply recorded_initialised, H.
  - intros ev' H. apply init_initialised, H.
  - apply init_twice.
Qed.

(** ** Replacing an element by parsed markup *)

Lemma replace_child_removes (e : nat) (new : list node) (n : node) :
  (forall d ks, n = Elem d ks -> e_id d <> e) ->
  ~ In e (flat_map ids new) ->
  ~ In e (ids (replace_child e new n)).
Proof.
  intros Hroot Hnew. induction n as [d ks IH|s] using node_ind; simpl; [|tauto].
  intros [H|H]; [eapply Hroot; eauto|].
  clear Hroot. induction IH as [|k ks Hk _ IHks]; simpl in H; [exact H|].
  rewrite flat_map_app in H. apply in_app_or in H as [H|H]; [|apply IHks, H].
  destruct k as [dk kks|s]; simpl in H; [|exact H].
  destruct (decide (e_id dk = e)) as [Heq|Hne]; [apply Hnew, H|].
  simpl in H. rewrite app_nil_r in H.
  apply Hk; [|exact H]. intros d' ks' [= -> ->]. exact Hne.
Qed.

Lemma replace_child_inserts (e : nat) (new : list node) (n : node) (p : nat)
    (anc : list nat) (x : nat) :
  ancestors_in e n = Some (p :: anc) ->
  In x (flat_map ids new) -> In x (ids (replace_child e new n)).
Proof.
  intros Hanc Hx. revert p anc Hanc.
  induction n as [d ks IH|s] using node_ind; intros p anc; simpl; [|discriminate].
  destruct (decide (e_id d = e)); [discriminate|].
  intros Hanc. right.
  destruct (first_some (ancestors_in e) ks) as [anc'|] eqn:E; [|discriminate].
  clear Hanc. induction IH as [|k ks Hk _ IHks]; simpl in E; [discriminate|].
  simpl. rewrite flat_map_app. apply in_or_app.
  destruct (ancestors_in e k) as [a|] eqn:Ek.
  - left. destruct k as [dk kks|s]; [|discriminate].
    destruct (decide (e_id dk = e)) as [Heq|Hne]; [exact Hx|].
    simpl. rewrite app_nil_r.
    destruct a as [|p' a'']; [|apply (Hk p' a'' eq_refl)].
    exfalso. simpl in Ek. destruct (decide (e_id dk = e)); [congruence|].
    destruct (first_some (ancestors_in e) kks) as [[|y l]|]; simpl in Ek; discriminate.
  - right. apply IHks, E.
Qed.

Lemma relabel_fold (m : nat) (ks : list node) (acc : list node * nat) :
  Forall (fun k => forall n, n <= snd (relabel n k)
                             /\ forall x, In x (ids (fst (relabel n k))) -> n <= x) ks ->
  m <= snd acc -> (forall x, In x (flat_map ids (fst acc)) -> m <= x) ->
  let r := fold_left (fun acc k => let r := relabel (snd acc) k in
                                   (fst acc ++ [fst r], snd r)) ks acc in
  m <= snd r /\ (forall x, In x (flat_map ids (fst r)) -> m <= x).
Proof.
  intros Hks. revert acc. induction Hks as [|k ks Hk _ IH]; intros acc Hm Hacc; simpl.
  - auto.
  - destruct (Hk (snd acc)) as [Hn Hx]. apply IH; simpl.
    + lia.
    + intros x H. rewrite flat_map_app in H. apply in_app_or in H as [H|H]; [auto|].
      simpl in H. rewrite app_nil_r in H. apply Hx in H. lia.
Qed.

Lemma relabel_fresh (t : node) (n : nat) :
  n <= snd (relabel n t) /\ forall x, In x (ids (fst (relabel n t))) -> n <= x.
Proof.
  revert n. induction t as [d ks IH|s] using node_ind; intros n; simpl; [|split; [lia|tauto]].
  destruct (relabel_fold (S n) ks ([], S n) IH) as [H1 H2]; [simpl; lia|simpl; tauto|].
  cbv zeta in H1, H2.
  split; [lia|]. intros x [<-|H]; [lia|]. apply H2 in H. lia.
Qed.

Lemma relabel_all_fresh (ns : list node) (n x : nat) :
  In x (flat_map ids (fst (relabel_all n ns))) -> n <= x.
Proof.
  unfold relabel_all. intros H.
  destruct (relabel_fold n ns ([], n)) as [_ H2]; [|simpl; lia|simpl; tauto|auto].
  apply Forall_forall. intros k _ m. apply relabel_fresh.
Qed.

(** What the setter does to an element that sits below the root of the
    document. *)
Lemma set_outerHTML_in_document (ev : env) (e : nat) (html : string) (w : world)
    (p : nat) (anc : list nat) :
  ancestors_in e (doc w) = Some (p :: anc) ->
  e < next_ref w ->
  let frag := fst (relabel_all (next_ref w) (parseHTML ev html)) in
  Dom.set_outerHTML ev e html w = Return (Dom.replace_with ev e html w)
  /\ doc (Dom.replace_with ev e html w) = replace_child e frag (doc w)
  /\ ~ In e (ids (doc (Dom.replace_with ev e html w)))
  /\ (forall x, In x (flat_map ids frag) -> In x (ids (doc (Dom.replace_with ev e html w)))).
Proof.
  intros Hanc Hlt frag.
  assert (Hfresh : ~ In e (flat_map ids frag)).
  { intros H. apply relabel_all_fresh in H. lia. }
  assert (Hroot : forall d ks, doc w = Elem d ks -> e_id d <> e).
  { intros d ks Hd Heq. rewrite Hd in Hanc. simpl in Hanc.
    destruct (decide (e_id d = e)); [discriminate|congruence]. }
  split; [|split; [|split]].
  - unfold Dom.set_outerHTML, Dom.ancestors, Dom.trees. simpl. rewrite Hanc. reflexivity.
  - reflexivity.
  - simpl. apply replace_child_removes; assumption.
  - intros x Hx. simpl. eapply replace_child_inserts; eassumption.
Qed.

(** ** injectPartial *)

Lemma injectPartial_chain_eq (outlet : nat) (url : string) (after : callback)
    (ev : env) (fo : fetched) (w' : world) :
  let fail := fun err w =>
    (Fulfilled false, Dom.console_error ("Failed to inject " ++ url ++ ":")%string err w) in
  Shared.injectPartial_chain outlet url after ev fo w'
  = match fo with
    | NetworkError err => fail err w'
    | Responded res =>
        if r_ok res then
          match r_text res with
          | Rejected err => fail err w'
          | Fulfilled html =>
              match Dom.set_outerHTML ev outlet html w' with
              | Throws err w1 => fail err w1
              | Return w1 =>
                  match after with
                  | None => (Fulfilled true, w1)
                  | Some f =>
                      match f ev w1 with
                      | Return w2 => (Fulfilled true, w2)
                      | Throws err w2 => fail err w2
                      end
                  end
              end
          end
        else fail ("HTTP " ++ pretty (r_status res) ++ " for " ++ url)%string w'
    end.
Proof.
  intros fail. unfold Shared.injectPartial_chain, then_, catch_.
  destruct fo as [err|res]; simpl; [reflexivity|].
  destruct (r_ok res); simpl; [|reflexivity].
  destruct (r_text res) as [html|err]; simpl; [|reflexivity].
  destruct (Dom.set_outerHTML ev outlet html w') as [w1|err w1]; simpl; [|reflexivity].
  destruct after as [f|]; simpl; [|reflexivity].
  destruct (f ev w1); reflexivity.
Qed.

(** C1 (amended). When an element matches [outletSel], the response is ok
    and its body is read, the placeholder is still in the document below
    the root element when the response arrives, and the [after] callback
    (if it is a function) returns normally on the world after the
    replacement, then: the placeholder is replaced by the parsed markup
    (it is gone from the document, the markup is in), [after] has run once
    on that world, and the promise resolves to [true]. *)
Theorem injectPartial_success (outletSel : selector) (url : string) (after : callback)
    (w : world) (outlet : nat) (ev : env) (res : response) (html : string)
    (w' : world) (p : nat) (anc : list nat) :
  Dom.querySelector outletSel w = Some outlet ->
  r_ok res = true -> r_text res = Fulfilled html ->
  ancestors_in outlet (doc w') = Some (p :: anc) ->
  outlet < next_ref w' ->
  (forall f, after = Some f ->
             exists w2, f ev (Dom.replace_with ev outlet html w') = Return w2) ->
  let w1 := Dom.replace_with ev outlet html w' in
  let frag := fst (relabel_all (next_ref w') (parseHTML ev html)) in
  exists k,
    Shared.injectPartial outletSel url after w = Pending k
    /\ k ev (Responded res) w'
       = (Fulfilled true, match after with Some f => world_of (f ev w1) | None => w1 end)
    /\ doc w1 = replace_child outlet frag (doc w')
    /\ ~ In outlet (ids (doc w1))
    /\ (forall x, In x (flat_map ids frag) -> In x (ids (doc w1))).
Proof.
  intros Hq Hok Htext Hanc Hlt Hafter w1 frag.
  destruct (set_outerHTML_in_document ev outlet html w' p anc Hanc Hlt)
    as (Hset & Hdoc & Hgone & Hin).
  exists (Shared.injectPartial_chain outlet url after). split; [|split; [|split; [|split]]].
  - unfold Shared.injectPartial. rewrite Hq. reflexivity.
  - rewrite injectPartial_chain_eq. cbv zeta. rewrite Hok, Htext, Hset.
    destruct after as [f|]; [|reflexivity].
    destruct (Hafter f eq_refl) as [w2 Hw2]. unfold w1. rewrite Hw2. reflexivity.
  - exact Hdoc.
  - exact Hgone.
  - exact Hin.
Qed.

(** C8 (amended).  Called with text that is no selector, [injectPartial]
    throws and returns no promise.  Called with a selector, it returns a
    promise that never rejects: the promise resolves to a boolean whatever
    happens.  It resolves to [false] when nothing matches [outletSel], when
    the fetch fails, the response is not ok or its body cannot be read, and
    when the placeholder is the root element; in these cases the document
    is untouched and [after] has not run (the world only gains a console
    line). *)
Theorem injectPartial_never_rejects (outletSel : selector_text) (url : string)
    (after : callback) (w : world) :
  (forall text, outletSel = NoSelector text ->
     exists err, Shared.injectPartial_call outletSel url after w = inl err)
  /\ (forall sel, outletSel = Selects sel -> Dom.querySelector sel w = None ->
       Shared.injectPartial_call outletSel url after w = inr (Resolved false))
  /\ (forall sel outlet, outletSel = Selects sel -> Dom.querySelector sel w = Some outlet ->
      exists k, Shared.injectPartial_call outletSel url after w = inr (Pending k)
      /\ forall ev fo w',
           (exists b, fst (k ev fo w') = Fulfilled b)
           /\ (fetch_fails fo ->
               exists err, k ev fo w'
                 = (Fulfilled false,
                    Dom.console_error ("Failed to inject " ++ url ++ ":")%string err w'))
           /\ (forall res html err w1,
                 fo = Responded res -> r_ok res = true -> r_text res = Fulfilled html ->
                 Dom.set_outerHTML ev outlet html w' = Throws err w1 ->
                 w1 = w'
                 /\ k ev fo w'
                    = (Fulfilled false,
                       Dom.console_error ("Failed to inject " ++ url ++ ":")%string err w'))).
Proof.
  split; [|split].
  - intros text ->. simpl. eauto.
  - intros sel -> Hq. simpl. unfold Shared.injectPartial. rewrite Hq. reflexivity.
  - intros sel outlet -> Hq. exists (Shared.injectPartial_chain outlet url after).
    split; [simpl; unfold Shared.injectPartial; rewrite Hq; reflexivity|].
    intros ev fo w'. rewrite injectPartial_chain_eq. cbv zeta.
    split; [|split].
    + destruct fo as [err|res]; [eauto|].
      destruct (r_ok res); [|eauto].
      destruct (r_text res) as [html|err]; [|eauto].
      destruct (Dom.set_outerHTML ev outlet html w') as [w1|err w1]; [|eauto].
      destruct after as [f|]; [|eauto].
      destruct (f ev w1); eauto.
    + destruct fo as [err|res]; simpl; [eauto|].
      intros [Hok|[err Herr]].
      * rewrite Hok. eauto.
      * rewrite Herr. destruct (r_ok res); eauto.
    + intros res html err w1 -> Hok Htext Hset. rewrite Hok, Htext, Hset.
      assert (w1 = w') as ->; [|auto].
      unfold Dom.set_outerHTML in Hset.
      destruct (Dom.ancestors outlet w') as [[|a l]|]; try discriminate.
      destruct (ancestors_in outlet (doc w')) as [[|a l]|]; try discriminate.
      injection Hset as _ <-. reflexivity.
Qed.

Lemma injectPartial_success_witness :
  exists k,
    Shared.injectPartial (Simple (Attr "data-footer")) "partials/footer.html"
      (Some (fun ev w => Return (Shared.initFooterYear ev w))) Sample.start = Pending k
    /\ fst (k Sample.home (Sample.ok_response "<footer></footer>") Sample.start)
       = Fulfilled true
    /\ ~ In 9 (ids (doc (Dom.replace_with Sample.home 9 "<footer></footer>" Sample.start))).
Proof.
  destruct (injectPartial_success (Simple (Attr "data-footer")) "partials/footer.html"
              (Some (fun ev w => Return (Shared.initFooterYear ev w))) Sample.start 9
              Sample.home (mk_response true 200 (Fulfilled "<footer></footer>"))
              "<footer></footer>" Sample.start 1 [0])
    as (k & Hk & Hr & _ & Hgone & _).
  - vm_compute. reflexivity.
  - reflexivity.
  - reflexivity.
  - vm_compute. reflexivity.
  - vm_compute. lia.
  - intros f [= <-]. eexists. reflexivity.
  - exists k. split; [exact Hk|]. split; [|exact Hgone].
    unfold Sample.ok_response. rewrite Hr. reflexivity.
Defined.

(** C1 as stated fails: a placeholder exists and the fetch succeeds with an
    ok response, yet the promise resolves to [false], because [after]
    threw and the final [catch] took it. *)
Lemma injectPartial_after_throws :
  Dom.querySelector (Simple (Attr "data-footer")) Sample.start = Some 9
  /\ match Shared.injectPartial (Simple (Attr "data-footer")) "partials/footer.html"
             Sample.throwing_after Sample.start with
     | Pending k =>
         fst (k Sample.home (Sample.ok_response "<footer></footer>") Sample.start)
         = Fulfilled false
     | Resolved _ => False
     end.
Proof. vm_compute. split; reflexivity. Qed.

(** The same happens without any callback when the placeholder is the
    root element: the setter throws and nothing is replaced. *)
Lemma injectPartial_root_placeholder :
  Dom.querySelector (Simple (Tag "html")) Sample.start = Some 0
  /\ match Shared.injectPartial (Simple (Tag "html")) "partials/footer.html" None
             Sample.start with
     | Pending k =>
         fst (k Sample.home (Sample.ok_response "<footer></footer>") Sample.start)
         = Fulfilled false
         /\ doc (snd (k Sample.home (Sample.ok_response "<footer></footer>") Sample.start))
            = doc Sample.start
     | Resolved _ => False
     end.
Proof. vm_compute. repeat split; reflexivity. Qed.

(** A response that is ok but whose body cannot be read gives [false]
    as well. *)
Lemma injectPartial_unreadable_body :
  match Shared.injectPartial (Simple (Attr "data-footer")) "partials/footer.html" None
          Sample.start with
  | Pending k =>
      k Sample.home (Responded (mk_response true 200 (Rejected "aborted"))) Sample.start
      = (Fulfilled false,
         Dom.console_error "Failed to inject partials/footer.html:" "aborted" Sample.start)
  | Resolved _ => False
  end.
Proof. vm_compute. reflexivity. Qed.

(** A placeholder that has lost its parent by the time the response
    arrives (here the body was emptied meanwhile) is not replaced: the
    setter does nothing, and the promise still resolves to [true]. *)
Lemma injectPartial_detached_placeholder :
  let w' := Dom.set_textContent 1 "" Sample.start in
  match Shared.injectPartial (Simple (Attr "data-footer")) "partials/footer.html" None
          Sample.start with
  | Pending k =>
      Dom.ancestors 9 w' = Some []
      /\ k Sample.home (Sample.ok_response "<footer></footer>") w' = (Fulfilled true, w')
  | Resolved _ => False
  end.
Proof. vm_compute. split; reflexivity. Qed.

Lemma injectPartial_never_rejects_witness :
  (exists err,
     Shared.injectPartial_call (NoSelector "[data-footer") "partials/footer.html"
       Sample.throwing_after Sample.start = inl err)
  /\ exists k,
       Shared.injectPartial_call (Selects (Simple (Attr "data-footer")))
         "partials/footer.html" Sample.throwing_after Sample.start = inr (Pending k)
       /\ exists err,
            k Sample.home (NetworkError "offline") Sample.start
            = (Fulfilled false,
               Dom.console_error "Failed to inject partials/footer.html:" err Sample.start).
Proof.
  split.
  - apply (proj1 (injectPartial_never_rejects (NoSelector "[data-footer")
                    "partials/footer.html" Sample.throwing_after Sample.start)
             "[data-footer" eq_refl).
  - destruct (proj2 (proj2 (injectPartial_never_rejects
                              (Selects (Simple (Attr "data-footer")))
                              "partials/footer.html" Sample.throwing_after Sample.start))
                (Simple (Attr "data-footer")) 9 eq_refl)
      as (k & Hk & H).
    + vm_compute. reflexivity.
    + exists k. split; [exact Hk|].
      destruct (H Sample.home (NetworkError "offline") Sample.start) as (_ & Hfail & _).
      apply Hfail. exact I.
Defined.

(** C8 as stated fails for a string that is no selector, too: the call
    throws, whatever the page and the network, and no promise is
    returned. *)
Lemma injectPartial_throws_on_bad_selector :
  Shared.injectPartial_call (NoSelector "[data-footer") "partials/footer.html" None
    Sample.start
  = inl "SyntaxError: '[data-footer' is not a valid selector".
Proof. reflexivity. Qed.

(** C8 as stated fails: the promise resolves to [false] although the
    placeholder has been replaced and [after] has run (it left its mark). *)
Lemma injectPartial_false_after_replacing :
  match Shared.injectPartial (Simple (Attr "data-footer")) "partials/footer.html"
          Sample.throwing_after Sample.start with
  | Pending k =>
      let r := k Sample.home (Sample.ok_response "<footer></footer>") Sample.start in
      fst r = Fulfilled false
      /\ In 9 (ids (doc Sample.start)) /\ ~ In 9 (ids (doc (snd r)))
      /\ Dom.getAttribute 0 "data-after" (snd r) = Some "ran"
  | Resolved _ => False
  end.
Proof.
  vm_compute. split; [reflexivity|]. split; [tauto|]. split; [|reflexivity].
  intros H. repeat (destruct H as [H|H]; [discriminate|]). exact H.
Qed.

(** ** Instances on the sample page *)

Lemma on_idempotent_witness :
  let w := Part000.initHeaderBehaviors Sample.home Sample.start in
  Shared.on (Element 5) "click" (101, MenuClick 5 6) None
    (Shared.on (Element 5) "click" (101, MenuClick 5 6) None w)
  = Shared.on (Element 5) "click" (101, MenuClick 5 6) None w
  /\ List.length
       (List.filter (Dom.same_listener (Element 5) "click" 101 false)
          (listeners (Shared.on (Element 5) "click" (101, MenuClick 5 6) None w))) = 1.
Proof.
  apply (on_idempotent (Element 5) "click" (101, MenuClick 5 6) None
           (Part000.initHeaderBehaviors Sample.home Sample.start)).
  unfold listeners_ok. apply (bool_decide_unpack _). vm_compute. reflexivity.
Defined.

(** C10 as stated fails: a registration of the handler for the capture
    phase is another registration, which [on] without options does not
    remove; after [on], called once or twice, the handler is registered
    twice for the same event type on the same target. *)
Lemma on_registers_twice_across_capture :
  let w := Dom.addEventListener (Element 5) "click" (101, MenuClick 5 6)
             (Some (mk_options true false false)) Sample.start in
  let w1 := Shared.on (Element 5) "click" (101, MenuClick 5 6) None w in
  listeners_ok w
  /\ map (fun l => (l_target l, l_type l, l_fn l)) (listeners w1)
     = [(Element 5, "click", 101); (Element 5, "click", 101)]
  /\ Shared.on (Element 5) "click" (101, MenuClick 5 6) None w1 = w1.
Proof.
  split; [|split].
  - unfold listeners_ok. apply (bool_decide_unpack _). vm_compute. reflexivity.
  - reflexivity.
  - reflexivity.
Qed.



(** The same in part_000 and part_001, where the block that came with the
    footer is element 106. *)
Lemma injected_block_never_observed_parts :
  let boot c := boot_complete_of c true Sample.home Sample.home (NetworkError "offline")
                  reveal_footer (Sample.ok_response "<footer>") Sample.start in
  let later c := fold_left (reveal_step_of c)
                   [Deliver 100 [mk_entry 8 true]; Frame reveal_footer] (boot c) in
  let unseen c :=
    Dom.querySelectorAll (Simple (Attr "data-reveal")) (boot c) = [8; 106]
    /\ Dom.observed 100 (boot c) = [8]
    /\ initRevealOnScroll_of c reveal_footer (boot c) = boot c
    /\ visible_of c 8 (later c) = true
    /\ visible_of c 106 (later c) = false in
  unseen Part000Copy /\ unseen Part001Copy.
Proof. vm_compute. repeat split; reflexivity. Qed.

Lemma revealed_stays_revealed_witness :
  let w := initRevealOnScroll_of MainCopy Sample.home Sample.start in
  let w' := fold_left (reveal_step_of MainCopy)
              [Deliver 100 [mk_entry 8 true]; Frame Sample.home] w in
  reveal_inv MainCopy 100 w' /\ grows w w' /\ shrinks w w'.
Proof.
  apply (proj2 (revealed_stays_revealed MainCopy 100)
           [Deliver 100 [mk_entry 8 true]; Frame Sample.home]
           (initRevealOnScroll_of MainCopy Sample.home Sample.start)).
  - apply (proj1 (revealed_stays_revealed MainCopy 100) Sample.home Sample.start).
    + reflexivity.
    + reflexivity.
    + intros e He. vm_compute in He. destruct He as [<-|[]]. reflexivity.
    + reflexivity.
  - repeat constructor.
Defined.

Lemma initRevealOnScroll_idempotent_witness :
  initRevealOnScroll_of MainCopy Sample.home (MainJs.initRevealOnScroll Sample.start)
  = MainJs.initRevealOnScroll Sample.start.
Proof.
  apply (proj1 (initRevealOnScroll_idempotent MainCopy Sample.home
                  (MainJs.initRevealOnScroll Sample.start)) 100 Sample.home).
  vm_compute. reflexivity.
Defined.

(** ** What the boot sequence writes on [window] *)

Lemma win_on (t : target) (ty : string) (h : nat * closure) (opts : option options)
    (w : world) :
  win (Shared.on t ty h opts w) = win w.
Proof. unfold Shared.on. rewrite win_addEventListener. reflexivity. Qed.

Lemma win_set_textContent (e : nat) (s : string) (w : world) :
  win (Dom.set_textContent e s w) = win w.
Proof.
  unfold Dom.set_textContent. destruct (Dom.find_elem e w) as [[d ks|t]|]; reflexivity.
Qed.

Lemma win_initFooterYear (ev : env) (w : world) :
  win (Shared.initFooterYear ev w) = win w.
Proof. apply fold_left_preserves. intros. apply win_set_textContent. Qed.

Lemma win_bootInlineFooterIfPresent (ev : env) (w : world) :
  win (Shared.bootInlineFooterIfPresent ev w) = win w.
Proof.
  unfold Shared.bootInlineFooterIfPresent.
  destruct (Dom.querySelector _ w); [apply win_initFooterYear|reflexivity].
Qed.

Lemma win_set_outerHTML (ev : env) (e : nat) (html : string) (w : world) :
  win (world_of (Dom.set_outerHTML ev e html w)) = win w.
Proof.
  unfold Dom.set_outerHTML. destruct (Dom.ancestors e w) as [[|a l]|]; try reflexivity.
  destruct (ancestors_in e (doc w)) as [[|a l]|]; reflexivity.
Qed.

Lemma win_injectPartial_chain (outlet : nat) (url : string) (after : callback)
    (ev : env) (fo : fetched) (w : world) :
  (forall f ev w, after = Some f -> win (world_of (f ev w)) = win w) ->
  win (snd (Shared.injectPartial_chain outlet url after ev fo w)) = win w.
Proof.
  intros Hafter. rewrite injectPartial_chain_eq. cbv zeta.
  destruct fo as [err|res]; [reflexivity|].
  destruct (r_ok res); [|reflexivity].
  destruct (r_text res) as [html|err]; [|reflexivity].
  pose proof (win_set_outerHTML ev outlet html w) as Hset.
  destruct (Dom.set_outerHTML ev outlet html w) as [w1|err w1]; simpl in Hset;
    [|simpl; exact Hset].
  destruct after as [f|]; [|exact Hset].
  pose proof (Hafter f ev w1 eq_refl) as Hf.
  destruct (f ev w1) as [w2|err w2]; simpl in *; congruence.
Qed.

Lemma win_then_inject (sel : selector) (url : string) (after inline : env -> world -> world)
    (w0 : world) (ev : env) (fo : fetched) (w : world) :
  (forall ev w, win (after ev w) = win w) ->
  (forall ev w, win (inline ev w) = win w) ->
  win (run_job
         (then_do (Shared.injectPartial sel url (Some (fun ev w => Return (after ev w))) w0)
            (fun injected ev w => if negb injected then inline ev w else w))
         ev fo w) = win w.
Proof.
  intros Hafter Hinline. unfold Shared.injectPartial.
  destruct (Dom.querySelector sel w0) as [outlet|]; simpl.
  - pose proof (win_injectPartial_chain outlet url
                  (Some (fun ev w => Return (after ev w))) ev fo w) as H.
    destruct (Shared.injectPartial_chain outlet url _ ev fo w) as [[b|err] w1]; simpl in *.
    + destruct b; simpl; [|rewrite Hinline]; apply H; intros f ev' w' [= <-]; apply Hafter.
    + apply H. intros f ev' w' [= <-]. apply Hafter.
  - apply Hinline.
Qed.

Lemma win_settle (after inline : env -> world -> world) (w0 : world)
    (header_first : bool) (ev_h : env) (fo_h : fetched) (ev_f : env) (fo_f : fetched)
    (w : world) :
  (forall ev w, win (after ev w) = win w) ->
  (forall ev w, win (inline ev w) = win w) ->
  win (Shared.settle (Shared.injectHeaderAndFooter after inline w0) header_first
         ev_h fo_h ev_f fo_f w) = win w.
Proof.
  intros Hafter Hinline. unfold Shared.settle, Shared.injectHeaderAndFooter. simpl.
  destruct (Shared.header_goes_first _ _ header_first).
  - rewrite (win_then_inject _ _ Shared.initFooterYear Shared.bootInlineFooterIfPresent)
      by (intros; apply win_initFooterYear || apply win_bootInlineFooterIfPresent).
    apply win_then_inject; assumption.
  - rewrite (win_then_inject _ _ after inline) by assumption.
    apply win_then_inject; intros;
      [apply win_initFooterYear|apply win_bootInlineFooterIfPresent].
Qed.

Lemma win_classList_toggle (e : nat) (c : string) (b : bool) (w : world) :
  win (Dom.classList_toggle e c b w) = win w.
Proof. destruct b; reflexivity. Qed.

Lemma win_main_initHeaderBehaviors (ev : env) (w : world) :
  win (MainJs.initHeaderBehaviors ev w) = win w.
Proof.
  unfold MainJs.initHeaderBehaviors, fresh. cbv beta iota zeta.
  assert (H : forall h w, win (MainJs.onScroll h ev w) = win w).
  { intros [h|] w'; simpl; [|reflexivity]. destruct (Js.gt _ _); reflexivity. }
  destruct (Dom.querySelector (Simple (Attr "data-mobile-btn")) w) as [b|];
    [destruct (Dom.querySelector (Simple (Attr "data-mobile-menu")) w) as [m|]|];
    rewrite ?win_on; simpl; rewrite H, win_on; reflexivity.
Qed.

Lemma win_main_bootInlineHeaderIfPresent (ev : env) (w : world) :
  win (MainJs.bootInlineHeaderIfPresent ev w) = win w.
Proof.
  unfold MainJs.bootInlineHeaderIfPresent.
  destruct (Dom.querySelector _ w); [apply win_main_initHeaderBehaviors|reflexivity].
Qed.

Lemma win_initFloatingLabels (w : world) : win (MainJs.initFloatingLabels w) = win w.
Proof.
  apply fold_left_preserves. intros w' wrap.
  destruct (Dom.elem_querySelector wrap _ w') as [input|]; [|reflexivity].
  destruct (Dom.elem_querySelector wrap _ w') as [label|]; [|reflexivity].
  unfold fresh. cbv beta iota zeta. unfold MainJs.floatToggle.
  destruct (negb _); simpl; rewrite !win_on; reflexivity.
Qed.

Lemma win_part000_initHeaderBehaviors (ev : env) (w : world) :
  win (Part000.initHeaderBehaviors ev w) = win w.
Proof.
  unfold Part000.initHeaderBehaviors, fresh. cbv beta iota zeta.
  assert (H : forall h w, win (Part000.updateCondensedState h ev w) = win w).
  { intros [h|] w'; simpl; [apply win_classList_toggle|reflexivity]. }
  destruct (Dom.querySelector (Simple (Attr "data-mobile-btn")) w) as [b|];
    [destruct (Dom.querySelector (Simple (Attr "data-mobile-menu")) w) as [m|]|];
    rewrite ?win_on; simpl; try (rewrite H, win_on; reflexivity).
  rewrite (fold_left_preserves win).
  - rewrite win_on. simpl. rewrite H, win_on. reflexivity.
  - intros w' link. rewrite win_on. reflexivity.
Qed.

Lemma win_markActiveNav (ev : env) (w : world) : win (Part000.markActiveNav ev w) = win w.
Proof.
  unfold Part000.markActiveNav. destruct (Dom.querySelector _ w) as [h|]; [|reflexivity].
  apply fold_left_preserves. intros w' link. destruct (_ || _); reflexivity.
Qed.

Lemma win_part000_headerAfter (ev : env) (w : world) : win (Part000.headerAfter ev w) = win w.
Proof.
  unfold Part000.headerAfter. rewrite win_markActiveNav. apply win_part000_initHeaderBehaviors.
Qed.

Lemma win_part000_bootInlineHeaderIfPresent (ev : env) (w : world) :
  win (Part000.bootInlineHeaderIfPresent ev w) = win w.
Proof.
  unfold Part000.bootInlineHeaderIfPresent.
  destruct (Dom.querySelector _ w); [apply win_part000_headerAfter|reflexivity].
Qed.

Lemma win_with_win (g : gmap string Js.value) (w : world) : win (with_win g w) = g.
Proof. reflexivity. Qed.

Lemma win_requestAnimationFrame (cb : frame_cb) (w : world) :
  win (Dom.requestAnimationFrame cb w) = win w.
Proof. reflexivity. Qed.

Lemma win_new_observer (w : world) (os : gmap nat (list nat)) (n : nat) :
  win (with_observers os (with_next_ref n w)) = win w.
Proof. reflexivity. Qed.

(** [initRevealOnScroll] writes [window.__revealObserver] and no other
    property of [window]. *)
Lemma win_initRevealOnScroll (c : copy) (ev : env) (w : world) (k : string) :
  k <> "__revealObserver" ->
  win (initRevealOnScroll_of c ev w) !! k = win w !! k.
Proof.
  intros Hk. destruct (reveal_initialised w) eqn:Hi.
  { rewrite init_initialised by exact Hi. reflexivity. }
  destruct c; cbn [initRevealOnScroll_of].
  - rewrite (main_init_eq w Hi). cbv zeta. rewrite win_with_win.
    rewrite lookup_insert_ne by congruence.
    rewrite (fold_left_preserves win); [reflexivity|].
    intros w' el. rewrite win_observe. reflexivity.
  - rewrite (part000_init_eq ev w Hi).
    destruct (Dom.querySelectorAll _ w) as [|e0 els]; [reflexivity|].
    destruct (reduced_motion ev).
    + rewrite (fold_left_preserves win); reflexivity.
    + cbv zeta. rewrite win_with_win. rewrite lookup_insert_ne by congruence.
      rewrite (foldi_preserves win); [reflexivity|].
      intros w' el i. rewrite win_observe.
      destruct (Part000.reveal_delay el i w'); reflexivity.
  - rewrite (part001_init_eq ev w Hi).
    destruct (Dom.querySelectorAll _ w) as [|e0 els]; [reflexivity|].
    destruct (reduced_motion ev).
    + rewrite (fold_left_preserves win); reflexivity.
    + cbv zeta. rewrite win_with_win. rewrite lookup_insert_ne by congruence.
      rewrite win_requestAnimationFrame.
      rewrite (fold_left_preserves win) by (intros; apply win_observe).
      rewrite win_new_observer. unfold part001_delays.
      rewrite (fold_left_preserves win); [reflexivity|].
      intros w' g. apply (foldi_preserves win). reflexivity.
Qed.

(** The boot sequence writes one property of [window],
    [__revealObserver], and no other, whatever the network does. *)
Lemma win_boot (c : copy) (header_first : bool) (ev ev_h : env)
    (fo_h : fetched) (ev_f : env) (fo_f : fetched) (w : world) (k : string) :
  k <> "__revealObserver" ->
  win (boot_complete_of c header_first ev ev_h fo_h ev_f fo_f w) !! k = win w !! k.
Proof.
  intros Hk. destruct c; simpl.
  - unfold MainJs.boot_complete, MainJs.boot. simpl.
    rewrite win_settle
      by (intros; apply win_main_initHeaderBehaviors
                  || apply win_main_bootInlineHeaderIfPresent).
    rewrite win_initFloatingLabels.
    apply (win_initRevealOnScroll MainCopy ev w k Hk).
  - unfold Part000.boot_complete, Part000.boot. simpl.
    rewrite win_settle
      by (intros; apply win_part000_headerAfter
                  || apply win_part000_bootInlineHeaderIfPresent).
    apply (win_initRevealOnScroll Part000Copy ev w k Hk).
  - unfold Part001.boot_complete, Part001.script, Part001.boot. simpl.
    rewrite win_settle
      by (intros; apply win_part000_headerAfter
                  || apply win_part000_bootInlineHeaderIfPresent).
    rewrite (win_initRevealOnScroll Part001Copy ev _ k Hk).
    apply (win_initRevealOnScroll Part001Copy ev w k Hk).
Qed.

(** ** The mobile menu *)

Lemma is_Some_classList_toggle (e e' : nat) (c : string) (b : bool) (w : world) :
  is_Some (Dom.data e w) -> is_Some (Dom.data e (Dom.classList_toggle e' c b w)).
Proof. destruct b; apply data_update_is_Some; reflexivity. Qed.

Lemma is_Some_setAttribute (e e' : nat) (n v : string) (w : world) :
  is_Some (Dom.data e w) -> is_Some (Dom.data e (Dom.setAttribute e' n v w)).
Proof. apply data_update_is_Some. reflexivity. Qed.

Lemma main_menuClick_attrs (btn menu : nat) (w : world) :
  is_Some (Dom.data btn w) -> is_Some (Dom.data menu w) ->
  Dom.getAttribute menu "data-open" (MainJs.menuClick btn menu w)
  = Some (Js.String_of_bool (negb (menu_open menu w)))
  /\ Dom.getAttribute btn "aria-expanded" (MainJs.menuClick btn menu w)
     = Some (Js.String_of_bool (negb (menu_open menu w))).
Proof.
  intros Hb Hm. unfold MainJs.menuClick. fold (menu_open menu w). split.
  - rewrite getAttribute_setAttribute_ne by (right; discriminate).
    rewrite !getAttribute_classList_toggle. apply getAttribute_setAttribute, Hm.
  - apply getAttribute_setAttribute.
    do 2 apply is_Some_classList_toggle. apply is_Some_setAttribute, Hb.
Qed.

Lemma setMenuState_attrs (btn menu : nat) (open : bool) (w : world) :
  is_Some (Dom.data btn w) -> is_Some (Dom.data menu w) ->
  Dom.getAttribute menu "data-open" (Part000.setMenuState btn menu open w)
  = Some (Js.String_of_bool open)
  /\ Dom.getAttribute btn "aria-expanded" (Part000.setMenuState btn menu open w)
     = Some (Js.String_of_bool open).
Proof.
  intros Hb Hm. unfold Part000.setMenuState.
  set (w2 := Dom.setAttribute btn "aria-expanded" _ _).
  assert (H2 : Dom.getAttribute menu "data-open" w2 = Some (Js.String_of_bool open)
               /\ Dom.getAttribute btn "aria-expanded" w2 = Some (Js.String_of_bool open)).
  { unfold w2. split.
    - rewrite getAttribute_setAttribute_ne by (right; discriminate).
      apply getAttribute_setAttribute, Hm.
    - apply getAttribute_setAttribute, is_Some_setAttribute, Hb. }
  destruct (Dom.body w2) as [b|]; [|exact H2].
  rewrite !getAttribute_classList_toggle. exact H2.
Qed.

Lemma menuClick_attrs (c : copy) (btn menu : nat) (w : world) :
  is_Some (Dom.data btn w) -> is_Some (Dom.data menu w) ->
  Dom.getAttribute menu "data-open" (menuClick_of c btn menu w)
  = Some (Js.String_of_bool (negb (menu_open menu w)))
  /\ Dom.getAttribute btn "aria-expanded" (menuClick_of c btn menu w)
     = Some (Js.String_of_bool (negb (menu_open menu w))).
Proof.
  intros Hb Hm. destruct c; simpl;
    [apply main_menuClick_attrs|apply setMenuState_attrs|apply setMenuState_attrs];
    assumption.
Qed.

Lemma same_frame_refl (w : world) : same_frame w w.
Proof. split; [|split]; auto. Qed.

Lemma same_frame_trans (w1 w2 w3 : world) :
  same_frame w1 w2 -> same_frame w2 w3 -> same_frame w1 w3.
Proof.
  intros (L1 & A1 & D1) (L2 & A2 & D2). split; [|split].
  - congruence.
  - intros e. rewrite A2. apply A1.
  - intros e H. apply D2, D1, H.
Qed.

Lemma same_frame_update (e : nat) (f : edata -> edata) (w : world) :
  (forall d, e_id (f d) = e_id d) -> same_frame w (Dom.update e f w).
Proof.
  intros Hf. split; [reflexivity|split].
  - intros x. apply ancestors_in_map_elems, at_elem_id, Hf.
  - intros x. apply data_update_is_Some, Hf.
Qed.

Lemma same_frame_classList_toggle (e : nat) (c : string) (b : bool) (w : world) :
  same_frame w (Dom.classList_toggle e c b w).
Proof. destruct b; apply same_frame_update; reflexivity. Qed.

Lemma same_frame_setMenuState (btn menu : nat) (open : bool) (w : world) :
  same_frame w (Part000.setMenuState btn menu open w).
Proof.
  unfold Part000.setMenuState.
  set (w2 := Dom.setAttribute btn "aria-expanded" _ _).
  assert (H2 : same_frame w w2).
  { eapply same_frame_trans; apply same_frame_update; reflexivity. }
  destruct (Dom.body w2); [|exact H2].
  eapply same_frame_trans; [exact H2|apply same_frame_classList_toggle].
Qed.

Lemma same_frame_menuClick (c : copy) (btn menu : nat) (w : world) :
  same_frame w (menuClick_of c btn menu w).
Proof.
  destruct c; simpl; try apply same_frame_setMenuState.
  unfold MainJs.menuClick.
  eapply same_frame_trans; [|apply same_frame_update; reflexivity].
  eapply same_frame_trans; [|apply same_frame_classList_toggle].
  eapply same_frame_trans; [|apply same_frame_classList_toggle].
  apply same_frame_update. reflexivity.
Qed.

(** ** Dispatching a click *)

Lemma ancestors_in_not_self (e : nat) (n : node) (anc : list nat) :
  ancestors_in e n = Some anc -> ~ In e anc.
Proof.
  revert anc. induction n as [d ks IH|s] using node_ind; intros anc; simpl; [|discriminate].
  destruct (decide (e_id d = e)) as [|Hne]; [intros [= <-]; tauto|].
  destruct (first_some (ancestors_in e) ks) as [anc'|] eqn:E; [|discriminate].
  intros [= <-] H. apply in_app_or in H as [H|[H|[]]]; [|congruence].
  apply first_some_In in E as (k & Hk & Ek). rewrite Forall_forall in IH.
  apply (IH k (proj2 (list_elem_of_In _ _) Hk) anc' Ek H).
Qed.

Lemma fire_nothing (run : nat -> closure -> env -> world -> world) (ev : env)
    (ty : string) (cap : bool) (t : target) (w : world) :
  List.filter (fun l => bool_decide (l_target l = t) && String.eqb (l_type l) ty
                        && Bool.eqb (l_capture l) cap) (listeners w) = [] ->
  fire run ev ty cap t w = w.
Proof. intros H. unfold fire. rewrite H. reflexivity. Qed.

Lemma fire_nothing_along (run : nat -> closure -> env -> world -> world) (ev : env)
    (ty : string) (cap : bool) (path : list target) (w : world) :
  (forall t, In t path ->
     List.filter (fun l => bool_decide (l_target l = t) && String.eqb (l_type l) ty
                           && Bool.eqb (l_capture l) cap) (listeners w) = []) ->
  fold_left (fun w a => fire run ev ty cap a w) path w = w.
Proof.
  induction path as [|a path IH]; intros H; simpl; [reflexivity|].
  rewrite fire_nothing by (apply H; left; reflexivity).
  apply IH. intros t Ht. apply H. right. exact Ht.
Qed.

Lemma filter_click_listeners (t : target) (cap : bool) (ls : list listener) :
  List.filter (fun l => bool_decide (l_target l = t) && String.eqb (l_type l) "click"
                        && Bool.eqb (l_capture l) cap) ls
  = List.filter (fun l => bool_decide (l_target l = t) && Bool.eqb (l_capture l) cap)
      (List.filter (fun l => String.eqb (l_type l) "click") ls).
Proof.
  induction ls as [|l ls IH]; simpl; [reflexivity|].
  destruct (String.eqb (l_type l) "click"); simpl; rewrite IH.
  - rewrite andb_true_r. reflexivity.
  - rewrite andb_false_r. reflexivity.
Qed.

Lemma filter_link_listeners (btn menu : nat) (links : list nat) (t : target) (cap : bool)
    (rest : list listener) :
  Forall (link_listener btn menu links) rest ->
  (forall link, In link links -> t <> Element link) ->
  List.filter (fun l => bool_decide (l_target l = t) && Bool.eqb (l_capture l) cap) rest = [].
Proof.
  intros Hrest Ht. induction Hrest as [|l rest (link & Hin & Htgt & _) _ IH]; simpl;
    [reflexivity|].
  rewrite bool_decide_eq_false_2; [exact IH|].
  rewrite Htgt. intros <-. apply (Ht link Hin). reflexivity.
Qed.

(** The click listeners that fire at [t] in a wired world. *)
Lemma click_listeners_at (c : copy) (btn menu : nat) (links anc : list nat) (w : world)
    (t : target) (cap : bool) (g : nat) (rest : list listener) :
  clicks_of w
  = mk_listener (Element btn) "click" g (menuClick_code c btn menu) false false false :: rest ->
  Forall (link_listener btn menu links) rest ->
  (forall link, In link links -> t <> Element link) ->
  List.filter (fun l => bool_decide (l_target l = t) && String.eqb (l_type l) "click"
                        && Bool.eqb (l_capture l) cap) (listeners w)
  = if bool_decide (Element btn = t) && negb cap
    then [mk_listener (Element btn) "click" g (menuClick_code c btn menu) false false false]
    else [].
Proof.
  intros Hclicks Hrest Ht. rewrite filter_click_listeners. fold (clicks_of w).
  rewrite Hclicks. simpl.
  rewrite (filter_link_listeners btn menu links t cap rest Hrest Ht).
  destruct cap; simpl; rewrite ?andb_false_r, ?andb_true_r; [reflexivity|].
  destruct (bool_decide (Element btn = t)); reflexivity.
Qed.

Lemma run_menuClick (c : copy) (g btn menu : nat) (ev : env) (w : world) :
  match c with
  | MainCopy => MainJs.run
  | Part000Copy => Part000.run
  | Part001Copy => Part001.run
  end g (menuClick_code c btn menu) ev w
  = menuClick_of c btn menu w.
Proof. destruct c; reflexivity. Qed.

Lemma click_of_dispatch (c : copy) (ev : env) (e : nat) (w : world) :
  click_of c ev e w
  = dispatch match c with
             | MainCopy => MainJs.run
             | Part000Copy => Part000.run
             | Part001Copy => Part001.run
             end ev "click" true (Element e) w.
Proof. destruct c; reflexivity. Qed.

(** In a wired world where no link of the menu is the button or one of
    its ancestors, a click on the button runs the toggle and nothing
    else. *)
Lemma click_ready (c : copy) (ev : env) (btn menu : nat) (links anc : list nat) (w : world) :
  menu_ready c btn menu links anc w ->
  (forall link, In link links -> link <> btn /\ ~ In link anc) ->
  click_of c ev btn w = menuClick_of c btn menu w.
Proof.
  intros ((g & rest & Hclicks & Hrest & _) & Hanc & Hb & Hm) Hlinks.
  rewrite click_of_dispatch. set (run := match c with MainCopy => _ | _ => _ end).
  pose proof (ancestors_in_not_self btn (doc w) anc Hanc) as Hself.
  assert (Hpath : forall t, In t (map Element anc ++ [Document; Window]) ->
                  (forall link, In link links -> t <> Element link) /\ Element btn <> t).
  { intros t Ht. apply in_app_or in Ht as [Ht|Ht].
    - apply in_map_iff in Ht as (a & <- & Ha). split.
      + intros link Hl [= ->]. apply (proj2 (Hlinks link Hl)), Ha.
      + intros [= ->]. apply Hself, Ha.
    - split; [intros link _|]; destruct Ht as [<-|[<-|[]]]; discriminate. }
  assert (Hquiet : forall w' cap t, listeners w' = listeners w ->
                   In t (map Element anc ++ [Document; Window]) ->
                   List.filter (fun l => bool_decide (l_target l = t)
                                         && String.eqb (l_type l) "click"
                                         && Bool.eqb (l_capture l) cap) (listeners w') = []).
  { intros w' cap t Hl Ht. destruct (Hpath t Ht) as [Hnl Hnb].
    rewrite Hl, (click_listeners_at c btn menu links anc w t cap g rest Hclicks Hrest Hnl).
    rewrite bool_decide_eq_false_2 by exact Hnb. reflexivity. }
  unfold dispatch, event_path. rewrite Hanc.
  rewrite (fire_nothing_along run ev "click" true).
  2:{ intros t Ht. apply Hquiet; [reflexivity|]. apply in_rev in Ht. exact Ht. }
  assert (Hnl : forall link, In link links -> Element btn <> Element link).
  { intros link Hl [= ->]. apply (proj1 (Hlinks link Hl)). reflexivity. }
  rewrite (fire_nothing run ev "click" true (Element btn)).
  2:{ rewrite (click_listeners_at c btn menu links anc w _ true g rest Hclicks Hrest Hnl).
      rewrite andb_false_r. reflexivity. }
  assert (Hfire : fire run ev "click" false (Element btn) w = menuClick_of c btn menu w).
  { unfold fire.
    rewrite (click_listeners_at c btn menu links anc w _ false g rest Hclicks Hrest Hnl).
    rewrite bool_decide_eq_true_2 by reflexivity. simpl. unfold invoke. simpl.
    assert (Hex : existsb (Dom.same_listener (Element btn) "click" g false) (listeners w)
                  = true).
    { apply existsb_exists.
      exists (mk_listener (Element btn) "click" g (menuClick_code c btn menu)
                false false false).
      split; [|apply same_listener_key; reflexivity].
      assert (Hin : In (mk_listener (Element btn) "click" g (menuClick_code c btn menu)
                          false false false) (clicks_of w))
        by (rewrite Hclicks; left; reflexivity).
      apply List.filter_In in Hin. tauto. }
    rewrite Hex. apply run_menuClick. }
  rewrite Hfire.
  apply (fire_nothing_along run ev "click" false).
  intros t Ht. apply Hquiet; [|exact Ht]. apply same_frame_menuClick.
Qed.

Lemma menu_ready_same_frame (c : copy) (btn menu : nat) (links anc : list nat)
    (w w' : world) :
  same_frame w w' -> menu_ready c btn menu links anc w -> menu_ready c btn menu links anc w'.
Proof.
  intros (Hl & Ha & Hd) (Hclicks & Hanc & Hb & Hm). split; [|split; [|split]].
  - unfold clicks_of in *. rewrite Hl. exact Hclicks.
  - rewrite Ha. exact Hanc.
  - apply Hd, Hb.
  - apply Hd, Hm.
Qed.

(** ** Wiring the menu *)

Lemma filter_remove_first (p q : listener -> bool) (ls : list listener) :
  (forall l, p l = true -> q l = false) ->
  List.filter q (Dom.remove_first p ls) = List.filter q ls.
Proof.
  intros H. induction ls as [|l ls IH]; simpl; [reflexivity|].
  destruct (p l) eqn:E; simpl.
  - rewrite (H l E). reflexivity.
  - rewrite IH. reflexivity.
Qed.

Lemma clicks_on_other (t : target) (ty : string) (h : nat * closure)
    (opts : option options) (w : world) :
  ty <> "click" -> clicks_of (Shared.on t ty h opts w) = clicks_of w.
Proof.
  intros Hty. unfold clicks_of, Shared.on, Dom.addEventListener, Dom.removeEventListener.
  simpl.
  assert (Hrm : List.filter (fun l => String.eqb (l_type l) "click")
                  (Dom.remove_first
                     (Dom.same_listener t ty (fst h) (capture (flatten opts))) (listeners w))
                = List.filter (fun l => String.eqb (l_type l) "click") (listeners w)).
  { apply filter_remove_first. intros l Hl. apply same_listener_key in Hl.
    injection Hl as _ Hl _ _. rewrite Hl. apply String.eqb_neq, Hty. }
  destruct (existsb _ _); simpl; [exact Hrm|].
  rewrite List.filter_app, Hrm. simpl.
  rewrite (proj2 (String.eqb_neq ty "click") Hty). apply app_nil_r.
Qed.

Lemma clicks_on_click (t : target) (h : nat * closure) (w : world) :
  (forall l, In l (clicks_of w) -> l_fn l <> fst h) ->
  clicks_of (Shared.on t "click" h None w)
  = clicks_of w ++ [mk_listener t "click" (fst h) (snd h) false false false].
Proof.
  intros Hfresh.
  assert (Hno : existsb (Dom.same_listener t "click" (fst h) false) (listeners w) = false).
  { apply not_true_is_false. intros H. apply existsb_exists in H as (l & Hin & Hl).
    apply same_listener_key in Hl. injection Hl as _ Hty Hfn _.
    apply (Hfresh l); [|exact Hfn]. apply List.filter_In. split; [exact Hin|].
    rewrite Hty. reflexivity. }
  unfold clicks_of, Shared.on, Dom.addEventListener, Dom.removeEventListener. simpl.
  rewrite (existsb_remove_first _ _ Hno), Hno. simpl.
  rewrite List.filter_app. reflexivity.
Qed.

Lemma same_tree_refl (w : world) : same_tree w w.
Proof. split; [|split]; auto. Qed.

Lemma same_tree_trans (w1 w2 w3 : world) :
  same_tree w1 w2 -> same_tree w2 w3 -> same_tree w1 w3.
Proof.
  intros (A1 & D1 & Q1) (A2 & D2 & Q2). split; [|split].
  - intros e. rewrite A2. apply A1.
  - intros e H. apply D2, D1, H.
  - intros e t. rewrite Q2. apply Q1.
Qed.

Lemma same_tree_same_dom (w w' : world) :
  doc w' = doc w -> detached w' = detached w -> same_tree w w'.
Proof.
  intros Hd Hdt. split; [|split].
  - intros e. rewrite Hd. reflexivity.
  - intros e. unfold Dom.data, Dom.find_elem, Dom.trees. rewrite Hd, Hdt. auto.
  - intros e t. unfold Dom.elem_querySelectorAll, Dom.trees. rewrite Hd, Hdt. reflexivity.
Qed.

Lemma elem_querySelectorAll_update (e e' : nat) (sel : selector) (f : edata -> edata)
    (w : world) :
  (forall d, e_id (f d) = e_id d) ->
  (forall anc d, matches sel (map (at_elem e' f) anc) (at_elem e' f d) = matches sel anc d) ->
  Dom.elem_querySelectorAll e sel (Dom.update e' f w) = Dom.elem_querySelectorAll e sel w.
Proof.
  intros Hf Hm. pose proof (at_elem_id e' f Hf) as HF.
  unfold Dom.elem_querySelectorAll, Dom.update, Dom.trees. simpl doc. simpl detached.
  change (map_elems (at_elem e' f) (doc w) :: map (map_elems (at_elem e' f)) (detached w))
    with (map (map_elems (at_elem e' f)) (doc w :: detached w)).
  rewrite first_some_map.
  rewrite (first_some_ext _
    (fun t => (fun r => (map (at_elem e' f) (fst r), map_elems (at_elem e' f) (snd r)))
              <$> find_ctx e [] t)).
  2:{ apply Forall_forall. intros t _. apply (find_ctx_map_elems _ HF e t []). }
  rewrite first_some_fmap.
  destruct (first_some (find_ctx e []) (doc w :: detached w)) as [[anc [d ks|s]]|];
    simpl; try reflexivity.
  induction ks as [|k ks IH]; simpl; [reflexivity|].
  rewrite IH. f_equal.
  apply (select_map_elems _ HF sel k (d :: anc) Hm).
Qed.

Lemma same_tree_update_classes (e : nat) (g : edata -> list string) (w : world) :
  same_tree w (Dom.update e (fun d => Dom.set_classes (g d) d) w).
Proof.
  split; [|split].
  - intros x. apply ancestors_in_map_elems, at_elem_id. reflexivity.
  - intros x. apply data_update_is_Some. reflexivity.
  - intros x t. apply elem_querySelectorAll_update; [reflexivity|].
    intros anc d. unfold at_elem. simpl. destruct (decide (e_id d = e)); reflexivity.
Qed.

Lemma same_tree_classList_toggle (e : nat) (c : string) (b : bool) (w : world) :
  same_tree w (Dom.classList_toggle e c b w).
Proof. destruct b; apply same_tree_update_classes. Qed.

Lemma same_tree_on (t : target) (ty : string) (h : nat * closure) (opts : option options)
    (w : world) :
  same_tree w (Shared.on t ty h opts w).
Proof.
  apply same_tree_same_dom; unfold Shared.on.
  - rewrite doc_addEventListener. reflexivity.
  - rewrite detached_addEventListener. reflexivity.
Qed.

Lemma next_ref_on (t : target) (ty : string) (h : nat * closure) (opts : option options)
    (w : world) :
  next_ref (Shared.on t ty h opts w) = next_ref w.
Proof.
  unfold Shared.on, Dom.addEventListener. destruct (existsb _ _); reflexivity.
Qed.

Lemma no_clicks (w : world) :
  (forall l, In l (listeners w) -> l_type l <> "click") -> clicks_of w = [].
Proof.
  intros H. apply filter_none. apply not_true_is_false. intros Hex.
  apply existsb_exists in Hex as (l & Hin & Hl). apply String.eqb_eq in Hl.
  apply (H l Hin Hl).
Qed.

Lemma same_tree_fresh (w : world) : same_tree w (snd (fresh w)).
Proof. apply same_tree_same_dom; reflexivity. Qed.

Lemma same_tree_onScroll (h : option nat) (ev : env) (w : world) :
  same_tree w (MainJs.onScroll h ev w) /\ listeners (MainJs.onScroll h ev w) = listeners w
  /\ next_ref (MainJs.onScroll h ev w) = next_ref w.
Proof.
  destruct h as [h|]; simpl; [|split; [apply same_tree_refl|split; reflexivity]].
  destruct (Js.gt _ _); (split; [apply same_tree_update_classes|split; reflexivity]).
Qed.

Lemma same_tree_updateCondensedState (h : option nat) (ev : env) (w : world) :
  same_tree w (Part000.updateCondensedState h ev w)
  /\ listeners (Part000.updateCondensedState h ev w) = listeners w
  /\ next_ref (Part000.updateCondensedState h ev w) = next_ref w.
Proof.
  destruct h as [h|]; simpl; [|split; [apply same_tree_refl|split; reflexivity]].
  split; [apply same_tree_classList_toggle|]. destruct (Js.gt _ _); split; reflexivity.
Qed.

Lemma main_init_ready (ev : env) (w : world) (btn menu : nat) (anc : list nat) :
  Dom.querySelector (Simple (Attr "data-mobile-btn")) w = Some btn ->
  Dom.querySelector (Simple (Attr "data-mobile-menu")) w = Some menu ->
  (forall l, In l (listeners w) -> l_type l <> "click") ->
  ancestors_in btn (doc w) = Some anc ->
  menu_ready MainCopy btn menu [] anc (MainJs.initHeaderBehaviors ev w).
Proof.
  intros Hqb Hqm Hno Hanc.
  pose proof (querySelector_data _ _ _ Hqb) as Hb.
  pose proof (querySelector_data _ _ _ Hqm) as Hm.
  unfold MainJs.initHeaderBehaviors, fresh. cbv beta iota zeta. rewrite Hqb, Hqm.
  set (header := Dom.querySelector (Simple (Attr "data-header")) w).
  set (w2 := Shared.on Window "scroll" _ None _).
  destruct (same_tree_onScroll header ev w2) as (Ht3 & Hl3 & Hn3).
  set (w3 := MainJs.onScroll header ev w2) in *.
  assert (Ht : same_tree w w3).
  { eapply same_tree_trans; [|exact Ht3].
    eapply same_tree_trans; [apply (same_tree_fresh w)|apply same_tree_on]. }
  assert (Hc3 : clicks_of w3 = []).
  { unfold clicks_of. rewrite Hl3. fold (clicks_of w2). unfold w2.
    rewrite clicks_on_other by discriminate. apply (no_clicks w Hno). }
  set (w4 := with_next_ref (S (next_ref w3)) w3).
  assert (Hc : clicks_of (Shared.on (Element btn) "click" (next_ref w3, MenuClick1 btn menu)
                            None w4)
               = [mk_listener (Element btn) "click" (next_ref w3) (MenuClick1 btn menu)
                    false false false]).
  { rewrite clicks_on_click.
    - change (clicks_of w4) with (clicks_of w3). rewrite Hc3. reflexivity.
    - change (clicks_of w4) with (clicks_of w3). rewrite Hc3. intros l []. }
  assert (Ht5 : same_tree w (Shared.on (Element btn) "click"
                               (next_ref w3, MenuClick1 btn menu) None w4)).
  { eapply same_tree_trans; [exact Ht|].
    eapply same_tree_trans; [apply (same_tree_fresh w3)|apply same_tree_on]. }
  destruct Ht5 as (A5 & D5 & _).
  split; [|split; [|split]].
  - exists (next_ref w3), []. split; [exact Hc|]. split; [constructor|reflexivity].
  - rewrite A5. exact Hanc.
  - apply D5, Hb.
  - apply D5, Hm.
Qed.

(** The loop of lines 66-70 of part_000. *)
Lemma link_listeners_fold (btn menu : nat) (links : list nat) (g : nat) (ls : list nat)
    (w5 w : world) (rest : list listener) :
  (forall x, In x ls -> In x links) ->
  clicks_of w = mk_listener (Element btn) "click" g (MenuClick btn menu) false false false
                  :: rest ->
  Forall (link_listener btn menu links) rest ->
  (forall l, In l (clicks_of w) -> l_fn l < next_ref w) ->
  same_tree w5 w ->
  let w' := fold_left (fun w link =>
                         let '(k, w) := fresh w in
                         Shared.on (Element link) "click" (k, LinkClick btn menu) None w)
                      ls w in
  (exists rest',
     clicks_of w' = mk_listener (Element btn) "click" g (MenuClick btn menu) false false false
                      :: rest'
     /\ Forall (link_listener btn menu links) rest')
  /\ same_tree w5 w'.
Proof.
  revert w rest. induction ls as [|a ls IH]; intros w rest Hsub Hc Hrest Hfn Ht; simpl.
  - split; [eauto|exact Ht].
  - unfold fresh. cbv beta iota zeta.
    set (w1 := with_next_ref (S (next_ref w)) w).
    assert (Hc1 : clicks_of (Shared.on (Element a) "click" (next_ref w, LinkClick btn menu)
                               None w1)
                  = clicks_of w
                    ++ [mk_listener (Element a) "click" (next_ref w) (LinkClick btn menu)
                          false false false]).
    { rewrite clicks_on_click; [reflexivity|].
      intros l Hl. change (clicks_of w1) with (clicks_of w) in Hl.
      apply Hfn in Hl. simpl. lia. }
    apply (IH _ (rest ++ [mk_listener (Element a) "click" (next_ref w) (LinkClick btn menu)
                            false false false])).
    + intros x Hx. apply Hsub. right. exact Hx.
    + rewrite Hc1, Hc. reflexivity.
    + apply Forall_app. split; [exact Hrest|]. constructor; [|constructor].
      exists a. split; [apply Hsub; left; reflexivity|]. auto.
    + intros l Hl. rewrite Hc1 in Hl. rewrite next_ref_on. simpl.
      apply in_app_or in Hl as [Hl|[<-|[]]]; [apply Hfn in Hl; lia|simpl; lia].
    + eapply same_tree_trans; [exact Ht|].
      eapply same_tree_trans; [apply (same_tree_fresh w)|apply same_tree_on].
Qed.

Lemma part000_init_ready (ev : env) (w : world) (btn menu : nat) (anc : list nat) :
  Dom.querySelector (Simple (Attr "data-mobile-btn")) w = Some btn ->
  Dom.querySelector (Simple (Attr "data-mobile-menu")) w = Some menu ->
  (forall l, In l (listeners w) -> l_type l <> "click") ->
  ancestors_in btn (doc w) = Some anc ->
  menu_ready Part000Copy btn menu
    (Dom.elem_querySelectorAll menu (Simple (Tag "a")) w) anc
    (Part000.initHeaderBehaviors ev w).
Proof.
  intros Hqb Hqm Hno Hanc.
  pose proof (querySelector_data _ _ _ Hqb) as Hb.
  pose proof (querySelector_data _ _ _ Hqm) as Hm.
  unfold Part000.initHeaderBehaviors, fresh. cbv beta iota zeta. rewrite Hqb, Hqm.
  set (header := Dom.querySelector (Simple (Attr "data-header")) w).
  set (w2 := Shared.on Window "scroll" _ _ _).
  destruct (same_tree_updateCondensedState header ev w2) as (Ht3 & Hl3 & Hn3).
  set (w3 := Part000.updateCondensedState header ev w2) in *.
  assert (Ht : same_tree w w3).
  { eapply same_tree_trans; [|exact Ht3].
    eapply same_tree_trans; [apply (same_tree_fresh w)|apply same_tree_on]. }
  assert (Hc3 : clicks_of w3 = []).
  { unfold clicks_of. rewrite Hl3. fold (clicks_of w2). unfold w2.
    rewrite clicks_on_other by discriminate. apply (no_clicks w Hno). }
  set (w4 := with_next_ref (S (next_ref w3)) w3).
  set (w5 := Shared.on (Element btn) "click" (next_ref w3, MenuClick btn menu) None w4).
  assert (Hc5 : clicks_of w5
                = [mk_listener (Element btn) "click" (next_ref w3) (MenuClick btn menu)
                     false false false]).
  { unfold w5. rewrite clicks_on_click.
    - change (clicks_of w4) with (clicks_of w3). rewrite Hc3. reflexivity.
    - change (clicks_of w4) with (clicks_of w3). rewrite Hc3. intros l []. }
  assert (Ht5 : same_tree w w5).
  { eapply same_tree_trans; [exact Ht|].
    eapply same_tree_trans; [apply (same_tree_fresh w3)|apply same_tree_on]. }
  assert (Hlinks : Dom.elem_querySelectorAll menu (Simple (Tag "a")) w5
                   = Dom.elem_querySelectorAll menu (Simple (Tag "a")) w)
    by (apply Ht5).
  rewrite Hlinks.
  destruct (link_listeners_fold btn menu
              (Dom.elem_querySelectorAll menu (Simple (Tag "a")) w) (next_ref w3)
              (Dom.elem_querySelectorAll menu (Simple (Tag "a")) w) w5 w5 [])
    as ((rest & Hc6 & Hrest) & Ht6).
  { auto. }
  { exact Hc5. }
  { constructor. }
  { intros l Hl. rewrite Hc5 in Hl. destruct Hl as [<-|[]]. unfold w5.
    rewrite next_ref_on. simpl. lia. }
  { apply same_tree_refl. }
  set (w6 := fold_left _ _ w5) in *.
  assert (Ht8 : same_tree w (Shared.on Window "resize" (next_ref w6, ResizeClose btn menu)
                               None (with_next_ref (S (next_ref w6)) w6))).
  { eapply same_tree_trans; [exact Ht5|]. eapply same_tree_trans; [exact Ht6|].
    eapply same_tree_trans; [apply (same_tree_fresh w6)|apply same_tree_on]. }
  destruct Ht8 as (A8 & D8 & _).
  split; [|split; [|split]].
  - exists (next_ref w3), rest. split; [|split; [exact Hrest|discriminate]].
    rewrite clicks_on_other by discriminate. exact Hc6.
  - rewrite A8. exact Hanc.
  - apply D8, Hb.
  - apply D8, Hm.
Qed.

Lemma init_ready (c : copy) (ev : env) (w : world) (btn menu : nat) (anc : list nat) :
  Dom.querySelector (Simple (Attr "data-mobile-btn")) w = Some btn ->
  Dom.querySelector (Simple (Attr "data-mobile-menu")) w = Some menu ->
  (forall l, In l (listeners w) -> l_type l <> "click") ->
  ancestors_in btn (doc w) = Some anc ->
  menu_ready c btn menu (menu_links c menu w) anc (initHeaderBehaviors_of c ev w).
Proof.
  intros Hqb Hqm Hno Hanc. destruct c; simpl.
  - apply main_init_ready; assumption.
  - apply part000_init_ready; assumption.
  - destruct (part000_init_ready ev w btn menu anc Hqb Hqm Hno Hanc)
      as ((g & rest & Hc & Hrest & _) & H).
    split; [|exact H]. exists g, rest. split; [exact Hc|]. split; [exact Hrest|discriminate].
Qed.

(** ** Any click keeps the menu wired and in sync *)

Lemma ready_click_codes (c : copy) (btn menu : nat) (links anc : list nat) (w : world)
    (l : listener) :
  menu_ready c btn menu links anc w -> In l (clicks_of w) -> click_code_ok c btn menu l.
Proof.
  intros ((g & rest & Hc & Hrest & Hmain) & _) Hl. rewrite Hc in Hl.
  destruct Hl as [<-|Hl]; [split; [left|]; reflexivity|].
  rewrite Forall_forall in Hrest.
  destruct (Hrest l (proj2 (list_elem_of_In _ _) Hl)) as (link & _ & _ & Hcode & _ & Honce).
  split; [right; split; [|exact Hcode]|exact Honce].
  intros ->. rewrite (Hmain eq_refl) in Hl. destruct Hl.
Qed.

Lemma run_click_code (c : copy) (btn menu : nat) (l : listener) (ev : env) (w : world) :
  click_code_ok c btn menu l ->
  is_Some (Dom.data btn w) -> is_Some (Dom.data menu w) ->
  same_frame w (run_of c (l_fn l) (l_code l) ev w)
  /\ in_sync btn menu (run_of c (l_fn l) (l_code l) ev w).
Proof.
  intros [[Hcode|[Hc Hcode]] _] Hb Hm; rewrite Hcode.
  - replace (run_of c (l_fn l) (menuClick_code c btn menu) ev w)
      with (menuClick_of c btn menu w) by (destruct c; reflexivity).
    split; [apply same_frame_menuClick|].
    destruct (menuClick_attrs c btn menu w Hb Hm) as [H1 H2].
    unfold in_sync. congruence.
  - replace (run_of c (l_fn l) (LinkClick btn menu) ev w)
      with (Part000.setMenuState btn menu false w) by (destruct c; [congruence| |]; reflexivity).
    split; [apply same_frame_setMenuState|].
    destruct (setMenuState_attrs btn menu false w Hb Hm) as [H1 H2].
    unfold in_sync. congruence.
Qed.

Lemma wired_same_frame (s : bool) (c : copy) (btn menu : nat) (links anc : list nat)
    (w w' : world) :
  same_frame w w' -> in_sync btn menu w' ->
  wired s c btn menu links anc w -> wired s c btn menu links anc w'.
Proof.
  intros Hf Hs [Hr _]. split; [eapply menu_ready_same_frame; eassumption|auto].
Qed.

Lemma invoke_wired (s : bool) (c : copy) (btn menu : nat) (links anc : list nat)
    (ev : env) (l : listener) (w : world) :
  click_code_ok c btn menu l ->
  wired s c btn menu links anc w -> wired s c btn menu links anc (invoke (run_of c) ev l w).
Proof.
  intros Hl Hw. unfold invoke. destruct (existsb _ (listeners w)); [|exact Hw].
  rewrite (proj2 Hl).
  destruct Hw as [Hr Hs]. pose proof Hr as (_ & _ & Hb & Hm).
  destruct (run_click_code c btn menu l ev w Hl Hb Hm) as [Hf Hsync].
  apply (wired_same_frame s c btn menu links anc w); [exact Hf|exact Hsync|].
  split; assumption.
Qed.

Lemma fire_wired (s : bool) (c : copy) (btn menu : nat) (links anc : list nat)
    (ev : env) (cap : bool) (t : target) (w : world) :
  wired s c btn menu links anc w ->
  wired s c btn menu links anc (fire (run_of c) ev "click" cap t w).
Proof.
  intros Hw. unfold fire.
  assert (Hall : Forall (click_code_ok c btn menu)
                   (List.filter (fun l => bool_decide (l_target l = t)
                                          && String.eqb (l_type l) "click"
                                          && Bool.eqb (l_capture l) cap) (listeners w))).
  { apply Forall_forall. intros l Hl. apply list_elem_of_In in Hl.
    rewrite filter_click_listeners in Hl. apply List.filter_In in Hl as [Hl _].
    apply (ready_click_codes c btn menu links anc w l (proj1 Hw) Hl). }
  revert Hall. generalize (List.filter (fun l => bool_decide (l_target l = t)
                                                 && String.eqb (l_type l) "click"
                                                 && Bool.eqb (l_capture l) cap) (listeners w)).
  intros ls Hall. revert w Hw.
  induction Hall as [|l ls Hl _ IH]; intros w Hw; simpl; [exact Hw|].
  apply IH, invoke_wired; assumption.
Qed.

Lemma click_wired (s : bool) (c : copy) (btn menu : nat) (links anc : list nat)
    (ev : env) (e : nat) (w : world) :
  wired s c btn menu links anc w -> wired s c btn menu links anc (click_of c ev e w).
Proof.
  intros Hw. rewrite click_of_dispatch. fold (run_of c). unfold dispatch.
  assert (Hfold : forall cap path w, wired s c btn menu links anc w ->
            wired s c btn menu links anc
              (fold_left (fun w a => fire (run_of c) ev "click" cap a w) path w)).
  { intros cap path. induction path as [|a path IH]; intros w' Hw'; simpl; [exact Hw'|].
    apply IH, fire_wired, Hw'. }
  apply Hfold. do 2 apply fire_wired. apply Hfold. exact Hw.
Qed.

Lemma clicks_wired (s : bool) (c : copy) (btn menu : nat) (links anc : list nat)
    (evs : list (env * nat)) (w : world) :
  wired s c btn menu links anc w -> wired s c btn menu links anc (clicks c evs w).
Proof.
  unfold clicks. revert w. induction evs as [|x evs IH]; intros w Hw; simpl; [exact Hw|].
  apply IH, click_wired, Hw.
Qed.

(** C3 as stated fails in part_000 and part_001: when the mobile button is
    a link inside the mobile menu, a click on it runs the toggle and then
    the closing listener of the link, so the menu does not flip. *)
Lemma button_inside_menu_never_opens :
  Dom.querySelector (Simple (Attr "data-mobile-btn")) Sample.start_button_in_menu = Some 5
  /\ Dom.querySelector (Simple (Attr "data-mobile-menu")) Sample.start_button_in_menu = Some 6
  /\ Dom.getAttribute 6 "data-open"
       (Part000.initHeaderBehaviors Sample.home Sample.start_button_in_menu) = None
  /\ Dom.getAttribute 6 "data-open"
       (Part000.click Sample.home 5
          (Part000.initHeaderBehaviors Sample.home Sample.start_button_in_menu))
     = Some "false"
  /\ Dom.getAttribute 6 "data-open"
       (Part000.click Sample.home 5
          (Part000.click Sample.home 5
             (Part000.initHeaderBehaviors Sample.home Sample.start_button_in_menu)))
     = Some "false".
Proof. vm_compute. repeat split; reflexivity. Qed.

(** Running [initHeaderBehaviors] twice registers two toggles (each run
    makes a new function, which [on] cannot recognise): a click then flips
    the menu twice. *)
Lemma menu_wired_twice_never_opens :
  let w := MainJs.initHeaderBehaviors Sample.home
             (MainJs.initHeaderBehaviors Sample.home Sample.start) in
  List.length (clicks_of w) = 2
  /\ Dom.getAttribute 6 "data-open" w = None
  /\ Dom.getAttribute 6 "data-open" (MainJs.click Sample.home 5 w) = Some "false".
Proof. vm_compute. repeat split; reflexivity. Qed.

(** C7 as stated fails: the boot sequence of every copy stores the
    observer in [window.__revealObserver], which is no attribute, class,
    style or text of the document. *)
Lemma boot_sets_a_window_property :
  win Sample.start !! "__revealObserver" = None
  /\ win (boot_complete_of MainCopy true Sample.home Sample.home (NetworkError "offline")
            Sample.home (Sample.ok_response "<footer></footer>") Sample.start)
       !! "__revealObserver" = Some (Js.Obj 100)
  /\ win (boot_complete_of Part000Copy true Sample.home Sample.home (NetworkError "offline")
            Sample.home (Sample.ok_response "<footer></footer>") Sample.start)
       !! "__revealObserver" = Some (Js.Obj 100)
  /\ win (boot_complete_of Part001Copy true Sample.home Sample.home (NetworkError "offline")
            Sample.home (Sample.ok_response "<footer></footer>") Sample.start)
       !! "__revealObserver" = Some (Js.Obj 100).
Proof. vm_compute. repeat split; reflexivity. Qed.

(** ** markActiveNav *)



Lemma markActiveNav_unfold (ev : env) (w : world) :
  Part000.markActiveNav ev w
  = match Dom.querySelector (Simple (Attr "data-header")) w with
    | None => w
    | Some header =>
        mark_links (Part000.current_page ev)
          (Dom.elem_querySelectorAll header (Simple (Class "nav-link")) w) w
    end.
Proof. reflexivity. Qed.

Lemma querySelectorAll_update (sel : selector) (e : nat) (f : edata -> edata) (w : world) :
  (forall d, e_id (f d) = e_id d) ->
  (forall anc d, matches sel (map (at_elem e f) anc) (at_elem e f d) = matches sel anc d) ->
  Dom.querySelectorAll sel (Dom.update e f w) = Dom.querySelectorAll sel w.
Proof.
  intros Hf Hm. unfold Dom.querySelectorAll, Dom.update. simpl doc.
  apply (select_map_elems _ (at_elem_id e f Hf) sel (doc w) [] Hm).
Qed.

Lemma mark_frame_refl (w : world) : mark_frame w w.
Proof. repeat split; auto. Qed.

Lemma mark_frame_trans (w1 w2 w3 : world) :
  mark_frame w1 w2 -> mark_frame w2 w3 -> mark_frame w1 w3.
Proof.
  intros (Q1 & L1 & A1 & D1) (Q2 & L2 & A2 & D2). split; [|split; [|split]].
  - congruence.
  - intros e. rewrite L2. apply L1.
  - intros e n. rewrite A2. apply A1.
  - intros e H. apply D2, D1, H.
Qed.

(** A change of the class list that does not touch [nav-link]. *)
Lemma mark_frame_update (e : nat) (g : edata -> list string) (w : world) :
  (forall d, existsb (String.eqb "nav-link") (g d) = existsb (String.eqb "nav-link") (e_classes d)) ->
  mark_frame w (Dom.update e (fun d => Dom.set_classes (g d) d) w).
Proof.
  intros Hg. split; [|split; [|split]].
  - unfold Dom.querySelector. rewrite querySelectorAll_update; [reflexivity|reflexivity|].
    intros anc d. unfold at_elem. simpl. destruct (decide (e_id d = e)); reflexivity.
  - intros x. apply elem_querySelectorAll_update; [reflexivity|].
    intros anc d. unfold at_elem. simpl. destruct (decide (e_id d = e)); [|reflexivity].
    unfold has_class_data. simpl. apply Hg.
  - intros x n. apply getAttribute_update_classes.
  - intros x. apply data_update_is_Some. reflexivity.
Qed.

Lemma mark_frame_step (cur : string) (link : nat) (w : world) :
  mark_frame w (if is_current cur link w
                then Dom.classList_add link ["is-active"] w
                else Dom.classList_remove link ["is-active"] w).
Proof.
  destruct (is_current cur link w); apply mark_frame_update; intros d.
  - rewrite existsb_add_tokens. simpl. apply orb_false_r.
  - rewrite existsb_remove_tokens. simpl. apply andb_true_r.
Qed.

Lemma mark_links_frame (cur : string) (links : list nat) (w : world) :
  mark_frame w (mark_links cur links w).
Proof.
  unfold mark_links. revert w. induction links as [|a links IH]; intros w; simpl.
  - apply mark_frame_refl.
  - eapply mark_frame_trans; [apply mark_frame_step|apply IH].
Qed.

Lemma is_current_frame (cur : string) (link : nat) (w w' : world) :
  mark_frame w w' -> is_current cur link w' = is_current cur link w.
Proof.
  intros (_ & _ & Ha & _). unfold is_current, Part000.normalized_href. rewrite Ha.
  reflexivity.
Qed.

Lemma mark_links_other (cur : string) (links : list nat) (w : world) (e : nat) :
  ~ In e links ->
  Dom.has_class e "is-active" (mark_links cur links w) = Dom.has_class e "is-active" w.
Proof.
  unfold mark_links. revert w. induction links as [|a links IH]; intros w Hn; simpl;
    [reflexivity|].
  rewrite IH by (intros H; apply Hn; right; exact H).
  assert (e <> a) by (intros ->; apply Hn; left; reflexivity).
  destruct (is_current cur a w).
  - rewrite has_class_add, bool_decide_eq_false_2 by assumption. apply orb_false_r.
  - rewrite has_class_remove, bool_decide_eq_false_2 by assumption. apply andb_true_r.
Qed.

Lemma mark_links_marks (cur : string) (links : list nat) (w : world) (link : nat) :
  In link links -> is_Some (Dom.data link w) ->
  Dom.has_class link "is-active" (mark_links cur links w) = is_current cur link w.
Proof.
  revert w. induction links as [|a links IH]; intros w Hin Hd; [destruct Hin|].
  change (mark_links cur (a :: links) w)
    with (mark_links cur links
            (if is_current cur a w
             then Dom.classList_add a ["is-active"] w
             else Dom.classList_remove a ["is-active"] w)).
  pose proof (mark_frame_step cur a w) as Hf.
  destruct (in_dec Nat.eq_dec link links) as [Hl|Hl].
  - rewrite IH; [apply is_current_frame, Hf|exact Hl|apply Hf, Hd].
  - destruct Hin as [->|Hin]; [|contradiction].
    rewrite mark_links_other by exact Hl.
    destruct (is_current cur link w) eqn:E.
    + rewrite has_class_add, !bool_decide_eq_true_2 by (reflexivity || exact Hd).
      apply orb_true_r.
    + rewrite has_class_remove, bool_decide_eq_true_2 by reflexivity. simpl.
      apply andb_false_r.
Qed.

Lemma find_ctx_ids (e : nat) (anc : list edata) (t : node) (a : list edata) (n : node)
    (x : nat) :
  find_ctx e anc t = Some (a, n) -> In x (ids n) -> In x (ids t).
Proof.
  revert anc. induction t as [d ks IH|s] using node_ind; intros anc; simpl; [|discriminate].
  destruct (decide (e_id d = e)).
  - intros [= <- <-]. auto.
  - intros H Hx. right. apply first_some_In in H as (k & Hk & Ek).
    apply in_flat_map. exists k. split; [exact Hk|].
    rewrite Forall_forall in IH. apply (IH k (proj2 (list_elem_of_In _ _) Hk) (d :: anc) Ek Hx).
Qed.

Lemma trees_ids_data (w : world) (t : node) (x : nat) :
  In t (Dom.trees w) -> In x (ids t) -> is_Some (Dom.data x w).
Proof.
  intros Ht Hx. unfold Dom.data, Dom.find_elem.
  destruct (first_some_is_Some (find_node x) (Dom.trees w) t Ht (ids_find_node x t Hx))
    as [r Hr].
  rewrite Hr. apply first_some_In in Hr as (t' & _ & Hr).
  apply find_node_id in Hr as (d & ks & -> & _). eauto.
Qed.

Lemma elem_querySelectorAll_data (e : nat) (sel : selector) (w : world) (x : nat) :
  In x (Dom.elem_querySelectorAll e sel w) -> is_Some (Dom.data x w).
Proof.
  unfold Dom.elem_querySelectorAll.
  destruct (first_some (find_ctx e []) (Dom.trees w)) as [[anc [d ks|s]]|] eqn:E;
    try (intros []).
  intros Hx. apply first_some_In in E as (t & Ht & Et).
  apply (trees_ids_data w t x Ht). apply (find_ctx_ids e [] t anc (Elem d ks) x Et).
  simpl. right. apply in_flat_map in Hx as (k & Hk & Hx).
  apply in_flat_map. exists k. split; [exact Hk|]. eapply select_ids, Hx.
Qed.




(** ** Subtrees and unique identities *)

Lemma ids_nodes (t : node) : ids t = map nid (nodes t).
Proof.
  induction t as [d ks IH|s] using node_ind; simpl; [|reflexivity].
  f_equal. induction IH as [|k ks Hk _ IHks]; simpl; [reflexivity|].
  rewrite map_app, Hk, IHks. reflexivity.
Qed.

Lemma forest_ids_nodes (ts : list node) : flat_map ids ts = map nid (flat_map nodes ts).
Proof.
  induction ts as [|t ts IH]; simpl; [reflexivity|].
  rewrite map_app, ids_nodes, IH. reflexivity.
Qed.

Lemma nodes_ids_incl (t n : node) (x : nat) : In n (nodes t) -> In x (ids n) -> In x (ids t).
Proof.
  induction t as [d ks IH|s] using node_ind; simpl; [|tauto].
  intros [<-|Hn] Hx; [exact Hx|]. right.
  apply in_flat_map in Hn as (k & Hk & Hn). apply in_flat_map. exists k.
  split; [exact Hk|]. rewrite Forall_forall in IH.
  apply (IH k (proj2 (list_elem_of_In _ _) Hk) Hn Hx).
Qed.

Lemma nodes_trans (t n m : node) : In n (nodes t) -> In m (nodes n) -> In m (nodes t).
Proof.
  induction t as [d ks IH|s] using node_ind; simpl; [|tauto].
  intros [<-|Hn] Hm; [exact Hm|]. right.
  apply in_flat_map in Hn as (k & Hk & Hn). apply in_flat_map. exists k.
  split; [exact Hk|]. rewrite Forall_forall in IH.
  apply (IH k (proj2 (list_elem_of_In _ _) Hk) Hn Hm).
Qed.

Lemma find_node_nodes (e : nat) (t n : node) :
  find_node e t = Some n -> In n (nodes t) /\ nid n = e.
Proof.
  induction t as [d ks IH|s] using node_ind; simpl; [|discriminate].
  destruct (decide (e_id d = e)).
  - intros [= <-]. auto.
  - intros H. apply first_some_In in H as (k & Hk & Ek). rewrite Forall_forall in IH.
    destruct (IH k (proj2 (list_elem_of_In _ _) Hk) Ek) as [Hin Hid].
    split; [|exact Hid]. right. apply in_flat_map. eauto.
Qed.

Lemma forest_find_nodes (e : nat) (ts : list node) (n : node) :
  first_some (find_node e) ts = Some n -> In n (flat_map nodes ts) /\ nid n = e.
Proof.
  intros H. apply first_some_In in H as (t & Ht & Et).
  destruct (find_node_nodes e t n Et) as [Hin Hid]. split; [|exact Hid].
  apply in_flat_map. eauto.
Qed.

Lemma NoDup_map_inj {A B} (f : A -> B) (l : list A) (a b : A) :
  NoDup (map f l) -> In a l -> In b l -> f a = f b -> a = b.
Proof.
  induction l as [|x l IH]; simpl; [tauto|].
  intros Hnd. apply NoDup_cons in Hnd as [Hx Hnd].
  intros [->|Ha] [->|Hb] Hf; try reflexivity.
  - exfalso. apply Hx. rewrite Hf. apply list_elem_of_In, in_map, Hb.
  - exfalso. apply Hx. rewrite <- Hf. apply list_elem_of_In, in_map, Ha.
  - apply IH; assumption.
Qed.

(** With unique identities, looking an element up gives its subtree. *)
Lemma forest_find_unique (ts : list node) (n : node) :
  NoDup (flat_map ids ts) -> In n (flat_map nodes ts) ->
  first_some (find_node (nid n)) ts = Some n.
Proof.
  intros Hnd Hn.
  assert (Hsome : is_Some (first_some (find_node (nid n)) ts)).
  { apply in_flat_map in Hn as (t & Ht & Hn).
    apply (first_some_is_Some _ _ t Ht). apply ids_find_node.
    rewrite ids_nodes. apply in_map, Hn. }
  destruct Hsome as [n' Hn']. rewrite Hn'. f_equal.
  destruct (forest_find_nodes _ _ _ Hn') as [Hin Hid].
  rewrite forest_ids_nodes in Hnd.
  apply (NoDup_map_inj nid (flat_map nodes ts)); assumption.
Qed.

Lemma find_elem_unique (w : world) (n : node) :
  unique_ids w -> In n (all_nodes w) -> Dom.find_elem (nid n) w = Some n.
Proof. apply forest_find_unique. Qed.

(** ** Setting the children of an element *)

Lemma text_no_nodes (l : list node) :
  Forall (fun k => exists s, k = Text s) l -> flat_map nodes l = [].
Proof. induction 1 as [|k ks [s ->] _ IH]; simpl; [reflexivity|exact IH]. Qed.

Lemma text_fixed (e : nat) (new l : list node) :
  Forall (fun k => exists s, k = Text s) l -> map (set_kids e new) l = l.
Proof.
  induction 1 as [|k ks [s ->] _ IH]; simpl; [reflexivity|]. rewrite IH. reflexivity.
Qed.

Section SetKids.

Variable e : nat.
Variable new : list node.
Hypothesis new_text : Forall (fun k => exists s, k = Text s) new.

Lemma new_no_nodes : flat_map nodes new = [].
Proof. apply text_no_nodes, new_text. Qed.

Lemma new_fixed : map (set_kids e new) new = new.
Proof. apply text_fixed, new_text. Qed.

Lemma set_kids_absent (t : node) : ~ In e (ids t) -> set_kids e new t = t.
Proof.
  induction t as [d ks IH|s] using node_ind; simpl; [|reflexivity].
  intros H. destruct (decide (e_id d = e)); [tauto|]. f_equal.
  assert (Hks : ~ In e (flat_map ids ks)) by tauto. clear H.
  induction IH as [|k ks Hk _ IHks]; simpl; [reflexivity|].
  simpl in Hks. rewrite in_app_iff in Hks. rewrite Hk, IHks by tauto. reflexivity.
Qed.

Lemma set_kids_absent_nodes (t : node) :
  ~ In e (ids t) -> map (set_kids e new) (nodes t) = nodes t.
Proof.
  intros H. rewrite <- (map_id (nodes t)) at 2. apply map_ext_in.
  intros n Hn. apply set_kids_absent. intros Hx. apply H.
  eapply nodes_ids_incl; eassumption.
Qed.

Lemma set_kids_nid (t : node) : nid (set_kids e new t) = nid t.
Proof. destruct t as [d ks|s]; simpl; [|reflexivity]. destruct (decide _); reflexivity. Qed.

Lemma forest_set_kids_absent (ts : list node) :
  ~ In e (flat_map ids ts) -> map (set_kids e new) ts = ts.
Proof.
  induction ts as [|k ks IHks]; simpl; [reflexivity|].
  rewrite in_app_iff. intros H. rewrite set_kids_absent, IHks by tauto. reflexivity.
Qed.

Lemma forest_set_kids_absent_nodes (ts : list node) :
  ~ In e (flat_map ids ts) -> map (set_kids e new) (flat_map nodes ts) = flat_map nodes ts.
Proof.
  induction ts as [|k ks IHks]; simpl; [reflexivity|].
  rewrite in_app_iff. intros H.
  rewrite map_app, set_kids_absent_nodes, IHks by tauto. reflexivity.
Qed.

Lemma forest_moves_kids (ts : list node) (d : edata) (old : list node) :
  Forall (moves_kids e new) ts ->
  NoDup (flat_map ids ts) -> first_some (find_node e) ts = Some (Elem d old) ->
  Permutation (flat_map nodes (map (set_kids e new) ts) ++ flat_map nodes old)
              (map (set_kids e new) (flat_map nodes ts)).
Proof.
  intros Hts. induction Hts as [|t ts Ht _ IH]; simpl; [discriminate|].
  intros Hnd Hfind. apply NoDup_app in Hnd as (Hnd1 & Hdisj & Hnd2).
  rewrite map_app. destruct (find_node e t) as [r|] eqn:Et.
  - injection Hfind as ->.
    assert (He : In e (ids t)).
    { destruct (find_node_nodes e t _ Et) as [Hin Hid].
      rewrite ids_nodes. rewrite <- Hid. apply in_map, Hin. }
    assert (Hrest : ~ In e (flat_map ids ts)).
    { intros H. apply (Hdisj e); apply list_elem_of_In; assumption. }
    rewrite (forest_set_kids_absent ts Hrest), (forest_set_kids_absent_nodes ts Hrest).
    rewrite <- (Ht d old Hnd1 Et).
    rewrite <- !app_assoc. apply Permutation_app_head. apply Permutation_app_comm.
  - assert (He : ~ In e (ids t)).
    { intros H. apply ids_find_node in H as [r Hr]. congruence. }
    rewrite set_kids_absent, set_kids_absent_nodes by exact He.
    rewrite <- app_assoc. apply Permutation_app_head. apply IH; assumption.
Qed.

Lemma tree_moves_kids (t : node) : moves_kids e new t.
Proof.
  induction t as [d0 ks IH|s] using node_ind; intros d old Hnd; simpl; [|discriminate].
  simpl in Hnd. apply NoDup_cons in Hnd as [Hroot Hnd].
  destruct (decide (e_id d0 = e)) as [Heq|Hne].
  - intros [= <- <-]. simpl. rewrite new_no_nodes. simpl.
    destruct (decide (e_id d0 = e)); [|contradiction]. apply perm_skip.
    assert (Hks : ~ In e (flat_map ids ks)).
    { intros H. apply Hroot. rewrite Heq. apply list_elem_of_In, H. }
    rewrite (forest_set_kids_absent_nodes ks Hks). reflexivity.
  - intros Hfind. simpl. destruct (decide (e_id d0 = e)); [contradiction|].
    apply perm_skip. apply (forest_moves_kids ks d old IH Hnd Hfind).
Qed.

End SetKids.

(** ** textContent *)

Lemma text_nodes_text (s : string) : Forall (fun k => exists s, k = Text s) (Dom.text_nodes s).
Proof.
  unfold Dom.text_nodes. destruct (String.eqb s ""); repeat constructor. eauto.
Qed.

Lemma text_of_text_nodes (d : edata) (s : string) : text_of (Elem d (Dom.text_nodes s)) = s.
Proof.
  unfold Dom.text_nodes. destruct (String.eqb_spec s "") as [->|]; reflexivity.
Qed.

Lemma find_elem_shape (e : nat) (w : world) (n : node) :
  Dom.find_elem e w = Some n -> exists d ks, n = Elem d ks /\ e_id d = e /\ In n (all_nodes w).
Proof.
  intros H. destruct (forest_find_nodes e (Dom.trees w) n H) as [Hin Hid].
  apply first_some_In in H as (t & _ & Ht).
  apply find_node_id in Ht as (d & ks & -> & Hd). eauto.
Qed.

Lemma all_ids_nodes (w : world) : all_ids w = map nid (all_nodes w).
Proof. apply forest_ids_nodes. Qed.

Lemma find_elem_None (e : nat) (w : world) : Dom.find_elem e w = None -> ~ In e (all_ids w).
Proof.
  intros H Hin. apply in_flat_map in Hin as (t & Ht & He).
  destruct (first_some_is_Some (find_node e) (Dom.trees w) t Ht (ids_find_node e t He))
    as [r Hr].
  unfold Dom.find_elem in H. congruence.
Qed.

Lemma all_nodes_ids (w : world) (n : node) (x : nat) :
  In n (all_nodes w) -> In x (ids n) -> In x (all_ids w).
Proof.
  intros Hn Hx. apply in_flat_map in Hn as (t & Ht & Hn). apply in_flat_map.
  exists t. split; [exact Ht|]. eapply nodes_ids_incl; eassumption.
Qed.

Lemma set_textContent_nodes (e : nat) (s : string) (w : world) (d : edata)
    (old : list node) :
  unique_ids w -> Dom.find_elem e w = Some (Elem d old) ->
  Permutation (all_nodes (Dom.set_textContent e s w))
              (map (set_kids e (Dom.text_nodes s)) (all_nodes w)).
Proof.
  intros Hu Hf. unfold Dom.set_textContent. rewrite Hf.
  unfold all_nodes, Dom.trees. simpl doc. simpl detached.
  change (set_kids e (Dom.text_nodes s) (doc w)
            :: map (set_kids e (Dom.text_nodes s)) (detached w) ++ old)
    with (map (set_kids e (Dom.text_nodes s)) (doc w :: detached w) ++ old).
  rewrite flat_map_app.
  apply (forest_moves_kids e (Dom.text_nodes s) (doc w :: detached w) d old).
  - apply Forall_forall. intros t _. apply tree_moves_kids, text_nodes_text.
  - exact Hu.
  - exact Hf.
Qed.

Lemma set_textContent_in (e : nat) (s : string) (w : world) (n : node) :
  unique_ids w -> In n (all_nodes w) ->
  In (set_kids e (Dom.text_nodes s) n) (all_nodes (Dom.set_textContent e s w)).
Proof.
  intros Hu Hn. destruct (Dom.find_elem e w) as [r|] eqn:Hf.
  - destruct (find_elem_shape e w r Hf) as (d & old & -> & _ & _).
    apply (Permutation_in _ (Permutation_sym (set_textContent_nodes e s w d old Hu Hf))).
    apply in_map, Hn.
  - unfold Dom.set_textContent. rewrite Hf.
    rewrite set_kids_absent; [exact Hn|].
    intros Hx. apply (find_elem_None e w Hf). eapply all_nodes_ids; eassumption.
Qed.

Lemma set_textContent_unique (e : nat) (s : string) (w : world) :
  unique_ids w -> unique_ids (Dom.set_textContent e s w).
Proof.
  intros Hu. destruct (Dom.find_elem e w) as [r|] eqn:Hf.
  - destruct (find_elem_shape e w r Hf) as (d & old & -> & _ & _).
    unfold unique_ids. rewrite all_ids_nodes.
    rewrite (set_textContent_nodes e s w d old Hu Hf).
    rewrite map_map. unfold unique_ids in Hu. rewrite all_ids_nodes in Hu.
    erewrite map_ext; [exact Hu|]. intros n. apply set_kids_nid.
  - unfold Dom.set_textContent. rewrite Hf. exact Hu.
Qed.

Lemma set_textContent_ids (e : nat) (s : string) (w : world) (x : nat) :
  unique_ids w -> In x (all_ids w) -> In x (all_ids (Dom.set_textContent e s w)).
Proof.
  intros Hu Hx. rewrite all_ids_nodes in *. apply in_map_iff in Hx as (n & <- & Hn).
  rewrite <- (set_kids_nid e (Dom.text_nodes s) n).
  apply in_map, set_textContent_in; assumption.
Qed.

(** An element whose children are the text [s] stays so under later
    writes of [s]. *)
Lemma stamped_fixed (e : nat) (s : string) (d : edata) :
  set_kids e (Dom.text_nodes s) (Elem d (Dom.text_nodes s)) = Elem d (Dom.text_nodes s).
Proof.
  simpl. destruct (decide (e_id d = e)); [reflexivity|].
  rewrite text_fixed by apply text_nodes_text. reflexivity.
Qed.

Lemma stamps_fold (s : string) (spans : list nat) (w : world) :
  unique_ids w ->
  let w' := fold_left (fun w span => Dom.set_textContent span s w) spans w in
  unique_ids w'
  /\ (forall d, In (Elem d (Dom.text_nodes s)) (all_nodes w) ->
                In (Elem d (Dom.text_nodes s)) (all_nodes w'))
  /\ (forall n, In n (all_nodes w) -> (forall span, In span spans -> ~ In span (ids n)) ->
                In n (all_nodes w'))
  /\ (forall span, In span spans -> In span (all_ids w) ->
                   exists d, e_id d = span /\ In (Elem d (Dom.text_nodes s)) (all_nodes w')).
Proof.
  revert w. induction spans as [|a spans IH]; intros w Hu; simpl.
  - repeat split; auto. intros span [].
  - pose proof (set_textContent_unique a s w Hu) as Hu1.
    destruct (IH _ Hu1) as (Hu' & Hkeep & Hframe & Hstamp).
    split; [exact Hu'|]. split; [|split].
    + intros d Hd. apply Hkeep. rewrite <- (stamped_fixed a s d).
      apply set_textContent_in; assumption.
    + intros n Hn Hspans. apply Hframe.
      * rewrite <- (set_kids_absent a (Dom.text_nodes s) n)
          by (apply Hspans; left; reflexivity).
        apply set_textContent_in; assumption.
      * intros span Hs. apply Hspans. right. exact Hs.
    + intros span Hs Hin. destruct (in_dec Nat.eq_dec span spans) as [Hl|Hl].
      * apply (Hstamp span Hl). apply set_textContent_ids; assumption.
      * destruct Hs as [->|Hs]; [|contradiction].
        destruct (Dom.find_elem span w) as [r|] eqn:Hf;
          [|exfalso; apply (find_elem_None span w Hf), Hin].
        destruct (find_elem_shape span w r Hf) as (d & old & -> & Hid & Hn).
        exists d. split; [exact Hid|]. apply Hkeep.
        pose proof (set_textContent_in span s w (Elem d old) Hu Hn) as H.
        simpl in H. destruct (decide (e_id d = span)); [exact H|contradiction].
Qed.

Lemma select_simple_nodes (s : simple) (anc : list edata) (t : node) (x : nat) :
  In x (select (Simple s) anc t) <->
  exists d ks, In (Elem d ks) (nodes t) /\ e_id d = x /\ matches_simple s d = true.
Proof.
  revert anc. induction t as [d ks IH|str] using node_ind; intros anc; simpl.
  2:{ split; [tauto|intros (d & ks & [] & _)]. }
  rewrite in_app_iff, in_flat_map. split.
  - intros [H|(k & Hk & H)].
    + destruct (matches_simple s d) eqn:E; [|destruct H].
      destruct H as [<-|[]]. exists d, ks. auto.
    + rewrite Forall_forall in IH.
      apply (IH k (proj2 (list_elem_of_In _ _) Hk)) in H as (d' & ks' & Hn & Hid & Hm).
      exists d', ks'. split; [|auto]. right. apply in_flat_map. eauto.
  - intros (d' & ks' & [Heq|Hn] & Hid & Hm).
    + injection Heq as -> ->. left. rewrite Hm. left. exact Hid.
    + right. apply in_flat_map in Hn as (k & Hk & Hn). exists k. split; [exact Hk|].
      rewrite Forall_forall in IH. apply (IH k (proj2 (list_elem_of_In _ _) Hk)). eauto.
Qed.

(** C6 (amended).  On a document whose elements have distinct identities,
    after [initFooterYear] the text content of every element with class
    [js-year] is the current year, and every element that neither has the
    class nor contains an element with the class keeps its subtree, hence
    its text content. *)
Theorem footer_year_stamped (ev : env) (w : world) :
  unique_ids w ->
  (forall span, In span (Dom.querySelectorAll (Simple (Class "js-year")) w) ->
     Dom.textContent span (Shared.initFooterYear ev w) = Some (pretty (full_year ev)))
  /\ (forall e n, Dom.find_elem e w = Some n ->
        select (Simple (Class "js-year")) [] n = [] ->
        Dom.find_elem e (Shared.initFooterYear ev w) = Some n
        /\ Dom.textContent e (Shared.initFooterYear ev w) = Dom.textContent e w).
Proof.
  intros Hu. unfold Shared.initFooterYear.
  set (spans := Dom.querySelectorAll (Simple (Class "js-year")) w).
  destruct (stamps_fold (pretty (full_year ev)) spans w Hu) as (Hu' & _ & Hframe & Hstamp).
  split.
  - intros span Hs.
    destruct (Hstamp span Hs) as (d & Hid & Hn).
    { apply in_flat_map. exists (doc w). split; [left; reflexivity|]. eapply select_ids, Hs. }
    unfold Dom.textContent.
    rewrite <- Hid. change (e_id d) with (nid (Elem d (Dom.text_nodes (pretty (full_year ev))))).
    rewrite (find_elem_unique _ _ Hu' Hn). unfold fmap, option_fmap, option_map.
    rewrite text_of_text_nodes. reflexivity.
  - intros e n Hf Hsel.
    destruct (find_elem_shape e w n Hf) as (d & ks & -> & Hid & Hn).
    assert (Hfind : Dom.find_elem e
                      (fold_left (fun w span =>
                                    Dom.set_textContent span (pretty (full_year ev)) w)
                                 spans w) = Some (Elem d ks)).
    { rewrite <- Hid. change (e_id d) with (nid (Elem d ks)).
      apply (find_elem_unique _ _ Hu'). apply Hframe; [exact Hn|].
      intros span Hs Hin.
      apply (select_simple_nodes (Class "js-year") [] (doc w) span) in Hs
        as (d1 & ks1 & Hn1 & Hid1 & Hm1).
      rewrite ids_nodes in Hin. apply in_map_iff in Hin as (m & Hm & Hmn).
      assert (Hm_all : In m (all_nodes w)).
      { apply in_flat_map in Hn as (t & Ht & Hnt). apply in_flat_map. exists t.
        split; [exact Ht|]. eapply nodes_trans; eassumption. }
      assert (Hd1_all : In (Elem d1 ks1) (all_nodes w)).
      { apply in_flat_map. exists (doc w). split; [left; reflexivity|exact Hn1]. }
      assert (m = Elem d1 ks1).
      { unfold unique_ids in Hu. rewrite all_ids_nodes in Hu.
        apply (NoDup_map_inj nid (all_nodes w)); try assumption. simpl. congruence. }
      subst m.
      assert (Hsp : In span (select (Simple (Class "js-year")) [] (Elem d ks))).
      { apply select_simple_nodes. exists d1, ks1. auto. }
      rewrite Hsel in Hsp. destruct Hsp. }
    split; [exact Hfind|]. unfold Dom.textContent. rewrite Hfind, Hf. reflexivity.
Qed.

Lemma footer_year_stamped_witness :
  Dom.textContent 10 (Shared.initFooterYear Sample.home Sample.start) = Some "2026"
  /\ Dom.textContent 8 (Shared.initFooterYear Sample.home Sample.start)
     = Dom.textContent 8 Sample.start.
Proof.
  assert (Hu : unique_ids Sample.start).
  { unfold unique_ids. apply (bool_decide_unpack _). vm_compute. reflexivity. }
  destruct (footer_year_stamped Sample.home Sample.start Hu) as [Hstamp Hframe]. split.
  - apply (Hstamp 10). vm_compute. auto.
  - apply (Hframe 8 (Sample.el 8 "section" [("data-reveal", "")] [] [Text "Welcome"])).
    + vm_compute. reflexivity.
    + vm_compute. reflexivity.
Defined.

(** C6 as stated fails: the footer has no [js-year] class, yet its text
    content changes, because it contains the stamped span. *)
Lemma footer_text_changes :
  Dom.has_class 9 "js-year" Sample.start = false
  /\ Dom.textContent 9 Sample.start = Some "(c) 2019"
  /\ Dom.textContent 9 (Shared.initFooterYear Sample.home Sample.start) = Some "(c) 2026".
Proof. vm_compute. repeat split; reflexivity. Qed.



(** * Further properties *)

(** ** Listeners by event type *)

Lemma filter_typed (ty : string) (t : target) (cap : bool) (ls : list listener) :
  List.filter (fun l => bool_decide (l_target l = t) && String.eqb (l_type l) ty
                        && Bool.eqb (l_capture l) cap) ls
  = List.filter (fun l => bool_decide (l_target l = t) && Bool.eqb (l_capture l) cap)
      (List.filter (fun l => String.eqb (l_type l) ty) ls).
Proof.
  induction ls as [|l ls IH]; simpl; [reflexivity|].
  destruct (String.eqb (l_type l) ty); simpl; rewrite IH.
  - rewrite andb_true_r. reflexivity.
  - rewrite andb_false_r. reflexivity.
Qed.

Lemma typed_on_other (t : target) (ty ty' : string) (h : nat * closure)
    (opts : option options) (w : world) :
  ty' <> ty -> typed ty (Shared.on t ty' h opts w) = typed ty w.
Proof.
  intros Hty. unfold typed, Shared.on, Dom.addEventListener, Dom.removeEventListener.
  simpl.
  assert (Hrm : List.filter (fun l => String.eqb (l_type l) ty)
                  (Dom.remove_first
                     (Dom.same_listener t ty' (fst h) (capture (flatten opts))) (listeners w))
                = List.filter (fun l => String.eqb (l_type l) ty) (listeners w)).
  { apply filter_remove_first. intros l Hl. apply same_listener_key in Hl.
    injection Hl as _ Hl _ _. rewrite Hl. apply String.eqb_neq, Hty. }
  destruct (existsb _ _); simpl; [exact Hrm|].
  rewrite List.filter_app, Hrm. simpl.
  rewrite (proj2 (String.eqb_neq ty' ty) Hty). apply app_nil_r.
Qed.

Lemma typed_on_new (t : target) (ty : string) (h : nat * closure) (opts : option options)
    (w : world) :
  (forall l, In l (typed ty w) -> l_fn l <> fst h) ->
  typed ty (Shared.on t ty h opts w)
  = typed ty w ++ [mk_listener t ty (fst h) (snd h) (capture (flatten opts))
                     (once (flatten opts)) (passive (flatten opts))].
Proof.
  intros Hfresh.
  assert (Hno : existsb (Dom.same_listener t ty (fst h) (capture (flatten opts)))
                  (listeners w) = false).
  { apply not_true_is_false. intros H. apply existsb_exists in H as (l & Hin & Hl).
    apply same_listener_key in Hl. injection Hl as _ Hty Hfn _.
    apply (Hfresh l); [|exact Hfn]. apply List.filter_In. split; [exact Hin|].
    rewrite Hty. apply String.eqb_refl. }
  unfold typed, Shared.on, Dom.addEventListener, Dom.removeEventListener. simpl.
  rewrite (existsb_remove_first _ _ Hno), Hno. simpl.
  rewrite List.filter_app. simpl. rewrite String.eqb_refl. reflexivity.
Qed.

Lemma no_typed (ty : string) (w : world) :
  (forall l, In l (listeners w) -> l_type l <> ty) -> typed ty w = [].
Proof.
  intros H. apply filter_none. apply not_true_is_false. intros Hex.
  apply existsb_exists in Hex as (l & Hin & Hl). apply String.eqb_eq in Hl.
  apply (H l Hin Hl).
Qed.

(** An event at [window] with one listener of its type, registered on
    [window] for the bubbling phase and not [once], runs that listener. *)
Lemma window_event_single (run : nat -> closure -> env -> world -> world) (ev : env)
    (ty : string) (bubbles : bool) (L : listener) (w : world) :
  typed ty w = [L] -> l_target L = Window -> l_capture L = false -> l_once L = false ->
  dispatch run ev ty bubbles Window w = run (l_fn L) (l_code L) ev w.
Proof.
  intros Hty Ht Hcap Honce.
  assert (HL : In L (listeners w)).
  { assert (H : In L (typed ty w)) by (rewrite Hty; left; reflexivity).
    apply List.filter_In in H. tauto. }
  assert (HtyL : l_type L = ty).
  { assert (H : In L (typed ty w)) by (rewrite Hty; left; reflexivity).
    apply List.filter_In in H. apply String.eqb_eq. tauto. }
  unfold dispatch, event_path. simpl fold_left.
  assert (H1 : fire run ev ty true Window w = w).
  { apply fire_nothing. rewrite filter_typed. fold (typed ty w). rewrite Hty. simpl.
    rewrite Hcap. simpl. rewrite andb_false_r. reflexivity. }
  rewrite H1.
  assert (H2 : fire run ev ty false Window w = run (l_fn L) (l_code L) ev w).
  { unfold fire. rewrite filter_typed. fold (typed ty w). rewrite Hty. simpl.
    rewrite Ht, Hcap. rewrite bool_decide_eq_true_2 by reflexivity. simpl.
    unfold invoke. rewrite Honce.
    replace (existsb _ (listeners w)) with true; [reflexivity|].
    symmetry. apply existsb_exists. exists L. split; [exact HL|].
    apply same_listener_key. reflexivity. }
  destruct bubbles; simpl; exact H2.
Qed.

(** ** The header follows the scroll position *)

Lemma gt_spec (x y : Q) : Js.gt x y = true <-> (y < x)%Q.
Proof.
  unfold Js.gt. rewrite negb_true_iff. split.
  - intros H. apply Qnot_le_lt. intros Hle. apply Qle_bool_iff in Hle. congruence.
  - intros H. apply not_true_is_false. intros Hle. apply Qle_bool_iff in Hle.
    apply (Qlt_not_le _ _ H Hle).
Qed.

Lemma doc_on (t : target) (ty : string) (h : nat * closure) (opts : option options)
    (w : world) :
  doc (Shared.on t ty h opts w) = doc w /\ detached (Shared.on t ty h opts w) = detached w.
Proof.
  unfold Shared.on. rewrite doc_addEventListener, detached_addEventListener. split; reflexivity.
Qed.

Lemma has_class_on (e : nat) (c : string) (t : target) (ty : string) (h : nat * closure)
    (opts : option options) (w : world) :
  Dom.has_class e c (Shared.on t ty h opts w) = Dom.has_class e c w.
Proof. apply has_class_same_dom; apply doc_on. Qed.

Lemma data_same_dom (e : nat) (w w' : world) :
  doc w' = doc w -> detached w' = detached w -> Dom.data e w' = Dom.data e w.
Proof.
  intros Hd Hdt. unfold Dom.data, Dom.find_elem, Dom.trees. rewrite Hd, Hdt. reflexivity.
Qed.

Lemma data_on (e : nat) (t : target) (ty : string) (h : nat * closure)
    (opts : option options) (w : world) :
  Dom.data e (Shared.on t ty h opts w) = Dom.data e w.
Proof. apply data_same_dom; apply doc_on. Qed.

Lemma onScroll_class (h : nat) (ev : env) (w : world) (cls : string) :
  is_Some (Dom.data h w) ->
  In cls ["shadow-elev1"; "backdrop-blur"; "bg-bg/70"] ->
  Dom.has_class h cls (MainJs.onScroll (Some h) ev w) = Js.gt (scrollY ev) (6 # 1)%Q.
Proof.
  intros Hd Hin. unfold MainJs.onScroll. destruct (Js.gt _ _).
  - rewrite has_class_add, !bool_decide_eq_true_2 by (reflexivity || exact Hd).
    destruct Hin as [<-|[<-|[<-|[]]]]; apply orb_true_r.
  - rewrite has_class_remove, bool_decide_eq_true_2 by reflexivity.
    destruct Hin as [<-|[<-|[<-|[]]]]; apply andb_false_r.
Qed.

Lemma updateCondensedState_class (h : nat) (ev : env) (w : world) :
  is_Some (Dom.data h w) ->
  Dom.has_class h "is-condensed" (Part000.updateCondensedState (Some h) ev w)
  = Js.gt (scrollY ev) (8 # 1)%Q.
Proof.
  intros Hd. unfold Part000.updateCondensedState, Dom.classList_toggle.
  destruct (Js.gt _ _).
  - rewrite has_class_add, !bool_decide_eq_true_2 by (reflexivity || exact Hd).
    apply orb_true_r.
  - rewrite has_class_remove, bool_decide_eq_true_2 by reflexivity. apply andb_false_r.
Qed.

(** The scroll listener and the header classes [initHeaderBehaviors] of
    src/js/main.js leaves behind. *)
Lemma main_init_scroll (ev : env) (w : world) :
  (forall l, In l (listeners w) -> l_type l <> "scroll") ->
  let header := Dom.querySelector (Simple (Attr "data-header")) w in
  typed "scroll" (MainJs.initHeaderBehaviors ev w)
  = [mk_listener Window "scroll" (next_ref w) (OnScroll header) false false false]
  /\ (forall e c, Dom.has_class e c (MainJs.initHeaderBehaviors ev w)
                  = Dom.has_class e c (MainJs.onScroll header ev w))
  /\ (forall e, is_Some (Dom.data e w) ->
                is_Some (Dom.data e (MainJs.initHeaderBehaviors ev w))).
Proof.
  intros Hno header. unfold MainJs.initHeaderBehaviors, fresh. cbv beta iota zeta.
  fold header.
  set (w2 := Shared.on Window "scroll" _ None _).
  destruct (same_tree_onScroll header ev w2) as (Ht3 & Hl3 & _).
  set (w3 := MainJs.onScroll header ev w2) in *.
  assert (H2 : typed "scroll" w2
               = [mk_listener Window "scroll" (next_ref w) (OnScroll header)
                    false false false]).
  { unfold w2. rewrite typed_on_new.
    - change (typed "scroll" (with_next_ref _ w)) with (typed "scroll" w).
      rewrite (no_typed "scroll" w Hno). reflexivity.
    - change (typed "scroll" (with_next_ref _ w)) with (typed "scroll" w).
      rewrite (no_typed "scroll" w Hno). intros l []. }
  assert (H3 : typed "scroll" w3 = typed "scroll" w2) by (unfold typed; rewrite Hl3; reflexivity).
  assert (Hc3 : forall e c, Dom.has_class e c w3
                            = Dom.has_class e c (MainJs.onScroll header ev w)).
  { intros e c. unfold w3. destruct header as [h|]; simpl.
    - destruct (Js.gt _ _).
      + rewrite !has_class_add. unfold w2. rewrite has_class_on, data_on. reflexivity.
      + rewrite !has_class_remove. unfold w2. rewrite has_class_on. reflexivity.
    - unfold w2. rewrite has_class_on. reflexivity. }
  assert (Hd3 : forall e, is_Some (Dom.data e w) -> is_Some (Dom.data e w3)).
  { intros e He. apply Ht3. unfold w2. rewrite data_on. exact He. }
  destruct (Dom.querySelector (Simple (Attr "data-mobile-btn")) w) as [b|];
    [destruct (Dom.querySelector (Simple (Attr "data-mobile-menu")) w) as [m|]|].
  2,3: (split; [rewrite H3; exact H2|split; [exact Hc3|exact Hd3]]).
  split; [|split].
  - rewrite typed_on_other by discriminate.
    change (typed "scroll" (with_next_ref _ w3)) with (typed "scroll" w3).
    rewrite H3. exact H2.
  - intros e c. rewrite has_class_on. apply Hc3.
  - intros e He. rewrite data_on. apply Hd3, He.
Qed.

(** A scroll event in a world whose only scroll listener is [onScroll]. *)
Lemma main_scroll_step (ev : env) (w : world) (f h : nat) :
  typed "scroll" w = [mk_listener Window "scroll" f (OnScroll (Some h)) false false false] ->
  is_Some (Dom.data h w) ->
  scroll_of MainCopy ev w = MainJs.onScroll (Some h) ev w
  /\ typed "scroll" (scroll_of MainCopy ev w) = typed "scroll" w
  /\ is_Some (Dom.data h (scroll_of MainCopy ev w)).
Proof.
  intros Hty Hd.
  assert (Hs : scroll_of MainCopy ev w = MainJs.onScroll (Some h) ev w).
  { unfold scroll_of. erewrite window_event_single; [|exact Hty|reflexivity..]. reflexivity. }
  rewrite Hs. destruct (same_tree_onScroll (Some h) ev w) as (Ht & Hl & _).
  split; [reflexivity|split].
  - unfold typed. rewrite Hl. reflexivity.
  - apply Ht, Hd.
Qed.

Lemma main_scrolls_inv (evs : list env) (w : world) (f h : nat) :
  typed "scroll" w = [mk_listener Window "scroll" f (OnScroll (Some h)) false false false] ->
  is_Some (Dom.data h w) ->
  typed "scroll" (scrolls MainCopy evs w)
  = [mk_listener Window "scroll" f (OnScroll (Some h)) false false false]
  /\ is_Some (Dom.data h (scrolls MainCopy evs w)).
Proof.
  unfold scrolls. revert w. induction evs as [|e1 evs IH]; intros w Hty Hd; simpl; [auto|].
  destruct (main_scroll_step e1 w f h Hty Hd) as (_ & Hty1 & Hd1).
  apply IH; [rewrite Hty1; exact Hty|exact Hd1].
Qed.

(** src/js/main.js: after [initHeaderBehaviors] and after every scroll
    event that follows, the header carries each of the classes
    [shadow-elev1], [backdrop-blur] and [bg-bg/70] exactly when the page
    is scrolled more than 6 pixels. *)
Theorem header_shadow_tracks_scroll (ev : env) (w : world) (h : nat) (evs : list env)
    (ev' : env) (cls : string) :
  Dom.querySelector (Simple (Attr "data-header")) w = Some h ->
  (forall l, In l (listeners w) -> l_type l <> "scroll") ->
  In cls ["shadow-elev1"; "backdrop-blur"; "bg-bg/70"] ->
  let w0 := MainJs.initHeaderBehaviors ev w in
  (Dom.has_class h cls w0 = true <-> (6 # 1 < scrollY ev)%Q)
  /\ (Dom.has_class h cls (scroll_of MainCopy ev' (scrolls MainCopy evs w0)) = true
      <-> (6 # 1 < scrollY ev')%Q).
Proof.
  intros Hq Hno Hcls w0.
  pose proof (querySelector_data _ _ _ Hq) as Hd.
  destruct (main_init_scroll ev w Hno) as (Hty & Hc & Hd0). rewrite Hq in Hty, Hc.
  fold w0 in Hty, Hc, Hd0. split.
  - rewrite Hc, (onScroll_class h ev w cls Hd Hcls). apply gt_spec.
  - destruct (main_scrolls_inv evs w0 _ h Hty (Hd0 h Hd)) as [Hty1 Hd1].
    destruct (main_scroll_step ev' _ _ h Hty1 Hd1) as (Hs & _).
    rewrite Hs, (onScroll_class h ev' _ cls Hd1 Hcls). apply gt_spec.
Qed.

Lemma update_same_dom (e : nat) (f : edata -> edata) (w w' : world) :
  doc w' = doc w -> detached w' = detached w ->
  doc (Dom.update e f w') = doc (Dom.update e f w)
  /\ detached (Dom.update e f w') = detached (Dom.update e f w).
Proof. intros Hd Hdt. unfold Dom.update. simpl. rewrite Hd, Hdt. split; reflexivity. Qed.

Lemma updateCondensedState_same_dom (header : option nat) (ev : env) (w w' : world) :
  doc w' = doc w -> detached w' = detached w ->
  doc (Part000.updateCondensedState header ev w')
  = doc (Part000.updateCondensedState header ev w)
  /\ detached (Part000.updateCondensedState header ev w')
     = detached (Part000.updateCondensedState header ev w).
Proof.
  intros Hd Hdt. destruct header as [h|]; simpl; [|auto].
  unfold Dom.classList_toggle, Dom.classList_add, Dom.classList_remove.
  destruct (Js.gt _ _); apply update_same_dom; assumption.
Qed.

(** The loop of lines 66-70 of part_000 registers click listeners only. *)
Lemma link_loop_frame (btn menu : nat) (links : list nat) (w : world) :
  let w' := fold_left (fun w link =>
                         let '(k, w) := fresh w in
                         Shared.on (Element link) "click" (k, LinkClick btn menu) None w)
                      links w in
  doc w' = doc w /\ detached w' = detached w
  /\ forall ty, ty <> "click" -> typed ty w' = typed ty w.
Proof.
  revert w. induction links as [|a links IH]; intros w; simpl; [auto|].
  unfold fresh in *. cbv beta iota zeta in *.
  destruct (IH (Shared.on (Element a) "click" (next_ref w, LinkClick btn menu) None
                  (with_next_ref (S (next_ref w)) w))) as (Hd & Hdt & Hty).
  destruct (doc_on (Element a) "click" (next_ref w, LinkClick btn menu) None
              (with_next_ref (S (next_ref w)) w)) as [Hd1 Hdt1].
  split; [rewrite Hd, Hd1; reflexivity|]. split; [rewrite Hdt, Hdt1; reflexivity|].
  intros ty Hne. rewrite (Hty ty Hne). rewrite typed_on_other by congruence. reflexivity.
Qed.

(** What [initHeaderBehaviors] of part_000 (and part_001) leaves behind:
    the document is the one [updateCondensedState] gives, the scroll
    listener is registered, and with a button and a menu the resize
    listener too. *)
Lemma part000_init_parts (ev : env) (w : world) :
  let header := Dom.querySelector (Simple (Attr "data-header")) w in
  let w0 := Part000.initHeaderBehaviors ev w in
  doc w0 = doc (Part000.updateCondensedState header ev w)
  /\ detached w0 = detached (Part000.updateCondensedState header ev w)
  /\ ((forall l, In l (listeners w) -> l_type l <> "scroll") ->
      typed "scroll" w0
      = [mk_listener Window "scroll" (next_ref w) (UpdateCondensedState header)
           false false true])
  /\ (forall b m,
        (forall l, In l (listeners w) -> l_type l <> "resize") ->
        Dom.querySelector (Simple (Attr "data-mobile-btn")) w = Some b ->
        Dom.querySelector (Simple (Attr "data-mobile-menu")) w = Some m ->
        exists r, typed "resize" w0
                  = [mk_listener Window "resize" r (ResizeClose b m) false false false]).
Proof.
  intros header w0. unfold w0, Part000.initHeaderBehaviors, fresh. cbv beta iota zeta.
  fold header.
  set (w1 := with_next_ref (S (next_ref w)) w).
  set (w2 := Shared.on Window "scroll" _ _ w1).
  destruct (same_tree_updateCondensedState header ev w2) as (_ & Hl3 & _).
  destruct (doc_on Window "scroll" (next_ref w, UpdateCondensedState header)
              (Some (mk_options false false true)) w1) as [Hd2 Hdt2].
  fold w2 in Hd2, Hdt2.
  destruct (updateCondensedState_same_dom header ev w w2 Hd2 Hdt2) as [Hd3 Hdt3].
  set (w3 := Part000.updateCondensedState header ev w2) in *.
  assert (Hs3 : (forall l, In l (listeners w) -> l_type l <> "scroll") ->
                typed "scroll" w3
                = [mk_listener Window "scroll" (next_ref w) (UpdateCondensedState header)
                     false false true]).
  { intros Hno. unfold typed. rewrite Hl3. fold (typed "scroll" w2). unfold w2.
    rewrite typed_on_new.
    - change (typed "scroll" w1) with (typed "scroll" w).
      rewrite (no_typed "scroll" w Hno). reflexivity.
    - change (typed "scroll" w1) with (typed "scroll" w).
      rewrite (no_typed "scroll" w Hno). intros l []. }
  assert (Hr3 : (forall l, In l (listeners w) -> l_type l <> "resize") ->
                typed "resize" w3 = []).
  { intros Hno. unfold typed. rewrite Hl3. fold (typed "resize" w2). unfold w2.
    rewrite typed_on_other by discriminate.
    change (typed "resize" w1) with (typed "resize" w). apply (no_typed "resize" w Hno). }
  destruct (Dom.querySelector (Simple (Attr "data-mobile-btn")) w) as [b|];
    [destruct (Dom.querySelector (Simple (Attr "data-mobile-menu")) w) as [m|]|].
  2,3: (split; [exact Hd3|split; [exact Hdt3|split; [exact Hs3|]]];
        intros b' m' _ Hb' Hm'; discriminate).
  set (w4 := with_next_ref (S (next_ref w3)) w3).
  set (w5 := Shared.on (Element b) "click" (next_ref w3, MenuClick b m) None w4).
  destruct (doc_on (Element b) "click" (next_ref w3, MenuClick b m) None w4) as [Hd5 Hdt5].
  fold w5 in Hd5, Hdt5.
  destruct (link_loop_frame b m (Dom.elem_querySelectorAll m (Simple (Tag "a")) w5) w5)
    as (Hd6 & Hdt6 & Hty6).
  set (w6 := fold_left _ _ w5) in *.
  set (w7 := with_next_ref (S (next_ref w6)) w6).
  destruct (doc_on Window "resize" (next_ref w6, ResizeClose b m) None w7) as [Hd8 Hdt8].
  split; [|split; [|split]].
  - rewrite Hd8. change (doc w7) with (doc w6). rewrite Hd6, Hd5. exact Hd3.
  - rewrite Hdt8. change (detached w7) with (detached w6). rewrite Hdt6, Hdt5. exact Hdt3.
  - intros Hno. rewrite typed_on_other by discriminate.
    change (typed "scroll" w7) with (typed "scroll" w6).
    rewrite Hty6 by discriminate. unfold w5. rewrite typed_on_other by discriminate.
    change (typed "scroll" w4) with (typed "scroll" w3). apply Hs3, Hno.
  - intros b' m' Hno [= <-] [= <-]. exists (next_ref w6).
    assert (H6 : typed "resize" w7 = []).
    { change (typed "resize" w7) with (typed "resize" w6).
      rewrite Hty6 by discriminate. unfold w5. rewrite typed_on_other by discriminate.
      change (typed "resize" w4) with (typed "resize" w3). apply Hr3, Hno. }
    rewrite typed_on_new; rewrite H6; [reflexivity|intros l []].
Qed.

Lemma run_updateCondensedState (c : copy) (f : nat) (header : option nat) (ev : env)
    (w : world) :
  c <> MainCopy ->
  run_of c f (UpdateCondensedState header) ev w = Part000.updateCondensedState header ev w.
Proof. destruct c; [congruence|reflexivity|reflexivity]. Qed.

Lemma condensed_scroll_step (c : copy) (ev : env) (w : world) (f h : nat) :
  c <> MainCopy ->
  typed "scroll" w
  = [mk_listener Window "scroll" f (UpdateCondensedState (Some h)) false false true] ->
  is_Some (Dom.data h w) ->
  scroll_of c ev w = Part000.updateCondensedState (Some h) ev w
  /\ typed "scroll" (scroll_of c ev w) = typed "scroll" w
  /\ is_Some (Dom.data h (scroll_of c ev w)).
Proof.
  intros Hc Hty Hd.
  assert (Hs : scroll_of c ev w = Part000.updateCondensedState (Some h) ev w).
  { unfold scroll_of. erewrite window_event_single; [|exact Hty|reflexivity..].
    apply run_updateCondensedState, Hc. }
  rewrite Hs. destruct (same_tree_updateCondensedState (Some h) ev w) as (Ht & Hl & _).
  split; [reflexivity|split].
  - unfold typed. rewrite Hl. reflexivity.
  - apply Ht, Hd.
Qed.

Lemma condensed_scrolls_inv (c : copy) (evs : list env) (w : world) (f h : nat) :
  c <> MainCopy ->
  typed "scroll" w
  = [mk_listener Window "scroll" f (UpdateCondensedState (Some h)) false false true] ->
  is_Some (Dom.data h w) ->
  typed "scroll" (scrolls c evs w)
  = [mk_listener Window "scroll" f (UpdateCondensedState (Some h)) false false true]
  /\ is_Some (Dom.data h (scrolls c evs w)).
Proof.
  intros Hc. unfold scrolls. revert w.
  induction evs as [|e1 evs IH]; intros w Hty Hd; simpl; [auto|].
  destruct (condensed_scroll_step c e1 w f h Hc Hty Hd) as (_ & Hty1 & Hd1).
  apply IH; [rewrite Hty1; exact Hty|exact Hd1].
Qed.

Lemma init_of_part000 (c : copy) (ev : env) (w : world) :
  c <> MainCopy -> initHeaderBehaviors_of c ev w = Part000.initHeaderBehaviors ev w.
Proof. destruct c; [congruence|reflexivity|reflexivity]. Qed.

(** part_000 and part_001: after [initHeaderBehaviors] and after every
    scroll event that follows, the header carries [is-condensed] exactly
    when the page is scrolled more than 8 pixels. *)
Theorem header_condensed_tracks_scroll (c : copy) (ev : env) (w : world) (h : nat)
    (evs : list env) (ev' : env) :
  c <> MainCopy ->
  Dom.querySelector (Simple (Attr "data-header")) w = Some h ->
  (forall l, In l (listeners w) -> l_type l <> "scroll") ->
  let w0 := initHeaderBehaviors_of c ev w in
  (Dom.has_class h "is-condensed" w0 = true <-> (8 # 1 < scrollY ev)%Q)
  /\ (Dom.has_class h "is-condensed" (scroll_of c ev' (scrolls c evs w0)) = true
      <-> (8 # 1 < scrollY ev')%Q).
Proof.
  intros Hc Hq Hno w0. unfold w0. rewrite (init_of_part000 c ev w Hc). clear w0.
  pose proof (querySelector_data _ _ _ Hq) as Hd.
  destruct (part000_init_parts ev w) as (Hdoc & Hdet & Hty & _).
  rewrite Hq in Hdoc, Hdet, Hty. specialize (Hty Hno).
  set (w0 := Part000.initHeaderBehaviors ev w) in *.
  assert (Hd0 : is_Some (Dom.data h w0)).
  { rewrite (data_same_dom h _ w0 Hdoc Hdet).
    apply (same_tree_updateCondensedState (Some h) ev w), Hd. }
  split.
  - rewrite (has_class_same_dom h _ _ w0 Hdoc Hdet), (updateCondensedState_class h ev w Hd).
    apply gt_spec.
  - destruct (condensed_scrolls_inv c evs w0 _ h Hc Hty Hd0) as [Hty1 Hd1].
    destruct (condensed_scroll_step c ev' _ _ h Hc Hty1 Hd1) as (Hs & _).
    rewrite Hs, (updateCondensedState_class h ev' _ Hd1). apply gt_spec.
Qed.

(** ** Listeners never change the structure of the document *)

Lemma shape_map_elems (f : edata -> edata) (n : node) :
  (forall d, bare (f d) = bare d) -> shape (map_elems f n) = shape n.
Proof.
  intros Hf. unfold shape. rewrite map_elems_compose. apply map_elems_ext, Hf.
Qed.

Lemma same_shape_refl (w : world) : same_shape w w.
Proof. reflexivity. Qed.

Lemma same_shape_trans (w1 w2 w3 : world) :
  same_shape w1 w2 -> same_shape w2 w3 -> same_shape w1 w3.
Proof. unfold same_shape. congruence. Qed.

Lemma same_shape_same_dom (w w' : world) :
  doc w' = doc w -> detached w' = detached w -> same_shape w w'.
Proof. intros Hd Hdt. unfold same_shape, Dom.trees. rewrite Hd, Hdt. reflexivity. Qed.

Lemma same_shape_update (e : nat) (f : edata -> edata) (w : world) :
  (forall d, e_id (f d) = e_id d) -> (forall d, e_tag (f d) = e_tag d) ->
  same_shape w (Dom.update e f w).
Proof.
  intros Hid Htag.
  assert (Hb : forall d, bare (at_elem e f d) = bare d).
  { intros d. unfold at_elem, bare. destruct (decide (e_id d = e)); [|reflexivity].
    rewrite Hid, Htag. reflexivity. }
  unfold same_shape, Dom.update, Dom.trees. simpl.
  rewrite (shape_map_elems _ _ Hb). f_equal.
  rewrite map_map. apply map_ext. intros t. apply shape_map_elems, Hb.
Qed.

Lemma same_shape_classList_toggle (e : nat) (c : string) (b : bool) (w : world) :
  same_shape w (Dom.classList_toggle e c b w).
Proof. destruct b; apply same_shape_update; reflexivity. Qed.

Lemma same_shape_setMenuState (btn menu : nat) (open : bool) (w : world) :
  same_shape w (Part000.setMenuState btn menu open w).
Proof.
  unfold Part000.setMenuState.
  set (w2 := Dom.setAttribute btn "aria-expanded" _ _).
  assert (H2 : same_shape w w2).
  { eapply same_shape_trans; apply same_shape_update; reflexivity. }
  destruct (Dom.body w2); [|exact H2].
  eapply same_shape_trans; [exact H2|apply same_shape_classList_toggle].
Qed.

(** Whatever function object runs, the skeleton of every tree stays. *)
Lemma same_shape_run (c : copy) (fn : nat) (code : closure) (ev : env) (w : world) :
  same_shape w (run_of c fn code ev w).
Proof.
  assert (Hmain : forall code, same_shape w (MainJs.run fn code ev w)).
  { intros [header|b m|input label|header|b m|b m|b m|el]; simpl;
      try apply same_shape_refl.
    - destruct header as [h|]; simpl; [|apply same_shape_refl].
      destruct (Js.gt _ _); apply same_shape_update; reflexivity.
    - unfold MainJs.menuClick.
      eapply same_shape_trans; [|apply same_shape_update; reflexivity].
      eapply same_shape_trans; [|apply same_shape_classList_toggle].
      eapply same_shape_trans; [|apply same_shape_classList_toggle].
      apply same_shape_update; reflexivity.
    - unfold MainJs.floatToggle.
      destruct (negb _); apply same_shape_update; reflexivity. }
  assert (H000 : forall code, same_shape w (Part000.run fn code ev w)).
  { intros [header|b m|input label|header|b m|b m|b m|el]; simpl;
      try apply same_shape_refl.
    - destruct header as [h|]; simpl; [|apply same_shape_refl].
      apply same_shape_classList_toggle.
    - apply same_shape_setMenuState.
    - apply same_shape_setMenuState.
    - unfold Part000.resizeClose.
      destruct (_ <=? _)%Z; [apply same_shape_setMenuState|apply same_shape_refl]. }
  destruct c; simpl; [apply Hmain|apply H000|].
  destruct code as [header|b m|input label|header|b m|b m|b m|el];
    try apply (H000 _).
  simpl. unfold Part001.cleanup.
  apply (same_shape_trans _ (Dom.style_set el "will-change" "" w)).
  - unfold Dom.style_set. apply same_shape_update; reflexivity.
  - apply same_shape_same_dom; reflexivity.
Qed.

Lemma same_shape_invoke (c : copy) (ev : env) (l : listener) (w : world) :
  same_shape w (invoke (run_of c) ev l w).
Proof.
  unfold invoke. destruct (existsb _ _); [|apply same_shape_refl].
  eapply same_shape_trans; [|apply same_shape_run].
  destruct (l_once l); [apply same_shape_same_dom; reflexivity|apply same_shape_refl].
Qed.

Lemma same_shape_fold {A} (f : world -> A -> world) (l : list A) (w : world) :
  (forall w a, same_shape w (f w a)) -> same_shape w (fold_left f l w).
Proof.
  intros H. revert w. induction l as [|a l IH]; intros w; simpl; [apply same_shape_refl|].
  eapply same_shape_trans; [apply H|apply IH].
Qed.

Lemma same_shape_fire (c : copy) (ev : env) (ty : string) (cap : bool) (t : target)
    (w : world) :
  same_shape w (fire (run_of c) ev ty cap t w).
Proof. unfold fire. apply same_shape_fold. intros w' l. apply same_shape_invoke. Qed.

(** What the skeleton determines. *)
Lemma first_some_shape {B} (g : node -> option B) (ts ts' : list node) :
  (forall t, g (shape t) = g t) -> map shape ts' = map shape ts ->
  first_some g ts' = first_some g ts.
Proof.
  intros Hg H.
  rewrite <- (first_some_ext (fun t => g (shape t)) g ts')
    by (apply Forall_forall; intros t _; apply Hg).
  rewrite <- (first_some_ext (fun t => g (shape t)) g ts)
    by (apply Forall_forall; intros t _; apply Hg).
  rewrite <- (first_some_map g shape ts'), <- (first_some_map g shape ts), H. reflexivity.
Qed.

Lemma bare_id (d : edata) : e_id (bare d) = e_id d.
Proof. reflexivity. Qed.

Lemma ids_shape (t : node) : ids (shape t) = ids t.
Proof. apply ids_map_elems, bare_id. Qed.

Lemma text_of_shape (t : node) : text_of (shape t) = text_of t.
Proof.
  induction t as [d ks IH|s] using node_ind; simpl; [|reflexivity].
  f_equal. rewrite map_map. induction IH as [|k ks Hk _ IHks]; simpl; [reflexivity|].
  fold (shape k). rewrite Hk, IHks. reflexivity.
Qed.

Lemma all_ids_shape (w w' : world) : same_shape w w' -> all_ids w' = all_ids w.
Proof.
  intros H. unfold all_ids.
  assert (Hf : forall ts, flat_map ids ts = flat_map ids (map shape ts)).
  { induction ts as [|t ts IH]; simpl; [reflexivity|]. rewrite ids_shape, IH. reflexivity. }
  rewrite (Hf (Dom.trees w')), (Hf (Dom.trees w)), H. reflexivity.
Qed.

Lemma data_all_ids (e : nat) (w : world) : is_Some (Dom.data e w) <-> In e (all_ids w).
Proof.
  split.
  - intros [d Hd]. unfold Dom.data in Hd.
    destruct (Dom.find_elem e w) as [n|] eqn:E; [|discriminate].
    destruct (find_elem_shape e w n E) as (d' & ks & -> & Hid & Hin).
    rewrite all_ids_nodes. apply in_map_iff. exists (Elem d' ks). auto.
  - intros H. apply in_flat_map in H as (t & Ht & He). apply (trees_ids_data w t e Ht He).
Qed.

Lemma is_Some_data_shape (w w' : world) (e : nat) :
  same_shape w w' -> is_Some (Dom.data e w) -> is_Some (Dom.data e w').
Proof. intros H. rewrite !data_all_ids, (all_ids_shape w w' H). auto. Qed.

Lemma ancestors_shape (w w' : world) (e : nat) :
  same_shape w w' -> Dom.ancestors e w' = Dom.ancestors e w.
Proof.
  intros H. unfold Dom.ancestors. apply first_some_shape; [|exact H].
  intros t. apply ancestors_in_map_elems, bare_id.
Qed.

Lemma doc_shape (w w' : world) : same_shape w w' -> shape (doc w') = shape (doc w).
Proof. unfold same_shape, Dom.trees. simpl. intros [= H _]. exact H. Qed.

Lemma ancestors_in_shape (w w' : world) (e : nat) :
  same_shape w w' -> ancestors_in e (doc w') = ancestors_in e (doc w).
Proof.
  intros H. rewrite <- (ancestors_in_map_elems bare bare_id e (doc w')).
  rewrite <- (ancestors_in_map_elems bare bare_id e (doc w)).
  fold (shape (doc w')). fold (shape (doc w)). rewrite (doc_shape w w' H). reflexivity.
Qed.

Lemma textContent_shape (w w' : world) (e : nat) :
  same_shape w w' -> Dom.textContent e w' = Dom.textContent e w.
Proof.
  intros H. unfold Dom.textContent, Dom.find_elem.
  rewrite <- (first_some_fmap (find_node e) text_of (Dom.trees w')).
  rewrite <- (first_some_fmap (find_node e) text_of (Dom.trees w)).
  apply first_some_shape; [|exact H].
  intros t. unfold shape. rewrite (find_node_map_elems bare bare_id).
  destruct (find_node e t) as [n|]; simpl; [|reflexivity].
  f_equal. apply text_of_shape.
Qed.

Lemma body_shape (w w' : world) : same_shape w w' -> Dom.body w' = Dom.body w.
Proof.
  intros H. apply doc_shape in H. unfold Dom.body.
  destruct (doc w') as [d' ks'|s']; destruct (doc w) as [d ks|s]; simpl in H;
    try discriminate; [|reflexivity].
  assert (Hks : map shape ks' = map shape ks).
  { change (map (map_elems bare) ks' = map (map_elems bare) ks).
    unfold shape in H. simpl in H. congruence. }
  clear H. revert ks' Hks.
  induction ks as [|k ks IH]; intros [|k' ks'] H; simpl in H; try discriminate;
    [reflexivity|].
  assert (Hk : shape k' = shape k) by congruence.
  assert (Ht : map shape ks' = map shape ks) by congruence.
  simpl. rewrite (IH ks' Ht).
  destruct k' as [dk' kk'|sk']; destruct k as [dk kk|sk]; unfold shape in Hk;
    simpl in Hk; try discriminate; [|reflexivity].
  assert (Hid : e_id dk' = e_id dk) by (unfold bare in Hk; congruence).
  assert (Htag : e_tag dk' = e_tag dk) by (unfold bare in Hk; congruence).
  rewrite Hid, Htag. reflexivity.
Qed.

Lemma same_shape_dispatch (c : copy) (ev : env) (ty : string) (bubbles : bool)
    (t : target) (w : world) :
  same_shape w (dispatch (run_of c) ev ty bubbles t w).
Proof.
  unfold dispatch.
  set (w1 := fold_left _ (rev _) w).
  assert (H1 : same_shape w w1).
  { apply same_shape_fold. intros w' a. apply same_shape_fire. }
  set (w2 := fire _ ev ty false t _).
  assert (H2 : same_shape w w2).
  { eapply same_shape_trans; [exact H1|].
    eapply same_shape_trans; apply same_shape_fire. }
  destruct bubbles; [|exact H2].
  eapply same_shape_trans; [exact H2|].
  apply same_shape_fold. intros w' a. apply same_shape_fire.
Qed.

(** None of the listeners that the functions of the scripts register
    (for [scroll], [click], [resize], [transitionend], [input] and [blur])
    adds, removes, moves or renames an element: whatever event other than
    [DOMContentLoaded] is dispatched, at whatever target, every tree (the
    document and the detached ones) keeps its elements, their tags, their
    nesting and its text.  So the elements, their ancestors, their text
    content and [document.body] are afterwards what they were; only
    attributes, classes and styles can differ.  ([DOMContentLoaded] is
    what runs [boot], once, and [boot] does put markup into the page.) *)
Theorem listeners_keep_structure (c : copy) (ev : env) (ty : string) (bubbles : bool)
    (t : target) (w : world) :
  ty <> "DOMContentLoaded" ->
  let w' := dispatch (run_of c) ev ty bubbles t w in
  same_shape w w'
  /\ all_ids w' = all_ids w
  /\ (forall e, Dom.ancestors e w' = Dom.ancestors e w)
  /\ (forall e, Dom.textContent e w' = Dom.textContent e w)
  /\ Dom.body w' = Dom.body w.
Proof.
  intros _ w'. assert (H : same_shape w w') by apply same_shape_dispatch.
  split; [exact H|]. split; [apply all_ids_shape, H|].
  split; [intros e; apply ancestors_shape, H|].
  split; [intros e; apply textContent_shape, H|apply body_shape, H].
Qed.

(** ** The mobile menu under any clicks *)

(** Whatever the click listeners of a wired world keep, every click
    keeps. *)
Section ClickKeeps.

Variables (c : copy) (btn menu : nat) (links anc : list nat) (Q : world -> Prop).
Hypothesis Q_run :
  forall l ev w, click_code_ok c btn menu l ->
    is_Some (Dom.data btn w) -> is_Some (Dom.data menu w) ->
    Q w -> Q (run_of c (l_fn l) (l_code l) ev w).

Lemma invoke_keeps (ev : env) (l : listener) (w : world) :
  click_code_ok c btn menu l ->
  menu_ready c btn menu links anc w /\ Q w ->
  menu_ready c btn menu links anc (invoke (run_of c) ev l w)
  /\ Q (invoke (run_of c) ev l w).
Proof.
  intros Hl [Hr Hq]. unfold invoke. destruct (existsb _ (listeners w)); [|auto].
  rewrite (proj2 Hl). pose proof Hr as (_ & _ & Hb & Hm).
  destruct (run_click_code c btn menu l ev w Hl Hb Hm) as [Hf _].
  split; [eapply menu_ready_same_frame; eassumption|apply Q_run; assumption].
Qed.

Lemma fire_keeps (ev : env) (cap : bool) (t : target) (w : world) :
  menu_ready c btn menu links anc w /\ Q w ->
  menu_ready c btn menu links anc (fire (run_of c) ev "click" cap t w)
  /\ Q (fire (run_of c) ev "click" cap t w).
Proof.
  intros Hw. unfold fire.
  assert (Hall : Forall (click_code_ok c btn menu)
                   (List.filter (fun l => bool_decide (l_target l = t)
                                          && String.eqb (l_type l) "click"
                                          && Bool.eqb (l_capture l) cap) (listeners w))).
  { apply Forall_forall. intros l Hl. apply list_elem_of_In in Hl.
    rewrite filter_click_listeners in Hl. apply List.filter_In in Hl as [Hl _].
    apply (ready_click_codes c btn menu links anc w l (proj1 Hw) Hl). }
  revert Hall. generalize (List.filter (fun l => bool_decide (l_target l = t)
                                                 && String.eqb (l_type l) "click"
                                                 && Bool.eqb (l_capture l) cap) (listeners w)).
  intros ls Hall. revert w Hw.
  induction Hall as [|l ls Hl _ IH]; intros w Hw; simpl; [exact Hw|].
  apply IH, invoke_keeps; assumption.
Qed.

Lemma click_keeps (ev : env) (e : nat) (w : world) :
  menu_ready c btn menu links anc w /\ Q w ->
  menu_ready c btn menu links anc (click_of c ev e w) /\ Q (click_of c ev e w).
Proof.
  intros Hw. rewrite click_of_dispatch. fold (run_of c). unfold dispatch.
  assert (Hfold : forall cap path w,
            menu_ready c btn menu links anc w /\ Q w ->
            menu_ready c btn menu links anc
              (fold_left (fun w a => fire (run_of c) ev "click" cap a w) path w)
            /\ Q (fold_left (fun w a => fire (run_of c) ev "click" cap a w) path w)).
  { intros cap path. induction path as [|a path IH]; intros w' Hw'; simpl; [exact Hw'|].
    apply IH, fire_keeps, Hw'. }
  apply Hfold. do 2 apply fire_keeps. apply Hfold. exact Hw.
Qed.

Lemma clicks_keep (evs : list (env * nat)) (w : world) :
  menu_ready c btn menu links anc w /\ Q w ->
  menu_ready c btn menu links anc (clicks c evs w) /\ Q (clicks c evs w).
Proof.
  unfold clicks. revert w. induction evs as [|x evs IH]; intros w Hw; simpl; [exact Hw|].
  apply IH, click_keeps, Hw.
Qed.

End ClickKeeps.

Lemma has_class_toggle_same (e : nat) (c : string) (b : bool) (w : world) :
  is_Some (Dom.data e w) -> Dom.has_class e c (Dom.classList_toggle e c b w) = b.
Proof.
  intros Hd. unfold Dom.classList_toggle. destruct b.
  - rewrite has_class_add, !bool_decide_eq_true_2 by (reflexivity || exact Hd).
    simpl. rewrite String.eqb_refl. apply orb_true_r.
  - rewrite has_class_remove, bool_decide_eq_true_2 by reflexivity.
    simpl. rewrite String.eqb_refl. apply andb_false_r.
Qed.

Lemma has_class_toggle_other (e e' : nat) (c t : string) (b : bool) (w : world) :
  c <> t -> Dom.has_class e c (Dom.classList_toggle e' t b w) = Dom.has_class e c w.
Proof.
  intros Hne. apply String.eqb_neq in Hne. unfold Dom.classList_toggle. destruct b.
  - rewrite has_class_add. simpl. rewrite Hne. simpl. rewrite andb_false_r.
    apply orb_false_r.
  - rewrite has_class_remove. simpl. rewrite Hne. simpl. rewrite andb_false_r.
    apply andb_true_r.
Qed.

Lemma menu_open_of (menu : nat) (b : bool) (w : world) :
  Dom.getAttribute menu "data-open" w = Some (Js.String_of_bool b) -> menu_open menu w = b.
Proof.
  intros H. unfold menu_open. rewrite H. destruct b; reflexivity.
Qed.

(** src/js/main.js, lines 59-65: what the toggle leaves on the menu. *)
Lemma main_menuClick_classes (btn menu : nat) (w : world) (cls : string) :
  is_Some (Dom.data btn w) -> is_Some (Dom.data menu w) ->
  In cls ["pointer-events-none"; "opacity-0"] ->
  Dom.has_class menu cls (MainJs.menuClick btn menu w)
  = negb (menu_open menu (MainJs.menuClick btn menu w)).
Proof.
  intros Hb Hm Hcls.
  destruct (main_menuClick_attrs btn menu w Hb Hm) as [Ho _].
  rewrite (menu_open_of menu _ _ Ho), negb_involutive.
  unfold MainJs.menuClick. fold (menu_open menu w).
  rewrite has_class_setAttribute.
  assert (Hm1 : is_Some (Dom.data menu (Dom.setAttribute menu "data-open"
                   (Js.String_of_bool (negb (menu_open menu w))) w)))
    by (apply is_Some_setAttribute, Hm).
  destruct Hcls as [<-|[<-|[]]].
  - rewrite has_class_toggle_other by discriminate.
    apply has_class_toggle_same, Hm1.
  - apply has_class_toggle_same, is_Some_classList_toggle, Hm1.
Qed.

Lemma ancestors_in_ids (e : nat) (n : node) :
  In e (ids n) -> is_Some (ancestors_in e n).
Proof.
  induction n as [d ks IH|s] using node_ind; simpl; [|tauto].
  destruct (decide (e_id d = e)); [eauto|].
  intros [H|H]; [congruence|].
  apply in_flat_map in H as (k & Hk & He).
  rewrite Forall_forall in IH.
  destruct (first_some_is_Some (ancestors_in e) ks k Hk
              (IH k (proj2 (list_elem_of_In _ _) Hk) He)) as [a ->].
  simpl. eauto.
Qed.

Lemma querySelector_ancestors (sel : selector) (w : world) (e : nat) :
  Dom.querySelector sel w = Some e -> is_Some (ancestors_in e (doc w)).
Proof.
  unfold Dom.querySelector, Dom.querySelectorAll. intros H. apply ancestors_in_ids.
  apply (select_ids sel []).
  destruct (select sel [] (doc w)); [discriminate|]. injection H as ->. left. reflexivity.
Qed.

(** src/js/main.js: once the mobile button has been clicked, and after
    any further clicks on any elements, the menu carries
    [pointer-events-none] and [opacity-0] exactly when it is closed
    ([data-open] is not [true]). *)
Theorem main_menu_hidden_when_closed (ev : env) (w : world) (btn menu : nat)
    (before : list (env * nat)) (ev' : env) (later : list (env * nat)) (cls : string) :
  Dom.querySelector (Simple (Attr "data-mobile-btn")) w = Some btn ->
  Dom.querySelector (Simple (Attr "data-mobile-menu")) w = Some menu ->
  (forall l, In l (listeners w) -> l_type l <> "click") ->
  In cls ["pointer-events-none"; "opacity-0"] ->
  let w' := clicks MainCopy later
              (click_of MainCopy ev' btn
                 (clicks MainCopy before (MainJs.initHeaderBehaviors ev w))) in
  Dom.has_class menu cls w' = negb (menu_open menu w').
Proof.
  intros Hqb Hqm Hno Hcls.
  destruct (querySelector_ancestors _ _ _ Hqb) as [anc Hanc].
  pose proof (main_init_ready ev w btn menu anc Hqb Hqm Hno Hanc) as Hr0.
  set (Q := fun w => Dom.has_class menu cls w = negb (menu_open menu w)).
  assert (HQ : forall l ev w, click_code_ok MainCopy btn menu l ->
                 is_Some (Dom.data btn w) -> is_Some (Dom.data menu w) ->
                 Q w -> Q (run_of MainCopy (l_fn l) (l_code l) ev w)).
  { intros l e1 w1 [[Hcode|[Hc _]] _] Hb Hm _; [|congruence].
    rewrite Hcode. apply main_menuClick_classes; assumption. }
  destruct (clicks_keep MainCopy btn menu [] anc (fun _ => True) (fun _ _ _ _ _ _ _ => I)
              before _ (conj Hr0 I)) as [Hr1 _].
  set (wk := clicks MainCopy before (MainJs.initHeaderBehaviors ev w)) in *.
  assert (Hclick : click_of MainCopy ev' btn wk = MainJs.menuClick btn menu wk).
  { apply (click_ready MainCopy ev' btn menu [] anc wk Hr1). intros link []. }
  pose proof Hr1 as (_ & _ & Hb & Hm).
  assert (H1 : menu_ready MainCopy btn menu [] anc (click_of MainCopy ev' btn wk)
               /\ Q (click_of MainCopy ev' btn wk)).
  { split.
    - apply (click_keeps MainCopy btn menu [] anc (fun _ => True)
               (fun _ _ _ _ _ _ _ => I) ev' btn wk (conj Hr1 I)).
    - rewrite Hclick. apply main_menuClick_classes; assumption. }
  apply (clicks_keep MainCopy btn menu [] anc Q HQ later _ H1).
Qed.

(** ** The body class of part_000 and part_001 *)

Lemma body_data (w : world) (b : nat) : Dom.body w = Some b -> is_Some (Dom.data b w).
Proof.
  unfold Dom.body. intros H. apply ids_data.
  destruct (doc w) as [d ks|s]; [|discriminate]. simpl. right.
  apply first_some_In in H as (k & Hk & Hb). apply in_flat_map. exists k.
  split; [exact Hk|]. destruct k as [dk kk|sk]; [|discriminate].
  destruct (_ || _); [|discriminate]. injection Hb as <-. left. reflexivity.
Qed.

Lemma setMenuState_body (btn menu : nat) (open : bool) (w : world) (b : nat) :
  Dom.body w = Some b ->
  Dom.body (Part000.setMenuState btn menu open w) = Some b
  /\ Dom.has_class b "nav-open" (Part000.setMenuState btn menu open w) = open.
Proof.
  intros Hb. split.
  - rewrite (body_shape w _ (same_shape_setMenuState btn menu open w)). exact Hb.
  - unfold Part000.setMenuState.
    set (w2 := Dom.setAttribute btn "aria-expanded" _ _).
    assert (H2 : same_shape w w2).
    { eapply same_shape_trans; apply same_shape_update; reflexivity. }
    rewrite (body_shape w w2 H2), Hb.
    apply has_class_toggle_same, (is_Some_data_shape w w2 b H2), body_data, Hb.
Qed.

Lemma setMenuState_open (btn menu : nat) (open : bool) (w : world) :
  is_Some (Dom.data btn w) -> is_Some (Dom.data menu w) ->
  menu_open menu (Part000.setMenuState btn menu open w) = open.
Proof.
  intros Hb Hm. apply menu_open_of. apply (setMenuState_attrs btn menu open w Hb Hm).
Qed.

Lemma setMenuState_closed (btn menu : nat) (w : world) :
  is_Some (Dom.data btn w) -> is_Some (Dom.data menu w) ->
  menu_closed btn menu (Part000.setMenuState btn menu false w).
Proof.
  intros Hb Hm. destruct (setMenuState_attrs btn menu false w Hb Hm) as [H1 H2].
  split; [exact H1|split; [exact H2|]].
  intros b Hbody.
  rewrite (body_shape w _ (same_shape_setMenuState btn menu false w)) in Hbody.
  apply (setMenuState_body btn menu false w b Hbody).
Qed.

(** What a click listener of part_000 or part_001 runs. *)
Lemma run_of_click_code (c : copy) (btn menu : nat) (l : listener) (ev : env) (w : world) :
  c <> MainCopy -> click_code_ok c btn menu l ->
  exists open, run_of c (l_fn l) (l_code l) ev w = Part000.setMenuState btn menu open w.
Proof.
  intros Hc [[Hcode|[_ Hcode]] _]; rewrite Hcode.
  - exists (negb (menu_open menu w)). destruct c; [congruence|reflexivity|reflexivity].
  - exists false. destruct c; [congruence|reflexivity|reflexivity].
Qed.

Lemma same_shape_on (t : target) (ty : string) (h : nat * closure) (opts : option options)
    (w : world) :
  same_shape w (Shared.on t ty h opts w).
Proof. apply same_shape_same_dom; apply doc_on. Qed.

Lemma same_shape_init (c : copy) (ev : env) (w : world) :
  same_shape w (initHeaderBehaviors_of c ev w).
Proof.
  destruct c; simpl.
  - unfold MainJs.initHeaderBehaviors, fresh. cbv beta iota zeta.
    set (header := Dom.querySelector (Simple (Attr "data-header")) w).
    set (w2 := Shared.on Window "scroll" _ None _).
    assert (H2 : same_shape w w2).
    { eapply same_shape_trans; [|apply same_shape_on]. apply same_shape_same_dom; reflexivity. }
    assert (H3 : same_shape w (MainJs.onScroll header ev w2)).
    { eapply same_shape_trans; [exact H2|].
      apply (same_shape_run MainCopy 0 (OnScroll header) ev w2). }
    destruct (Dom.querySelector (Simple (Attr "data-mobile-btn")) w) as [b|];
      [destruct (Dom.querySelector (Simple (Attr "data-mobile-menu")) w) as [m|]|];
      try exact H3.
    eapply same_shape_trans; [exact H3|].
    eapply same_shape_trans; [|apply same_shape_on]. apply same_shape_same_dom; reflexivity.
  - destruct (part000_init_parts ev w) as (Hd & Hdt & _).
    eapply same_shape_trans; [|apply same_shape_same_dom; eassumption].
    apply (same_shape_run Part000Copy 0 (UpdateCondensedState _) ev w).
  - destruct (part000_init_parts ev w) as (Hd & Hdt & _).
    eapply same_shape_trans; [|apply same_shape_same_dom; eassumption].
    apply (same_shape_run Part000Copy 0 (UpdateCondensedState _) ev w).
Qed.

Lemma same_shape_click (c : copy) (ev : env) (e : nat) (w : world) :
  same_shape w (click_of c ev e w).
Proof. rewrite click_of_dispatch. fold (run_of c). apply same_shape_dispatch. Qed.

Lemma same_shape_clicks (c : copy) (evs : list (env * nat)) (w : world) :
  same_shape w (clicks c evs w).
Proof. unfold clicks. apply same_shape_fold. intros w' x. apply same_shape_click. Qed.

(** part_000 and part_001: once the mobile button has been clicked, and
    after any further clicks on any elements, the body carries [nav-open]
    exactly when the menu is open. *)
Theorem body_nav_open_tracks_menu (c : copy) (ev : env) (w : world) (btn menu body : nat)
    (anc : list nat) (before : list (env * nat)) (ev' : env) (later : list (env * nat)) :
  c <> MainCopy ->
  Dom.querySelector (Simple (Attr "data-mobile-btn")) w = Some btn ->
  Dom.querySelector (Simple (Attr "data-mobile-menu")) w = Some menu ->
  (forall l, In l (listeners w) -> l_type l <> "click") ->
  ancestors_in btn (doc w) = Some anc ->
  (forall link, In link (menu_links c menu w) -> link <> btn /\ ~ In link anc) ->
  Dom.body w = Some body ->
  let w' := clicks c later
              (click_of c ev' btn (clicks c before (initHeaderBehaviors_of c ev w))) in
  Dom.has_class body "nav-open" w' = menu_open menu w'.
Proof.
  intros Hc Hqb Hqm Hno Hanc Hlinks Hbody.
  pose proof (init_ready c ev w btn menu anc Hqb Hqm Hno Hanc) as Hr0.
  set (links := menu_links c menu w) in *.
  set (Q := fun w => Dom.body w = Some body
                     /\ Dom.has_class body "nav-open" w = menu_open menu w).
  assert (Hstep : forall o w1, is_Some (Dom.data btn w1) -> is_Some (Dom.data menu w1) ->
                    Dom.body w1 = Some body -> Q (Part000.setMenuState btn menu o w1)).
  { intros o w1 Hb Hm Hb1. destruct (setMenuState_body btn menu o w1 body Hb1) as [H1 H2].
    split; [exact H1|]. rewrite H2, (setMenuState_open btn menu o w1 Hb Hm). reflexivity. }
  assert (HQ : forall l ev w, click_code_ok c btn menu l ->
                 is_Some (Dom.data btn w) -> is_Some (Dom.data menu w) ->
                 Q w -> Q (run_of c (l_fn l) (l_code l) ev w)).
  { intros l e1 w1 Hl Hb Hm [Hb1 _].
    destruct (run_of_click_code c btn menu l e1 w1 Hc Hl) as [o ->].
    apply Hstep; assumption. }
  destruct (clicks_keep c btn menu links anc (fun _ => True) (fun _ _ _ _ _ _ _ => I)
              before _ (conj Hr0 I)) as [Hr1 _].
  set (wk := clicks c before (initHeaderBehaviors_of c ev w)) in *.
  assert (Hbk : Dom.body wk = Some body).
  { rewrite (body_shape w wk); [exact Hbody|].
    eapply same_shape_trans; [apply same_shape_init|apply same_shape_clicks]. }
  assert (Hclick : click_of c ev' btn wk = menuClick_of c btn menu wk).
  { apply (click_ready c ev' btn menu links anc wk Hr1 Hlinks). }
  pose proof Hr1 as (_ & _ & Hb & Hm).
  assert (H1 : menu_ready c btn menu links anc (click_of c ev' btn wk)
               /\ Q (click_of c ev' btn wk)).
  { split.
    - apply (click_keeps c btn menu links anc (fun _ => True)
               (fun _ _ _ _ _ _ _ => I) ev' btn wk (conj Hr1 I)).
    - rewrite Hclick.
      replace (menuClick_of c btn menu wk)
        with (Part000.setMenuState btn menu (negb (menu_open menu wk)) wk)
        by (destruct c; [congruence|reflexivity|reflexivity]).
      apply Hstep; assumption. }
  apply (clicks_keep c btn menu links anc Q HQ later _ H1).
Qed.

(** ** Closing the menu: links and resize (part_000, part_001) *)

Lemma link_loop_clicks (btn menu : nat) (ls : list nat) (w : world) :
  (forall l, In l (clicks_of w) -> l_fn l < next_ref w) ->
  let w' := fold_left (fun w link =>
                         let '(k, w) := fresh w in
                         Shared.on (Element link) "click" (k, LinkClick btn menu) None w)
                      ls w in
  exists rest,
    clicks_of w' = clicks_of w ++ rest
    /\ map l_target rest = map Element ls
    /\ Forall (fun l => l_code l = LinkClick btn menu /\ l_capture l = false
                        /\ l_once l = false) rest.
Proof.
  revert w. induction ls as [|a ls IH]; intros w Hfn; simpl.
  - exists []. rewrite app_nil_r. auto.
  - unfold fresh in *. cbv beta iota zeta in *.
    set (w1 := with_next_ref (S (next_ref w)) w).
    set (new := mk_listener (Element a) "click" (next_ref w) (LinkClick btn menu)
                  false false false).
    assert (Hc1 : clicks_of (Shared.on (Element a) "click" (next_ref w, LinkClick btn menu)
                               None w1) = clicks_of w ++ [new]).
    { rewrite clicks_on_click; [reflexivity|].
      intros l Hl. change (clicks_of w1) with (clicks_of w) in Hl.
      apply Hfn in Hl. simpl. lia. }
    destruct (IH (Shared.on (Element a) "click" (next_ref w, LinkClick btn menu) None w1))
      as (rest & Hc & Ht & Hall).
    { intros l Hl. rewrite Hc1 in Hl. rewrite next_ref_on. simpl.
      apply in_app_or in Hl as [Hl|[<-|[]]]; [apply Hfn in Hl; lia|simpl; lia]. }
    exists (new :: rest). split; [|split].
    + rewrite Hc, Hc1, <- app_assoc. reflexivity.
    + simpl. rewrite Ht. reflexivity.
    + constructor; [auto|exact Hall].
Qed.

(** Every link of the menu has its closing listener after
    [initHeaderBehaviors]. *)
Lemma part000_init_cover (ev : env) (w : world) (btn menu : nat) (link : nat) :
  Dom.querySelector (Simple (Attr "data-mobile-btn")) w = Some btn ->
  Dom.querySelector (Simple (Attr "data-mobile-menu")) w = Some menu ->
  (forall l, In l (listeners w) -> l_type l <> "click") ->
  In link (Dom.elem_querySelectorAll menu (Simple (Tag "a")) w) ->
  exists l, In l (clicks_of (Part000.initHeaderBehaviors ev w))
            /\ l_target l = Element link /\ l_code l = LinkClick btn menu
            /\ l_capture l = false /\ l_once l = false.
Proof.
  intros Hqb Hqm Hno Hlink.
  unfold Part000.initHeaderBehaviors, fresh. cbv beta iota zeta. rewrite Hqb, Hqm.
  set (header := Dom.querySelector (Simple (Attr "data-header")) w).
  set (w2 := Shared.on Window "scroll" _ _ _).
  destruct (same_tree_updateCondensedState header ev w2) as (Ht3 & Hl3 & Hn3).
  set (w3 := Part000.updateCondensedState header ev w2) in *.
  assert (Ht : same_tree w w3).
  { eapply same_tree_trans; [|exact Ht3].
    eapply same_tree_trans; [apply (same_tree_fresh w)|apply same_tree_on]. }
  assert (Hc3 : clicks_of w3 = []).
  { unfold clicks_of. rewrite Hl3. fold (clicks_of w2). unfold w2.
    rewrite clicks_on_other by discriminate. apply (no_clicks w Hno). }
  set (w4 := with_next_ref (S (next_ref w3)) w3).
  set (w5 := Shared.on (Element btn) "click" (next_ref w3, MenuClick btn menu) None w4).
  assert (Hc5 : clicks_of w5
                = [mk_listener (Element btn) "click" (next_ref w3) (MenuClick btn menu)
                     false false false]).
  { unfold w5. rewrite clicks_on_click.
    - change (clicks_of w4) with (clicks_of w3). rewrite Hc3. reflexivity.
    - change (clicks_of w4) with (clicks_of w3). rewrite Hc3. intros l []. }
  assert (Ht5 : same_tree w w5).
  { eapply same_tree_trans; [exact Ht|].
    eapply same_tree_trans; [apply (same_tree_fresh w3)|apply same_tree_on]. }
  assert (Hlinks : Dom.elem_querySelectorAll menu (Simple (Tag "a")) w5
                   = Dom.elem_querySelectorAll menu (Simple (Tag "a")) w)
    by (apply Ht5).
  rewrite Hlinks.
  destruct (link_loop_clicks btn menu
              (Dom.elem_querySelectorAll menu (Simple (Tag "a")) w) w5)
    as (rest & Hc6 & Htgt & Hall).
  { intros l Hl. rewrite Hc5 in Hl. destruct Hl as [<-|[]]. unfold w5.
    rewrite next_ref_on. simpl. lia. }
  set (w6 := fold_left _ _ w5) in *.
  rewrite clicks_on_other by discriminate.
  change (clicks_of (with_next_ref (S (next_ref w6)) w6)) with (clicks_of w6).
  assert (Hin : In (Element link) (map l_target rest))
    by (rewrite Htgt; apply in_map, Hlink).
  apply in_map_iff in Hin as (l & Hl & Hinl).
  exists l. rewrite Forall_forall in Hall.
  destruct (Hall l (proj2 (list_elem_of_In _ _) Hinl)) as (H1 & H2 & H3).
  split; [rewrite Hc6; apply in_or_app; right; exact Hinl|auto].
Qed.

Lemma no_capture_click (c : copy) (btn menu : nat) (links anc : list nat) (w : world)
    (t : target) :
  menu_ready c btn menu links anc w ->
  List.filter (fun l => bool_decide (l_target l = t) && String.eqb (l_type l) "click"
                        && Bool.eqb (l_capture l) true) (listeners w) = [].
Proof.
  intros ((g & rest & Hc & Hrest & _) & _). rewrite filter_click_listeners.
  fold (clicks_of w). rewrite Hc. simpl. rewrite andb_false_r. clear Hc.
  induction Hrest as [|l rest (link & _ & _ & _ & Hcap & _) _ IH]; simpl; [reflexivity|].
  rewrite Hcap. simpl. rewrite andb_false_r. exact IH.
Qed.

(** Away from the button only closing listeners fire. *)
Lemma closers_at (c : copy) (btn menu : nat) (links anc : list nat) (w : world)
    (t : target) :
  menu_ready c btn menu links anc w -> t <> Element btn ->
  Forall (fun l => l_code l = LinkClick btn menu /\ l_once l = false
                   /\ In l (listeners w))
    (List.filter (fun l => bool_decide (l_target l = t) && String.eqb (l_type l) "click"
                           && Bool.eqb (l_capture l) false) (listeners w)).
Proof.
  intros ((g & rest & Hc & Hrest & _) & _) Ht. apply Forall_forall. intros l Hl.
  apply list_elem_of_In in Hl. pose proof Hl as Hl0.
  apply List.filter_In in Hl0 as [Hin0 _].
  rewrite filter_click_listeners in Hl. fold (clicks_of w) in Hl. rewrite Hc in Hl.
  apply List.filter_In in Hl as [Hl Hp]. destruct Hl as [<-|Hl].
  - simpl in Hp. rewrite bool_decide_eq_false_2 in Hp by congruence. discriminate.
  - rewrite Forall_forall in Hrest.
    destruct (Hrest l (proj2 (list_elem_of_In _ _) Hl)) as (link & _ & _ & Hcode & _ & Ho).
    auto.
Qed.

Lemma invoke_closer (c : copy) (btn menu : nat) (ev : env) (l : listener) (w : world) :
  c <> MainCopy -> l_code l = LinkClick btn menu -> l_once l = false ->
  In l (listeners w) ->
  invoke (run_of c) ev l w = Part000.setMenuState btn menu false w.
Proof.
  intros Hc Hcode Ho Hin. unfold invoke.
  replace (existsb _ (listeners w)) with true.
  - rewrite Ho, Hcode. destruct c; [congruence|reflexivity|reflexivity].
  - symmetry. apply existsb_exists. exists l. split; [exact Hin|].
    apply same_listener_key. reflexivity.
Qed.

Lemma closers_fold (c : copy) (btn menu : nat) (ev : env) (ls : list listener) (w : world) :
  c <> MainCopy ->
  is_Some (Dom.data btn w) -> is_Some (Dom.data menu w) ->
  Forall (fun l => l_code l = LinkClick btn menu /\ l_once l = false
                   /\ In l (listeners w)) ls ->
  let w' := fold_left (fun w l => invoke (run_of c) ev l w) ls w in
  same_frame w w'
  /\ (menu_closed btn menu w -> menu_closed btn menu w')
  /\ (ls <> [] -> menu_closed btn menu w').
Proof.
  intros Hc. revert w. induction ls as [|l ls IH]; intros w Hb Hm Hall; simpl.
  - split; [apply same_frame_refl|]. split; [auto|congruence].
  - inversion Hall as [|? ? (Hcode & Ho & Hin) Hrest]; subst.
    rewrite (invoke_closer c btn menu ev l w Hc Hcode Ho Hin).
    pose proof (same_frame_setMenuState btn menu false w) as Hf.
    pose proof (setMenuState_closed btn menu w Hb Hm) as Hcl.
    set (w1 := Part000.setMenuState btn menu false w) in *.
    destruct (IH w1) as (Hf' & Hkeep & _).
    + apply Hf, Hb.
    + apply Hf, Hm.
    + eapply Forall_impl; [exact Hrest|]. intros l' (H1 & H2 & H3).
      split; [exact H1|split; [exact H2|]]. rewrite (proj1 Hf). exact H3.
    + split; [eapply same_frame_trans; eassumption|]. split; intros _; apply Hkeep, Hcl.
Qed.

Lemma fire_closers (c : copy) (btn menu : nat) (links anc : list nat) (ev : env)
    (t : target) (w : world) :
  c <> MainCopy -> menu_ready c btn menu links anc w -> t <> Element btn ->
  let w' := fire (run_of c) ev "click" false t w in
  menu_ready c btn menu links anc w'
  /\ (menu_closed btn menu w -> menu_closed btn menu w')
  /\ (List.filter (fun l => bool_decide (l_target l = t) && String.eqb (l_type l) "click"
                            && Bool.eqb (l_capture l) false) (listeners w) <> [] ->
      menu_closed btn menu w').
Proof.
  intros Hc Hr Ht. pose proof Hr as (_ & _ & Hb & Hm).
  destruct (closers_fold c btn menu ev _ w Hc Hb Hm (closers_at c btn menu links anc w t Hr Ht))
    as (Hf & Hkeep & Hne).
  split; [eapply menu_ready_same_frame; [exact Hf|exact Hr]|]. split; assumption.
Qed.

Lemma bubble_closers (c : copy) (btn menu : nat) (links anc : list nat) (ev : env)
    (path : list target) (w : world) :
  c <> MainCopy -> menu_ready c btn menu links anc w -> menu_closed btn menu w ->
  (forall t, In t path -> t <> Element btn) ->
  menu_closed btn menu (fold_left (fun w a => fire (run_of c) ev "click" false a w) path w).
Proof.
  intros Hc. revert w. induction path as [|a path IH]; intros w Hr Hcl Hpath; simpl;
    [exact Hcl|].
  destruct (fire_closers c btn menu links anc ev a w Hc Hr) as (Hr3 & Hk3 & _).
  { apply Hpath. left. reflexivity. }
  apply IH; [exact Hr3|apply Hk3, Hcl|].
  intros t Ht. apply Hpath. right. exact Ht.
Qed.

(** part_000 and part_001: a click on a link of the mobile menu closes the
    menu, whatever was clicked before, as long as the link is not inside
    the mobile button. *)
Theorem link_click_closes_menu (c : copy) (ev : env) (w : world) (btn menu link : nat)
    (lanc : list nat) (before : list (env * nat)) (ev' : env) :
  c <> MainCopy ->
  Dom.querySelector (Simple (Attr "data-mobile-btn")) w = Some btn ->
  Dom.querySelector (Simple (Attr "data-mobile-menu")) w = Some menu ->
  (forall l, In l (listeners w) -> l_type l <> "click") ->
  In link (Dom.elem_querySelectorAll menu (Simple (Tag "a")) w) ->
  ancestors_in link (doc w) = Some lanc ->
  link <> btn -> ~ In btn lanc ->
  menu_closed btn menu
    (click_of c ev' link (clicks c before (initHeaderBehaviors_of c ev w))).
Proof.
  intros Hc Hqb Hqm Hno Hlink Hlanc Hne Hnanc.
  destruct (querySelector_ancestors _ _ _ Hqb) as [anc Hanc].
  pose proof (init_ready c ev w btn menu anc Hqb Hqm Hno Hanc) as Hr0.
  set (links := menu_links c menu w) in *.
  set (w0 := initHeaderBehaviors_of c ev w) in *.
  set (Q := fun w1 => listeners w1 = listeners w0).
  assert (HQ : forall l ev w, click_code_ok c btn menu l ->
                 is_Some (Dom.data btn w) -> is_Some (Dom.data menu w) ->
                 Q w -> Q (run_of c (l_fn l) (l_code l) ev w)).
  { intros l e1 w1 Hl Hb Hm Hq. unfold Q.
    destruct (run_click_code c btn menu l e1 w1 Hl Hb Hm) as [(Hls & _) _].
    rewrite Hls. exact Hq. }
  destruct (clicks_keep c btn menu links anc Q HQ before w0 (conj Hr0 eq_refl))
    as [Hr1 Hl1].
  set (wk := clicks c before w0) in *. unfold Q in Hl1.
  assert (Hcover : exists l, In l (listeners wk)
                     /\ l_target l = Element link /\ l_type l = "click"
                     /\ l_capture l = false).
  { destruct (part000_init_cover ev w btn menu link Hqb Hqm Hno Hlink)
      as (l & Hin & Htgt & _ & Hcap & _).
    exists l. apply List.filter_In in Hin as [Hin Hty]. apply String.eqb_eq in Hty.
    rewrite Hl1. unfold w0. rewrite (init_of_part000 c ev w Hc). auto. }
  assert (Hshape : same_shape w wk).
  { eapply same_shape_trans; [apply same_shape_init|apply same_shape_clicks]. }
  assert (Hlk : ancestors_in link (doc wk) = Some lanc)
    by (rewrite (ancestors_in_shape w wk link Hshape); exact Hlanc).
  rewrite click_of_dispatch. fold (run_of c). unfold dispatch, event_path. rewrite Hlk.
  rewrite (fire_nothing_along (run_of c) ev' "click" true)
    by (intros t _; apply (no_capture_click c btn menu links anc wk t Hr1)).
  rewrite (fire_nothing (run_of c) ev' "click" true (Element link))
    by (apply (no_capture_click c btn menu links anc wk _ Hr1)).
  destruct (fire_closers c btn menu links anc ev' (Element link) wk Hc Hr1)
    as (Hr2 & _ & Hcl2); [congruence|].
  assert (Hclosed2 : menu_closed btn menu (fire (run_of c) ev' "click" false (Element link) wk)).
  { apply Hcl2. destruct Hcover as (l & Hin & Htgt & Hty & Hcap).
    intros Hnil.
    assert (Hl : In l (List.filter (fun l => bool_decide (l_target l = Element link)
                                             && String.eqb (l_type l) "click"
                                             && Bool.eqb (l_capture l) false) (listeners wk))).
    { apply List.filter_In. split; [exact Hin|].
      rewrite Htgt, Hty, Hcap. rewrite bool_decide_eq_true_2 by reflexivity. reflexivity. }
    rewrite Hnil in Hl. destruct Hl. }
  apply (bubble_closers c btn menu links anc ev' _ _ Hc Hr2 Hclosed2).
  intros t Ht. apply in_app_or in Ht as [Ht|Ht].
  - apply in_map_iff in Ht as (a & <- & Ha). intros [= ->]. apply Hnanc, Ha.
  - destruct Ht as [<-|[<-|[]]]; discriminate.
Qed.

(** part_000 and part_001: a resize of the window to 768 pixels or more
    closes the menu; a resize to a narrower window changes nothing. *)
Theorem resize_closes_menu (c : copy) (ev : env) (w : world) (btn menu : nat)
    (before : list (env * nat)) (ev' : env) :
  c <> MainCopy ->
  Dom.querySelector (Simple (Attr "data-mobile-btn")) w = Some btn ->
  Dom.querySelector (Simple (Attr "data-mobile-menu")) w = Some menu ->
  (forall l, In l (listeners w) -> l_type l <> "click") ->
  (forall l, In l (listeners w) -> l_type l <> "resize") ->
  let wk := clicks c before (initHeaderBehaviors_of c ev w) in
  ((768 <= innerWidth ev')%Z -> menu_closed btn menu (resize_of c ev' wk))
  /\ ((innerWidth ev' < 768)%Z -> resize_of c ev' wk = wk).
Proof.
  intros Hc Hqb Hqm Hno Hnr.
  destruct (querySelector_ancestors _ _ _ Hqb) as [anc Hanc].
  pose proof (init_ready c ev w btn menu anc Hqb Hqm Hno Hanc) as Hr0.
  set (links := menu_links c menu w) in *.
  set (w0 := initHeaderBehaviors_of c ev w) in *.
  set (Q := fun w1 => listeners w1 = listeners w0).
  assert (HQ : forall l ev w, click_code_ok c btn menu l ->
                 is_Some (Dom.data btn w) -> is_Some (Dom.data menu w) ->
                 Q w -> Q (run_of c (l_fn l) (l_code l) ev w)).
  { intros l e1 w1 Hl Hb Hm Hq. unfold Q.
    destruct (run_click_code c btn menu l e1 w1 Hl Hb Hm) as [(Hls & _) _].
    rewrite Hls. exact Hq. }
  destruct (clicks_keep c btn menu links anc Q HQ before w0 (conj Hr0 eq_refl))
    as [Hr1 Hl1].
  intros wk. fold wk in Hr1, Hl1. unfold Q in Hl1.
  pose proof Hr1 as (_ & _ & Hb & Hm).
  destruct (part000_init_parts ev w) as (_ & _ & _ & Hres).
  destruct (Hres btn menu Hnr Hqb Hqm) as [r Hr].
  assert (Hty : typed "resize" wk
                = [mk_listener Window "resize" r (ResizeClose btn menu) false false false]).
  { unfold typed. rewrite Hl1. unfold w0. rewrite (init_of_part000 c ev w Hc). exact Hr. }
  assert (Hrun : resize_of c ev' wk = Part000.resizeClose btn menu ev' wk).
  { unfold resize_of. erewrite window_event_single; [|exact Hty|reflexivity..].
    destruct c; [congruence|reflexivity|reflexivity]. }
  rewrite Hrun. unfold Part000.resizeClose. split; intros Hw.
  - rewrite (proj2 (Z.leb_le _ _) Hw). apply setMenuState_closed; assumption.
  - rewrite (proj2 (Z.leb_gt _ _) Hw). reflexivity.
Qed.

(** ** What [on] does to the other registrations *)

Lemma filter_all {A} (q : A -> bool) (l : list A) :
  (forall x, In x l -> q x = true) -> List.filter q l = l.
Proof.
  induction l as [|x l IH]; simpl; intros H; [reflexivity|].
  rewrite (H x) by (left; reflexivity). rewrite IH; [reflexivity|].
  intros y Hy. apply H. right. exact Hy.
Qed.

Lemma remove_first_filter (t : target) (ty : string) (fn : nat) (cap : bool)
    (ls : list listener) :
  NoDup (map listener_key ls) ->
  Dom.remove_first (Dom.same_listener t ty fn cap) ls
  = List.filter (fun l => negb (Dom.same_listener t ty fn cap l)) ls.
Proof.
  induction ls as [|l ls IH]; simpl; [reflexivity|].
  intros Hnd. apply NoDup_cons in Hnd as [Hnotin Hnd].
  destruct (Dom.same_listener t ty fn cap l) eqn:E; simpl.
  - symmetry. apply filter_all. intros x Hx. apply negb_true_iff, not_true_is_false.
    intros Hp. apply same_listener_key in E, Hp. apply Hnotin. rewrite E, <- Hp.
    apply list_elem_of_In, in_map, Hx.
  - rewrite IH by exact Hnd. reflexivity.
Qed.

Lemma NoDup_keys_filter (q : listener -> bool) (ls : list listener) :
  NoDup (map listener_key ls) -> NoDup (map listener_key (List.filter q ls)).
Proof.
  induction ls as [|l ls IH]; simpl; [auto|].
  intros Hnd. apply NoDup_cons in Hnd as [Hnotin Hnd].
  destruct (q l); simpl; [|apply IH, Hnd].
  apply NoDup_cons. split; [|apply IH, Hnd].
  intros Hin. apply Hnotin. apply list_elem_of_In in Hin. apply list_elem_of_In.
  apply in_map_iff in Hin as (x & Hx & Hin). apply in_map_iff. exists x.
  split; [exact Hx|]. apply List.filter_In in Hin. tauto.
Qed.

(** [on] keeps every other registration, in order, puts the handler last
    with the options of this call (an earlier registration of the same
    handler for the same type and capture flag goes, with its [once] and
    [passive] flags), and leaves no two registrations with the same key. *)
Theorem on_replaces_registration (t : target) (ty : string) (h : nat * closure)
    (opts : option options) (w : world) :
  listeners_ok w ->
  let o := flatten opts in
  let w' := Shared.on t ty h opts w in
  listeners w'
  = List.filter (fun l => negb (Dom.same_listener t ty (fst h) (capture o) l)) (listeners w)
    ++ [mk_listener t ty (fst h) (snd h) (capture o) (once o) (passive o)]
  /\ listeners_ok w'.
Proof.
  intros Hok o w'.
  assert (Hl : listeners w'
               = List.filter (fun l => negb (Dom.same_listener t ty (fst h) (capture o) l))
                   (listeners w)
                 ++ [mk_listener t ty (fst h) (snd h) (capture o) (once o) (passive o)]).
  { unfold w'. rewrite (on_listeners t ty h opts w Hok). simpl.
    rewrite (remove_first_filter t ty (fst h) (capture (flatten opts)) _ Hok). reflexivity. }
  split; [exact Hl|].
  unfold listeners_ok. rewrite Hl, map_app. apply NoDup_app. split; [|split].
  - apply NoDup_keys_filter, Hok.
  - intros k Hk Hnew. apply list_elem_of_In in Hk. apply in_map_iff in Hk as (l & <- & Hin).
    apply List.filter_In in Hin as [_ Hp]. apply negb_true_iff in Hp.
    simpl in Hnew. apply list_elem_of_In in Hnew. destruct Hnew as [Hnew|[]].
    assert (Hs : Dom.same_listener t ty (fst h) (capture o) l = true)
      by (apply same_listener_key; symmetry; exact Hnew).
    congruence.
  - simpl. apply NoDup_singleton.
Qed.

(** ** The page and the link targets [markActiveNav] compares *)

Lemma split_nonempty (sep : ascii) (s : string) : Js.split sep s <> [].
Proof.
  induction s as [|c s IH]; simpl; [discriminate|].
  destruct (Ascii.eqb c sep); [discriminate|].
  destruct (Js.split sep s); [congruence|discriminate].
Qed.

Lemma split_app (sep : ascii) (a b : string) :
  Js.split sep (a ++ String sep b) = Js.split sep a ++ Js.split sep b.
Proof.
  induction a as [|c a IH]; simpl.
  - rewrite Ascii.eqb_refl. reflexivity.
  - destruct (Ascii.eqb c sep); rewrite IH; [reflexivity|].
    pose proof (split_nonempty sep a) as Hne.
    destruct (Js.split sep a) as [|x xs]; [congruence|reflexivity].
Qed.

Lemma split_none (sep : ascii) (s : string) :
  ~ In sep (list_ascii_of_string s) -> Js.split sep s = [s].
Proof.
  induction s as [|c s IH]; simpl; intros H; [reflexivity|].
  destruct (Ascii.eqb_spec c sep) as [->|Hne]; [tauto|].
  rewrite IH by tauto. reflexivity.
Qed.

(** Line 84: the page is what follows the last slash of the path, and
    [index.html] when nothing follows it. *)
Theorem current_page_of_path (ev : env) (dir file : string) :
  pathname ev = (dir ++ "/" ++ file)%string ->
  ~ In "/"%char (list_ascii_of_string file) ->
  Part000.current_page ev = if String.eqb file "" then "index.html" else file.
Proof.
  intros Hp Hfile. unfold Part000.current_page, Js.pop. rewrite Hp.
  change ("/" ++ file)%string with (String "/" file).
  rewrite split_app, (split_none "/" file Hfile), last_snoc. reflexivity.
Qed.

(** Lines 88-89: the target of a link is its [href] up to the first
    question mark; a link without [href] has the empty target. *)
Theorem normalized_href_strips_query (link : nat) (w : world) :
  (forall base query,
     Dom.getAttribute link "href" w = Some (base ++ "?" ++ query)%string ->
     ~ In "?"%char (list_ascii_of_string base) ->
     Part000.normalized_href link w = base)
  /\ (forall href,
        Dom.getAttribute link "href" w = Some href ->
        ~ In "?"%char (list_ascii_of_string href) ->
        Part000.normalized_href link w = href)
  /\ (Dom.getAttribute link "href" w = None -> Part000.normalized_href link w = "").
Proof.
  unfold Part000.normalized_href, Js.first. split; [|split].
  - intros base query -> Hbase. unfold Js.or_else.
    change ("?" ++ query)%string with (String "?" query).
    destruct (String.eqb_spec (base ++ String "?" query) "") as [E|_].
    + destruct base; discriminate.
    + rewrite split_app, (split_none "?" base Hbase). reflexivity.
  - intros href -> Hhref. unfold Js.or_else.
    destruct (String.eqb_spec href "") as [->|_]; [reflexivity|].
    rewrite (split_none "?" href Hhref). reflexivity.
  - intros ->. reflexivity.
Qed.

(** ** What [markActiveNav] leaves alone *)

Lemma mark_links_other_class (cur : string) (links : list nat) (w : world) (e : nat)
    (c : string) :
  c <> "is-active" ->
  Dom.has_class e c (mark_links cur links w) = Dom.has_class e c w.
Proof.
  intros Hc. apply String.eqb_neq in Hc.
  unfold mark_links. revert w. induction links as [|a links IH]; intros w; simpl;
    [reflexivity|].
  rewrite IH. destruct (is_current cur a w).
  - rewrite has_class_add. simpl. rewrite Hc. simpl. rewrite andb_false_r.
    apply orb_false_r.
  - rewrite has_class_remove. simpl. rewrite Hc. simpl. rewrite andb_false_r.
    apply andb_true_r.
Qed.

Lemma mark_links_rest (cur : string) (links : list nat) (w : world) :
  listeners (mark_links cur links w) = listeners w
  /\ win (mark_links cur links w) = win w
  /\ observers (mark_links cur links w) = observers w
  /\ same_shape w (mark_links cur links w).
Proof.
  unfold mark_links. split; [|split; [|split]].
  - apply (fold_left_preserves listeners). intros w' a. destruct (is_current _ _ _); reflexivity.
  - apply (fold_left_preserves win). intros w' a. destruct (is_current _ _ _); reflexivity.
  - apply (fold_left_preserves observers). intros w' a.
    destruct (is_current _ _ _); reflexivity.
  - apply same_shape_fold. intros w' a.
    destruct (is_current _ _ _); apply same_shape_update; reflexivity.
Qed.

(** [markActiveNav] writes the class [is-active] of the [nav-link]
    elements inside the first [data-header] element and nothing else:
    every other class, every attribute, the [is-active] class of every
    other element (nav links of a second header or of the footer
    included), the listeners, [window] and the structure of the document
    stay as they were. *)
Theorem markActiveNav_only_marks_header_links (ev : env) (w : world) :
  let w' := Part000.markActiveNav ev w in
  (forall e c, c <> "is-active" -> Dom.has_class e c w' = Dom.has_class e c w)
  /\ (forall e n, Dom.getAttribute e n w' = Dom.getAttribute e n w)
  /\ (forall e,
        (forall header, Dom.querySelector (Simple (Attr "data-header")) w = Some header ->
           ~ In e (Dom.elem_querySelectorAll header (Simple (Class "nav-link")) w)) ->
        Dom.has_class e "is-active" w' = Dom.has_class e "is-active" w)
  /\ listeners w' = listeners w /\ win w' = win w /\ observers w' = observers w
  /\ same_shape w w'.
Proof.
  intros w'. unfold w'. rewrite markActiveNav_unfold.
  destruct (Dom.querySelector (Simple (Attr "data-header")) w) as [header|].
  - set (links := Dom.elem_querySelectorAll header (Simple (Class "nav-link")) w).
    destruct (mark_links_rest (Part000.current_page ev) links w) as (Hl & Hw & Ho & Hs).
    split; [intros e c Hc; apply mark_links_other_class, Hc|].
    split; [intros e n; apply (mark_links_frame (Part000.current_page ev) links w)|].
    split; [intros e He; apply mark_links_other, (He header eq_refl)|].
    auto.
  - repeat split; auto.
Qed.

(** ** Queries return each element once *)

Lemma select_sublist (sel : selector) (anc : list edata) (n : node) :
  sublist (select sel anc n) (ids n).
Proof.
  revert anc. induction n as [d ks IH|s] using node_ind; intros anc; simpl;
    [|constructor].
  assert (Hks : sublist (flat_map (select sel (d :: anc)) ks) (flat_map ids ks)).
  { induction IH as [|k ks Hk _ IHks]; simpl; [constructor|].
    apply sublist_app; [apply Hk|exact IHks]. }
  destruct (matches sel anc d); simpl.
  - apply sublist_skip, Hks.
  - apply sublist_cons, Hks.
Qed.

Lemma querySelectorAll_NoDup (sel : selector) (w : world) :
  unique_ids w -> NoDup (Dom.querySelectorAll sel w).
Proof.
  unfold unique_ids, all_ids, Dom.trees. simpl. intros H.
  apply NoDup_app in H as (H & _ & _).
  eapply sublist_NoDup; [exact H|apply select_sublist].
Qed.

(** ** The staggered delays of the reveal (part_000) *)

Lemma style_get_same_dom (e : nat) (p : string) (w w' : world) :
  doc w' = doc w -> detached w' = detached w -> Dom.style_get e p w' = Dom.style_get e p w.
Proof. intros Hd Hdt. unfold Dom.style_get. rewrite (data_same_dom e w w' Hd Hdt). reflexivity. Qed.

Lemma getAttribute_same_dom (e : nat) (n : string) (w w' : world) :
  doc w' = doc w -> detached w' = detached w ->
  Dom.getAttribute e n w' = Dom.getAttribute e n w.
Proof.
  intros Hd Hdt. unfold Dom.getAttribute. rewrite (data_same_dom e w w' Hd Hdt). reflexivity.
Qed.

Lemma style_get_style_set_same (e : nat) (p v : string) (w : world) :
  is_Some (Dom.data e w) -> v <> "" ->
  Dom.style_get e p (Dom.style_set e p v w) = Some v.
Proof.
  intros [d H] Hv. unfold Dom.style_get, Dom.style_set.
  erewrite data_update_same; [|reflexivity|exact H]. simpl.
  rewrite (proj2 (String.eqb_neq v "") Hv). apply lookup_insert_eq.
Qed.

Lemma style_get_style_set_other (e e' : nat) (p p' v : string) (w : world) :
  e <> e' \/ p <> p' ->
  Dom.style_get e p (Dom.style_set e' p' v w) = Dom.style_get e p w.
Proof.
  intros Hne. unfold Dom.style_get, Dom.style_set.
  rewrite data_update by reflexivity.
  destruct (Dom.data e w) as [d|] eqn:H; [|reflexivity]. simpl.
  unfold at_elem. destruct (decide (e_id d = e')) as [Heq|]; [|reflexivity].
  assert (Hp : p' <> p).
  { intros ->. destruct Hne as [Hne|Hne]; [|congruence].
    apply Hne. rewrite <- Heq. symmetry. eapply data_id, H. }
  simpl. destruct (String.eqb v "").
  - apply lookup_delete_ne. exact Hp.
  - apply lookup_insert_ne. exact Hp.
Qed.

Lemma getAttribute_style_set (e e' : nat) (n p v : string) (w : world) :
  Dom.getAttribute e n (Dom.style_set e' p v w) = Dom.getAttribute e n w.
Proof.
  unfold Dom.getAttribute, Dom.style_set. rewrite data_update by reflexivity.
  destruct (Dom.data e w) as [d|]; [|reflexivity]. simpl.
  unfold at_elem. destruct (decide (e_id d = e')); reflexivity.
Qed.

Lemma style_get_with_win (e : nat) (p : string) (g : gmap string Js.value) (w : world) :
  Dom.style_get e p (with_win g w) = Dom.style_get e p w.
Proof. reflexivity. Qed.

Lemma ms_nonempty (n : Js.number) : Js.ms n <> "".
Proof. unfold Js.ms. destruct (Js.number_to_string n); discriminate. Qed.

(** ** Reading back a number that was printed *)

Lemma digit_pretty_char (d : N) :
  (d < 10)%N -> Js.digit (pretty_N_char d) = Some (Z.of_N d).
Proof.
  intros Hd.
  assert (d = 0 \/ d = 1 \/ d = 2 \/ d = 3 \/ d = 4 \/ d = 5 \/ d = 6 \/ d = 7 \/ d = 8
          \/ d = 9)%N as H by lia.
  repeat (destruct H as [->|H]; [reflexivity|]). subst d. reflexivity.
Qed.

Lemma digits_pretty_go (x : N) :
  (0 < x)%N -> forall acc s,
  exists p, Js.digits acc (pretty_N_go x s)
            = Js.digits (Some (default 0 acc * p + Z.of_N x)%Z) s.
Proof.
  induction (N.lt_wf_0 x) as [x _ IH]. intros Hx acc s.
  rewrite pretty_N_go_step by exact Hx.
  assert (Hm : (x `mod` 10 < 10)%N) by (apply N.mod_lt; discriminate).
  pose proof (N.div_mod x 10 ltac:(discriminate)) as Hdm.
  destruct (decide (x `div` 10 = 0)%N) as [E|E].
  - rewrite E, pretty_N_go_0. exists 10%Z. simpl.
    rewrite (digit_pretty_char _ Hm). f_equal. f_equal. lia.
  - destruct (IH (x `div` 10)%N) with (acc := acc)
      (s := String (pretty_N_char (x `mod` 10)) s) as [p Hp].
    + apply N.div_lt; [exact Hx|reflexivity].
    + apply N.neq_0_lt_0, E.
    + exists (10 * p)%Z. rewrite Hp. simpl.
      rewrite (digit_pretty_char _ Hm). f_equal. f_equal. lia.
Qed.

Lemma pretty_go_starts_with_digit (x : N) :
  (0 < x)%N -> forall s,
  exists d rest, (d < 10)%N /\ pretty_N_go x s = String (pretty_N_char d) rest.
Proof.
  induction (N.lt_wf_0 x) as [x _ IH]. intros Hx s.
  rewrite pretty_N_go_step by exact Hx.
  destruct (decide (x `div` 10 = 0)%N) as [E|E].
  - rewrite E, pretty_N_go_0. exists (x `mod` 10)%N, s.
    split; [apply N.mod_lt; discriminate|reflexivity].
  - apply IH; [apply N.div_lt; [exact Hx|reflexivity]|apply N.neq_0_lt_0, E].
Qed.

Lemma pretty_positive_digits (p : positive) :
  (exists d rest, (d < 10)%N /\ pretty p = String (pretty_N_char d) rest)
  /\ Js.digits None (pretty p) = Some (Z.pos p).
Proof.
  unfold pretty, pretty_positive, pretty, pretty_N.
  destruct (decide (N.pos p = 0%N)) as [E|_]; [discriminate E|]. split.
  - apply pretty_go_starts_with_digit. reflexivity.
  - destruct (digits_pretty_go (N.pos p) eq_refl None "") as [q ->]. reflexivity.
Qed.

(** A string that starts with a digit has no white space and no sign to
    skip. *)
Lemma parseInt10_digit_first (d : N) (rest : string) :
  (d < 10)%N ->
  Js.parseInt10 (String (pretty_N_char d) rest)
  = from_option (Js.to_number false) Js.NaN
      (Js.digits None (String (pretty_N_char d) rest)).
Proof.
  intros Hd.
  assert (d = 0 \/ d = 1 \/ d = 2 \/ d = 3 \/ d = 4 \/ d = 5 \/ d = 6 \/ d = 7 \/ d = 8
          \/ d = 9)%N as H by lia.
  repeat (destruct H as [->|H]; [destruct rest as [|c2 [|c3 s3]]; reflexivity|]).
  subst d. destruct rest as [|c2 [|c3 s3]]; reflexivity.
Qed.

Lemma parseInt10_minus (d : N) (rest : string) :
  (d < 10)%N ->
  Js.parseInt10 (String "-" (String (pretty_N_char d) rest))
  = from_option (Js.to_number true) Js.NaN
      (Js.digits None (String (pretty_N_char d) rest)).
Proof.
  intros Hd.
  assert (d = 0 \/ d = 1 \/ d = 2 \/ d = 3 \/ d = 4 \/ d = 5 \/ d = 6 \/ d = 7 \/ d = 8
          \/ d = 9)%N as H by lia.
  repeat (destruct H as [->|H]; [destruct rest as [|c3 s3]; reflexivity|]).
  subst d. destruct rest as [|c3 s3]; reflexivity.
Qed.

Lemma round_double_small (z : Z) : (z < 2 ^ 53)%Z -> Js.round_double z = Some z.
Proof.
  intros Hz. unfold Js.round_double.
  destruct (Z.ltb_spec z (2 ^ 53)) as [_|H]; [reflexivity|lia].
Qed.

(** [parseInt] reads back the decimal digits of an integer below 2^53
    in absolute value. *)
Lemma parseInt10_pretty (n : Z) :
  (- 2 ^ 53 < n < 2 ^ 53)%Z -> Js.parseInt10 (pretty n) = Js.Int n.
Proof.
  intros Hn. destruct n as [|p|p].
  - reflexivity.
  - change (pretty (Z.pos p)) with (pretty p).
    destruct (pretty_positive_digits p) as [(d & rest & Hd & E) Hv].
    rewrite E, (parseInt10_digit_first d rest Hd), <- E, Hv. simpl.
    unfold Js.to_number. rewrite round_double_small by lia. reflexivity.
  - change (pretty (Z.neg p)) with (String "-" (pretty p)).
    destruct (pretty_positive_digits p) as [(d & rest & Hd & E) Hv].
    rewrite E.
    rewrite (parseInt10_minus d rest Hd), <- E, Hv. simpl.
    unfold Js.to_number. rewrite round_double_small by lia. reflexivity.
Qed.

Lemma pretty_Z_nonempty (n : Z) : pretty n <> "".
Proof.
  destruct n as [|p|p]; [discriminate| |discriminate].
  change (pretty (Z.pos p)) with (pretty p).
  destruct (pretty_positive_digits p) as [(d & rest & _ & ->) _]. discriminate.
Qed.

(** Below 2^53 a number prints as its decimal digits. *)
Lemma number_to_string_small (n : Z) :
  (- 2 ^ 53 < n < 2 ^ 53)%Z -> Js.number_to_string (Js.Int n) = pretty n.
Proof.
  intros Hn.
  assert (Hs : forall v, (0 <= v < 2 ^ 53)%Z -> Js.nat_to_string v = pretty v).
  { intros v Hv. unfold Js.nat_to_string, Js.shortest.
    destruct (Z.ltb_spec v (2 ^ 53)) as [_|H]; [|lia].
    destruct (Z.ltb_spec v (10 ^ 21)) as [_|H]; [reflexivity|].
    assert (2 ^ 53 < 10 ^ 21)%Z by reflexivity. lia. }
  unfold Js.number_to_string. destruct (Z.ltb_spec n 0) as [Hneg|Hpos].
  - rewrite Hs by lia. destruct n as [|p|p]; try lia. reflexivity.
  - apply Hs. lia.
Qed.

Lemma ms_small (n : Z) : (- 2 ^ 53 < n < 2 ^ 53)%Z -> Js.ms (Js.Int n) = (pretty n ++ "ms")%string.
Proof. intros Hn. unfold Js.ms. rewrite (number_to_string_small n Hn). reflexivity. Qed.

(** A loop that writes one style property of each element of a list, the
    value depending on the element and its index. *)
Section Stagger.

Variables (p : string) (F : world -> nat -> nat -> world)
          (V : nat -> nat -> world -> option string).
Hypothesis V_stable : forall w a i e idx, V e idx (F w a i) = V e idx w.
Hypothesis F_other : forall w a i e, e <> a ->
  Dom.style_get e p (F w a i) = Dom.style_get e p w.
Hypothesis F_same : forall w a i, is_Some (Dom.data a w) ->
  Dom.style_get a p (F w a i)
  = match V a i w with Some v => Some v | None => Dom.style_get a p w end.
Hypothesis F_data : forall w a i e, is_Some (Dom.data e w) -> is_Some (Dom.data e (F w a i)).

Lemma foldi_V (l : list nat) (k : nat) (w : world) (e idx : nat) :
  V e idx (foldi F k l w) = V e idx w.
Proof.
  revert k w. induction l as [|a l IH]; intros k w; simpl; [reflexivity|].
  rewrite IH. apply V_stable.
Qed.

Lemma foldi_data (l : list nat) (k : nat) (w : world) (e : nat) :
  is_Some (Dom.data e w) -> is_Some (Dom.data e (foldi F k l w)).
Proof.
  revert k w. induction l as [|a l IH]; intros k w H; simpl; [exact H|].
  apply IH, F_data, H.
Qed.

Lemma foldi_style_other (l : list nat) (k : nat) (w : world) (e : nat) :
  ~ In e l -> Dom.style_get e p (foldi F k l w) = Dom.style_get e p w.
Proof.
  revert k w. induction l as [|a l IH]; intros k w Hn; simpl; [reflexivity|].
  rewrite IH by (intros H; apply Hn; right; exact H).
  apply F_other. intros ->. apply Hn. left. reflexivity.
Qed.

Lemma foldi_style (l : list nat) (k j : nat) (w : world) (el : nat) :
  NoDup l -> l !! j = Some el -> is_Some (Dom.data el w) ->
  Dom.style_get el p (foldi F k l w)
  = match V el (k + j) w with Some v => Some v | None => Dom.style_get el p w end.
Proof.
  revert k j w. induction l as [|a l IH]; intros k j w Hnd Hj Hd; [discriminate|].
  apply NoDup_cons in Hnd as [Hnotin Hnd]. simpl. destruct j as [|j]; simpl in Hj.
  - injection Hj as ->. rewrite foldi_style_other.
    + rewrite Nat.add_0_r. apply F_same, Hd.
    + intros H. apply Hnotin, list_elem_of_In, H.
  - assert (Hne : el <> a).
    { intros ->. apply Hnotin. eapply list_elem_of_lookup_2, Hj. }
    rewrite (IH (S k) j _ Hnd Hj) by (apply F_data, Hd).
    rewrite V_stable, (F_other w a k el Hne).
    replace (S k + j) with (k + S j) by lia. reflexivity.
Qed.

End Stagger.

(** The body of the loop of lines 128-133 of part_000. *)
Lemma part000_delay_step_attr (o : nat) (w : world) (a i e : nat) (n : string) :
  Dom.getAttribute e n
    (Dom.observe o a
       match Part000.reveal_delay a i w with
       | Js.Int z => Dom.style_set a "transition-delay" (Js.ms (Js.Int z)) w
       | Js.NaN | Js.Infinity _ => w
       end)
  = Dom.getAttribute e n w.
Proof.
  rewrite (getAttribute_same_dom e n _ (Dom.observe o a _))
    by (unfold Dom.observe; destruct (existsb _ _); reflexivity).
  destruct (Part000.reveal_delay a i w); [reflexivity|reflexivity|apply getAttribute_style_set].
Qed.

Lemma reveal_delay_same_attr (e idx : nat) (w w' : world) :
  Dom.getAttribute e "data-reveal-delay" w' = Dom.getAttribute e "data-reveal-delay" w ->
  Part000.reveal_delay e idx w' = Part000.reveal_delay e idx w.
Proof. unfold Part000.reveal_delay. intros ->. reflexivity. Qed.

Lemma style_get_observe (e : nat) (p : string) (o a : nat) (w : world) :
  Dom.style_get e p (Dom.observe o a w) = Dom.style_get e p w.
Proof.
  apply style_get_same_dom; unfold Dom.observe; destruct (existsb _ _); reflexivity.
Qed.

Lemma data_observe (e o a : nat) (w : world) : Dom.data e (Dom.observe o a w) = Dom.data e w.
Proof. apply data_same_dom; unfold Dom.observe; destruct (existsb _ _); reflexivity. Qed.

(** part_000: the first run of [initRevealOnScroll] (without reduced
    motion) gives the [i]-th element with [data-reveal] the transition
    delay its [data-reveal-delay] attribute asks for: without the
    attribute, or with an empty one, the stagger of 70 milliseconds per
    position, capped at 280; with the decimal digits of an integer below
    2^53 in absolute value, that many milliseconds; in general what
    [parseInt] reads in the attribute, as JavaScript prints that number,
    and the style as it was when [parseInt] gives NaN or an infinity. *)
Theorem part000_reveal_delays (ev : env) (w : world) (i el : nat) :
  reveal_initialised w = false ->
  reduced_motion ev = false ->
  unique_ids w ->
  Dom.querySelectorAll (Simple (Attr "data-reveal")) w !! i = Some el ->
  let w' := Part000.initRevealOnScroll ev w in
  (Dom.getAttribute el "data-reveal-delay" w = None
   \/ Dom.getAttribute el "data-reveal-delay" w = Some "" ->
   Dom.style_get el "transition-delay" w'
   = Some (pretty (Z.min (Z.of_nat i * 70) 280) ++ "ms")%string)
  /\ (forall n : Z, (- 2 ^ 53 < n < 2 ^ 53)%Z ->
        Dom.getAttribute el "data-reveal-delay" w = Some (pretty n) ->
        Dom.style_get el "transition-delay" w' = Some (pretty n ++ "ms")%string)
  /\ (forall a, Dom.getAttribute el "data-reveal-delay" w = Some a -> a <> "" ->
        Dom.style_get el "transition-delay" w'
        = match Js.parseInt10 a with
          | Js.Int z => Some (Js.number_to_string (Js.Int z) ++ "ms")%string
          | Js.NaN | Js.Infinity _ => Dom.style_get el "transition-delay" w
          end).
Proof.
  intros Hi Hrm Hu Hel w'.
  pose proof (querySelectorAll_NoDup (Simple (Attr "data-reveal")) w Hu) as Hnd.
  assert (Hin : In el (Dom.querySelectorAll (Simple (Attr "data-reveal")) w))
    by (apply list_elem_of_In; eapply list_elem_of_lookup_2, Hel).
  pose proof (querySelectorAll_data _ _ _ Hin) as Hd.
  assert (Hgen : Dom.style_get el "transition-delay" w'
                 = match Part000.reveal_delay el i w with
                   | Js.Int z => Some (Js.ms (Js.Int z))
                   | Js.NaN | Js.Infinity _ => Dom.style_get el "transition-delay" w
                   end).
  { unfold w'. rewrite (part000_init_eq ev w Hi), Hrm.
    destruct (Dom.querySelectorAll (Simple (Attr "data-reveal")) w) as [|e0 els] eqn:E;
      [destruct Hin|].
    cbv zeta. rewrite style_get_with_win.
    set (o := next_ref w).
    set (w1 := with_observers _ _).
    rewrite (foldi_style "transition-delay" _
               (fun e idx w => match Part000.reveal_delay e idx w with
                               | Js.Int z => Some (Js.ms (Js.Int z))
                               | Js.NaN | Js.Infinity _ => None
                               end)
               ) with (j := i); try assumption.
    - simpl. unfold Part000.reveal_delay.
      rewrite (getAttribute_same_dom el _ w w1 eq_refl eq_refl).
      rewrite (style_get_same_dom el _ w w1 eq_refl eq_refl).
      destruct (Dom.getAttribute el "data-reveal-delay" w) as [a|]; [|reflexivity].
      destruct (String.eqb a ""); [reflexivity|]. destruct (Js.parseInt10 a); reflexivity.
    - intros w2 a k e idx.
      erewrite reveal_delay_same_attr; [reflexivity|apply part000_delay_step_attr].
    - intros w2 a k e Hne. rewrite style_get_observe.
      destruct (Part000.reveal_delay a k w2); [reflexivity|reflexivity|].
      apply style_get_style_set_other. left. exact Hne.
    - intros w2 a k Ha. rewrite style_get_observe.
      destruct (Part000.reveal_delay a k w2) as [|b|z]; [reflexivity|reflexivity|].
      apply style_get_style_set_same; [exact Ha|apply ms_nonempty].
    - intros w2 a k e He. rewrite data_observe.
      destruct (Part000.reveal_delay a k w2); [exact He|exact He|].
      apply data_update_is_Some; [reflexivity|exact He]. }
  rewrite Hgen. unfold Part000.reveal_delay. split; [|split].
  - assert (Hs : Js.ms (Js.Int (Z.min (Z.of_nat i * 70) 280))
                 = (pretty (Z.min (Z.of_nat i * 70) 280) ++ "ms")%string).
    { apply ms_small. change (2 ^ 53)%Z with 9007199254740992%Z. lia. }
    intros [->| ->]; simpl; rewrite Hs; reflexivity.
  - intros n Hn ->.
    rewrite (proj2 (String.eqb_neq _ "") (pretty_Z_nonempty n)).
    rewrite (parseInt10_pretty n Hn), (ms_small n Hn). reflexivity.
  - intros a -> Ha. rewrite (proj2 (String.eqb_neq a "") Ha).
    destruct (Js.parseInt10 a); reflexivity.
Qed.

(** ** The groups and the delays of the reveal (part_001) *)

Lemma group_push_keys (g : string) (el : nat) (gs : list (string * list nat)) :
  map fst (Part001.group_push g el gs)
  = if existsb (fun k => String.eqb k g) (map fst gs) then map fst gs
    else map fst gs ++ [g].
Proof.
  induction gs as [|[k l] gs IH]; simpl; [reflexivity|].
  destruct (String.eqb k g); simpl; [reflexivity|].
  rewrite IH. destruct (existsb _ _); reflexivity.
Qed.

Lemma group_push_In (g : string) (el : nat) (gs : list (string * list nat)) (k : string)
    (l : list nat) :
  NoDup (map fst gs) ->
  In (k, l) (Part001.group_push g el gs) ->
  (k <> g /\ In (k, l) gs)
  \/ (k = g /\ exists l0, l = l0 ++ [el]
                          /\ (In (g, l0) gs \/ (l0 = [] /\ ~ In g (map fst gs)))).
Proof.
  induction gs as [|[k0 l0] gs IH]; simpl; intros Hnd.
  - intros [[= <- <-]|[]]. right. split; [reflexivity|]. exists []. auto.
  - apply NoDup_cons in Hnd as [Hnotin Hnd].
    destruct (String.eqb_spec k0 g) as [->|Hne]; simpl.
    + intros [[= <- <-]|H].
      * right. split; [reflexivity|]. exists l0. auto.
      * left. split; [|auto]. intros ->. apply Hnotin.
        apply list_elem_of_In. apply (in_map fst _ _ H).
    + intros [[= <- <-]|H]; [left; auto|].
      destruct (IH Hnd H) as [[Hk Hin]|[-> (l1 & -> & [Hin|[-> Hn]])]].
      * left. auto.
      * right. split; [reflexivity|]. exists l1. auto.
      * right. split; [reflexivity|]. exists []. split; [reflexivity|]. right.
        split; [reflexivity|]. intros [E|E]; [congruence|tauto].
Qed.

Lemma existsb_key (g : string) (ks : list string) :
  existsb (fun k => String.eqb k g) ks = true <-> In g ks.
Proof.
  rewrite existsb_exists. split.
  - intros (k & Hk & E). apply String.eqb_eq in E. subst. exact Hk.
  - intros H. exists g. split; [exact H|apply String.eqb_refl].
Qed.

Lemma groups_of_push (w : world) (done : list nat) (gs : list (string * list nat))
    (el : nat) :
  groups_of w done gs ->
  groups_of w (done ++ [el]) (Part001.group_push (reveal_group el w) el gs).
Proof.
  intros (Hnd & Hgs & Hall). set (g := reveal_group el w).
  split; [|split].
  - rewrite group_push_keys. destruct (existsb _ _) eqn:E; [exact Hnd|].
    apply NoDup_app. split; [exact Hnd|]. split; [|apply NoDup_singleton].
    intros k Hk Hg. apply list_elem_of_In in Hg. destruct Hg as [<-|[]].
    apply list_elem_of_In in Hk. apply existsb_key in Hk. congruence.
  - intros k l Hin. rewrite List.filter_app. simpl. fold g.
    destruct (group_push_In g el gs k l Hnd Hin) as [[Hk Hl]|[-> (l0 & -> & Hl0)]].
    + destruct (Hgs k l Hl) as [Hne ->]. split; [exact Hne|].
      rewrite (proj2 (String.eqb_neq g k)) by congruence. rewrite app_nil_r. reflexivity.
    + rewrite String.eqb_refl. split; [destruct l0; discriminate|].
      f_equal. destruct Hl0 as [Hl0|[-> Hn]].
      * apply (Hgs g l0 Hl0).
      * symmetry. apply filter_none. apply not_true_is_false. intros Hex.
        apply existsb_exists in Hex as (x & Hx & E). apply String.eqb_eq in E.
        apply Hn. rewrite <- E. apply Hall, Hx.
  - intros x Hx. rewrite group_push_keys.
    assert (Hin : In (reveal_group x w) (map fst gs ++ [g])).
    { apply in_app_or in Hx as [Hx|[<-|[]]]; apply in_or_app;
        [left; apply Hall, Hx|right; left; reflexivity]. }
    destruct (existsb _ _) eqn:E; [|exact Hin].
    apply in_app_or in Hin as [Hin|[<-|[]]]; [exact Hin|apply existsb_key, E].
Qed.

Lemma groups_of_fold (w : world) (rest done : list nat) (gs : list (string * list nat)) :
  groups_of w done gs ->
  groups_of w (done ++ rest)
    (fold_left (fun groups el =>
                  Part001.group_push
                    (Js.or_else (Dom.getAttribute el "data-reveal-group" w) "__default__")
                    el groups) rest gs).
Proof.
  revert done gs. induction rest as [|el rest IH]; intros done gs H; simpl.
  - rewrite app_nil_r. exact H.
  - replace (done ++ el :: rest) with ((done ++ [el]) ++ rest)
      by (rewrite <- app_assoc; reflexivity).
    apply IH. apply (groups_of_push w done gs el H).
Qed.

Lemma reveal_groups_ok (elements : list nat) (w : world) :
  groups_of w elements (Part001.reveal_groups elements w).
Proof.
  apply (groups_of_fold w elements [] []). split; [constructor|].
  split; [intros k gels []|intros el []].
Qed.

(** part_001, lines 114-119: the groups have distinct keys, in the order
    of their first element; a group holds exactly the elements whose
    [data-reveal-group] is its key (the elements without the attribute, or
    with an empty one, form the group [__default__]), in document order,
    and no group is empty. *)
Theorem reveal_groups_partition (elements : list nat) (w : world) :
  let gs := Part001.reveal_groups elements w in
  NoDup (map fst gs)
  /\ (forall k gels, In (k, gels) gs ->
        gels <> []
        /\ gels = List.filter (fun el => String.eqb (reveal_group el w) k) elements)
  /\ (forall el, In el elements -> In (reveal_group el w) (map fst gs)).
Proof. apply reveal_groups_ok. Qed.

(** A loop over groups, each staggered from zero. *)
Section GroupStagger.

Variables (p : string) (F : world -> nat -> nat -> world)
          (V : nat -> nat -> world -> option string).
Hypothesis V_stable : forall w a i e idx, V e idx (F w a i) = V e idx w.
Hypothesis F_other : forall w a i e, e <> a ->
  Dom.style_get e p (F w a i) = Dom.style_get e p w.
Hypothesis F_same : forall w a i, is_Some (Dom.data a w) ->
  Dom.style_get a p (F w a i)
  = match V a i w with Some v => Some v | None => Dom.style_get a p w end.
Hypothesis F_data : forall w a i e, is_Some (Dom.data e w) -> is_Some (Dom.data e (F w a i)).

Lemma groups_V (gs : list (string * list nat)) (w : world) (e idx : nat) :
  V e idx (staggered F gs w) = V e idx w.
Proof.
  unfold staggered. revert w. induction gs as [|g gs IH]; intros w; simpl; [reflexivity|].
  rewrite IH. apply (foldi_V F V V_stable).
Qed.

Lemma groups_data (gs : list (string * list nat)) (w : world) (e : nat) :
  is_Some (Dom.data e w) -> is_Some (Dom.data e (staggered F gs w)).
Proof.
  unfold staggered. revert w. induction gs as [|g gs IH]; intros w H; simpl; [exact H|].
  apply IH, (foldi_data F F_data), H.
Qed.

Lemma groups_style_other (gs : list (string * list nat)) (w : world) (e : nat) :
  (forall g, In g gs -> ~ In e (snd g)) ->
  Dom.style_get e p (staggered F gs w) = Dom.style_get e p w.
Proof.
  unfold staggered. revert w. induction gs as [|g gs IH]; intros w Hn; simpl; [reflexivity|].
  rewrite IH by (intros g' Hg'; apply Hn; right; exact Hg').
  apply (foldi_style_other p F F_other). apply Hn. left. reflexivity.
Qed.

Lemma groups_style (pre post : list (string * list nat)) (k : string) (gels : list nat)
    (j : nat) (w : world) (el : nat) :
  (forall g, In g (pre ++ post) -> ~ In el (snd g)) ->
  NoDup gels -> gels !! j = Some el -> is_Some (Dom.data el w) ->
  Dom.style_get el p (staggered F (pre ++ (k, gels) :: post) w)
  = match V el j w with Some v => Some v | None => Dom.style_get el p w end.
Proof.
  intros Hn Hnd Hj Hd. unfold staggered. rewrite fold_left_app. simpl.
  fold (staggered F pre w). fold (staggered F post (foldi F 0 gels (staggered F pre w))).
  rewrite groups_style_other by (intros g Hg; apply Hn, in_or_app; right; exact Hg).
  rewrite (foldi_style p F V V_stable F_other F_same F_data gels 0 j _ el Hnd Hj)
    by (apply groups_data, Hd).
  simpl. rewrite groups_V.
  rewrite groups_style_other by (intros g Hg; apply Hn, in_or_app; left; exact Hg).
  reflexivity.
Qed.

End GroupStagger.

Lemma style_get_requestAnimationFrame (e : nat) (p : string) (cb : frame_cb) (w : world) :
  Dom.style_get e p (Dom.requestAnimationFrame cb w) = Dom.style_get e p w.
Proof. reflexivity. Qed.

Lemma style_get_with_observers (e : nat) (p : string) (os : gmap nat (list nat))
    (w : world) :
  Dom.style_get e p (with_observers os w) = Dom.style_get e p w.
Proof. reflexivity. Qed.

Lemma style_get_with_next_ref (e : nat) (p : string) (n : nat) (w : world) :
  Dom.style_get e p (with_next_ref n w) = Dom.style_get e p w.
Proof. reflexivity. Qed.

Lemma part001_delays_staggered (els : list nat) (w : world) :
  part001_delays els w
  = staggered (fun w el index =>
                 Dom.style_set el "--reveal-delay"
                   (Js.ms (Part000.reveal_delay el index w)) w)
      (Part001.reveal_groups els w) w.
Proof. reflexivity. Qed.

Lemma fold_observe_dom (o : nat) (els : list nat) (w : world) :
  doc (fold_left (fun w el => Dom.observe o el w) els w) = doc w
  /\ detached (fold_left (fun w el => Dom.observe o el w) els w) = detached w.
Proof.
  split.
  - apply (fold_left_preserves doc). intros w' a. unfold Dom.observe.
    destruct (existsb _ _); reflexivity.
  - apply (fold_left_preserves detached). intros w' a. unfold Dom.observe.
    destruct (existsb _ _); reflexivity.
Qed.

(** part_001: the first run of [initRevealOnScroll] (without reduced
    motion) writes [--reveal-delay] on every element with [data-reveal]:
    without a [data-reveal-delay] attribute, or with an empty one, 70
    milliseconds per position inside its group, capped at 280; with the
    decimal digits of an integer below 2^53 in absolute value, that many
    milliseconds; in general what [parseInt] reads in the attribute, as
    JavaScript prints that number, which is [NaNms] for an attribute
    without a number. *)
Theorem part001_reveal_delays (ev : env) (w : world) (k : string) (gels : list nat)
    (j el : nat) :
  reveal_initialised w = false ->
  reduced_motion ev = false ->
  unique_ids w ->
  In (k, gels)
     (Part001.reveal_groups (Dom.querySelectorAll (Simple (Attr "data-reveal")) w) w) ->
  gels !! j = Some el ->
  let w' := Part001.initRevealOnScroll ev w in
  Dom.style_get el "--reveal-delay" w' = Some (Js.ms (Part000.reveal_delay el j w))
  /\ (Dom.getAttribute el "data-reveal-delay" w = None
      \/ Dom.getAttribute el "data-reveal-delay" w = Some "" ->
      Dom.style_get el "--reveal-delay" w'
      = Some (pretty (Z.min (Z.of_nat j * 70) 280) ++ "ms")%string)
  /\ (forall n : Z, (- 2 ^ 53 < n < 2 ^ 53)%Z ->
        Dom.getAttribute el "data-reveal-delay" w = Some (pretty n) ->
        Dom.style_get el "--reveal-delay" w' = Some (pretty n ++ "ms")%string)
  /\ (forall a, Dom.getAttribute el "data-reveal-delay" w = Some a -> a <> "" ->
        Dom.style_get el "--reveal-delay" w'
        = Some (Js.number_to_string (Js.parseInt10 a) ++ "ms")%string)
  /\ (forall a, Dom.getAttribute el "data-reveal-delay" w = Some a -> a <> "" ->
        Js.parseInt10 a = Js.NaN ->
        Dom.style_get el "--reveal-delay" w' = Some "NaNms").
Proof.
  intros Hi Hrm Hu Hg Hj w'.
  pose proof (querySelectorAll_NoDup (Simple (Attr "data-reveal")) w Hu) as Hnd.
  remember (Dom.querySelectorAll (Simple (Attr "data-reveal")) w) as els eqn:Eels.
  destruct (reveal_groups_ok els w) as (Hkeys & Hgs & _).
  destruct (Hgs k gels Hg) as [_ Hfilter].
  assert (Hel : In el gels) by (apply list_elem_of_In; eapply list_elem_of_lookup_2, Hj).
  assert (Hin : In el els) by (rewrite Hfilter in Hel; apply List.filter_In in Hel; tauto).
  assert (Hkey : reveal_group el w = k).
  { rewrite Hfilter in Hel. apply List.filter_In in Hel as [_ E]. apply String.eqb_eq, E. }
  assert (Hd : is_Some (Dom.data el w)).
  { apply (querySelectorAll_data (Simple (Attr "data-reveal"))). rewrite <- Eels. exact Hin. }
  assert (Hndg : NoDup gels).
  { rewrite Hfilter. apply NoDup_ListNoDup. apply List.NoDup_filter.
    apply NoDup_ListNoDup, Hnd. }
  assert (Hgen : Dom.style_get el "--reveal-delay" w'
                 = Some (Js.ms (Part000.reveal_delay el j w))).
  { unfold w'. rewrite (part001_init_eq ev w Hi). rewrite <- Eels.
    destruct els as [|e0 els']; [destruct Hin|].
    cbv zeta. rewrite Hrm, style_get_with_win, style_get_requestAnimationFrame.
    set (wd := part001_delays (e0 :: els') w).
    destruct (fold_observe_dom (next_ref wd) (e0 :: els')
                (with_observers (<[next_ref wd := []]> (observers wd))
                   (with_next_ref (S (next_ref wd)) wd))) as [Hd1 Hd2].
    rewrite (style_get_same_dom el _ _ _ Hd1 Hd2).
    rewrite style_get_with_observers, style_get_with_next_ref. unfold wd.
    rewrite part001_delays_staggered.
    apply in_split in Hg as (pre & post & Hsplit). rewrite Hsplit.
    rewrite (groups_style "--reveal-delay" _
               (fun e idx w => Some (Js.ms (Part000.reveal_delay e idx w)))
               ) with (j := j); try assumption; try reflexivity.
    - intros w2 a i e idx. f_equal. f_equal.
      apply reveal_delay_same_attr, getAttribute_style_set.
    - intros w2 a i e Hne. apply style_get_style_set_other. left. exact Hne.
    - intros w2 a i Ha. apply style_get_style_set_same; [exact Ha|apply ms_nonempty].
    - intros w2 a i e He. apply data_update_is_Some; [reflexivity|exact He].
    - intros [k' l'] Hg' Hl'. simpl in Hl'.
      assert (Hin' : In (k', l') (Part001.reveal_groups (e0 :: els') w))
        by (rewrite Hsplit; apply in_app_or in Hg' as [H|H]; apply in_or_app;
            [left|right; right]; exact H).
      destruct (Hgs k' l' Hin') as [_ Hf']. rewrite Hf' in Hl'.
      apply List.filter_In in Hl' as [_ E']. apply String.eqb_eq in E'.
      rewrite Hkey in E'. subst k'.
      rewrite Hsplit, map_app in Hkeys. simpl in Hkeys.
      apply NoDup_app in Hkeys as (_ & Hdisj & Hpost).
      apply NoDup_cons in Hpost as [Hnp _].
      apply in_app_or in Hg' as [H|H].
      + apply (Hdisj k); [apply list_elem_of_In, (in_map fst _ _ H)|left].
      + apply Hnp, list_elem_of_In, (in_map fst _ _ H). }
  split; [exact Hgen|]. rewrite Hgen. unfold Part000.reveal_delay.
  split; [|split; [|split]].
  - assert (Hs : Js.ms (Js.Int (Z.min (Z.of_nat j * 70) 280))
                 = (pretty (Z.min (Z.of_nat j * 70) 280) ++ "ms")%string).
    { apply ms_small. change (2 ^ 53)%Z with 9007199254740992%Z. lia. }
    intros [->| ->]; simpl; rewrite Hs; reflexivity.
  - intros n Hn ->.
    rewrite (proj2 (String.eqb_neq _ "") (pretty_Z_nonempty n)).
    rewrite (parseInt10_pretty n Hn), (ms_small n Hn). reflexivity.
  - intros a -> Ha. rewrite (proj2 (String.eqb_neq a "") Ha). reflexivity.
  - intros a -> Ha Hz. rewrite (proj2 (String.eqb_neq a "") Ha), Hz. reflexivity.
Qed.

(** ** The two chains of the boot sequence *)

Lemma then_inject_paths (sel : selector) (url : string) (after inline : env -> world -> world)
    (w0 : world) (ev : env) (fo : fetched) (w : world) :
  let done :=
    run_job (then_do (Shared.injectPartial sel url (Some (fun ev w => Return (after ev w))) w0)
               (fun injected ev w => if negb injected then inline ev w else w)) ev fo w in
  (Dom.querySelector sel w0 = None -> done = inline ev w)
  /\ (forall outlet, Dom.querySelector sel w0 = Some outlet ->
        (forall res html w1,
           fo = Responded res -> r_ok res = true -> r_text res = Fulfilled html ->
           Dom.set_outerHTML ev outlet html w = Return w1 ->
           done = after ev w1)
        /\ (fetch_fails fo ->
            exists err,
              done = inline ev
                       (Dom.console_error ("Failed to inject " ++ url ++ ":")%string err w))
        /\ (forall res html err w1,
              fo = Responded res -> r_ok res = true -> r_text res = Fulfilled html ->
              Dom.set_outerHTML ev outlet html w = Throws err w1 ->
              done = inline ev
                       (Dom.console_error ("Failed to inject " ++ url ++ ":")%string err w1))).
Proof.
  intros done. unfold done, Shared.injectPartial. split.
  - intros ->. reflexivity.
  - intros outlet ->. simpl. rewrite injectPartial_chain_eq. cbv zeta.
    split; [|split].
    + intros res html w1 -> Hok Ht Hset. rewrite Hok, Ht, Hset. reflexivity.
    + destruct fo as [err|res]; simpl; [eauto|].
      intros [Hok|[err Herr]].
      * rewrite Hok. eauto.
      * rewrite Herr. destruct (r_ok res); eauto.
    + intros res html err w1 -> Hok Ht Hset. rewrite Hok, Ht, Hset. reflexivity.
Qed.

(** [injectHeaderAndFooter()]: each chain ends on exactly one of its two
    paths.  With the partial injected, the callback runs on the world
    after the replacement and the inline fallback does not run; in every
    other case (no placeholder, a failed fetch, a response that is not ok
    or cannot be read, a placeholder that cannot be replaced) the inline
    fallback runs, after one line on the console when a fetch was made. *)
Theorem boot_chain_paths (c : copy) (w0 : world) (ev : env) (fo : fetched) (w : world) :
  let fail := fun url err w =>
    Dom.console_error ("Failed to inject " ++ url ++ ":")%string err w in
  let header := run_job (header_chain c w0) ev fo w in
  let footer := run_job (footer_chain c w0) ev fo w in
  ((Dom.querySelector (Simple (Attr "data-header-include")) w0 = None ->
    header = bootInlineHeaderIfPresent_of c ev w)
   /\ (forall outlet,
         Dom.querySelector (Simple (Attr "data-header-include")) w0 = Some outlet ->
         (forall res html w1,
            fo = Responded res -> r_ok res = true -> r_text res = Fulfilled html ->
            Dom.set_outerHTML ev outlet html w = Return w1 ->
            header = headerAfter_of c ev w1)
         /\ (fetch_fails fo ->
             exists err,
               header = bootInlineHeaderIfPresent_of c ev
                          (fail "partials/header.html" err w))))
  /\ ((Dom.querySelector (Simple (Attr "data-footer")) w0 = None ->
       footer = Shared.bootInlineFooterIfPresent ev w)
      /\ (forall outlet,
            Dom.querySelector (Simple (Attr "data-footer")) w0 = Some outlet ->
            (forall res html w1,
               fo = Responded res -> r_ok res = true -> r_text res = Fulfilled html ->
               Dom.set_outerHTML ev outlet html w = Return w1 ->
               footer = Shared.initFooterYear ev w1)
            /\ (fetch_fails fo ->
                exists err,
                  footer = Shared.bootInlineFooterIfPresent ev
                             (fail "partials/footer.html" err w)))).
Proof.
  intros fail header footer. split.
  - destruct (then_inject_paths (Simple (Attr "data-header-include")) "partials/header.html"
                (headerAfter_of c) (bootInlineHeaderIfPresent_of c) w0 ev fo w)
      as [Hnone Hsome].
    split; [exact Hnone|]. intros outlet Hq. destruct (Hsome outlet Hq) as (H1 & H2 & _).
    split; [exact H1|exact H2].
  - destruct (then_inject_paths (Simple (Attr "data-footer")) "partials/footer.html"
                Shared.initFooterYear Shared.bootInlineFooterIfPresent w0 ev fo w)
      as [Hnone Hsome].
    split; [exact Hnone|]. intros outlet Hq. destruct (Hsome outlet Hq) as (H1 & H2 & _).
    split; [exact H1|exact H2].
Qed.

(** ** More on the reveal *)

Lemma main_step_grows (w : world) (x : reveal_event) : grows w (main_reveal_step w x).
Proof. destruct x; simpl; [apply main_callback_grows|apply grows_refl]. Qed.

Lemma add_classes_all (ts : list string) (els : list nat) (o : nat) (w : world) (el : nat)
    (cls : string) :
  In el els -> In cls ts -> is_Some (Dom.data el w) ->
  Dom.has_class el cls
    (fold_left (fun w el => Dom.observe o el (Dom.classList_add el ts w)) els w) = true.
Proof.
  intros Hel Hcls.
  assert (Hex : existsb (String.eqb cls) ts = true).
  { apply existsb_exists. exists cls. split; [exact Hcls|apply String.eqb_refl]. }
  revert w Hel. induction els as [|a els IH]; intros w Hel Hd; simpl; [destruct Hel|].
  assert (Hg : forall w', grows w' (fold_left
                 (fun w el => Dom.observe o el (Dom.classList_add el ts w)) els w')).
  { intros w'. apply grows_fold_left. intros w2 a2.
    eapply grows_trans; [apply grows_classList_add|apply grows_observe]. }
  destruct Hel as [->|Hel].
  - eapply grows_has_class; [apply Hg|].
    eapply grows_has_class; [apply grows_observe|].
    rewrite has_class_add, Hex, !bool_decide_eq_true_2 by (reflexivity || exact Hd).
    apply orb_true_r.
  - apply IH; [exact Hel|].
    eapply grows_is_Some; [|exact Hd].
    eapply grows_trans; [apply grows_classList_add|apply grows_observe].
Qed.

Lemma has_class_with_win (e : nat) (c : string) (g : gmap string Js.value) (w : world) :
  Dom.has_class e c (with_win g w) = Dom.has_class e c w.
Proof. reflexivity. Qed.

(** src/js/main.js: the reveal adds classes and never takes one away.  An
    element with [data-reveal] gets [opacity-0], [translate-y-3],
    [transition] and [duration-300] from [initRevealOnScroll] and still
    carries them after any deliveries to the observer callback, also once
    it has been given [opacity-100] and [translate-y-0]. *)
Theorem main_reveal_keeps_hidden_classes (w : world) (el : nat) (cls : string)
    (trace : list reveal_event) :
  reveal_initialised w = false ->
  In el (Dom.querySelectorAll (Simple (Attr "data-reveal")) w) ->
  In cls ["opacity-0"; "translate-y-3"; "transition"; "duration-300"] ->
  Dom.has_class el cls (fold_left main_reveal_step trace (MainJs.initRevealOnScroll w))
  = true.
Proof.
  intros Hi Hel Hcls.
  eapply grows_has_class.
  { apply grows_fold_left. intros w' x. apply main_step_grows. }
  rewrite (main_init_eq w Hi). cbv zeta.
  rewrite has_class_with_win.
  apply add_classes_all; [exact Hel|exact Hcls|].
  apply (querySelectorAll_data _ _ _ Hel).
Qed.

Lemma truthy_insert (g : gmap string Js.value) (o : nat) :
  Js.truthy (default Js.Undefined (<["__revealObserver" := Js.Obj o]> g !! "__revealObserver"))
  = true.
Proof. rewrite lookup_insert_eq. reflexivity. Qed.

(** When [window.__revealObserver] is set.  src/js/main.js records its
    observer on every first call, also on a page without [data-reveal]
    elements; part_000 and part_001 record one only when they create it:
    with no such element, or under reduced motion, nothing is recorded
    and the next call starts over. *)
Theorem reveal_recorded_when (c : copy) (ev : env) (w : world) :
  reveal_initialised (initRevealOnScroll_of c ev w)
  = reveal_initialised w
    || match c with
       | MainCopy => true
       | Part000Copy | Part001Copy =>
           negb (reduced_motion ev)
           && match Dom.querySelectorAll (Simple (Attr "data-reveal")) w with
              | [] => false
              | _ :: _ => true
              end
       end.
Proof.
  destruct (reveal_initialised w) eqn:Hi.
  { rewrite (init_initialised c ev w Hi). exact Hi. }
  simpl. destruct c; cbn [initRevealOnScroll_of].
  - rewrite (main_init_eq w Hi). cbv zeta. apply truthy_insert.
  - rewrite (part000_init_eq ev w Hi).
    destruct (Dom.querySelectorAll _ w) as [|e0 els]; [rewrite andb_false_r; exact Hi|].
    destruct (reduced_motion ev); simpl.
    + unfold reveal_initialised. rewrite (fold_left_preserves win) by reflexivity. exact Hi.
    + apply truthy_insert.
  - rewrite (part001_init_eq ev w Hi).
    destruct (Dom.querySelectorAll _ w) as [|e0 els]; [rewrite andb_false_r; exact Hi|].
    cbv zeta. destruct (reduced_motion ev); simpl.
    + unfold reveal_initialised. rewrite (fold_left_preserves win) by reflexivity. exact Hi.
    + apply truthy_insert.
Qed.

(** part_001 starts [initRevealOnScroll] twice, from lines 188-193 and
    from [boot]: the second call changes nothing, so the synchronous part
    of the script leaves what one call leaves. *)
Theorem part001_script_inits_once (ev : env) (w : world) :
  fst (Part001.script ev w) = Part001.initRevealOnScroll ev w.
Proof. apply (init_twice Part001Copy ev w). Qed.

(** ** What [initFooterYear] leaves alone *)

Lemma set_kids_root (e : nat) (new : list node) (d : edata) (ks : list node) :
  exists ks', set_kids e new (Elem d ks) = Elem d ks'.
Proof. simpl. destruct (decide (e_id d = e)); eauto. Qed.

Lemma set_textContent_data (e : nat) (s : string) (w : world) (x : nat) :
  unique_ids w -> Dom.data x (Dom.set_textContent e s w) = Dom.data x w.
Proof.
  intros Hu. pose proof (set_textContent_unique e s w Hu) as Hu'.
  destruct (Dom.data x w) as [d|] eqn:Hd.
  - unfold Dom.data in Hd. destruct (Dom.find_elem x w) as [n|] eqn:Hf; [|discriminate].
    destruct (find_elem_shape x w n Hf) as (d' & ks & -> & Hid & Hn).
    injection Hd as ->.
    pose proof (set_textContent_in e s w (Elem d ks) Hu Hn) as Hin.
    destruct (set_kids_root e (Dom.text_nodes s) d ks) as [ks' Hk]. rewrite Hk in Hin.
    pose proof (find_elem_unique _ _ Hu' Hin) as Hfind. simpl in Hfind.
    unfold Dom.data. rewrite <- Hid, Hfind. reflexivity.
  - destruct (Dom.data x (Dom.set_textContent e s w)) as [d|] eqn:Hd'; [|reflexivity].
    exfalso.
    assert (Hin : In x (all_ids (Dom.set_textContent e s w)))
      by (apply data_all_ids; eauto).
    assert (Hx : In x (all_ids w)).
    { destruct (Dom.find_elem e w) as [r|] eqn:Hf.
      - destruct (find_elem_shape e w r Hf) as (d0 & old & -> & _ & _).
        rewrite all_ids_nodes in Hin. rewrite all_ids_nodes.
        apply in_map_iff in Hin as (n & Hn & Hin).
        apply (Permutation_in _ (set_textContent_nodes e s w d0 old Hu Hf)) in Hin.
        apply in_map_iff in Hin as (m & <- & Hm).
        apply in_map_iff. exists m. split; [|exact Hm].
        rewrite <- Hn. symmetry. apply set_kids_nid.
      - unfold Dom.set_textContent in Hin. rewrite Hf in Hin. exact Hin. }
    apply data_all_ids in Hx. rewrite Hd in Hx. destruct Hx as [? Hx]. discriminate.
Qed.

Lemma set_textContent_rest (e : nat) (s : string) (w : world) :
  listeners (Dom.set_textContent e s w) = listeners w
  /\ win (Dom.set_textContent e s w) = win w
  /\ observers (Dom.set_textContent e s w) = observers w
  /\ frames (Dom.set_textContent e s w) = frames w
  /\ console (Dom.set_textContent e s w) = console w.
Proof.
  unfold Dom.set_textContent. destruct (Dom.find_elem e w) as [[d old|t]|]; auto 10.
Qed.

Lemma stamps_data (s : string) (spans : list nat) (w : world) :
  unique_ids w ->
  (forall e, Dom.data e (fold_left (fun w span => Dom.set_textContent span s w) spans w)
             = Dom.data e w)
  /\ unique_ids (fold_left (fun w span => Dom.set_textContent span s w) spans w).
Proof.
  revert w. induction spans as [|a spans IH]; intros w Hu; simpl; [auto|].
  destruct (IH _ (set_textContent_unique a s w Hu)) as [Hd Hu2].
  split; [|exact Hu2]. intros e. rewrite Hd. apply set_textContent_data, Hu.
Qed.

(** [initFooterYear] writes text and nothing else: on a document whose
    elements have distinct identities, every element (the ones it detaches
    from inside a [js-year] element included) keeps its tag, attributes,
    classes, styles and value, and the listeners, [window], the observers
    and the pending animation frames are untouched. *)
Theorem initFooterYear_only_text (ev : env) (w : world) :
  unique_ids w ->
  let w' := Shared.initFooterYear ev w in
  (forall e, Dom.data e w' = Dom.data e w)
  /\ unique_ids w'
  /\ listeners w' = listeners w /\ win w' = win w /\ observers w' = observers w
  /\ frames w' = frames w /\ console w' = console w.
Proof.
  intros Hu w'.
  destruct (stamps_data (pretty (full_year ev))
              (Dom.querySelectorAll (Simple (Class "js-year")) w) w Hu) as [Hd Hu'].
  split; [exact Hd|]. split; [exact Hu'|]. unfold w', Shared.initFooterYear.
  split; [apply (fold_left_preserves listeners); intros w1 a; apply set_textContent_rest|].
  split; [apply (fold_left_preserves win); intros w1 a; apply set_textContent_rest|].
  split; [apply (fold_left_preserves observers); intros w1 a; apply set_textContent_rest|].
  split; [apply (fold_left_preserves frames); intros w1 a; apply set_textContent_rest|].
  apply (fold_left_preserves console); intros w1 a; apply set_textContent_rest.
Qed.

(** ** The first animation frame of part_001 *)

Lemma revealInView_fold (els : list nat) (o : nat) (ev : env) (w : world) :
  Part001.revealInView els o ev w = fold_left (inViewOne o ev) els w.
Proof. reflexivity. Qed.

Lemma inViewOne_near (o : nat) (ev : env) (w : world) (a : nat) :
  near_viewport ev a = true ->
  inViewOne o ev w a
  = Dom.unobserve o a
      (Dom.addEventListener (Element a) "transitionend"
         (next_ref w, Cleanup a) (Some (mk_options false true false))
         (with_next_ref (S (next_ref w))
            (Dom.classList_add a ["is-visible"]
               (Dom.style_set a "will-change" "opacity, transform" w)))).
Proof. intros H. unfold inViewOne, fresh. rewrite H. reflexivity. Qed.

Lemma inViewOne_dom (o : nat) (ev : env) (w : world) (a : nat) :
  near_viewport ev a = true ->
  doc (inViewOne o ev w a)
  = doc (Dom.classList_add a ["is-visible"]
           (Dom.style_set a "will-change" "opacity, transform" w))
  /\ detached (inViewOne o ev w a)
     = detached (Dom.classList_add a ["is-visible"]
                   (Dom.style_set a "will-change" "opacity, transform" w)).
Proof.
  intros H. rewrite (inViewOne_near o ev w a H).
  unfold Dom.unobserve. destruct (observers _ !! o); simpl;
    rewrite (doc_addEventListener _ _ (_, _)), (detached_addEventListener _ _ (_, _));
    split; reflexivity.
Qed.

Lemma inViewOne_grows (o : nat) (ev : env) (w : world) (a : nat) :
  grows w (inViewOne o ev w a).
Proof.
  destruct (near_viewport ev a) eqn:H; [|unfold inViewOne; rewrite H; apply grows_refl].
  destruct (inViewOne_dom o ev w a H) as [Hd Hdt].
  eapply grows_trans; [apply (grows_style_set a "will-change" "opacity, transform")|].
  eapply grows_trans; [apply (grows_classList_add a ["is-visible"])|].
  apply grows_same_dom; assumption.
Qed.

Lemma inViewOne_shrinks (o : nat) (ev : env) (w : world) (a : nat) :
  shrinks w (inViewOne o ev w a).
Proof.
  destruct (near_viewport ev a) eqn:H; [|unfold inViewOne; rewrite H; apply shrinks_refl].
  rewrite (inViewOne_near o ev w a H).
  eapply shrinks_trans; [|apply shrinks_unobserve].
  apply shrinks_same_observers.
  rewrite (observers_addEventListener _ _ (_, _)). reflexivity.
Qed.

Lemma has_style_set_other_data (e : nat) (p v : string) (w : world) (x : nat) :
  is_Some (Dom.data x w) -> is_Some (Dom.data x (Dom.style_set e p v w)).
Proof. apply data_update_is_Some. reflexivity. Qed.

Lemma style_get_classList_add (e : nat) (p : string) (a : nat) (ts : list string)
    (w : world) :
  Dom.style_get e p (Dom.classList_add a ts w) = Dom.style_get e p w.
Proof.
  unfold Dom.style_get, Dom.classList_add. rewrite data_update by reflexivity.
  destruct (Dom.data e w) as [d|]; [|reflexivity]. simpl.
  unfold at_elem. destruct (decide (e_id d = a)); reflexivity.
Qed.

(** An element in view is shown, marked and given up by the observer. *)
Lemma inViewOne_shows (o : nat) (ev : env) (w : world) (a : nat) :
  near_viewport ev a = true -> is_Some (Dom.data a w) ->
  is_visible a (inViewOne o ev w a) = true
  /\ Dom.style_get a "will-change" (inViewOne o ev w a) = Some "opacity, transform"
  /\ ~ In a (Dom.observed o (inViewOne o ev w a)).
Proof.
  intros H Hd. destruct (inViewOne_dom o ev w a H) as [Hdoc Hdet].
  pose proof (has_style_set_other_data a "will-change" "opacity, transform" w a Hd) as Hd1.
  split; [|split].
  - unfold is_visible. rewrite (has_class_same_dom a _ _ _ Hdoc Hdet).
    rewrite has_class_add.
    rewrite (bool_decide_eq_true_2 (a = a) eq_refl).
    rewrite (bool_decide_eq_true_2 _ Hd1). apply orb_true_r.
  - rewrite (style_get_same_dom a _ _ _ Hdoc Hdet).
    rewrite style_get_classList_add.
    apply style_get_style_set_same; [exact Hd|discriminate].
  - rewrite (inViewOne_near o ev w a H). apply not_observed_unobserve.
Qed.

(** Everything else is left as it was. *)
Lemma inViewOne_other (o : nat) (ev : env) (w : world) (a e : nat) :
  e <> a \/ near_viewport ev a = false ->
  (forall c, Dom.has_class e c (inViewOne o ev w a) = Dom.has_class e c w)
  /\ (In e (Dom.observed o w) -> In e (Dom.observed o (inViewOne o ev w a))).
Proof.
  intros He. destruct (near_viewport ev a) eqn:H.
  2:{ unfold inViewOne. rewrite H. auto. }
  destruct He as [Hne|]; [|discriminate].
  destruct (inViewOne_dom o ev w a H) as [Hdoc Hdet]. split.
  - intros c. rewrite (has_class_same_dom e _ _ _ Hdoc Hdet).
    rewrite has_class_add, bool_decide_eq_false_2 by exact Hne. simpl.
    rewrite orb_false_r. apply has_class_style_set.
  - intros Hin. rewrite (inViewOne_near o ev w a H), observed_unobserve.
    destruct (decide (o = o)); [|congruence].
    apply List.filter_In. split.
    + unfold Dom.observed. rewrite (observers_addEventListener _ _ (_, _)). exact Hin.
    + apply negb_true_iff, Nat.eqb_neq. congruence.
Qed.

Lemma inViewOne_keeps_will_change (o : nat) (ev : env) (w : world) (a e : nat) :
  is_Some (Dom.data e w) ->
  Dom.style_get e "will-change" w = Some "opacity, transform" ->
  Dom.style_get e "will-change" (inViewOne o ev w a) = Some "opacity, transform".
Proof.
  intros Hd Hs. destruct (near_viewport ev a) eqn:H.
  2:{ unfold inViewOne. rewrite H. exact Hs. }
  destruct (Nat.eq_dec e a) as [->|Hne]; [apply inViewOne_shows; assumption|].
  destruct (inViewOne_dom o ev w a H) as [Hdoc Hdet].
  rewrite (style_get_same_dom e _ _ _ Hdoc Hdet), style_get_classList_add.
  rewrite (style_get_style_set_other e a "will-change" "will-change"
             "opacity, transform" w (or_introl Hne)).
  exact Hs.
Qed.

Lemma in_view_shown (o : nat) (ev : env) (els : list nat) (w : world) (el : nat) :
  In el els -> near_viewport ev el = true -> is_Some (Dom.data el w) ->
  let w' := fold_left (inViewOne o ev) els w in
  is_visible el w' = true
  /\ Dom.style_get el "will-change" w' = Some "opacity, transform"
  /\ ~ In el (Dom.observed o w').
Proof.
  intros Hin Hnear Hd w'. apply in_split in Hin as (l1 & l2 & ->).
  unfold w'. rewrite fold_left_app. simpl.
  set (w1 := fold_left (inViewOne o ev) l1 w).
  assert (Hd1 : is_Some (Dom.data el w1)).
  { eapply grows_is_Some; [|exact Hd]. apply grows_fold_left. intros w2 a.
    apply inViewOne_grows. }
  destruct (inViewOne_shows o ev w1 el Hnear Hd1) as (Hv & Hs & Ho).
  set (w2 := inViewOne o ev w1 el) in *.
  assert (Hg : grows w2 (fold_left (inViewOne o ev) l2 w2)).
  { apply grows_fold_left. intros w3 a. apply inViewOne_grows. }
  split; [|split].
  - eapply grows_has_class; [exact Hg|exact Hv].
  - assert (Hd2 : is_Some (Dom.data el w2)).
    { eapply grows_is_Some; [apply inViewOne_grows|exact Hd1]. }
    revert Hd2 Hs. generalize w2. clear.
    induction l2 as [|a l2 IH]; intros w2 Hd2 Hs; simpl; [exact Hs|].
    apply IH.
    + eapply grows_is_Some; [apply inViewOne_grows|exact Hd2].
    + apply inViewOne_keeps_will_change; assumption.
  - intros Hobs. apply Ho.
    apply (shrinks_fold_left (inViewOne o ev) l2 w2); [|exact Hobs].
    intros w3 a. apply inViewOne_shrinks.
Qed.

Lemma in_view_skipped (o : nat) (ev : env) (els : list nat) (w : world) (el : nat) :
  near_viewport ev el = false ->
  let w' := fold_left (inViewOne o ev) els w in
  (forall c, Dom.has_class el c w' = Dom.has_class el c w)
  /\ (In el (Dom.observed o w) -> In el (Dom.observed o w')).
Proof.
  intros Hfar. revert w. induction els as [|a els IH]; intros w; simpl; [auto|].
  assert (He : el <> a \/ near_viewport ev a = false).
  { destruct (Nat.eq_dec el a) as [->|Hne]; [right; exact Hfar|left; exact Hne]. }
  destruct (inViewOne_other o ev w a el He) as [Hc Ho].
  destruct (IH (inViewOne o ev w a)) as [Hc' Ho'].
  split; [intros c; rewrite Hc'; apply Hc|auto].
Qed.

Lemma part001_init_frames (ev : env) (w : world) (e0 : nat) (els : list nat) :
  reveal_initialised w = false -> reduced_motion ev = false ->
  Dom.querySelectorAll (Simple (Attr "data-reveal")) w = e0 :: els ->
  let w1 := Part001.initRevealOnScroll ev w in
  let o := next_ref w in
  win w1 !! "__revealObserver" = Some (Js.Obj o)
  /\ frames w1 = frames w ++ [RevealInView (e0 :: els) o].
Proof.
  intros Hi Hrm E w1 o. unfold w1. rewrite (part001_init_eq ev w Hi), E, Hrm. cbv zeta.
  assert (Hn : next_ref (part001_delays (e0 :: els) w) = next_ref w).
  { unfold part001_delays. apply (fold_left_preserves next_ref). intros w2 g.
    apply (foldi_preserves next_ref). reflexivity. }
  rewrite Hn. fold o. split; [apply lookup_insert_eq|].
  cbn [frames with_win Dom.requestAnimationFrame with_frames]. f_equal.
  rewrite frames_fold_left by (intros w2 a; apply frames_observe).
  cbn [frames with_observers with_next_ref]. apply frames_part001_delays.
Qed.

(** The first frame runs the in-view pass over the [data-reveal]
    elements, with the observer of [initRevealOnScroll]. *)
Lemma first_frame_in_view (ev ev' : env) (w : world) (el : nat) :
  reveal_initialised w = false ->
  reduced_motion ev = false ->
  frames w = [] ->
  In el (Dom.querySelectorAll (Simple (Attr "data-reveal")) w) ->
  let w1 := Part001.initRevealOnScroll ev w in
  exists o,
    Part001.run_frame ev' w1
    = fold_left (inViewOne o ev') (Dom.querySelectorAll (Simple (Attr "data-reveal")) w)
        (with_frames [] w1)
    /\ is_Some (Dom.data el (with_frames [] w1)).
Proof.
  intros Hi Hrm Hfr Hel w1.
  destruct (Dom.querySelectorAll (Simple (Attr "data-reveal")) w) as [|e0 els] eqn:E;
    [destruct Hel|].
  destruct (part001_init_frames ev w e0 els Hi Hrm E) as [Hwin Hframes].
  fold w1 in Hwin, Hframes. rewrite Hfr in Hframes. simpl in Hframes.
  exists (next_ref w). split.
  - unfold Part001.run_frame. rewrite Hframes. reflexivity.
  - eapply (grows_is_Some w).
    + eapply grows_trans; [apply (init_grows Part001Copy ev w)|].
      apply grows_same_dom; reflexivity.
    + apply (querySelectorAll_data (Simple (Attr "data-reveal"))). rewrite E. exact Hel.
Qed.

(** part_001, lines 170-183: the first animation frame after
    [initRevealOnScroll] shows every [data-reveal] element that is in
    view, without waiting for the observer: the element gets
    [is-visible], [will-change] is set for its transition, and the
    observer stops observing it.  An element out of view keeps its
    classes and stays observed. *)
Theorem first_frame_shows_elements_in_view (ev ev' : env) (w : world) (el : nat) :
  reveal_initialised w = false ->
  reduced_motion ev = false ->
  frames w = [] ->
  In el (Dom.querySelectorAll (Simple (Attr "data-reveal")) w) ->
  let w1 := Part001.initRevealOnScroll ev w in
  let w2 := Part001.run_frame ev' w1 in
  exists o,
    win w1 !! "__revealObserver" = Some (Js.Obj o)
    /\ In el (Dom.observed o w1)
    /\ (near_viewport ev' el = true ->
        is_visible el w2 = true
        /\ Dom.style_get el "will-change" w2 = Some "opacity, transform"
        /\ ~ In el (Dom.observed o w2))
    /\ (near_viewport ev' el = false ->
        (forall c, Dom.has_class el c w2 = Dom.has_class el c w1)
        /\ In el (Dom.observed o w2)).
Proof.
  intros Hi Hrm Hfr Hel w1 w2.
  destruct (Dom.querySelectorAll (Simple (Attr "data-reveal")) w) as [|e0 els] eqn:E;
    [destruct Hel|].
  destruct (part001_init_frames ev w e0 els Hi Hrm E) as [Hwin Hframes].
  fold w1 in Hwin, Hframes. rewrite Hfr in Hframes. simpl in Hframes.
  exists (next_ref w). split; [exact Hwin|].
  assert (Hobs : In el (Dom.observed (next_ref w) w1)).
  { destruct (init_records Part001Copy ev w el Hi) as (o & Hwin' & Ho).
    - rewrite E. exact Hel.
    - simpl. rewrite Hrm. reflexivity.
    - simpl in Hwin', Ho. fold w1 in Hwin', Ho. rewrite Hwin in Hwin'.
      injection Hwin' as <-. exact Ho. }
  split; [exact Hobs|].
  assert (Hw2 : w2 = fold_left (inViewOne (next_ref w) ev') (e0 :: els) (with_frames [] w1)).
  { unfold w2, Part001.run_frame. rewrite Hframes. reflexivity. }
  assert (Hd1 : is_Some (Dom.data el (with_frames [] w1))).
  { eapply (grows_is_Some w).
    - eapply grows_trans; [apply (init_grows Part001Copy ev w)|].
      apply grows_same_dom; reflexivity.
    - apply (querySelectorAll_data (Simple (Attr "data-reveal"))). rewrite E. exact Hel. }
  rewrite Hw2. split.
  - intros Hnear. apply in_view_shown; assumption.
  - intros Hfar.
    destruct (in_view_skipped (next_ref w) ev' (e0 :: els) (with_frames [] w1) el Hfar)
      as [Hc Ho].
    split; [exact Hc|apply Ho, Hobs].
Qed.

(** ** Floating labels *)

Lemma initFloatingLabels_fold (w : world) :
  MainJs.initFloatingLabels w
  = fold_left floatWrap (Dom.querySelectorAll (Simple (Attr "data-float")) w) w.
Proof. reflexivity. Qed.

Lemma floatWrap_pair (w : world) (wrap : nat) :
  floatWrap w wrap
  = match float_pair wrap w with
    | Some (input, label) =>
        MainJs.floatToggle input label
          (Shared.on (Element input) "blur" (next_ref w, FloatToggle input label) None
             (Shared.on (Element input) "input" (next_ref w, FloatToggle input label) None
                (with_next_ref (S (next_ref w)) w)))
    | None => w
    end.
Proof.
  unfold floatWrap, float_pair, fresh.
  destruct (Dom.elem_querySelector wrap _ w); [|reflexivity].
  destruct (Dom.elem_querySelector wrap _ w); reflexivity.
Qed.

Lemma value_same_dom (x : nat) (w w' : world) :
  doc w' = doc w -> detached w' = detached w -> Dom.value x w' = Dom.value x w.
Proof. intros Hd Hdt. unfold Dom.value. rewrite (data_same_dom x w w' Hd Hdt). reflexivity. Qed.

Lemma value_update_classes (x e : nat) (g : edata -> list string) (w : world) :
  Dom.value x (Dom.update e (fun d => Dom.set_classes (g d) d) w) = Dom.value x w.
Proof.
  unfold Dom.value. rewrite data_update by reflexivity.
  destruct (Dom.data x w) as [d|]; [|reflexivity]. simpl.
  unfold at_elem. destruct (decide (e_id d = e)); reflexivity.
Qed.

Lemma same_fields_refl (w : world) : same_fields w w.
Proof. split; [|split]; auto. Qed.

Lemma same_fields_trans (w1 w2 w3 : world) :
  same_fields w1 w2 -> same_fields w2 w3 -> same_fields w1 w3.
Proof.
  intros (P1 & V1 & D1) (P2 & V2 & D2). split; [|split].
  - intros x. rewrite P2. apply P1.
  - intros x. rewrite V2. apply V1.
  - auto.
Qed.

Lemma same_fields_same_dom (w w' : world) :
  doc w' = doc w -> detached w' = detached w -> same_fields w w'.
Proof.
  intros Hd Hdt. split; [|split].
  - intros x. unfold float_pair, Dom.elem_querySelector, Dom.elem_querySelectorAll, Dom.trees.
    rewrite Hd, Hdt. reflexivity.
  - intros x. apply value_same_dom; assumption.
  - intros x. rewrite (data_same_dom x w w' Hd Hdt). auto.
Qed.

Lemma same_fields_update_classes (e : nat) (g : edata -> list string) (w : world) :
  same_fields w (Dom.update e (fun d => Dom.set_classes (g d) d) w).
Proof.
  split; [|split].
  - intros x. unfold float_pair, Dom.elem_querySelector.
    rewrite !elem_querySelectorAll_update; try reflexivity.
    all: intros anc d; unfold at_elem; simpl;
      destruct (decide (e_id d = e)); reflexivity.
  - intros x. apply value_update_classes.
  - intros x. apply data_update_is_Some. reflexivity.
Qed.

Lemma same_fields_floatToggle (input label : nat) (w : world) :
  same_fields w (MainJs.floatToggle input label w).
Proof.
  unfold MainJs.floatToggle. destruct (negb _); apply same_fields_update_classes.
Qed.

(** The world in which [toggle] first runs has the page of [w]. *)
Lemma float_wired_dom (input label : nat) (w : world) :
  let w' := Shared.on (Element input) "blur" (next_ref w, FloatToggle input label) None
              (Shared.on (Element input) "input" (next_ref w, FloatToggle input label) None
                 (with_next_ref (S (next_ref w)) w)) in
  doc w' = doc w /\ detached w' = detached w.
Proof.
  intros w'. unfold w'.
  destruct (doc_on (Element input) "blur" (next_ref w, FloatToggle input label) None
              (Shared.on (Element input) "input" (next_ref w, FloatToggle input label) None
                 (with_next_ref (S (next_ref w)) w))) as [-> ->].
  destruct (doc_on (Element input) "input" (next_ref w, FloatToggle input label) None
              (with_next_ref (S (next_ref w)) w)) as [-> ->].
  split; reflexivity.
Qed.

Lemma same_fields_floatWrap (w : world) (wrap : nat) : same_fields w (floatWrap w wrap).
Proof.
  rewrite floatWrap_pair. destruct (float_pair wrap w) as [[input label]|];
    [|apply same_fields_refl].
  eapply same_fields_trans; [|apply same_fields_floatToggle].
  apply same_fields_same_dom; apply float_wired_dom.
Qed.

Lemma in_float_classes (cls : string) :
  In cls float_classes -> existsb (String.eqb cls) float_classes = true.
Proof.
  intros H. apply existsb_exists. exists cls. split; [exact H|apply String.eqb_refl].
Qed.

(** What [toggle] does to the classes of a floated label. *)
Lemma floatToggle_class (input label : nat) (w : world) (e : nat) (cls : string) :
  In cls float_classes -> is_Some (Dom.data e w) ->
  Dom.has_class e cls (MainJs.floatToggle input label w)
  = if decide (e = label) then negb (String.eqb (Dom.value input w) "")
    else Dom.has_class e cls w.
Proof.
  intros Hcls Hd. apply in_float_classes in Hcls. unfold float_classes in Hcls.
  unfold MainJs.floatToggle.
  destruct (String.eqb (Dom.value input w) ""); simpl negb; cbv iota.
  - rewrite has_class_remove, Hcls. destruct (decide (e = label)) as [He|He].
    + rewrite (bool_decide_eq_true_2 _ He). simpl. apply andb_false_r.
    + rewrite (bool_decide_eq_false_2 _ He). simpl. apply andb_true_r.
  - rewrite has_class_add, Hcls. destruct (decide (e = label)) as [He|He].
    + rewrite (bool_decide_eq_true_2 _ He), (bool_decide_eq_true_2 _ Hd). simpl.
      apply orb_true_r.
    + rewrite (bool_decide_eq_false_2 _ He). simpl. apply orb_false_r.
Qed.

Lemma floatWrap_class (w : world) (wrap : nat) (e : nat) (cls : string) :
  In cls float_classes -> is_Some (Dom.data e w) ->
  Dom.has_class e cls (floatWrap w wrap)
  = match float_pair wrap w with
    | Some (input, label) =>
        if decide (e = label) then negb (String.eqb (Dom.value input w) "")
        else Dom.has_class e cls w
    | None => Dom.has_class e cls w
    end.
Proof.
  intros Hcls Hd. rewrite floatWrap_pair.
  destruct (float_pair wrap w) as [[input label]|]; [|reflexivity].
  destruct (float_wired_dom input label w) as [Hdoc Hdet].
  rewrite floatToggle_class; [|exact Hcls|rewrite (data_same_dom e _ _ Hdoc Hdet); exact Hd].
  rewrite (value_same_dom input _ _ Hdoc Hdet), (has_class_same_dom e cls _ _ Hdoc Hdet).
  reflexivity.
Qed.

Lemma float_init_class (w : world) (input label : nat) (cls : string) (wrap : nat)
    (ws : list nat) (wi : world) :
  In cls float_classes ->
  same_fields w wi -> is_Some (Dom.data label w) ->
  float_pair wrap w = Some (input, label) ->
  (forall wrap' i', In wrap' ws -> float_pair wrap' w = Some (i', label) -> i' = input) ->
  Dom.has_class label cls wi = negb (String.eqb (Dom.value input w) "") \/ In wrap ws ->
  Dom.has_class label cls (fold_left floatWrap ws wi)
  = negb (String.eqb (Dom.value input w) "").
Proof.
  intros Hcls Hsame Hd Hpair. revert wi Hsame.
  induction ws as [|a ws IH]; intros wi Hsame Hshare HP; simpl.
  - destruct HP as [HP|[]]. exact HP.
  - apply IH.
    + eapply same_fields_trans; [exact Hsame|apply same_fields_floatWrap].
    + intros wrap' i' Hin. apply Hshare. right. exact Hin.
    + destruct Hsame as (Hp & Hv & Hdi).
      assert (Hmine : float_pair a w = Some (input, label) ->
                      Dom.has_class label cls (floatWrap wi a)
                      = negb (String.eqb (Dom.value input w) "")).
      { intros Ha. rewrite floatWrap_class, Hp, Ha by auto.
        destruct (decide (label = label)); [|congruence]. rewrite Hv. reflexivity. }
      destruct HP as [HP|[->|Hin]]; [|left; apply Hmine, Hpair|right; exact Hin].
      left. destruct (float_pair a w) as [[i' l']|] eqn:Ea.
      * destruct (decide (label = l')) as [<-|Hne].
        -- pose proof (Hshare a i' (or_introl eq_refl) Ea) as ->. apply Hmine. reflexivity.
        -- rewrite floatWrap_class, Hp, Ea by auto.
           destruct (decide (label = l')); [congruence|exact HP].
      * rewrite floatWrap_class, Hp, Ea by auto. exact HP.
Qed.

(** *** The listeners of the fields *)

Lemma listeners_floatToggle (input label : nat) (w : world) :
  listeners (MainJs.floatToggle input label w) = listeners w
  /\ next_ref (MainJs.floatToggle input label w) = next_ref w.
Proof. unfold MainJs.floatToggle. destruct (negb _); split; reflexivity. Qed.

Lemma typed_floatWrap (ty : string) (w : world) (wrap : nat) :
  ty = "input" \/ ty = "blur" ->
  (forall l, In l (typed ty w) -> l_fn l < next_ref w) ->
  typed ty (floatWrap w wrap)
  = typed ty w
    ++ match float_pair wrap w with
       | Some (input, label) =>
           [mk_listener (Element input) ty (next_ref w) (FloatToggle input label)
              false false false]
       | None => []
       end.
Proof.
  intros Hty Hlt. rewrite floatWrap_pair.
  destruct (float_pair wrap w) as [[input label]|]; [|symmetry; apply app_nil_r].
  unfold typed at 1. rewrite (proj1 (listeners_floatToggle input label _)).
  fold (typed ty
          (Shared.on (Element input) "blur" (next_ref w, FloatToggle input label) None
             (Shared.on (Element input) "input" (next_ref w, FloatToggle input label) None
                (with_next_ref (S (next_ref w)) w)))).
  assert (Hfresh : forall l, In l (typed ty (with_next_ref (S (next_ref w)) w)) ->
                             l_fn l <> next_ref w).
  { intros l Hl. apply Hlt in Hl. lia. }
  destruct Hty as [-> | ->].
  - rewrite typed_on_other by discriminate. rewrite typed_on_new by exact Hfresh. reflexivity.
  - rewrite typed_on_new.
    + rewrite typed_on_other by discriminate. reflexivity.
    + rewrite typed_on_other by discriminate. exact Hfresh.
Qed.

Lemma next_ref_floatWrap (w : world) (wrap : nat) : next_ref w <= next_ref (floatWrap w wrap).
Proof.
  rewrite floatWrap_pair. destruct (float_pair wrap w) as [[input label]|]; [|lia].
  rewrite (proj2 (listeners_floatToggle input label _)), !next_ref_on. simpl. lia.
Qed.

Lemma float_init_listeners (ty : string) (w : world) (input label wrap : nat)
    (ws : list nat) (wi : world) :
  ty = "input" \/ ty = "blur" ->
  same_fields w wi ->
  float_pair wrap w = Some (input, label) ->
  (forall a, In a ws -> In a (Dom.querySelectorAll (Simple (Attr "data-float")) w)) ->
  (forall l, In l (typed ty wi) -> l_fn l < next_ref wi /\ float_listener w l) ->
  let toggles := fun l => l_target l = Element input /\ l_capture l = false
                          /\ l_code l = FloatToggle input label in
  let w' := fold_left floatWrap ws wi in
  (forall l, In l (typed ty w') -> float_listener w l)
  /\ ((exists l, In l (typed ty wi) /\ toggles l) \/ In wrap ws ->
      exists l, In l (typed ty w') /\ toggles l).
Proof.
  intros Hty Hsame Hpair Hws HJ toggles. revert wi Hsame Hws HJ.
  induction ws as [|a ws IH]; intros wi Hsame Hws HJ; simpl.
  - split; [intros l Hl; apply HJ, Hl|]. intros [H|[]]. exact H.
  - assert (Hstep : typed ty (floatWrap wi a)
                    = typed ty wi
                      ++ match float_pair a w with
                         | Some (i, lb) =>
                             [mk_listener (Element i) ty (next_ref wi) (FloatToggle i lb)
                                false false false]
                         | None => []
                         end).
    { rewrite typed_floatWrap; [|exact Hty|intros l Hl; apply HJ, Hl].
      rewrite (proj1 Hsame). reflexivity. }
    assert (Hsame' : same_fields w (floatWrap wi a)).
    { eapply same_fields_trans; [exact Hsame|apply same_fields_floatWrap]. }
    assert (HJ' : forall l, In l (typed ty (floatWrap wi a)) ->
                            l_fn l < next_ref (floatWrap wi a) /\ float_listener w l).
    { intros l Hl. rewrite Hstep in Hl. apply in_app_or in Hl as [Hl|Hl].
      - destruct (HJ l Hl) as [Hlt Hf]. split; [|exact Hf].
        pose proof (next_ref_floatWrap wi a). lia.
      - destruct (float_pair a w) as [[i lb]|] eqn:Ea; [|destruct Hl].
        destruct Hl as [<-|[]]. simpl. split.
        + rewrite floatWrap_pair, (proj1 Hsame), Ea.
          rewrite (proj2 (listeners_floatToggle i lb _)), !next_ref_on. simpl. lia.
        + split; [reflexivity|split; [reflexivity|]].
          exists a, i, lb. repeat split; [apply Hws; left; reflexivity|exact Ea]. }
    destruct (IH (floatWrap wi a) Hsame' (fun x Hx => Hws x (or_intror Hx)) HJ')
      as [HK Hpres].
    split; [exact HK|].
    intros [(l & Hl & Hl')|[->|Hin]]; apply Hpres.
    + left. exists l. split; [|exact Hl']. rewrite Hstep. apply in_or_app. left. exact Hl.
    + left. eexists. split; [rewrite Hstep, Hpair; apply in_or_app; right; left; reflexivity|].
      unfold toggles. simpl. auto.
    + right. exact Hin.
Qed.

(** *** Events on a field *)

Section FloatEvents.

Variables (w w0 w1 : world) (ty : string) (input label : nat) (cls : string).
Hypothesis cls_float : In cls float_classes.
Hypothesis all_toggles : forall l, In l (typed ty w0) -> float_listener w l.
Hypothesis one_input :
  forall wrap' i', In wrap' (Dom.querySelectorAll (Simple (Attr "data-float")) w) ->
    float_pair wrap' w = Some (i', label) -> i' = input.

Lemma invoke_float (ev : env) (l : listener) (wj : world) :
  In l (typed ty w0) ->
  float_kept w0 w1 label wj ->
  float_kept w0 w1 label (invoke MainJs.run ev l wj)
  /\ (float_shown w1 input label cls wj \/ l_code l = FloatToggle input label ->
      float_shown w1 input label cls (invoke MainJs.run ev l wj)).
Proof.
  intros Hl (Hls & Hd & Hv).
  destruct (all_toggles l Hl) as (Honce & _ & wrap' & i & lb & Hwrap & Hpair & _ & Hcode).
  assert (Hin : In l (listeners wj)).
  { rewrite Hls. apply List.filter_In in Hl. tauto. }
  assert (Hex : existsb (Dom.same_listener (l_target l) (l_type l) (l_fn l) (l_capture l))
                  (listeners wj) = true).
  { apply existsb_exists. exists l. split; [exact Hin|]. apply same_listener_key. reflexivity. }
  unfold invoke. rewrite Hex, Honce, Hcode. simpl MainJs.run.
  destruct (same_fields_floatToggle i lb wj) as (_ & Hv' & Hd').
  split.
  - split; [|split].
    + rewrite (proj1 (listeners_floatToggle i lb wj)). exact Hls.
    + apply Hd', Hd.
    + intros x. rewrite Hv'. apply Hv.
  - intros Hs. unfold float_shown in *. rewrite floatToggle_class by assumption.
    destruct (decide (label = lb)) as [<-|Hne].
    + rewrite (one_input wrap' i Hwrap Hpair), Hv. reflexivity.
    + destruct Hs as [Hs|Hs]; [exact Hs|congruence].
Qed.

Lemma invokes_float (ev : env) (ls : list listener) (wj : world) :
  (forall l, In l ls -> In l (typed ty w0)) ->
  float_kept w0 w1 label wj ->
  let wk := fold_left (fun w l => invoke MainJs.run ev l w) ls wj in
  float_kept w0 w1 label wk
  /\ (float_shown w1 input label cls wj
      \/ (exists l, In l ls /\ l_code l = FloatToggle input label) ->
      float_shown w1 input label cls wk).
Proof.
  revert wj. induction ls as [|l ls IH]; intros wj Hls Hk; simpl.
  - split; [exact Hk|]. intros [H|(l & [] & _)]. exact H.
  - destruct (invoke_float ev l wj (Hls l (or_introl eq_refl)) Hk) as [Hk' Hs'].
    destruct (IH (invoke MainJs.run ev l wj) (fun x Hx => Hls x (or_intror Hx)) Hk')
      as [Hk2 Hs2].
    split; [exact Hk2|].
    intros [Hs|(l0 & [<-|Hin] & Hc)]; apply Hs2.
    + left. apply Hs'. left. exact Hs.
    + left. apply Hs'. right. exact Hc.
    + right. exists l0. split; assumption.
Qed.

Lemma fire_float (ev : env) (cap : bool) (t : target) (wj : world) :
  float_kept w0 w1 label wj ->
  float_kept w0 w1 label (fire MainJs.run ev ty cap t wj)
  /\ (float_shown w1 input label cls wj
      \/ (exists l, In l (typed ty w0) /\ l_target l = t /\ l_capture l = cap
                    /\ l_code l = FloatToggle input label) ->
      float_shown w1 input label cls (fire MainJs.run ev ty cap t wj)).
Proof.
  intros Hk. unfold fire. rewrite filter_typed. fold (typed ty wj).
  assert (Hty : typed ty wj = typed ty w0).
  { unfold typed. rewrite (proj1 Hk). reflexivity. }
  rewrite Hty.
  destruct (invokes_float ev
              (List.filter (fun l => bool_decide (l_target l = t) && Bool.eqb (l_capture l) cap)
                 (typed ty w0)) wj) as [Hk' Hs'].
  - intros l Hl. apply List.filter_In in Hl. tauto.
  - exact Hk.
  - split; [exact Hk'|].
    intros [Hs|(l & Hl & Ht & Hc & Hcode)]; apply Hs'; [left; exact Hs|].
    right. exists l. split; [|exact Hcode].
    apply List.filter_In. split; [exact Hl|].
    rewrite (bool_decide_eq_true_2 _ Ht), Hc. simpl. apply eqb_reflx.
Qed.

Lemma fires_float (ev : env) (cap : bool) (path : list target) (wj : world) :
  float_kept w0 w1 label wj ->
  let wk := fold_left (fun w a => fire MainJs.run ev ty cap a w) path wj in
  float_kept w0 w1 label wk
  /\ (float_shown w1 input label cls wj -> float_shown w1 input label cls wk).
Proof.
  revert wj. induction path as [|a path IH]; intros wj Hk; simpl; [auto|].
  destruct (fire_float ev cap a wj Hk) as [Hk' Hs'].
  destruct (IH _ Hk') as [Hk2 Hs2]. split; [exact Hk2|].
  intros Hs. apply Hs2, Hs'. left. exact Hs.
Qed.

Lemma dispatch_float (ev : env) (bubbles : bool) :
  float_kept w0 w1 label w1 ->
  (exists l, In l (typed ty w0) /\ l_target l = Element input /\ l_capture l = false
             /\ l_code l = FloatToggle input label) ->
  float_shown w1 input label cls (dispatch MainJs.run ev ty bubbles (Element input) w1).
Proof.
  intros Hk Hpres. unfold dispatch.
  destruct (fires_float ev true (rev (event_path (Element input) w1)) w1 Hk) as [Hk1 _].
  destruct (fire_float ev true (Element input) _ Hk1) as [Hk2 _].
  destruct (fire_float ev false (Element input) _ Hk2) as [Hk3 Hs3].
  specialize (Hs3 (or_intror Hpres)).
  destruct bubbles; [|exact Hs3].
  apply (fires_float ev false (event_path (Element input) w1) _ Hk3), Hs3.
Qed.

End FloatEvents.

(** [src/js/main.js], lines 102-131: after [initFloatingLabels], the label
    of a [data-float] wrapper is floated (it carries each of the four
    classes of lines 111-114) exactly when the wrapper's input has a
    value, and every later [input] or [blur] event on that input brings
    the label in line with the value of that moment.  The label is taken
    to belong to one input, and no [input] or [blur] listener to be
    registered before. *)
Theorem float_label_tracks_value (w : world) (wrap input label : nat) (cls : string) :
  (forall l, In l (listeners w) -> l_type l <> "input" /\ l_type l <> "blur") ->
  In wrap (Dom.querySelectorAll (Simple (Attr "data-float")) w) ->
  Dom.elem_querySelector wrap (Either (Tag "input") (Tag "textarea")) w = Some input ->
  Dom.elem_querySelector wrap (Simple (Tag "label")) w = Some label ->
  (forall wrap' input',
     In wrap' (Dom.querySelectorAll (Simple (Attr "data-float")) w) ->
     Dom.elem_querySelector wrap' (Either (Tag "input") (Tag "textarea")) w = Some input' ->
     Dom.elem_querySelector wrap' (Simple (Tag "label")) w = Some label ->
     input' = input) ->
  In cls ["-translate-y-3"; "text-text-muted"; "text-xs"; "opacity-90"] ->
  let w0 := MainJs.initFloatingLabels w in
  Dom.has_class label cls w0 = negb (String.eqb (Dom.value input w) "")
  /\ forall w1 ev ty bubbles,
       ty = "input" \/ ty = "blur" ->
       listeners w1 = listeners w0 ->
       is_Some (Dom.data label w1) ->
       Dom.has_class label cls (dispatch MainJs.run ev ty bubbles (Element input) w1)
       = negb (String.eqb (Dom.value input w1) "").
Proof.
  intros Hnone Hwrap Hinput Hlabel Hone Hcls w0.
  assert (Hpair : float_pair wrap w = Some (input, label)).
  { unfold float_pair. rewrite Hinput, Hlabel. reflexivity. }
  assert (Hone' : forall wrap' i',
            In wrap' (Dom.querySelectorAll (Simple (Attr "data-float")) w) ->
            float_pair wrap' w = Some (i', label) -> i' = input).
  { intros wrap' i' Hin Hp. unfold float_pair in Hp.
    destruct (Dom.elem_querySelector wrap' (Either _ _) w) as [i2|] eqn:E1; [|discriminate].
    destruct (Dom.elem_querySelector wrap' (Simple _) w) as [l2|] eqn:E2; [|discriminate].
    injection Hp as -> ->. apply (Hone wrap' i' Hin E1 E2). }
  assert (Hd : is_Some (Dom.data label w)).
  { apply (elem_querySelectorAll_data wrap (Simple (Tag "label"))).
    unfold Dom.elem_querySelector in Hlabel.
    destruct (Dom.elem_querySelectorAll wrap (Simple (Tag "label")) w); [discriminate|].
    injection Hlabel as ->. left. reflexivity. }
  split.
  - unfold w0. rewrite initFloatingLabels_fold.
    apply (float_init_class w input label cls wrap); auto using same_fields_refl.
  - intros w1 ev ty bubbles Hty Hls Hd1.
    destruct (float_init_listeners ty w input label wrap
                (Dom.querySelectorAll (Simple (Attr "data-float")) w) w Hty
                (same_fields_refl w) Hpair (fun a Ha => Ha)) as [HK Hpres].
    { intros l Hl. apply List.filter_In in Hl as [Hl Ht]. apply String.eqb_eq in Ht.
      destruct (Hnone l Hl) as [H1 H2]. destruct Hty; congruence. }
    apply (dispatch_float w w0 w1 ty input label cls Hcls); try assumption.
    + split; [exact Hls|split; [exact Hd1|reflexivity]].
    + apply Hpres. right. exact Hwrap.
Qed.

(** ** The end of a reveal transition *)

Lemma typed_remove_first (ty : string) (p : listener -> bool) (ls : list listener) :
  (forall l, p l = true -> l_type l = ty) ->
  List.filter (fun l => String.eqb (l_type l) ty) (Dom.remove_first p ls)
  = Dom.remove_first p (List.filter (fun l => String.eqb (l_type l) ty) ls).
Proof.
  intros Hp. induction ls as [|l ls IH]; simpl; [reflexivity|].
  destruct (p l) eqn:E.
  - rewrite (Hp l E), String.eqb_refl. simpl. rewrite E. reflexivity.
  - simpl. destruct (String.eqb (l_type l) ty); simpl; rewrite IH; [rewrite E|]; reflexivity.
Qed.

Lemma remove_first_In (p : listener -> bool) (ls : list listener) (l : listener) :
  In l (Dom.remove_first p ls) -> In l ls.
Proof.
  induction ls as [|x ls IH]; simpl; [auto|].
  destruct (p x); [auto|]. intros [->|H]; auto.
Qed.

Lemma remove_first_NoDup (p : listener -> bool) (ls : list listener) :
  NoDup (map l_target ls) -> NoDup (map l_target (Dom.remove_first p ls)).
Proof.
  induction ls as [|x ls IH]; simpl; [auto|].
  intros H. apply NoDup_cons in H as [Hx Hls].
  destruct (p x); [exact Hls|]. simpl. apply NoDup_cons. split; [|apply IH, Hls].
  intros Hin. apply Hx. apply list_elem_of_In in Hin. apply list_elem_of_In.
  apply in_map_iff in Hin as (y & Hy & Hin). apply in_map_iff. exists y.
  split; [exact Hy|]. eapply remove_first_In, Hin.
Qed.

(** With one listener per target, removing the listener of a target
    leaves the target without one. *)
Lemma remove_first_target (p : listener -> bool) (ls : list listener) (l0 : listener) :
  NoDup (map l_target ls) -> In l0 ls -> p l0 = true ->
  (forall l, p l = true -> l_target l = l_target l0) ->
  forall l, In l (Dom.remove_first p ls) -> l_target l <> l_target l0.
Proof.
  intros Hnd Hin Hp Hkey. induction ls as [|x ls IH]; simpl; [destruct Hin|].
  intros l Hl. apply NoDup_cons in Hnd as [Hx Hls].
  assert (Hfresh : forall y, In y ls -> l_target y <> l_target x).
  { intros y Hy Heq. apply Hx. apply list_elem_of_In. rewrite <- Heq. apply in_map, Hy. }
  destruct (p x) eqn:E.
  - destruct Hin as [->|Hin]; [apply Hfresh, Hl|].
    exfalso. apply (Hfresh l0 Hin). symmetry. apply Hkey, E.
  - destruct Hin as [->|Hin]; [congruence|].
    destruct Hl as [<-|Hl]; [intros Heq; apply (Hfresh l0 Hin); congruence|].
    apply (IH Hls Hin l Hl).
Qed.

(** One listener per target: at most one fires at a target. *)
Lemma filter_target_single (t : target) (ls : list listener) :
  NoDup (map l_target ls) ->
  List.filter (fun l => bool_decide (l_target l = t)) ls = []
  \/ exists l, List.filter (fun l => bool_decide (l_target l = t)) ls = [l].
Proof.
  induction ls as [|x ls IH]; simpl; [auto|].
  intros Hnd. apply NoDup_cons in Hnd as [Hx Hls].
  destruct (decide (l_target x = t)) as [Ht|Ht].
  - rewrite (bool_decide_eq_true_2 _ Ht). right. exists x. f_equal.
    apply filter_none. apply not_true_is_false. intros Hex.
    apply existsb_exists in Hex as (y & Hy & Hty). apply bool_decide_eq_true in Hty.
    apply Hx. apply list_elem_of_In. rewrite Ht, <- Hty. apply in_map, Hy.
  - rewrite (bool_decide_eq_false_2 _ Ht). apply IH, Hls.
Qed.

(** *** What [cleanup] does *)

Lemma cleanup_listeners (fn el : nat) (w : world) :
  listeners (Part001.cleanup fn el w)
  = Dom.remove_first (Dom.same_listener (Element el) "transitionend" fn false) (listeners w).
Proof. reflexivity. Qed.

Lemma style_get_with_listeners (e : nat) (p : string) (ls : list listener) (w : world) :
  Dom.style_get e p (with_listeners ls w) = Dom.style_get e p w.
Proof. reflexivity. Qed.

Lemma has_class_with_listeners (e : nat) (c : string) (ls : list listener) (w : world) :
  Dom.has_class e c (with_listeners ls w) = Dom.has_class e c w.
Proof. reflexivity. Qed.

Lemma cleanup_will_change (fn el x : nat) (w : world) :
  Dom.style_get x "will-change" (Part001.cleanup fn el w)
  = if decide (x = el) then None else Dom.style_get x "will-change" w.
Proof.
  unfold Part001.cleanup, Dom.removeEventListener.
  rewrite style_get_with_listeners.
  destruct (decide (x = el)) as [->|Hne].
  - unfold Dom.style_get, Dom.style_set.
    rewrite data_update by reflexivity.
    destruct (Dom.data el w) as [d|] eqn:E; [|reflexivity]. simpl.
    unfold at_elem. rewrite (data_id _ _ _ E).
    destruct (decide (el = el)); [|congruence]. simpl. apply lookup_delete_eq.
  - apply style_get_style_set_other. left. exact Hne.
Qed.

Lemma cleanup_has_class (fn el x : nat) (c : string) (w : world) :
  Dom.has_class x c (Part001.cleanup fn el w) = Dom.has_class x c w.
Proof.
  unfold Part001.cleanup, Dom.removeEventListener.
  rewrite has_class_with_listeners.
  apply has_class_style_set.
Qed.

(** *** A [transitionend] event *)

Lemma typed_type (ty : string) (w : world) (l : listener) :
  In l (typed ty w) -> In l (listeners w) /\ l_type l = ty.
Proof.
  intros H. apply List.filter_In in H as [H Ht]. apply String.eqb_eq in Ht. auto.
Qed.

Lemma invoke_cleanup (ev : env) (l : listener) (w : world) :
  cleanups_ok w -> In l (typed "transitionend" w) ->
  let w' := invoke Part001.run ev l w in
  cleanups_ok w'
  /\ (forall x, In x (typed "transitionend" w') -> In x (typed "transitionend" w))
  /\ (forall x, In x (typed "transitionend" w') -> l_target x <> l_target l)
  /\ (forall x c, Dom.has_class x c w' = Dom.has_class x c w)
  /\ (forall x, Dom.style_get x "will-change" w = None \/ l_target l = Element x ->
                Dom.style_get x "will-change" w' = None).
Proof.
  intros [Hall Hnd] Hl w'.
  pose proof (proj1 (Forall_forall _ _) Hall l (proj2 (list_elem_of_In _ _) Hl))
    as (Honce & Hcap & a & Htgt & Hcode).
  destruct (typed_type _ _ _ Hl) as [Hin Hty].
  set (same := Dom.same_listener (Element a) "transitionend" (l_fn l) false).
  assert (Hsame : same l = true).
  { apply same_listener_key. unfold listener_key. rewrite Htgt, Hty, Hcap. reflexivity. }
  assert (Hw' : w' = Part001.cleanup (l_fn l) a
                       (with_listeners (Dom.remove_first same (listeners w)) w)).
  { unfold w', invoke. rewrite Htgt, Hty, Hcap. fold same.
    replace (existsb same (listeners w)) with true
      by (symmetry; apply existsb_exists; exists l; auto).
    rewrite Honce, Hcode. reflexivity. }
  assert (Hkey : forall y, same y = true -> l_type y = "transitionend").
  { intros y Hy. apply same_listener_key in Hy. injection Hy as _ Hy _ _. exact Hy. }
  assert (Hty' : typed "transitionend" w'
                 = Dom.remove_first same
                     (Dom.remove_first same (typed "transitionend" w))).
  { rewrite Hw'. unfold typed. rewrite cleanup_listeners. fold same. simpl listeners.
    rewrite !typed_remove_first by exact Hkey. reflexivity. }
  assert (Hsub : forall x, In x (typed "transitionend" w') ->
                           In x (typed "transitionend" w)).
  { intros x Hx. rewrite Hty' in Hx. do 2 apply remove_first_In in Hx. exact Hx. }
  split; [split|split; [exact Hsub|split; [|split]]].
  - apply Forall_forall. intros x Hx. apply list_elem_of_In in Hx.
    apply (proj1 (Forall_forall _ _) Hall). apply list_elem_of_In, Hsub, Hx.
  - rewrite Hty'. do 2 apply remove_first_NoDup. exact Hnd.
  - intros x Hx. rewrite Hty' in Hx. apply remove_first_In in Hx.
    apply (remove_first_target same (typed "transitionend" w) l Hnd Hl Hsame); [|exact Hx].
    intros y Hy. apply same_listener_key in Hy. injection Hy as Hy _ _ _. congruence.
  - intros x c. rewrite Hw', cleanup_has_class. reflexivity.
  - intros x Hx. rewrite Hw', cleanup_will_change.
    destruct (decide (x = a)) as [|Hne]; [reflexivity|].
    destruct Hx as [Hx|Hx]; [exact Hx|congruence].
Qed.

Lemma no_capture_cleanup (t : target) (w : world) :
  cleanups_ok w ->
  List.filter (fun l => bool_decide (l_target l = t) && String.eqb (l_type l) "transitionend"
                        && Bool.eqb (l_capture l) true) (listeners w) = [].
Proof.
  intros [Hall _]. rewrite filter_typed. fold (typed "transitionend" w).
  apply filter_none. apply not_true_is_false. intros Hex.
  apply existsb_exists in Hex as (l & Hl & Hc).
  pose proof (proj1 (Forall_forall _ _) Hall l (proj2 (list_elem_of_In _ _) Hl))
    as (_ & Hcap & _).
  rewrite Hcap, andb_false_r in Hc. discriminate.
Qed.

Lemma fire_cleanup (ev : env) (t : target) (w : world) :
  cleanups_ok w ->
  let w' := fire Part001.run ev "transitionend" false t w in
  cleanups_ok w'
  /\ (forall x, In x (typed "transitionend" w') -> In x (typed "transitionend" w))
  /\ (forall x c, Dom.has_class x c w' = Dom.has_class x c w)
  /\ (forall x, Dom.style_get x "will-change" w = None ->
                Dom.style_get x "will-change" w' = None)
  /\ (forall x, t = Element x -> awaits_transition x w ->
                Dom.style_get x "will-change" w' = None /\ ~ awaits_transition x w').
Proof.
  intros Hok w'. pose proof Hok as [Hall Hnd].
  assert (Hlist : List.filter (fun l => bool_decide (l_target l = t)
                                        && String.eqb (l_type l) "transitionend"
                                        && Bool.eqb (l_capture l) false) (listeners w)
                  = List.filter (fun l => bool_decide (l_target l = t))
                      (typed "transitionend" w)).
  { rewrite filter_typed. fold (typed "transitionend" w). apply List.filter_ext_in.
    intros l Hl.
    pose proof (proj1 (Forall_forall _ _) Hall l (proj2 (list_elem_of_In _ _) Hl))
      as (_ & Hcap & _).
    rewrite Hcap. apply andb_true_r. }
  unfold w', fire. rewrite Hlist.
  destruct (filter_target_single t (typed "transitionend" w) Hnd) as [E|[l E]];
    rewrite E; simpl.
  - split; [exact Hok|split; [auto|split; [auto|split; [auto|]]]].
    intros x -> (l & Hl & Ht). exfalso.
    assert (Hf : In l (List.filter (fun l => bool_decide (l_target l = Element x))
                         (typed "transitionend" w))).
    { apply List.filter_In. split; [exact Hl|]. apply bool_decide_eq_true_2, Ht. }
    rewrite E in Hf. destruct Hf.
  - assert (Hl : In l (typed "transitionend" w) /\ l_target l = t).
    { assert (Hf : In l [l]) by (left; reflexivity). rewrite <- E in Hf.
      apply List.filter_In in Hf as [Hf Ht]. apply bool_decide_eq_true in Ht. auto. }
    destruct Hl as [Hl Ht].
    destruct (invoke_cleanup ev l w Hok Hl) as (Hok' & Hsub & Hgone & Hcls & Hsty).
    split; [exact Hok'|split; [exact Hsub|split; [exact Hcls|split]]].
    + intros x Hx. apply Hsty. left. exact Hx.
    + intros x -> _. split; [apply Hsty; right; exact Ht|].
      intros (y & Hy & Hty). apply (Hgone y Hy). congruence.
Qed.

Lemma fires_cleanup (ev : env) (path : list target) (w : world) :
  cleanups_ok w ->
  let w' := fold_left (fun w a => fire Part001.run ev "transitionend" false a w) path w in
  cleanups_ok w'
  /\ (forall x, In x (typed "transitionend" w') -> In x (typed "transitionend" w))
  /\ (forall x c, Dom.has_class x c w' = Dom.has_class x c w)
  /\ (forall x, Dom.style_get x "will-change" w = None ->
                Dom.style_get x "will-change" w' = None).
Proof.
  revert w. induction path as [|a path IH]; intros w Hok; simpl; [auto|].
  destruct (fire_cleanup ev a w Hok) as (Hok1 & Hsub1 & Hcls1 & Hsty1 & _).
  destruct (IH _ Hok1) as (Hok2 & Hsub2 & Hcls2 & Hsty2).
  split; [exact Hok2|split; [auto|split; [|auto]]].
  intros x c. rewrite Hcls2. apply Hcls1.
Qed.

Lemma dispatch_cleanup (ev : env) (bubbles : bool) (el : nat) (w : world) :
  cleanups_ok w -> awaits_transition el w ->
  let w' := dispatch Part001.run ev "transitionend" bubbles (Element el) w in
  Dom.style_get el "will-change" w' = None
  /\ ~ awaits_transition el w'
  /\ (forall x c, Dom.has_class x c w' = Dom.has_class x c w)
  /\ (forall x, Dom.style_get x "will-change" w = None ->
                Dom.style_get x "will-change" w' = None)
  /\ cleanups_ok w'.
Proof.
  intros Hok Haw w'. unfold w', dispatch.
  rewrite (fire_nothing_along Part001.run ev "transitionend" true)
    by (intros t _; apply no_capture_cleanup, Hok).
  rewrite (fire_nothing Part001.run ev "transitionend" true (Element el))
    by (apply no_capture_cleanup, Hok).
  destruct (fire_cleanup ev (Element el) w Hok) as (Hok1 & Hsub1 & Hcls1 & Hsty1 & Hat).
  destruct (Hat el eq_refl Haw) as [Hnone Hgone].
  destruct bubbles; [|repeat split; auto; apply Hok1].
  destruct (fires_cleanup ev (event_path (Element el) w) _ Hok1)
    as (Hok2 & Hsub2 & Hcls2 & Hsty2).
  split; [apply Hsty2, Hnone|split; [|split; [|split; [auto|exact Hok2]]]].
  - intros (l & Hl & Ht). apply Hgone. exists l. split; [apply Hsub2, Hl|exact Ht].
  - intros x c. rewrite Hcls2. apply Hcls1.
Qed.

(** *** The listeners the first frame registers *)

Lemma listeners_observe (o e : nat) (w : world) :
  listeners (Dom.observe o e w) = listeners w.
Proof. unfold Dom.observe. destruct (existsb _ _); reflexivity. Qed.

Lemma listeners_unobserve (o e : nat) (w : world) :
  listeners (Dom.unobserve o e w) = listeners w.
Proof. unfold Dom.unobserve. destruct (observers w !! o); reflexivity. Qed.

Lemma part001_init_listeners (ev : env) (w : world) :
  reveal_initialised w = false -> reduced_motion ev = false ->
  listeners (Part001.initRevealOnScroll ev w) = listeners w.
Proof.
  intros Hi Hrm. rewrite (part001_init_eq ev w Hi), Hrm.
  destruct (Dom.querySelectorAll (Simple (Attr "data-reveal")) w) as [|e0 els];
    [reflexivity|].
  cbv zeta. cbn [listeners with_win Dom.requestAnimationFrame with_frames].
  rewrite (fold_left_preserves listeners) by (intros w' a; apply listeners_observe).
  cbn [listeners with_observers with_next_ref].
  unfold part001_delays. apply (fold_left_preserves listeners). intros w' g.
  apply (foldi_preserves listeners). reflexivity.
Qed.

Lemma typed_inViewOne (o : nat) (ev : env) (w : world) (a : nat) :
  (forall l, In l (typed "transitionend" w) -> l_target l <> Element a) ->
  typed "transitionend" (inViewOne o ev w a)
  = typed "transitionend" w
    ++ (if near_viewport ev a
        then [mk_listener (Element a) "transitionend" (next_ref w) (Cleanup a)
                false true false]
        else []).
Proof.
  intros Hnew. destruct (near_viewport ev a) eqn:Hnear.
  2:{ unfold inViewOne. rewrite Hnear. symmetry. apply app_nil_r. }
  rewrite (inViewOne_near o ev w a Hnear). unfold typed at 1.
  rewrite listeners_unobserve. unfold Dom.addEventListener.
  cbn [flatten default capture once passive fst snd].
  set (w1 := with_next_ref _ _).
  assert (Hls : listeners w1 = listeners w) by reflexivity.
  replace (existsb _ (listeners w1)) with false.
  - cbn [listeners with_listeners]. rewrite Hls, List.filter_app. reflexivity.
  - symmetry. apply not_true_is_false. intros Hex. rewrite Hls in Hex.
    apply existsb_exists in Hex as (l & Hl & Hk). apply same_listener_key in Hk.
    injection Hk as Ht Hty _ _. apply (Hnew l); [|exact Ht].
    apply List.filter_In. split; [exact Hl|]. rewrite Hty. reflexivity.
Qed.

Lemma in_view_cleanups (o : nat) (ev : env) (els : list nat) (w : world) :
  NoDup els -> cleanups_ok w ->
  (forall l a, In l (typed "transitionend" w) -> l_target l = Element a -> ~ In a els) ->
  let w' := fold_left (inViewOne o ev) els w in
  cleanups_ok w'
  /\ (forall el, awaits_transition el w \/ (In el els /\ near_viewport ev el = true) ->
                 awaits_transition el w').
Proof.
  revert w. induction els as [|a els IH]; intros w Hnd Hok Hnew; simpl.
  - split; [exact Hok|]. intros el [H|[[] _]]. exact H.
  - apply NoDup_cons in Hnd as [Ha Hnd].
    assert (Hstep := typed_inViewOne o ev w a
                       (fun l Hl Ht => Hnew l a Hl Ht (or_introl eq_refl))).
    assert (Hok1 : cleanups_ok (inViewOne o ev w a)).
    { destruct Hok as [Hall Hnodup]. unfold cleanups_ok. rewrite Hstep.
      destruct (near_viewport ev a); [|rewrite app_nil_r; split; assumption].
      split.
      - apply Forall_app. split; [exact Hall|]. apply Forall_singleton.
        split; [reflexivity|split; [reflexivity|]]. exists a. split; reflexivity.
      - rewrite map_app. apply NoDup_app. split; [exact Hnodup|split].
        + intros t Ht Ht'. apply list_elem_of_In in Ht, Ht'. destruct Ht' as [<-|[]].
          apply in_map_iff in Ht as (l & Ht & Hl).
          apply (Hnew l a Hl Ht). left. reflexivity.
        + simpl. apply NoDup_singleton. }
    assert (Hnew1 : forall l x, In l (typed "transitionend" (inViewOne o ev w a)) ->
                                l_target l = Element x -> ~ In x els).
    { intros l x Hl Ht. rewrite Hstep in Hl. apply in_app_or in Hl as [Hl|Hl].
      - intros Hx. apply (Hnew l x Hl Ht). right. exact Hx.
      - destruct (near_viewport ev a); [|destruct Hl]. destruct Hl as [<-|[]].
        simpl in Ht. injection Ht as <-. intros Hx. apply Ha, list_elem_of_In, Hx. }
    destruct (IH _ Hnd Hok1 Hnew1) as [Hok2 Haw2]. split; [exact Hok2|].
    intros el H. apply Haw2.
    destruct H as [(l & Hl & Ht)|[[->|Hin] Hnear]].
    + left. exists l. split; [|exact Ht]. rewrite Hstep. apply in_or_app. left. exact Hl.
    + left. eexists. split; [rewrite Hstep, Hnear; apply in_or_app; right; left; reflexivity|].
      reflexivity.
    + right. auto.
Qed.

(** part_001, lines 170-183 with [cleanup] of line 178: an element the
    first animation frame reveals gets [will-change] for its transition;
    when the transition ends, [will-change] is cleared, the listener is
    gone, and the element stays visible. *)
Theorem transition_end_clears_will_change (ev ev' ev'' : env) (w : world) (el : nat)
    (bubbles : bool) :
  reveal_initialised w = false ->
  reduced_motion ev = false ->
  frames w = [] ->
  unique_ids w ->
  (forall l, In l (listeners w) -> l_type l <> "transitionend") ->
  In el (Dom.querySelectorAll (Simple (Attr "data-reveal")) w) ->
  near_viewport ev' el = true ->
  let w2 := Part001.run_frame ev' (Part001.initRevealOnScroll ev w) in
  let w3 := dispatch Part001.run ev'' "transitionend" bubbles (Element el) w2 in
  Dom.style_get el "will-change" w2 = Some "opacity, transform"
  /\ awaits_transition el w2
  /\ Dom.style_get el "will-change" w3 = None
  /\ ~ awaits_transition el w3
  /\ is_visible el w3 = true.
Proof.
  intros Hi Hrm Hfr Hu Hnone Hel Hnear w2 w3.
  destruct (first_frame_in_view ev ev' w el Hi Hrm Hfr Hel) as (o & Hw2 & Hd1).
  fold w2 in Hw2.
  set (els := Dom.querySelectorAll (Simple (Attr "data-reveal")) w) in *.
  set (w1 := with_frames [] (Part001.initRevealOnScroll ev w)) in *.
  assert (Hty : typed "transitionend" w1 = []).
  { unfold typed, w1. cbn [listeners with_frames].
    rewrite (part001_init_listeners ev w Hi Hrm). apply (no_typed "transitionend" w Hnone). }
  destruct (in_view_cleanups o ev' els w1) as [Hok Haw].
  { apply querySelectorAll_NoDup, Hu. }
  { unfold cleanups_ok. rewrite Hty. split; [constructor|simpl; constructor]. }
  { intros l a Hl. rewrite Hty in Hl. destruct Hl. }
  rewrite <- Hw2 in Hok, Haw.
  destruct (in_view_shown o ev' els w1 el Hel Hnear Hd1) as (Hv & Hs & _).
  rewrite <- Hw2 in Hv, Hs.
  assert (Hawaits : awaits_transition el w2) by (apply Haw; right; auto).
  destruct (dispatch_cleanup ev'' bubbles el w2 Hok Hawaits) as (Hnone3 & Hgone & Hcls & _).
  fold w3 in Hnone3, Hgone, Hcls.
  split; [exact Hs|split; [exact Hawaits|split; [exact Hnone3|split; [exact Hgone|]]]].
  unfold is_visible. rewrite Hcls. exact Hv.
Qed.

(** part_000 and part_001, lines 80-97: marking the navigation a second
    time, for the same page, changes no class of any element:
    [markActiveNav] can run after the injected header and again for an
    inline one. *)
Theorem markActiveNav_twice (ev : env) (w : world) (e : nat) (c : string) :
  Dom.has_class e c (Part000.markActiveNav ev (Part000.markActiveNav ev w))
  = Dom.has_class e c (Part000.markActiveNav ev w).
Proof.
  rewrite (markActiveNav_unfold ev w).
  destruct (Dom.querySelector (Simple (Attr "data-header")) w) as [header|] eqn:Eh.
  2:{ rewrite markActiveNav_unfold, Eh. reflexivity. }
  set (cur := Part000.current_page ev).
  set (links := Dom.elem_querySelectorAll header (Simple (Class "nav-link")) w).
  pose proof (mark_links_frame cur links w) as Hf.
  rewrite markActiveNav_unfold. fold cur.
  destruct Hf as (Hq & Hl & Ha & Hd). rewrite Hq, Eh, Hl. fold links.
  destruct (String.eqb_spec c "is-active") as [->|Hc].
  - destruct (in_dec Nat.eq_dec e links) as [Hin|Hin].
    + assert (He : is_Some (Dom.data e w)).
      { apply (elem_querySelectorAll_data header (Simple (Class "nav-link"))), Hin. }
      rewrite (mark_links_marks cur links _ e Hin (Hd e He)).
      rewrite (mark_links_marks cur links w e Hin He).
      apply is_current_frame. repeat split; assumption.
    + apply mark_links_other, Hin.
  - apply mark_links_other_class, Hc.
Qed.

(** ** Instances of the further properties on the sample pages *)

Lemma header_shadow_tracks_scroll_witness :
  let w0 := MainJs.initHeaderBehaviors Sample.home Sample.start in
  (Dom.has_class 2 "backdrop-blur" w0 = true <-> (6 # 1 < scrollY Sample.home)%Q)
  /\ (Dom.has_class 2 "backdrop-blur"
        (scroll_of MainCopy (scrolled (10 # 1)%Q 1280)
           (scrolls MainCopy [scrolled (40 # 1)%Q 1280; Sample.home] w0)) = true
      <-> (6 # 1 < scrollY (scrolled (10 # 1)%Q 1280))%Q).
Proof.
  apply (header_shadow_tracks_scroll Sample.home Sample.start 2
           [scrolled (40 # 1)%Q 1280; Sample.home] (scrolled (10 # 1)%Q 1280)
           "backdrop-blur").
  - vm_compute. reflexivity.
  - intros l [].
  - simpl. auto.
Defined.

Lemma header_condensed_tracks_scroll_witness :
  let w0 := initHeaderBehaviors_of Part001Copy (scrolled (20 # 1)%Q 1280) Sample.start in
  (Dom.has_class 2 "is-condensed" w0 = true
   <-> (8 # 1 < scrollY (scrolled (20 # 1)%Q 1280))%Q)
  /\ (Dom.has_class 2 "is-condensed"
        (scroll_of Part001Copy Sample.home
           (scrolls Part001Copy [scrolled (40 # 1)%Q 1280] w0)) = true
      <-> (8 # 1 < scrollY Sample.home)%Q).
Proof.
  apply (header_condensed_tracks_scroll Part001Copy (scrolled (20 # 1)%Q 1280) Sample.start 2
           [scrolled (40 # 1)%Q 1280] Sample.home).
  - discriminate.
  - vm_compute. reflexivity.
  - intros l [].
Defined.

Lemma main_menu_hidden_when_closed_witness :
  let w' := clicks MainCopy [(Sample.home, 5)]
              (click_of MainCopy Sample.home 5
                 (clicks MainCopy [(Sample.home, 5); (Sample.home, 7)]
                    (MainJs.initHeaderBehaviors Sample.home Sample.start))) in
  Dom.has_class 6 "opacity-0" w' = negb (menu_open 6 w').
Proof.
  apply (main_menu_hidden_when_closed Sample.home Sample.start 5 6
           [(Sample.home, 5); (Sample.home, 7)] Sample.home [(Sample.home, 5)] "opacity-0").
  - vm_compute. reflexivity.
  - vm_compute. reflexivity.
  - intros l [].
  - simpl. auto.
Defined.

Lemma body_nav_open_tracks_menu_witness :
  let w' := clicks Part000Copy [(Sample.home, 7)]
              (click_of Part000Copy Sample.home 5
                 (clicks Part000Copy []
                    (initHeaderBehaviors_of Part000Copy Sample.home Sample.start))) in
  Dom.has_class 1 "nav-open" w' = menu_open 6 w'.
Proof.
  apply (body_nav_open_tracks_menu Part000Copy Sample.home Sample.start 5 6 1 [2; 1; 0]
           [] Sample.home [(Sample.home, 7)]).
  - discriminate.
  - vm_compute. reflexivity.
  - vm_compute. reflexivity.
  - intros l [].
  - vm_compute. reflexivity.
  - intros link Hl. vm_compute in Hl. destruct Hl as [<-|[]].
    split; [discriminate|]. intros H. repeat (destruct H as [H|H]; [discriminate|]). exact H.
  - vm_compute. reflexivity.
Defined.

Lemma link_click_closes_menu_witness :
  menu_closed 5 6
    (click_of Part001Copy Sample.home 7
       (clicks Part001Copy [(Sample.home, 5)]
          (initHeaderBehaviors_of Part001Copy Sample.home Sample.start))).
Proof.
  apply (link_click_closes_menu Part001Copy Sample.home Sample.start 5 6 7 [6; 2; 1; 0]
           [(Sample.home, 5)] Sample.home).
  - discriminate.
  - vm_compute. reflexivity.
  - vm_compute. reflexivity.
  - intros l [].
  - vm_compute. auto.
  - vm_compute. reflexivity.
  - discriminate.
  - intros H. repeat (destruct H as [H|H]; [discriminate|]). exact H.
Defined.

Lemma resize_closes_menu_witness :
  let wk := clicks Part000Copy [(Sample.home, 5)]
              (initHeaderBehaviors_of Part000Copy Sample.home Sample.start) in
  ((768 <= innerWidth (scrolled (0 # 1)%Q 1024))%Z ->
   menu_closed 5 6 (resize_of Part000Copy (scrolled (0 # 1)%Q 1024) wk))
  /\ ((innerWidth (scrolled (0 # 1)%Q 1024) < 768)%Z ->
      resize_of Part000Copy (scrolled (0 # 1)%Q 1024) wk = wk).
Proof.
  apply (resize_closes_menu Part000Copy Sample.home Sample.start 5 6 [(Sample.home, 5)]
           (scrolled (0 # 1)%Q 1024)).
  - discriminate.
  - vm_compute. reflexivity.
  - vm_compute. reflexivity.
  - intros l [].
  - intros l [].
Defined.

Lemma on_replaces_registration_witness :
  let w := Part000.initHeaderBehaviors Sample.home Sample.start in
  let o := flatten None in
  let w' := Shared.on (Element 5) "click" (101, MenuClick 5 6) None w in
  listeners w'
  = List.filter (fun l => negb (Dom.same_listener (Element 5) "click" 101 (capture o) l))
      (listeners w)
    ++ [mk_listener (Element 5) "click" 101 (MenuClick 5 6) (capture o) (once o) (passive o)]
  /\ listeners_ok w'.
Proof.
  apply (on_replaces_registration (Element 5) "click" (101, MenuClick 5 6) None
           (Part000.initHeaderBehaviors Sample.home Sample.start)).
  unfold listeners_ok. apply (bool_decide_unpack _). vm_compute. reflexivity.
Defined.

Lemma current_page_of_path_witness :
  Part000.current_page (Sample.browser "/site/about.html" false)
  = if String.eqb "about.html" "" then "index.html" else "about.html".
Proof.
  apply (current_page_of_path (Sample.browser "/site/about.html" false) "/site" "about.html").
  - reflexivity.
  - intros H. vm_compute in H. repeat (destruct H as [H|H]; [discriminate|]). exact H.
Defined.

Lemma normalized_href_strips_query_witness :
  Part000.normalized_href 4 Sample.start = "about.html".
Proof.
  apply (proj1 (normalized_href_strips_query 4 Sample.start) "about.html" "from=nav").
  - vm_compute. reflexivity.
  - intros H. vm_compute in H. repeat (destruct H as [H|H]; [discriminate|]). exact H.
Defined.

Lemma part000_reveal_delays_witness :
  let w' := Part000.initRevealOnScroll Sample.home start_delays in
  (Dom.getAttribute 2 "data-reveal-delay" start_delays = None
   \/ Dom.getAttribute 2 "data-reveal-delay" start_delays = Some "" ->
   Dom.style_get 2 "transition-delay" w'
   = Some (pretty (Z.min (Z.of_nat 0 * 70) 280) ++ "ms")%string)
  /\ (forall n : Z, (- 2 ^ 53 < n < 2 ^ 53)%Z ->
        Dom.getAttribute 2 "data-reveal-delay" start_delays = Some (pretty n) ->
        Dom.style_get 2 "transition-delay" w' = Some (pretty n ++ "ms")%string)
  /\ (forall a, Dom.getAttribute 2 "data-reveal-delay" start_delays = Some a -> a <> "" ->
        Dom.style_get 2 "transition-delay" w'
        = match Js.parseInt10 a with
          | Js.Int z => Some (Js.number_to_string (Js.Int z) ++ "ms")%string
          | Js.NaN | Js.Infinity _ => Dom.style_get 2 "transition-delay" start_delays
          end).
Proof.
  apply (part000_reveal_delays Sample.home start_delays 0 2).
  - vm_compute. reflexivity.
  - reflexivity.
  - unfold unique_ids. apply (bool_decide_unpack _). vm_compute. reflexivity.
  - vm_compute. reflexivity.
Defined.

(** The delays of part_000 on the page of [start_delays]: 150, a number
    beyond 2^53 rounded to a double, 25 after a no-break space, none for
    an attribute without digits, the exponent notation from 10^21 on, and
    the capped stagger for an empty or absent attribute. *)
Lemma part000_delays_on_sample :
  map (fun el => Dom.style_get el "transition-delay"
                   (Part000.initRevealOnScroll Sample.home start_delays))
      [2; 3; 4; 5; 6; 7; 8]
  = [Some "150ms"; Some "9007199254740992ms"; Some "25ms"; None; Some "1e+21ms";
     Some "280ms"; Some "280ms"].
Proof. vm_compute. reflexivity. Qed.

Lemma part001_reveal_delays_witness :
  let w' := Part001.initRevealOnScroll Sample.home start_delays in
  Dom.style_get 4 "--reveal-delay" w'
  = Some (Js.ms (Part000.reveal_delay 4 1 start_delays))
  /\ (Dom.getAttribute 4 "data-reveal-delay" start_delays = None
      \/ Dom.getAttribute 4 "data-reveal-delay" start_delays = Some "" ->
      Dom.style_get 4 "--reveal-delay" w'
      = Some (pretty (Z.min (Z.of_nat 1 * 70) 280) ++ "ms")%string)
  /\ (forall n : Z, (- 2 ^ 53 < n < 2 ^ 53)%Z ->
        Dom.getAttribute 4 "data-reveal-delay" start_delays = Some (pretty n) ->
        Dom.style_get 4 "--reveal-delay" w' = Some (pretty n ++ "ms")%string)
  /\ (forall a, Dom.getAttribute 4 "data-reveal-delay" start_delays = Some a -> a <> "" ->
        Dom.style_get 4 "--reveal-delay" w'
        = Some (Js.number_to_string (Js.parseInt10 a) ++ "ms")%string)
  /\ (forall a, Dom.getAttribute 4 "data-reveal-delay" start_delays = Some a -> a <> "" ->
        Js.parseInt10 a = Js.NaN ->
        Dom.style_get 4 "--reveal-delay" w' = Some "NaNms").
Proof.
  apply (part001_reveal_delays Sample.home start_delays "cards" [3; 4; 5] 1 4).
  - vm_compute. reflexivity.
  - reflexivity.
  - unfold unique_ids. apply (bool_decide_unpack _). vm_compute. reflexivity.
  - vm_compute. auto.
  - reflexivity.
Defined.

(** The delays of part_001 on the same page, where the elements 3, 4 and
    5 form the group [cards]: the stagger counts inside each group, and
    [NaNms] is written as it is. *)
Lemma part001_delays_on_sample :
  map (fun el => Dom.style_get el "--reveal-delay"
                   (Part001.initRevealOnScroll Sample.home start_delays))
      [2; 3; 4; 5; 6; 7; 8]
  = [Some "150ms"; Some "9007199254740992ms"; Some "25ms"; Some "NaNms"; Some "1e+21ms";
     Some "140ms"; Some "210ms"].
Proof. vm_compute. reflexivity. Qed.

(** What [parseInt] makes of some attribute values. *)
Lemma parseInt10_samples :
  map Js.parseInt10
      ["150"; "  -40"; "+7px"; "12.5"; "soon"; ""; "-"; (nbsp ++ "25")%string;
       "9007199254740993"; "1000000000000000000000"]
  = [Js.Int 150; Js.Int (-40); Js.Int 7; Js.Int 12; Js.NaN; Js.NaN; Js.NaN; Js.Int 25;
     Js.Int 9007199254740992; Js.Int 1000000000000000000000].
Proof. vm_compute. reflexivity. Qed.

Lemma main_reveal_keeps_hidden_classes_witness :
  Dom.has_class 8 "opacity-0"
    (fold_left main_reveal_step [Deliver 100 [mk_entry 8 true]; Frame Sample.home]
       (MainJs.initRevealOnScroll Sample.start))
  = true.
Proof.
  apply (main_reveal_keeps_hidden_classes Sample.start 8 "opacity-0"
           [Deliver 100 [mk_entry 8 true]; Frame Sample.home]).
  - vm_compute. reflexivity.
  - vm_compute. auto.
  - simpl. auto.
Defined.

Lemma initFooterYear_only_text_witness :
  let w' := Shared.initFooterYear Sample.home Sample.start in
  (forall e, Dom.data e w' = Dom.data e Sample.start)
  /\ unique_ids w'
  /\ listeners w' = listeners Sample.start /\ win w' = win Sample.start
  /\ observers w' = observers Sample.start
  /\ frames w' = frames Sample.start /\ console w' = console Sample.start.
Proof.
  apply (initFooterYear_only_text Sample.home Sample.start).
  unfold unique_ids. apply (bool_decide_unpack _). vm_compute. reflexivity.
Defined.

Lemma first_frame_shows_elements_in_view_witness :
  let w1 := Part001.initRevealOnScroll Sample.home Sample.start in
  let w2 := Part001.run_frame Sample.home w1 in
  exists o,
    win w1 !! "__revealObserver" = Some (Js.Obj o)
    /\ In 8 (Dom.observed o w1)
    /\ (near_viewport Sample.home 8 = true ->
        is_visible 8 w2 = true
        /\ Dom.style_get 8 "will-change" w2 = Some "opacity, transform"
        /\ ~ In 8 (Dom.observed o w2))
    /\ (near_viewport Sample.home 8 = false ->
        (forall c, Dom.has_class 8 c w2 = Dom.has_class 8 c w1)
        /\ In 8 (Dom.observed o w2)).
Proof.
  apply (first_frame_shows_elements_in_view Sample.home Sample.home Sample.start 8).
  - vm_compute. reflexivity.
  - reflexivity.
  - reflexivity.
  - vm_compute. auto.
Defined.

Lemma float_label_tracks_value_witness :
  let w0 := MainJs.initFloatingLabels form_start in
  Dom.has_class 4 "text-xs" w0 = negb (String.eqb (Dom.value 3 form_start) "")
  /\ forall w1 ev ty bubbles,
       ty = "input" \/ ty = "blur" ->
       listeners w1 = listeners w0 ->
       is_Some (Dom.data 4 w1) ->
       Dom.has_class 4 "text-xs" (dispatch MainJs.run ev ty bubbles (Element 3) w1)
       = negb (String.eqb (Dom.value 3 w1) "").
Proof.
  apply (float_label_tracks_value form_start 2 3 4 "text-xs").
  - intros l [].
  - vm_compute. auto.
  - vm_compute. reflexivity.
  - vm_compute. reflexivity.
  - intros wrap' input' Hin Hi Hl. vm_compute in Hin.
    destruct Hin as [<-|[<-|[]]].
    + vm_compute in Hi. congruence.
    + vm_compute in Hl. discriminate.
  - simpl. auto.
Defined.

Lemma transition_end_clears_will_change_witness :
  let w2 := Part001.run_frame Sample.home
              (Part001.initRevealOnScroll Sample.home Sample.start) in
  let w3 := dispatch Part001.run Sample.home "transitionend" true (Element 8) w2 in
  Dom.style_get 8 "will-change" w2 = Some "opacity, transform"
  /\ awaits_transition 8 w2
  /\ Dom.style_get 8 "will-change" w3 = None
  /\ ~ awaits_transition 8 w3
  /\ is_visible 8 w3 = true.
Proof.
  apply (transition_end_clears_will_change Sample.home Sample.home Sample.home
           Sample.start 8 true).
  - vm_compute. reflexivity.
  - reflexivity.
  - reflexivity.
  - unfold unique_ids. apply (bool_decide_unpack _). vm_compute. reflexivity.
  - intros l [].
  - vm_compute. auto.
  - reflexivity.
Defined.

Lemma listeners_keep_structure_witness :
  let w := Part000.initHeaderBehaviors Sample.home Sample.start in
  let w' := dispatch (run_of Part000Copy) Sample.home "click" true (Element 5) w in
  same_shape w w'
  /\ all_ids w' = all_ids w
  /\ (forall e, Dom.ancestors e w' = Dom.ancestors e w)
  /\ (forall e, Dom.textContent e w' = Dom.textContent e w)
  /\ Dom.body w' = Dom.body w.
Proof.
  apply (listeners_keep_structure Part000Copy Sample.home "click" true (Element 5)
           (Part000.initHeaderBehaviors Sample.home Sample.start)).
  discriminate.
Defined.

(** ** A click on the mobile button or inside it *)

Lemma ancestors_in_listed (e : nat) (n : node) (anc : list nat) (a : nat) :
  ancestors_in e n = Some anc -> In a anc -> In a (ids n).
Proof.
  revert anc. induction n as [d ks IH|s] using node_ind; intros anc; simpl; [|discriminate].
  destruct (decide (e_id d = e)); [intros [= <-] []|].
  destruct (first_some (ancestors_in e) ks) as [anc'|] eqn:E; [|discriminate].
  intros [= <-] H. apply in_app_or in H as [H|[<-|[]]]; [|left; reflexivity].
  right. apply first_some_In in E as (k & Hk & Ek). apply in_flat_map. exists k.
  split; [exact Hk|]. rewrite Forall_forall in IH.
  apply (IH k (proj2 (list_elem_of_In _ _) Hk) anc' Ek H).
Qed.

(** In a tree whose elements have their own identities, the chain from an
    element up to the root passes every element once. *)
Lemma ancestors_in_NoDup (e : nat) (n : node) (anc : list nat) :
  NoDup (ids n) -> ancestors_in e n = Some anc -> NoDup (e :: anc).
Proof.
  revert anc. induction n as [d ks IH|s] using node_ind; intros anc Hnd; simpl;
    [|discriminate].
  destruct (decide (e_id d = e)) as [|Hne].
  { intros [= <-]. apply NoDup_singleton. }
  destruct (first_some (ancestors_in e) ks) as [anc'|] eqn:E; [|discriminate].
  intros [= <-]. apply first_some_In in E as (k & Hk & Ek).
  simpl in Hnd. apply NoDup_cons in Hnd as [Hd Hks].
  assert (Hsub : forall x, In x (ids k) -> In x (flat_map ids ks)).
  { intros x Hx. apply in_flat_map. exists k. auto. }
  assert (Hk' : NoDup (ids k)).
  { apply in_split in Hk as (l1 & l2 & ->). rewrite flat_map_app in Hks. simpl in Hks.
    apply NoDup_app in Hks as (_ & _ & Hks). apply NoDup_app in Hks as (Hks & _). exact Hks. }
  rewrite Forall_forall in IH.
  pose proof (IH k (proj2 (list_elem_of_In _ _) Hk) anc' Hk' Ek) as Hchain.
  change (e :: anc' ++ [e_id d]) with ((e :: anc') ++ [e_id d]).
  apply NoDup_app. split; [exact Hchain|]. split; [|apply NoDup_singleton].
  intros x Hx Hx'. apply list_elem_of_In in Hx, Hx'. destruct Hx' as [<-|[]].
  destruct Hx as [Hx|Hx]; [congruence|].
  apply Hd, list_elem_of_In, Hsub. eapply ancestors_in_listed; eassumption.
Qed.

Section ClickInside.

Variables (c : copy) (ev : env) (btn menu : nat) (links : list nat) (g : nat)
  (rest : list listener).

Hypothesis rest_links : Forall (link_listener btn menu links) rest.

(** Firing a click at one target of a path without links of the menu:
    the toggle at the button, nothing elsewhere. *)
Lemma fire_click_at (t : target) (w : world) :
  clicks_of w
  = mk_listener (Element btn) "click" g (menuClick_code c btn menu) false false false
      :: rest ->
  (forall link, In link links -> t <> Element link) ->
  fire (run_of c) ev "click" true t w = w
  /\ fire (run_of c) ev "click" false t w
     = if bool_decide (Element btn = t) then menuClick_of c btn menu w else w.
Proof.
  intros Hclicks Ht. split.
  - apply fire_nothing.
    rewrite (click_listeners_at c btn menu links [] w t true g rest Hclicks rest_links Ht).
    rewrite andb_false_r. reflexivity.
  - unfold fire.
    rewrite (click_listeners_at c btn menu links [] w t false g rest Hclicks rest_links Ht).
    rewrite andb_true_r. destruct (bool_decide (Element btn = t)); [|reflexivity].
    simpl. unfold invoke. simpl.
    assert (Hex : existsb (Dom.same_listener (Element btn) "click" g false) (listeners w)
                  = true).
    { apply existsb_exists.
      exists (mk_listener (Element btn) "click" g (menuClick_code c btn menu)
                false false false).
      split; [|apply same_listener_key; reflexivity].
      assert (Hin : In (mk_listener (Element btn) "click" g (menuClick_code c btn menu)
                          false false false) (clicks_of w))
        by (rewrite Hclicks; left; reflexivity).
      apply List.filter_In in Hin. tauto. }
    rewrite Hex. destruct c; reflexivity.
Qed.

Lemma fires_click_quiet (cap : bool) (ts : list target) (w : world) :
  clicks_of w
  = mk_listener (Element btn) "click" g (menuClick_code c btn menu) false false false
      :: rest ->
  (forall t link, In t ts -> In link links -> t <> Element link) ->
  (cap = false -> ~ In (Element btn) ts) ->
  fold_left (fun w a => fire (run_of c) ev "click" cap a w) ts w = w.
Proof.
  intros Hclicks Hts Hbtn. induction ts as [|t ts IH]; simpl; [reflexivity|].
  destruct (fire_click_at t w Hclicks (fun link Hl => Hts t link (or_introl eq_refl) Hl))
    as [Hcap Hbub].
  assert (Hfire : fire (run_of c) ev "click" cap t w = w).
  { destruct cap; [exact Hcap|]. rewrite Hbub.
    rewrite bool_decide_eq_false_2; [reflexivity|].
    intros <-. apply (Hbtn eq_refl). left. reflexivity. }
  rewrite Hfire. apply IH.
  - intros t' link Ht'. apply Hts. right. exact Ht'.
  - intros Hc Hin. apply (Hbtn Hc). right. exact Hin.
Qed.

(** Along a path that passes the button once, the toggle runs once. *)
Lemma fires_click_once (pre post : list target) (w : world) :
  clicks_of w
  = mk_listener (Element btn) "click" g (menuClick_code c btn menu) false false false
      :: rest ->
  (forall t link, In t (pre ++ Element btn :: post) -> In link links -> t <> Element link) ->
  ~ In (Element btn) pre -> ~ In (Element btn) post ->
  fold_left (fun w a => fire (run_of c) ev "click" false a w) (pre ++ Element btn :: post) w
  = menuClick_of c btn menu w.
Proof.
  intros Hclicks Hts Hpre Hpost. rewrite fold_left_app. simpl.
  rewrite (fires_click_quiet false pre w Hclicks).
  2:{ intros t link Ht. apply Hts, in_or_app. left. exact Ht. }
  2:{ intros _. exact Hpre. }
  destruct (fire_click_at (Element btn) w Hclicks) as [_ Hbub].
  { intros link Hl. apply (Hts (Element btn) link); [|exact Hl].
    apply in_or_app. right. left. reflexivity. }
  rewrite Hbub, bool_decide_eq_true_2 by reflexivity.
  apply fires_click_quiet.
  - unfold clicks_of in *. rewrite (proj1 (same_frame_menuClick c btn menu w)). exact Hclicks.
  - intros t link Ht. apply Hts, in_or_app. right. right. exact Ht.
  - intros _. exact Hpost.
Qed.

End ClickInside.

(** In a wired world, a click at an element whose chain up to the root
    passes the button once and no link of the menu runs the toggle and
    nothing else. *)
Lemma click_inside_ready (c : copy) (ev : env) (btn menu : nat) (links anc : list nat)
    (w : world) (e : nat) (eanc : list nat) :
  menu_ready c btn menu links anc w ->
  ancestors_in e (doc w) = Some eanc ->
  NoDup (e :: eanc) ->
  In btn (e :: eanc) ->
  (forall link, In link links -> ~ In link (e :: eanc)) ->
  click_of c ev e w = menuClick_of c btn menu w.
Proof.
  intros ((g & rest & Hclicks & Hrest & _) & _) Hanc Hnd Hbtn Hlinks.
  rewrite click_of_dispatch. fold (run_of c). unfold dispatch, event_path. rewrite Hanc.
  assert (Hpath : forall t link, In t (Element e :: map Element eanc ++ [Document; Window]) ->
                                 In link links -> t <> Element link).
  { intros t link Ht Hl ->. apply (Hlinks link Hl).
    destruct Ht as [[= ->]|Ht]; [left; reflexivity|]. right.
    apply in_app_or in Ht as [Ht|[Ht|[Ht|[]]]]; try discriminate.
    apply in_map_iff in Ht as (a & [= ->] & Ha). exact Ha. }
  rewrite (fires_click_quiet c ev btn menu links g rest Hrest true _ w Hclicks).
  2:{ intros t link Ht. apply Hpath. right. apply in_rev in Ht. exact Ht. }
  2:{ discriminate. }
  destruct (fire_click_at c ev btn menu links g rest Hrest (Element e) w Hclicks) as [Hcap _].
  { intros link. apply Hpath. left. reflexivity. }
  rewrite Hcap.
  change (fold_left (fun w0 a => fire (run_of c) ev "click" false a w0)
            (map Element eanc ++ [Document; Window])
            (fire (run_of c) ev "click" false (Element e) w))
    with (fold_left (fun w0 a => fire (run_of c) ev "click" false a w0)
            (Element e :: map Element eanc ++ [Document; Window]) w).
  apply in_split in Hbtn as (pre & post & Hsplit).
  assert (Hts : Element e :: map Element eanc ++ [Document; Window]
                = map Element pre ++ Element btn :: (map Element post ++ [Document; Window])).
  { change (Element e :: map Element eanc ++ [Document; Window])
      with (map Element (e :: eanc) ++ [Document; Window]).
    rewrite Hsplit, map_app. simpl. rewrite <- app_assoc. reflexivity. }
  rewrite Hsplit in Hnd. apply NoDup_app in Hnd as (_ & Hpre & Hpost).
  apply NoDup_cons in Hpost as [Hpost _].
  rewrite Hts. apply (fires_click_once c ev btn menu links g rest Hrest); [exact Hclicks| | |].
  - rewrite <- Hts. exact Hpath.
  - intros H. apply in_map_iff in H as (a & [= ->] & Ha).
    apply (Hpre btn); [apply list_elem_of_In, Ha|left].
  - intros H. apply in_app_or in H as [H|[H|[H|[]]]]; try discriminate.
    apply in_map_iff in H as (a & [= ->] & Ha). apply Hpost, list_elem_of_In, Ha.
Qed.

(** C3 (amended).  After [initHeaderBehaviors] has run on a document with
    a mobile button and a mobile menu and no click listener registered
    before: after any clicks, a click on the button, that is at the button
    or at an element inside it, with (part_000, part_001) no link of the
    menu at the clicked element or above it, sets the menu's [data-open]
    to the negation of what it was, [aria-expanded] of the button equals
    it, and the two stay equal under any further clicks, on any
    elements. *)
Theorem menu_toggle_in_sync (c : copy) (ev : env) (w : world) (btn menu : nat)
    (before : list (env * nat)) (ev' : env) (e : nat) (eanc : list nat)
    (later : list (env * nat)) :
  Dom.querySelector (Simple (Attr "data-mobile-btn")) w = Some btn ->
  Dom.querySelector (Simple (Attr "data-mobile-menu")) w = Some menu ->
  (forall l, In l (listeners w) -> l_type l <> "click") ->
  unique_ids w ->
  ancestors_in e (doc w) = Some eanc ->
  In btn (e :: eanc) ->
  (forall link, In link (menu_links c menu w) -> ~ In link (e :: eanc)) ->
  let wk := clicks c before (initHeaderBehaviors_of c ev w) in
  let w' := click_of c ev' e wk in
  Dom.getAttribute menu "data-open" w' = Some (Js.String_of_bool (negb (menu_open menu wk)))
  /\ in_sync btn menu w'
  /\ in_sync btn menu (clicks c later w').
Proof.
  intros Hqb Hqm Hno Hu Hanc Hbtn Hlinks wk w'.
  destruct (querySelector_ancestors _ _ _ Hqb) as [anc Hbanc].
  assert (Hk : wired false c btn menu (menu_links c menu w) anc wk).
  { apply clicks_wired. split; [|discriminate]. apply init_ready; assumption. }
  destruct Hk as [Hk _]. pose proof Hk as (_ & _ & Hb & Hm).
  assert (Hshape : same_shape w wk).
  { eapply same_shape_trans; [apply (same_shape_init c ev)|apply same_shape_clicks]. }
  assert (Hnd : NoDup (e :: eanc)).
  { apply (ancestors_in_NoDup e (doc w)); [|exact Hanc].
    unfold unique_ids, all_ids, Dom.trees in Hu. simpl in Hu.
    apply NoDup_app in Hu as (Hu & _). exact Hu. }
  assert (Hw' : w' = menuClick_of c btn menu wk).
  { apply (click_inside_ready c ev' btn menu (menu_links c menu w) anc wk e eanc Hk);
      try assumption.
    rewrite (ancestors_in_shape w wk e Hshape). exact Hanc. }
  destruct (menuClick_attrs c btn menu wk Hb Hm) as [H1 H2].
  assert (Hs : in_sync btn menu w') by (rewrite Hw'; unfold in_sync; congruence).
  split; [rewrite Hw'; exact H1|]. split; [exact Hs|].
  apply (clicks_wired true c btn menu (menu_links c menu w) anc later w').
  - split; [|intros _; exact Hs]. rewrite Hw'.
    eapply menu_ready_same_frame; [apply same_frame_menuClick|exact Hk].
  - reflexivity.
Qed.

Lemma menu_toggle_in_sync_witness :
  let wk := clicks Part000Copy [(Sample.home, 7); (Sample.home, 5)]
              (Part000.initHeaderBehaviors Sample.home start_icon_in_button) in
  let w' := Part000.click Sample.home 11 wk in
  Dom.getAttribute 6 "data-open" w' = Some (Js.String_of_bool (negb (menu_open 6 wk)))
  /\ in_sync 5 6 w'
  /\ in_sync 5 6 (clicks Part000Copy [(Sample.home, 7); (Sample.home, 11)] w').
Proof.
  apply (menu_toggle_in_sync Part000Copy Sample.home start_icon_in_button 5 6
           [(Sample.home, 7); (Sample.home, 5)] Sample.home 11 [5; 2; 1; 0]
           [(Sample.home, 7); (Sample.home, 11)]).
  - vm_compute. reflexivity.
  - vm_compute. reflexivity.
  - intros l [].
  - unfold unique_ids. apply (bool_decide_unpack _). vm_compute. reflexivity.
  - vm_compute. reflexivity.
  - right. left. reflexivity.
  - intros link Hl. vm_compute in Hl. destruct Hl as [<-|[]].
    intros H. repeat (destruct H as [H|H]; [discriminate|]). exact H.
Defined.

(** The clicks on the sample page with an icon in the button: the menu
    opens with a click at the icon and closes with the next one, at the
    button. *)
Lemma icon_click_toggles :
  let w0 := Part000.initHeaderBehaviors Sample.home start_icon_in_button in
  let w1 := Part000.click Sample.home 11 w0 in
  let w2 := Part000.click Sample.home 5 w1 in
  Dom.getAttribute 6 "data-open" w1 = Some "true"
  /\ Dom.getAttribute 5 "aria-expanded" w1 = Some "true"
  /\ Dom.getAttribute 6 "data-open" w2 = Some "false"
  /\ Dom.getAttribute 5 "aria-expanded" w2 = Some "false".
Proof. vm_compute. repeat split; reflexivity. Qed.

(** Where a link of the menu lies inside the button (part_000, part_001),
    a click at that link runs the closing listener of the link and then
    the toggle of the button: the menu is open after every such click, and
    does not flip. *)
Lemma link_inside_button_always_opens :
  let w0 := Part000.initHeaderBehaviors Sample.home start_link_in_button in
  let w1 := Part000.click Sample.home 7 w0 in
  let w2 := Part000.click Sample.home 7 w1 in
  Dom.getAttribute 6 "data-open" w1 = Some "true"
  /\ Dom.getAttribute 6 "data-open" w2 = Some "true"
  /\ in_sync 5 6 w2.
Proof. vm_compute. repeat split; reflexivity. Qed.

(** ** What the boot sequence writes in the page *)

Lemma elems_map_elems (f : edata -> edata) (n : node) :
  elems (map_elems f n) = map f (elems n).
Proof.
  induction n as [d ks IH|s] using node_ind; simpl; [|reflexivity].
  f_equal. induction IH as [|k ks Hk _ IHks]; simpl; [reflexivity|].
  rewrite map_app, Hk, IHks. reflexivity.
Qed.

Lemma ids_elems (n : node) : ids n = map e_id (elems n).
Proof.
  induction n as [d ks IH|s] using node_ind; simpl; [|reflexivity].
  f_equal. induction IH as [|k ks Hk _ IHks]; simpl; [reflexivity|].
  rewrite map_app, Hk, IHks. reflexivity.
Qed.

Lemma elems_find_node (e : nat) (t n : node) (d : edata) :
  find_node e t = Some n -> In d (elems n) -> In d (elems t).
Proof.
  revert n. induction t as [dt ks IH|s] using node_ind; intros n; simpl; [|discriminate].
  destruct (decide (e_id dt = e)); [intros [= <-] H; exact H|].
  intros H Hd. right. apply first_some_In in H as (k & Hk & Ek).
  apply in_flat_map. exists k. split; [exact Hk|].
  rewrite Forall_forall in IH. apply (IH k (proj2 (list_elem_of_In _ _) Hk) n Ek Hd).
Qed.

Lemma elems_find_elem (e : nat) (w : world) (n : node) (d : edata) :
  Dom.find_elem e w = Some n -> In d (elems n) -> In d (all_elems w).
Proof.
  unfold Dom.find_elem. intros H Hd. apply first_some_In in H as (t & Ht & Et).
  apply in_flat_map. exists t. split; [exact Ht|]. eapply elems_find_node; eassumption.
Qed.

Lemma elems_set_kids (e : nat) (new : list node) (t : node) (d : edata) :
  In d (elems (set_kids e new t)) -> In d (elems t) \/ In d (flat_map elems new).
Proof.
  induction t as [dt ks IH|s] using node_ind; simpl; [|tauto].
  destruct (decide (e_id dt = e)); simpl.
  - intros [H|H]; auto.
  - intros [H|H]; [auto|]. apply in_flat_map in H as (k' & Hk' & Hd).
    apply in_map_iff in Hk' as (k & <- & Hk). rewrite Forall_forall in IH.
    destruct (IH k (proj2 (list_elem_of_In _ _) Hk) Hd) as [H|H]; [|auto].
    left. right. apply in_flat_map. exists k. auto.
Qed.

Lemma elems_replace_child (e : nat) (new : list node) (t : node) (d : edata) :
  In d (elems (replace_child e new t)) -> In d (elems t) \/ In d (flat_map elems new).
Proof.
  induction t as [dt ks IH|s] using node_ind; simpl; [|tauto].
  intros [H|H]; [auto|]. apply in_flat_map in H as (k' & Hk' & Hd).
  apply in_flat_map in Hk' as (k & Hk & Hk').
  destruct k as [dk kks|s].
  - destruct (decide (e_id dk = e)).
    + right. apply in_flat_map. exists k'. auto.
    + destruct Hk' as [<-|[]]. rewrite Forall_forall in IH.
      destruct (IH _ (proj2 (list_elem_of_In _ _) Hk) Hd) as [H|H]; [|auto].
      left. right. apply in_flat_map. exists (Elem dk kks). auto.
  - destruct Hk' as [<-|[]]. destruct Hd.
Qed.

Lemma relabel_all_elems (ns : list node) (n : nat) (d : edata) :
  In d (flat_map elems (fst (relabel_all n ns))) -> n <= e_id d.
Proof.
  intros H. apply (relabel_all_fresh ns n). apply in_flat_map in H as (t & Ht & Hd).
  apply in_flat_map. exists t. split; [exact Ht|]. rewrite ids_elems. apply in_map, Hd.
Qed.

Lemma same_element_refl (d : edata) : same_element d d.
Proof. repeat split. Qed.

Lemma same_element_trans (d1 d2 d3 : edata) :
  same_element d1 d2 -> same_element d2 d3 -> same_element d1 d3.
Proof. unfold same_element. intros (?&?&?&?) (?&?&?&?). repeat split; congruence. Qed.

Lemma presentation_only_refl (w : world) : presentation_only w w.
Proof.
  split; [lia|]. split.
  - intros d' H. right. exists d'. split; [exact H|apply same_element_refl].
  - exists []. symmetry. apply app_nil_r.
Qed.

Lemma presentation_only_trans (w1 w2 w3 : world) :
  presentation_only w1 w2 -> presentation_only w2 w3 -> presentation_only w1 w3.
Proof.
  intros (N1 & E1 & l1 & C1) (N2 & E2 & l2 & C2). split; [lia|]. split.
  - intros d3 H3. destruct (E2 d3 H3) as [Hnew|(d2 & H2 & S2)]; [left; lia|].
    destruct (E1 d2 H2) as [Hnew|(d1 & H1 & S1)].
    + left. destruct S2 as (Hid & _). lia.
    + right. exists d1. split; [exact H1|]. eapply same_element_trans; eassumption.
  - exists (l1 ++ l2). rewrite C2, C1, app_assoc. reflexivity.
Qed.

(** What does not touch the trees. *)
Lemma presentation_only_same_dom (w w' : world) :
  doc w' = doc w -> detached w' = detached w -> next_ref w <= next_ref w' ->
  (exists lines, console w' = console w ++ lines) ->
  presentation_only w w'.
Proof.
  intros Hd Hdt Hn Hc. split; [exact Hn|]. split; [|exact Hc].
  intros d' H. right. exists d'. split; [|apply same_element_refl].
  unfold all_elems, Dom.trees in *. rewrite Hd, Hdt in H. exact H.
Qed.

Lemma console_same (w w' : world) :
  console w' = console w -> exists lines, console w' = console w ++ lines.
Proof. intros ->. exists []. symmetry. apply app_nil_r. Qed.

Lemma presentation_only_update (e : nat) (f : edata -> edata) (w : world) :
  (forall d, same_element d (f d)) -> presentation_only w (Dom.update e f w).
Proof.
  intros Hf. split; [simpl; lia|]. split; [|apply console_same; reflexivity].
  intros d' H. right.
  assert (Hall : all_elems (Dom.update e f w) = map (at_elem e f) (all_elems w)).
  { unfold all_elems, Dom.update, Dom.trees. simpl.
    rewrite elems_map_elems, map_app. f_equal.
    induction (detached w) as [|t ts IH]; simpl; [reflexivity|].
    rewrite elems_map_elems, map_app, IH. reflexivity. }
  rewrite Hall in H. apply in_map_iff in H as (d & <- & Hd). exists d. split; [exact Hd|].
  unfold at_elem. destruct (decide (e_id d = e)); [apply Hf|apply same_element_refl].
Qed.

Lemma presentation_only_classList_add (e : nat) (ts : list string) (w : world) :
  presentation_only w (Dom.classList_add e ts w).
Proof. apply presentation_only_update. intros d. repeat split. Qed.

Lemma presentation_only_classList_remove (e : nat) (ts : list string) (w : world) :
  presentation_only w (Dom.classList_remove e ts w).
Proof. apply presentation_only_update. intros d. repeat split. Qed.

Lemma presentation_only_classList_toggle (e : nat) (c : string) (b : bool) (w : world) :
  presentation_only w (Dom.classList_toggle e c b w).
Proof.
  destruct b; [apply presentation_only_classList_add|apply presentation_only_classList_remove].
Qed.

Lemma presentation_only_style_set (e : nat) (p v : string) (w : world) :
  presentation_only w (Dom.style_set e p v w).
Proof. apply presentation_only_update. intros d. repeat split. Qed.

Lemma presentation_only_on (t : target) (ty : string) (h : nat * closure)
    (opts : option options) (w : world) :
  presentation_only w (Shared.on t ty h opts w).
Proof.
  apply presentation_only_same_dom; try apply doc_on.
  - rewrite next_ref_on. lia.
  - apply console_same. unfold Shared.on, Dom.addEventListener.
    destruct (existsb _ _); reflexivity.
Qed.

Lemma presentation_only_fresh (w : world) : presentation_only w (snd (fresh w)).
Proof.
  apply presentation_only_same_dom;
    [reflexivity|reflexivity|simpl; lia|apply console_same; reflexivity].
Qed.

Lemma presentation_only_observe (o e : nat) (w : world) :
  presentation_only w (Dom.observe o e w).
Proof.
  unfold Dom.observe. destruct (existsb _ _); [apply presentation_only_refl|].
  apply presentation_only_same_dom;
    [reflexivity|reflexivity|simpl; lia|apply console_same; reflexivity].
Qed.

Lemma presentation_only_fold_left {A} (f : world -> A -> world) (l : list A) (w : world) :
  (forall w a, presentation_only w (f w a)) -> presentation_only w (fold_left f l w).
Proof.
  intros H. revert w. induction l as [|a l IH]; intros w; simpl;
    [apply presentation_only_refl|].
  eapply presentation_only_trans; [apply H|apply IH].
Qed.

Lemma presentation_only_foldi {A} (f : world -> A -> nat -> world) (l : list A) (i : nat)
    (w : world) :
  (forall w a i, presentation_only w (f w a i)) -> presentation_only w (foldi f i l w).
Proof.
  intros H. revert i w. induction l as [|a l IH]; intros i w; simpl;
    [apply presentation_only_refl|].
  eapply presentation_only_trans; [apply H|apply IH].
Qed.

(** [textContent = s] detaches the children and puts text in their
    place: every element is still there, as it was. *)
Lemma presentation_only_set_textContent (e : nat) (s : string) (w : world) :
  presentation_only w (Dom.set_textContent e s w).
Proof.
  unfold Dom.set_textContent.
  destruct (Dom.find_elem e w) as [[d0 old|t]|] eqn:E; try apply presentation_only_refl.
  split; [simpl; lia|]. split; [|apply console_same; reflexivity].
  intros d' H. right. exists d'. split; [|apply same_element_refl].
  assert (Htext : forall x, ~ In x (flat_map elems (Dom.text_nodes s))).
  { intros x. unfold Dom.text_nodes. destruct (String.eqb s ""); simpl; tauto. }
  unfold all_elems, Dom.trees in *. simpl in H.
  apply in_app_or in H as [H|H].
  - apply elems_set_kids in H as [H|H]; [|destruct (Htext _ H)].
    simpl. apply in_or_app. left. exact H.
  - rewrite flat_map_app in H. apply in_app_or in H as [H|H].
    + apply in_flat_map in H as (t' & Ht' & Hd).
      apply in_map_iff in Ht' as (t & <- & Ht).
      apply elems_set_kids in Hd as [Hd|Hd]; [|destruct (Htext _ Hd)].
      simpl. apply in_or_app. right. apply in_flat_map. exists t. auto.
    + apply (elems_find_elem e w (Elem d0 old) d' E). simpl. right. exact H.
Qed.

(** [outerHTML = html] puts parsed elements, with identities of their
    own, in the place of the element, which is detached as it was. *)
Lemma presentation_only_set_outerHTML (ev : env) (e : nat) (html : string) (w : world) :
  presentation_only w (world_of (Dom.set_outerHTML ev e html w)).
Proof.
  unfold Dom.set_outerHTML.
  destruct (Dom.ancestors e w) as [[|a l]|]; try apply presentation_only_refl.
  { destruct (ancestors_in e (doc w)) as [[|a l]|]; apply presentation_only_refl. }
  simpl. unfold Dom.replace_with.
  set (frag := relabel_all (next_ref w) (parseHTML ev html)).
  assert (Hn : next_ref w <= snd frag).
  { unfold frag, relabel_all.
    destruct (relabel_fold (next_ref w) (parseHTML ev html) ([], next_ref w)) as [H _];
      [|simpl; lia|simpl; tauto|exact H].
    apply Forall_forall. intros k _ m. apply relabel_fresh. }
  split; [exact Hn|]. split; [|apply console_same; reflexivity].
  intros d' H.
  assert (Hfrag : In d' (flat_map elems (fst frag)) -> next_ref w <= e_id d').
  { apply relabel_all_elems. }
  unfold all_elems, Dom.trees in *. simpl in H.
  apply in_app_or in H as [H|H].
  - apply elems_replace_child in H as [H|H]; [|auto].
    right. exists d'. split; [|apply same_element_refl]. simpl. apply in_or_app. auto.
  - rewrite flat_map_app in H. apply in_app_or in H as [H|H].
    + apply in_flat_map in H as (t' & Ht' & Hd).
      apply in_map_iff in Ht' as (t & <- & Ht).
      apply elems_replace_child in Hd as [Hd|Hd]; [|auto].
      right. exists d'. split; [|apply same_element_refl].
      simpl. apply in_or_app. right. apply in_flat_map. exists t. auto.
    + right. exists d'. split; [|apply same_element_refl].
      destruct (Dom.find_elem e w) as [n|] eqn:E; simpl in H; [|destruct H].
      rewrite app_nil_r in H. apply (elems_find_elem e w n d' E H).
Qed.

Lemma presentation_only_console_error (msg err : string) (w : world) :
  presentation_only w (Dom.console_error msg err w).
Proof.
  apply presentation_only_same_dom; [reflexivity|reflexivity|simpl; lia|].
  eexists. reflexivity.
Qed.

Lemma presentation_only_onScroll (h : option nat) (ev : env) (w : world) :
  presentation_only w (MainJs.onScroll h ev w).
Proof.
  destruct h as [h|]; simpl; [|apply presentation_only_refl].
  destruct (Js.gt _ _);
    [apply presentation_only_classList_add|apply presentation_only_classList_remove].
Qed.

Lemma presentation_only_updateCondensedState (h : option nat) (ev : env) (w : world) :
  presentation_only w (Part000.updateCondensedState h ev w).
Proof.
  destruct h as [h|]; simpl;
    [apply presentation_only_classList_toggle|apply presentation_only_refl].
Qed.

Lemma presentation_only_main_initHeaderBehaviors (ev : env) (w : world) :
  presentation_only w (MainJs.initHeaderBehaviors ev w).
Proof.
  unfold MainJs.initHeaderBehaviors, fresh. cbv beta iota zeta.
  set (w1 := MainJs.onScroll _ ev _).
  assert (H1 : presentation_only w w1).
  { eapply presentation_only_trans; [|apply presentation_only_onScroll].
    eapply presentation_only_trans; [|apply presentation_only_on].
    apply (presentation_only_fresh w). }
  destruct (Dom.querySelector (Simple (Attr "data-mobile-btn")) w) as [b|]; [|exact H1].
  destruct (Dom.querySelector (Simple (Attr "data-mobile-menu")) w) as [m|]; [|exact H1].
  eapply presentation_only_trans; [exact H1|].
  eapply presentation_only_trans; [|apply presentation_only_on].
  apply (presentation_only_fresh w1).
Qed.

Lemma presentation_only_part000_initHeaderBehaviors (ev : env) (w : world) :
  presentation_only w (Part000.initHeaderBehaviors ev w).
Proof.
  unfold Part000.initHeaderBehaviors, fresh. cbv beta iota zeta.
  set (w1 := Part000.updateCondensedState _ ev _).
  assert (H1 : presentation_only w w1).
  { eapply presentation_only_trans; [|apply presentation_only_updateCondensedState].
    eapply presentation_only_trans; [|apply presentation_only_on].
    apply (presentation_only_fresh w). }
  destruct (Dom.querySelector (Simple (Attr "data-mobile-btn")) w) as [b|]; [|exact H1].
  destruct (Dom.querySelector (Simple (Attr "data-mobile-menu")) w) as [m|]; [|exact H1].
  eapply presentation_only_trans; [exact H1|].
  eapply presentation_only_trans; [|apply presentation_only_on].
  set (w2 := Shared.on (Element b) "click" _ None _).
  set (w3 := fold_left _ _ w2).
  assert (H2 : presentation_only w1 w2).
  { eapply presentation_only_trans; [|apply presentation_only_on].
    apply (presentation_only_fresh w1). }
  assert (H3 : presentation_only w2 w3).
  { apply presentation_only_fold_left. intros w' link.
    eapply presentation_only_trans; [|apply presentation_only_on].
    apply (presentation_only_fresh w'). }
  eapply presentation_only_trans; [exact H2|].
  eapply presentation_only_trans; [exact H3|].
  apply (presentation_only_fresh w3).
Qed.

Lemma presentation_only_markActiveNav (ev : env) (w : world) :
  presentation_only w (Part000.markActiveNav ev w).
Proof.
  unfold Part000.markActiveNav.
  destruct (Dom.querySelector _ w) as [h|]; [|apply presentation_only_refl].
  cbv zeta. apply presentation_only_fold_left. intros w' link.
  destruct (_ || _);
    [apply presentation_only_classList_add|apply presentation_only_classList_remove].
Qed.

Lemma presentation_only_headerAfter (c : copy) (ev : env) (w : world) :
  presentation_only w (headerAfter_of c ev w).
Proof.
  destruct c; simpl; [apply presentation_only_main_initHeaderBehaviors| |];
    (eapply presentation_only_trans;
       [apply presentation_only_part000_initHeaderBehaviors
       |apply presentation_only_markActiveNav]).
Qed.

Lemma presentation_only_bootInlineHeader (c : copy) (ev : env) (w : world) :
  presentation_only w (bootInlineHeaderIfPresent_of c ev w).
Proof.
  destruct c; simpl;
    unfold MainJs.bootInlineHeaderIfPresent, Part001.bootInlineHeaderIfPresent,
      Part000.bootInlineHeaderIfPresent;
    (destruct (Dom.querySelector _ w); [|apply presentation_only_refl]).
  - apply (presentation_only_headerAfter MainCopy).
  - apply (presentation_only_headerAfter Part000Copy).
  - apply (presentation_only_headerAfter Part000Copy).
Qed.

Lemma presentation_only_initFooterYear (ev : env) (w : world) :
  presentation_only w (Shared.initFooterYear ev w).
Proof.
  apply presentation_only_fold_left. intros w' span.
  apply presentation_only_set_textContent.
Qed.

Lemma presentation_only_bootInlineFooter (ev : env) (w : world) :
  presentation_only w (Shared.bootInlineFooterIfPresent ev w).
Proof.
  unfold Shared.bootInlineFooterIfPresent.
  destruct (Dom.querySelector _ w);
    [apply presentation_only_initFooterYear|apply presentation_only_refl].
Qed.

Lemma presentation_only_initFloatingLabels (w : world) :
  presentation_only w (MainJs.initFloatingLabels w).
Proof.
  apply presentation_only_fold_left. intros w' wrap.
  destruct (Dom.elem_querySelector wrap _ w') as [input|]; [|apply presentation_only_refl].
  destruct (Dom.elem_querySelector wrap _ w') as [label|]; [|apply presentation_only_refl].
  unfold fresh. cbv beta iota zeta.
  eapply presentation_only_trans.
  2:{ unfold MainJs.floatToggle. destruct (negb _);
        [apply presentation_only_classList_add|apply presentation_only_classList_remove]. }
  eapply presentation_only_trans; [|apply presentation_only_on].
  eapply presentation_only_trans; [|apply presentation_only_on].
  apply (presentation_only_fresh w').
Qed.

Lemma presentation_only_new_observer (w : world) (o : nat) :
  presentation_only w
    (with_observers (<[o := []]> (observers w)) (with_next_ref (S (next_ref w)) w)).
Proof.
  apply presentation_only_same_dom;
    [reflexivity|reflexivity|simpl; lia|apply console_same; reflexivity].
Qed.

Lemma presentation_only_with_win (g : gmap string Js.value) (w : world) :
  presentation_only w (with_win g w).
Proof.
  apply presentation_only_same_dom;
    [reflexivity|reflexivity|simpl; lia|apply console_same; reflexivity].
Qed.

Lemma presentation_only_requestAnimationFrame (cb : frame_cb) (w : world) :
  presentation_only w (Dom.requestAnimationFrame cb w).
Proof.
  apply presentation_only_same_dom;
    [reflexivity|reflexivity|simpl; lia|apply console_same; reflexivity].
Qed.

Lemma presentation_only_initRevealOnScroll (c : copy) (ev : env) (w : world) :
  presentation_only w (initRevealOnScroll_of c ev w).
Proof.
  destruct (reveal_initialised w) eqn:Hi.
  { rewrite init_initialised by exact Hi. apply presentation_only_refl. }
  destruct c; cbn [initRevealOnScroll_of].
  - rewrite (main_init_eq w Hi). cbv zeta.
    eapply presentation_only_trans; [|apply presentation_only_with_win].
    eapply presentation_only_trans; [apply (presentation_only_new_observer w)|].
    apply presentation_only_fold_left. intros w' el.
    eapply presentation_only_trans; [|apply presentation_only_observe].
    apply presentation_only_classList_add.
  - rewrite (part000_init_eq ev w Hi).
    destruct (Dom.querySelectorAll _ w) as [|e0 els]; [apply presentation_only_refl|].
    destruct (reduced_motion ev).
    + apply presentation_only_fold_left. intros. apply presentation_only_classList_add.
    + cbv zeta. eapply presentation_only_trans; [|apply presentation_only_with_win].
      eapply presentation_only_trans; [apply (presentation_only_new_observer w)|].
      apply presentation_only_foldi. intros w' el i.
      eapply presentation_only_trans; [|apply presentation_only_observe].
      destruct (Part000.reveal_delay el i w');
        [apply presentation_only_refl|apply presentation_only_refl
        |apply presentation_only_style_set].
  - rewrite (part001_init_eq ev w Hi).
    destruct (Dom.querySelectorAll _ w) as [|e0 els]; [apply presentation_only_refl|].
    destruct (reduced_motion ev).
    + apply presentation_only_fold_left. intros. apply presentation_only_classList_add.
    + cbv zeta. eapply presentation_only_trans; [|apply presentation_only_with_win].
      eapply presentation_only_trans; [|apply presentation_only_requestAnimationFrame].
      set (wd := part001_delays _ w).
      assert (Hd : presentation_only w wd).
      { unfold wd, part001_delays. apply presentation_only_fold_left. intros w' g.
        apply presentation_only_foldi. intros. apply presentation_only_style_set. }
      eapply presentation_only_trans; [exact Hd|].
      eapply presentation_only_trans; [apply (presentation_only_new_observer wd)|].
      apply presentation_only_fold_left. intros. apply presentation_only_observe.
Qed.

Lemma presentation_only_injectPartial_chain (outlet : nat) (url : string) (after : callback)
    (ev : env) (fo : fetched) (w : world) :
  (forall f ev w, after = Some f -> presentation_only w (world_of (f ev w))) ->
  presentation_only w (snd (Shared.injectPartial_chain outlet url after ev fo w)).
Proof.
  intros Hafter. rewrite injectPartial_chain_eq. cbv zeta.
  destruct fo as [err|res]; [apply presentation_only_console_error|].
  destruct (r_ok res); [|apply presentation_only_console_error].
  destruct (r_text res) as [html|err]; [|apply presentation_only_console_error].
  pose proof (presentation_only_set_outerHTML ev outlet html w) as Hset.
  destruct (Dom.set_outerHTML ev outlet html w) as [w1|err w1]; simpl in Hset.
  2:{ simpl. eapply presentation_only_trans; [exact Hset|].
      apply presentation_only_console_error. }
  destruct after as [f|]; [|exact Hset].
  pose proof (Hafter f ev w1 eq_refl) as Hf.
  destruct (f ev w1) as [w2|err w2]; simpl in *.
  - eapply presentation_only_trans; eassumption.
  - eapply presentation_only_trans; [exact Hset|].
    eapply presentation_only_trans; [exact Hf|]. apply presentation_only_console_error.
Qed.

Lemma presentation_only_then_inject (sel : selector) (url : string)
    (after inline : env -> world -> world) (w0 : world) (ev : env) (fo : fetched)
    (w : world) :
  (forall ev w, presentation_only w (after ev w)) ->
  (forall ev w, presentation_only w (inline ev w)) ->
  presentation_only w
    (run_job
       (then_do (Shared.injectPartial sel url (Some (fun ev w => Return (after ev w))) w0)
          (fun injected ev w => if negb injected then inline ev w else w))
       ev fo w).
Proof.
  intros Hafter Hinline. unfold Shared.injectPartial.
  destruct (Dom.querySelector sel w0) as [outlet|]; simpl; [|apply Hinline].
  pose proof (presentation_only_injectPartial_chain outlet url
                (Some (fun ev w => Return (after ev w))) ev fo w) as H.
  assert (Hw1 : presentation_only w
                  (snd (Shared.injectPartial_chain outlet url
                          (Some (fun ev w => Return (after ev w))) ev fo w))).
  { apply H. intros f ev' w' [= <-]. apply Hafter. }
  destruct (Shared.injectPartial_chain outlet url _ ev fo w) as [[b|err] w1]; simpl in *;
    [|exact Hw1].
  destruct b; simpl; [exact Hw1|].
  eapply presentation_only_trans; [exact Hw1|apply Hinline].
Qed.

Lemma presentation_only_settle (after inline : env -> world -> world) (w0 : world)
    (header_first : bool) (ev_h : env) (fo_h : fetched) (ev_f : env) (fo_f : fetched)
    (w : world) :
  (forall ev w, presentation_only w (after ev w)) ->
  (forall ev w, presentation_only w (inline ev w)) ->
  presentation_only w
    (Shared.settle (Shared.injectHeaderAndFooter after inline w0) header_first
       ev_h fo_h ev_f fo_f w).
Proof.
  intros Hafter Hinline. unfold Shared.settle, Shared.injectHeaderAndFooter. simpl.
  destruct (Shared.header_goes_first _ _ header_first).
  - eapply presentation_only_trans.
    2:{ apply presentation_only_then_inject; intros;
          [apply presentation_only_initFooterYear|apply presentation_only_bootInlineFooter]. }
    apply presentation_only_then_inject; assumption.
  - eapply presentation_only_trans.
    2:{ apply presentation_only_then_inject; assumption. }
    apply presentation_only_then_inject; intros;
      [apply presentation_only_initFooterYear|apply presentation_only_bootInlineFooter].
Qed.

(** The whole boot sequence, whatever the network does. *)
Lemma presentation_only_boot (c : copy) (header_first : bool) (ev ev_h : env)
    (fo_h : fetched) (ev_f : env) (fo_f : fetched) (w : world) :
  presentation_only w (boot_complete_of c header_first ev ev_h fo_h ev_f fo_f w).
Proof.
  destruct c; simpl.
  - unfold MainJs.boot_complete, MainJs.boot. simpl.
    eapply presentation_only_trans.
    2:{ apply presentation_only_settle; intros;
          [apply (presentation_only_headerAfter MainCopy)
          |apply (presentation_only_bootInlineHeader MainCopy)]. }
    eapply presentation_only_trans; [|apply presentation_only_initFloatingLabels].
    apply (presentation_only_initRevealOnScroll MainCopy ev).
  - unfold Part000.boot_complete, Part000.boot. simpl.
    eapply presentation_only_trans.
    2:{ apply presentation_only_settle; intros;
          [apply (presentation_only_headerAfter Part000Copy)
          |apply (presentation_only_bootInlineHeader Part000Copy)]. }
    apply (presentation_only_initRevealOnScroll Part000Copy ev).
  - unfold Part001.boot_complete, Part001.script, Part001.boot. simpl.
    eapply presentation_only_trans.
    2:{ apply presentation_only_settle; intros;
          [apply (presentation_only_headerAfter Part001Copy)
          |apply (presentation_only_bootInlineHeader Part001Copy)]. }
    eapply presentation_only_trans;
      apply (presentation_only_initRevealOnScroll Part001Copy ev).
Qed.

(** C7 (amended).  Of the elements of the page the boot sequence writes
    only classes, styles and children (the text of the [js-year] elements
    and the markup put in the place of the placeholders): every element
    after the boot sequence is an element of before with the identity,
    tag, attributes and value it had, or an element made from fetched
    markup.  Outside the page, besides what it registers with the browser
    (listeners, observer, frame callbacks), the boot sequence stores one
    thing, the property [__revealObserver] of [window], and writes no
    other property of [window]; the console only gains lines.  All this
    whatever the network does. *)
Theorem boot_writes_one_global (c : copy) (header_first : bool) (ev ev_h : env)
    (fo_h : fetched) (ev_f : env) (fo_f : fetched) (w : world) :
  let w' := boot_complete_of c header_first ev ev_h fo_h ev_f fo_f w in
  (forall k, k <> "__revealObserver" -> win w' !! k = win w !! k)
  /\ (forall d', In d' (all_elems w') ->
        next_ref w <= e_id d'
        \/ exists d, In d (all_elems w) /\ e_id d' = e_id d /\ e_tag d' = e_tag d
                     /\ e_attrs d' = e_attrs d /\ e_value d' = e_value d)
  /\ (exists lines, console w' = console w ++ lines).
Proof.
  intros w'. split; [|apply (presentation_only_boot c)].
  intros k Hk. apply win_boot; exact Hk.
Qed.

Lemma boot_writes_one_global_witness :
  win (boot_complete_of Part001Copy true Sample.home Sample.home (NetworkError "offline")
         Sample.home (Sample.ok_response "<footer></footer>")
         (with_win (<["dataLayer" := Js.Obj 7]> empty) Sample.start)) !! "dataLayer"
  = Some (Js.Obj 7).
Proof.
  rewrite (proj1 (boot_writes_one_global Part001Copy true Sample.home Sample.home
                    (NetworkError "offline") Sample.home
                    (Sample.ok_response "<footer></footer>")
                    (with_win (<["dataLayer" := Js.Obj 7]> empty) Sample.start))
             "dataLayer").
  - vm_compute. reflexivity.
  - discriminate.
Defined.

(** What the boot sequence of main.js leaves of the sample page, which
    has no placeholder for the header: when the footer arrives, the
    elements of the page but the footer placeholder, with their
    attributes, and the two elements of the footer markup; when the
    request for the footer fails, the elements of the page and one line of
    the console. *)
Lemma boot_on_sample :
  let w1 := boot_complete_of MainCopy true Sample.home Sample.home (NetworkError "offline")
              Sample.home (Sample.ok_response "<footer></footer>") Sample.start in
  let w2 := boot_complete_of MainCopy true Sample.home Sample.home (NetworkError "offline")
              Sample.home (NetworkError "offline") Sample.start in
  map e_id (all_elems Sample.start) = [0; 1; 2; 3; 4; 5; 6; 7; 8; 9; 10]
  /\ map e_id (all_elems w1) = [0; 1; 2; 3; 4; 5; 6; 7; 8; 103; 104; 9; 10]
  /\ map (fun d => map_to_list (e_attrs d)) (firstn 9 (all_elems w1))
     = map (fun d => map_to_list (e_attrs d)) (firstn 9 (all_elems Sample.start))
  /\ console w1 = []
  /\ map e_id (all_elems w2) = [0; 1; 2; 3; 4; 5; 6; 7; 8; 9; 10]
  /\ map (fun d => map_to_list (e_attrs d)) (all_elems w2)
     = map (fun d => map_to_list (e_attrs d)) (all_elems Sample.start)
  /\ List.length (console w2) = 1.
Proof. vm_compute. repeat split; reflexivity. Qed.
